(* ===== verification/_CoqProject ===== *)
-Q . S2P
Prelude.v
PyStr.v
PyDict.v
Csv.v
Keccak.v
Sha256.v
Abi.v
BatchTree.v
ClaimTree.v
Bech32.v
Address.v
Amount.v
Recipients.v
RunDir.v
Json.v
SafeTx.v
SafeBatch.v
VaultBatch.v
VaultBuild.v
Status.v
SelectBatch.v
Eligibility.v
VaultShares.v
ClaimLedger.v
Wone.v
BridgeLib.v
BridgeAlloc.v
BridgeVerify.v
ReleasePlan.v
ReleaseGroups.v
SendCalldata.v
Package.v
Quarantine.v
BuildClaims.v
ClaimsRun.v
