(* ===== verification/Prelude.v ===== *)
(** Verification of the Harmony migration accounting tools.

    * The program

    The repository computes who is owed what when the Harmony chain is migrated
    and pays it out.  It has three parts, all Python scripts over CSV and JSON
    files:
    - [toolkit/scripts]: the accounting.  A supply ledger of every account is
      turned into a claim ledger ([claims/migration-claim-csvs.py]), wrapped ONE
      is added to it ([claims/apply-wone-qualification.py]), the ledger is cut at
      a threshold ([claims/filter-claims-by-one.py]), the rows above it are sorted
      into automatic payments, contract review and exclusions
      ([claims/apply-eligibility-policy.py]), and the staked part of every claim
      is assigned to validator vaults ([claims/build-vault-share-allocation.py]).
      Each script reads the files the one before it wrote and checks them again.
    - [airdrop/tools]: the payment.  A recipient list is read and consolidated, a
      batch is selected from it, cut into batches and committed to in a Merkle
      tree ([common.py], [build.py], [select_batch.py]); [verify.py], [status.py]
      and [reconcile.py] check the run directory and the contract.  A list may
      also be paid from a Safe, by MultiSend batches of token transfers
      ([safe_batch.py]) or of deposits into validator vaults ([vault_batch.py]).
    - [bridge-claims/tools]: the bridge claims.  The claim lists of the accounting
      become one claim contract per chain and funder, each a list with its Merkle
      tree and deployment ([claim_tree.py], [build_claims.py]), in which payees
      are looked up ([proof.py]) and which later tools bind to
      ([claims_run.py]); the plan of the calls that release a bridge's locked tokens to a custody Safe
      ([release_plan.py]), the tool a key holder sends them with
      ([send_calldata.py]), and the signable packages of a run, their record and
      their quarantine ([package.py], [quarantine.py]).
    All of it rests on keccak-256, addresses, amounts and the ABI encoding.

    * The files

    - [Prelude]: text, exceptions as values of [result], loops ([foldM] with its
      rule [foldM_inv]), sums, chunks, byte order; the tactics [inv_ok], [zbool].
    - [PyStr]: Python text and integers: strip, partition, [int()], [str()], hex,
      byte order, increasing keys.  [PyDict]: dictionaries that keep insertion
      order, sorting, counters.  [Csv]: the csv module, [DictReader] rows.
    - [Keccak]: [_keccak_f], [keccak256] of airdrop/tools/common.py, which
      contract_review_lib.py carries too, against FIPS 202.  [Sha256]: hashlib's.
    - [Abi]: words, batch and row encodings, call data, CREATE2, runtime code of
      common.py ([Module Airdrop]) and claim_tree.py ([Module Claims]).
    - [BatchTree]: the airdrop tree.  [ClaimTree]: the claim tree, serial and
      pooled, and its file.
    - [Bech32], [Address]: one1 and 0x addresses of both libraries.
    - [Amount]: [parse_amount] over Python's [Decimal], [format_one].
    - [Recipients]: [read_rows], portal review, [consolidate], [chunk].
    - [RunDir]: build.py's run directory and verify.py.  [Status]: status.py and
      reconcile.py against a node given as a function.  [SelectBatch]:
      select_batch.py with its strategies and random draw.
    - [Json]: JSON values, their text and comparison.  [SafeTx]: Safe transactions
      and MultiSend data of safe_batch.py, encoded, hashed and decoded.
      [SafeBatch]: its build and verify commands.  [VaultBatch]: vault_batch.py's
      vault addresses, calls, gas plan and decoder.  [VaultBuild]: its build
      command from the deposit list to the transactions, with --skip-funded.
    - [ClaimLedger]: migration-claim-csvs.py.  [Wone]:
      apply-wone-qualification.py.  [Eligibility]: filter-claims-by-one.py
      ([Module FilterClaims]) and apply-eligibility-policy.py ([Module Policy]).
      [VaultShares]: build-vault-share-allocation.py.
    - [BridgeLib], [BridgeAlloc]: toolkit/scripts/bridge/bridge_lib.py and
      build-bridge-allocations.py, which shares each bridge pool's collateral
      among the token's holders and writes the lists [ClaimTree] commits to.
      [BridgeVerify]: verify-bridge-allocations.py, which checks what it wrote.
    - [BuildClaims]: build_claims.py from the claim lists to the contract directories,
      and proof.py's lookup in them.  [ClaimsRun]: claims_run.py's binding of a run
      to its summary, manifests, files and published index, and the roster.
    - [ReleasePlan]: release_plan.py's reads of an escrow, its release calls and
      their decoder, over contracts given by the class [EscrowChain] with laws
      [Documented].  [ReleaseGroups]: its custody checks, owner setup (class
      [SafeOwners]), ONE funding and batches.  [SendCalldata]: send_calldata.py as
      steps over the log file and the chain, over the class [Wallet] with laws
      [WalletDocumented].  [Package]: package.py over a directory of files where
      every effect may fail or be the last.  [Quarantine]: quarantine.py over the
      same state, with a logic of assertions that has a crash condition.

    In each file the section or module of definitions comes first, one definition
    per function of the source under the source's name, the loop body of a
    [main] being a step function over a record of the loop's variables; then the
    lemmas, the theorems and the witnesses that run them on concrete inputs.

    * What the theorems show

    - Primitives: the keccak program is Keccak-f bit for bit and its hash the
      padded sponge; addresses and amounts survive their spellings; a one1
      address with a wrong character is refused; encodings are injective.
    - Commitments: every written proof verifies, and a proof that verifies shows
      membership or exhibits a keccak collision, for batches and claim rows; the
      pooled tree equals the serial one and survives its file.
    - Payment: reading loses no row, consolidation and selection conserve every
      amount, what build.py writes verify.py accepts, an accepted run directory
      is sound, status and reconciliation say what the chain says.
    - Safe batches: what the build command writes the verify command accepts, and
      what it accepts pays the list; a Safe transaction hash binds every field;
      transactions that decode without a problem are byte for byte the transfers
      or deposits listed; decoding ends and re-encodes; a funding plan pays every
      deposit once within its gas target, and after part of it was sent a second
      build plans exactly the rest.
    - Accounting: the merge loop of the claim ledger terminates and is a join;
      its totals are column sums; the WONE overlay pays every entitled holder and
      closes; the threshold filter and the eligibility policy partition the rows;
      the vault deposits conserve every staked claim; checks made after output
      has been written cannot fail.
    - Bridge: log queries are complete however they are split, the deployment
      search finds the first block with code, OFT payloads decode to what was
      sent; every pool's collateral is claimable, held or retained, never
      overdrawn, with bounded rounding loss; claimable rows are justified; the
      claim lists pay exactly them; a directory the verifier passes conserves
      every listed pool and pays exactly its claimable rows.
    - Claim contracts: in a directory as it was built every payee finds exactly its
      rows, each with a proof that verifies; the contracts of a chain pay exactly
      what the pools have claimable, and their approvals cover it; a run as it is
      built binds, and a contract that binds has the committed list and tree.
    - Release: the planned calls of an escrow go through, pay its locked balance
      and restore its settings; part of them makes a second plan stop; decoding
      gives the plan back; the custody Safe ends with the roster's owners; every
      escrow is in one batch.  However runs of the sender are stopped and mixed
      with other wallet actions, a completed one has sent the planned calls once
      and in order, and one that is accepted completes.
    - Packages: a refresh publishes what was built; stopped or failing it leaves
      none of its targets current; a current package holds exactly the sealed
      files or SHA-256 collides.  A quarantine moves all or nothing or is
      interrupted, and an interrupted one recovers however often it is stopped.
    - Findings: [parse_amount] rounds long amounts, [bech32_to_hex] accepts other
      prefixes, a ledger with an account under two keys is paid WONE twice, the
      bridge verifier skips rows of unlisted pools and counts the collateral of
      pools locked in other tokens differently from the builder; the owner setup
      does not keep the roster's order ([owner_setup_order]), escrows may take
      eight calls where the instructions say ten ([release_calls_length]), a run
      stopped before its first log write sends the first transaction twice
      ([first_transaction_repeated]); when a write of the run record fails late, a
      refresh that raised can leave its target listed ([failed_commit_lists]) and
      a quarantine loses the journal it needs ([late_record_failure_strands]); an
      included file can be overwritten by the quarantine's note
      ([included_note_lost]).

    * Modelling decisions and bounds

    - A Python [int] is [Z]; machine widths appear where the code imposes them
      (64-bit lanes with their mask, uint96 amounts, uint256 words).  Python's
      limit of 4300 digits for [int()] is not modelled.
    - Text is ASCII.  A file is its text; CSV files are rectangular (every record
      has the header's length) and csv's field size limit is not modelled.  JSON
      files are the records they decode to.  A script returns what it writes;
      partial files, [fsync] and replacing are left out, so "success" means that
      every file is in place and failure that none is.  [SendCalldata], [Package]
      and [Quarantine] are the exception: there every effect on the disk is a
      step, and the program may stop between any two.
    - An exception is its class and the fixed part of its message.
    - Loops without a structural bound take fuel: [Keccak.pad_zeros] at most 136
      rounds, shown enough in [keccak256_is_sponge]; tree levels the number of
      leaves, shown enough in [tree_levels_terminate]; the merge of [ClaimLedger]
      one round per row, shown enough in [merge_is_join]; [SelectBatch]'s draw one
      round per candidate; [BridgeLib]'s log ranges one round per block and its
      binary search the bit length of the last block, shown enough in
      [logs_complete] and [deployment_block_first]; MultiSend data one round per
      byte, shown enough in [decode_multisend_total]; the search for a free name
      in [Package] one round more than there are files, shown enough in
      [free_name_Some]; digits of a number its bit length.  The budget of
      [SendCalldata] is not fuel but the number of effects before an interruption.
    - The node is a parameter of [Status] with no assumption, and of [BridgeLib]
      with what eth_getLogs and eth_getCode document: a list that is returned is
      the logs of the range, code is a function of the block.  [ReleasePlan],
      [ReleaseGroups] and [SendCalldata] assume of the contracts and the wallet
      what the laws of their classes state, each with an instance that runs.  No
      axiom is used.

    * Not modelled

    - Code that talks to services or prints: RPC clients, chain scanners, report
      writers, signing sheets and instructions; of safe_batch.py and
      vault_batch.py the commands that compare with the Safe service or the chain
      (show, diff, crosscheck, hash, reconcile) and vault_batch.py's output files
      and verify; of release_plan.py the reads of the Safe and the package it
      writes.  The facts the modelled code takes from them are inputs.
    - Symbolic links, locks and file modes of package.py and quarantine.py, and the
      text of the record and the journal.
    - The approval batches of the bridge claims (approve_claims.py but for its Safe
      identity checks and file names), which read the chain throughout.
    - In toolkit/scripts: the snapshot plan and holder classification of the
      bridge, the stage policy, routing, exchange accounting, contract review,
      the archive and census reports.  They are independent of the payment path
      shown here, which takes their output files as given.
    - The Go tools, the Solidity contracts and release packaging, which are other
      languages or builds. *)

From Stdlib Require Export ZArith Lia.
From Stdlib Require Ascii String.
From stdpp Require Export prelude list gmap strings sorting numbers.
Export list_basics.list list_relations.list list_monad.list list_misc.list list_tactics.list.
Export Stdlib.Strings.Ascii (ascii(..)).
Export (notations) Stdlib.Strings.Ascii.

#[global] Set Default Goal Selector "!".
Local Open Scope Z_scope.

(** * Text and bytes

    A Python [str] is a list of characters and a Python [bytes] value a list
    of integers in [0, 255]; string literals are usable as [str] values. *)

Abbreviation str := (list ascii).
Abbreviation bytes := (list Z).

Coercion Stdlib.Strings.String.list_ascii_of_string : string >-> list.

(** * Errors

    A raised exception is a value.  The interpolated parts of a message are
    not kept, only its class and the fixed text that identifies the raise. *)

Inductive exn :=
  | InputError (msg : string)
  | ValueError (msg : string)
  | ArgumentTypeError (msg : string)
  | KeyError (key : list ascii)
  | IndexError
  | TypeError (msg : string)
  | AttributeError (msg : string)
  | RuntimeError (msg : string)
  | RpcError (msg : string)
  | DecimalOverflow
  | OverflowError
  | ZeroDivisionError
  | FileExistsError
  | FileNotFoundError
  | SystemExit (msg : string).

Inductive result (A : Type) :=
  | Ok (a : A)
  | Raise (e : exn).
Arguments Ok {A} a.
Arguments Raise {A} e.

#[export] Instance result_ret : MRet result := @Ok.
#[export] Instance result_bind : MBind result := λ A B f m,
  match m with Ok a => f a | Raise e => Raise e end.
#[export] Instance result_fmap : FMap result := λ A B f m,
  match m with Ok a => Ok (f a) | Raise e => Raise e end.

Definition raise_if (b : bool) (e : exn) : result unit :=
  if b then Raise e else Ok ().

Definition of_option {A} (o : option A) (e : exn) : result A :=
  match o with Some a => Ok a | None => Raise e end.

Definition from_ok {A} (d : A) (m : result A) : A :=
  match m with Ok a => a | Raise _ => d end.

Definition is_ok {A} (m : result A) : bool :=
  match m with Ok _ => true | Raise _ => false end.

(** [for x in l: s = f(s, x)], stopping at the first exception. *)
Fixpoint foldM {St A} (f : St → A → result St) (s : St) (l : list A) : result St :=
  match l with
  | [] => Ok s
  | x :: l => s' ← f s x; foldM f s' l
  end.

(** * Lists of integers, ranges and slices *)

Definition zlen {A} (l : list A) : Z := Z.of_nat (length l).

Fixpoint zsum (l : list Z) : Z :=
  match l with [] => 0 | x :: l => x + zsum l end.

Definition zsum_with {A} (f : A → Z) (l : list A) : Z := zsum (f <$> l).

(** [l[i:j]] for [0 <= i]. *)
Definition slice {A} (l : list A) (i j : nat) : list A := take (j - i) (drop i l).

(** [range(0, n, k)] for [k > 0]. *)
Definition range_step (n k : nat) : list nat :=
  (λ j, j * k)%nat <$> seq 0 ((n + (k - 1)) / k).

(** [[l[i:i + k] for i in range(0, len(l), k)]]. *)
Definition chunks {A} (k : nat) (l : list A) : list (list A) :=
  (λ i, slice l i (i + k)) <$> range_step (length l) k.

(** [enumerate(l)]. *)
Definition enumerate {A} (l : list A) : list (Z * A) := imap (λ i x, (Z.of_nat i, x)) l.

(** * Lexicographic comparison, as Python compares [bytes] and [str] *)

Fixpoint bytes_compare (a b : bytes) : comparison :=
  match a, b with
  | [], [] => Eq
  | [], _ :: _ => Lt
  | _ :: _, [] => Gt
  | x :: a, y :: b =>
      match x ?= y with Eq => bytes_compare a b | c => c end
  end.

Definition bytes_ltb (a b : bytes) : bool :=
  match bytes_compare a b with Lt => true | _ => false end.

Definition bytes_leb (a b : bytes) : bool :=
  match bytes_compare a b with Gt => false | _ => true end.

Definition bytes_le (a b : bytes) : Prop := bytes_leb a b = true.

Definition bytes_ok (b : bytes) : Prop := Forall (λ x, 0 ≤ x < 256) b.

#[export] Instance bytes_ok_dec b : Decision (bytes_ok b).
Proof. unfold bytes_ok. apply _. Defined.

Lemma Ok_inj {A} (a b : A) : Ok a = Ok b → a = b.
Proof. by intros [=]. Qed.

Lemma Some_inj {A} (a b : A) : Some a = Some b → a = b.
Proof. by intros [=]. Qed.

(** * Tactics *)

(** Splits a hypothesis that says a monadic computation succeeded into the
    facts that each of its steps succeeded. *)
Ltac inv_ok_step :=
  match goal with
  | H : Raise _ = Ok _ |- _ => discriminate H
  | H : Ok _ = Raise _ |- _ => discriminate H
  | H : Ok _ = Ok _ |- _ => apply Ok_inj in H
  | H : mret _ = Ok _ |- _ => apply Ok_inj in H
  | H : Some _ = None |- _ => discriminate H
  | H : None = Some _ |- _ => discriminate H
  | H : Some _ = Some _ |- _ => apply Some_inj in H
  | H : mbind ?f ?m = Ok _ |- _ =>
      let E := fresh "E" in destruct m eqn:E; [cbn [mbind result_bind] in H | discriminate H]
  | H : fmap ?f ?m = Ok _ |- _ =>
      let E := fresh "E" in destruct m eqn:E; [cbn [fmap result_fmap] in H | discriminate H]
  | H : raise_if ?b ?e = Ok _ |- _ =>
      let E := fresh "E" in destruct b eqn:E; [discriminate H | clear H]
  | H : (if ?b then Raise _ else _) = Ok _ |- _ =>
      let E := fresh "E" in destruct b eqn:E; [discriminate H | ]
  | H : (if ?b then _ else Raise _) = Ok _ |- _ =>
      let E := fresh "E" in destruct b eqn:E; [ | discriminate H]
  | H : of_option ?o ?e = Ok _ |- _ =>
      let E := fresh "E" in destruct o eqn:E; [cbn [of_option] in H | discriminate H]
  | H : (match ?p with pair _ _ => _ end) = Ok _ |- _ => destruct p
  end.
Ltac inv_ok := repeat inv_ok_step.

(** Closes a decidable goal by running its decision procedure. *)
Ltac compute_decide := apply (bool_decide_eq_true_1 _); vm_compute; reflexivity.

Ltac zbool :=
  repeat match goal with
  | H : _ && _ = true |- _ => apply andb_prop in H; destruct H
  | H : _ || _ = false |- _ => apply orb_false_elim in H; destruct H
  | H : negb _ = true |- _ => apply negb_true_iff in H
  | H : negb _ = false |- _ => apply negb_false_iff in H
  | H : (_ <? _) = true |- _ => apply Z.ltb_lt in H
  | H : (_ <? _) = false |- _ => apply Z.ltb_ge in H
  | H : (_ <=? _) = true |- _ => apply Z.leb_le in H
  | H : (_ <=? _) = false |- _ => apply Z.leb_gt in H
  | H : (_ =? _) = true |- _ => apply Z.eqb_eq in H
  | H : (_ =? _) = false |- _ => apply Z.eqb_neq in H
  | H : bool_decide _ = true |- _ => apply bool_decide_eq_true_1 in H
  | H : bool_decide _ = false |- _ => apply bool_decide_eq_false_1 in H
  end.

(** * Lemmas *)

Lemma bind_Ok_inv {A B} (f : A → result B) (m : result A) b :
  m ≫= f = Ok b → ∃ a, m = Ok a ∧ f a = Ok b.
Proof. destruct m; [eauto | discriminate]. Qed.

Lemma foldM_app {St A} (f : St → A → result St) s l1 l2 :
  foldM f s (l1 ++ l2) = (s' ← foldM f s l1; foldM f s' l2).
Proof.
  revert s. induction l1 as [|x l1 IH]; intros s; [done|]. simpl.
  destruct (f s x); simpl; [apply IH | done].
Qed.

(** Rule induction for a loop that succeeded: the invariant relates the
    consumed prefix to the state. *)
Lemma foldM_inv {St A} (I : list A → St → Prop) (f : St → A → result St) s0 l s1 :
  I [] s0 →
  (∀ pre x s s', I pre s → f s x = Ok s' → I (pre ++ [x]) s') →
  foldM f s0 l = Ok s1 → I l s1.
Proof.
  intros H0 Hs. rewrite <- (app_nil_l l) at 2.
  generalize (@nil A) as pre, H0. clear H0. revert s0.
  induction l as [|x l IH]; intros s0 pre H0 Hf; simpl in Hf; inv_ok.
  - subst. by rewrite app_nil_r.
  - replace (pre ++ x :: l) with ((pre ++ [x]) ++ l) by by rewrite <- app_assoc.
    eapply IH; eauto.
Qed.

Lemma zsum_app l1 l2 : zsum (l1 ++ l2) = zsum l1 + zsum l2.
Proof. induction l1; simpl; lia. Qed.

Lemma zsum_with_app {A} (f : A → Z) l1 l2 :
  zsum_with f (l1 ++ l2) = zsum_with f l1 + zsum_with f l2.
Proof. unfold zsum_with. by rewrite fmap_app, zsum_app. Qed.

Lemma zsum_with_cons {A} (f : A → Z) x l : zsum_with f (x :: l) = f x + zsum_with f l.
Proof. done. Qed.

Lemma zsum_with_snoc {A} (f : A → Z) l x : zsum_with f (l ++ [x]) = zsum_with f l + f x.
Proof. rewrite zsum_with_app. unfold zsum_with. simpl. lia. Qed.

#[export] Instance zsum_proper : Proper ((≡ₚ) ==> (=)) zsum.
Proof. induction 1; simpl; lia. Qed.

#[export] Instance zsum_with_proper {A} (f : A → Z) : Proper ((≡ₚ) ==> (=)) (zsum_with f).
Proof. intros l1 l2 H. unfold zsum_with. by rewrite H. Qed.

Lemma zsum_with_nonneg {A} (f : A → Z) l :
  Forall (λ x, 0 ≤ f x) l → 0 ≤ zsum_with f l.
Proof. induction 1; [done|]. rewrite zsum_with_cons. lia. Qed.

Lemma zsum_with_ext {A} (f g : A → Z) l :
  Forall (λ x, f x = g x) l → zsum_with f l = zsum_with g l.
Proof. induction 1; [done|]. rewrite !zsum_with_cons. lia. Qed.

Lemma zsum_with_le {A} (f g : A → Z) l :
  Forall (λ x, f x ≤ g x) l → zsum_with f l ≤ zsum_with g l.
Proof. induction 1; [done|]. rewrite !zsum_with_cons. lia. Qed.

Lemma zsum_with_add {A} (f g : A → Z) l :
  zsum_with (λ x, f x + g x) l = zsum_with f l + zsum_with g l.
Proof. induction l; [done|]. rewrite !zsum_with_cons. lia. Qed.

Lemma zsum_concat ls : zsum (concat ls) = zsum (zsum <$> ls).
Proof. induction ls as [|l ls IH]; [done|]. cbn [concat fmap list_fmap zsum]. by rewrite zsum_app, IH. Qed.

Lemma zsum_with_concat {A} (f : A → Z) ls :
  zsum_with f (concat ls) = zsum (zsum_with f <$> ls).
Proof.
  induction ls as [|l ls IH]; [done|]. cbn [concat fmap list_fmap zsum].
  by rewrite zsum_with_app, IH.
Qed.

Lemma slice_take_drop {A} (l : list A) i k : slice l i (i + k) = take k (drop i l).
Proof. unfold slice. f_equal. lia. Qed.

Lemma range_step_succ n k :
  (0 < k)%nat → (0 < n)%nat →
  range_step n k = 0%nat :: ((λ i, i + k)%nat <$> range_step (n - k) k).
Proof.
  intros Hk Hn. unfold range_step.
  assert ((n + (k - 1)) / k = S ((n - k + (k - 1)) / k))%nat as ->.
  { destruct (decide (n <= k)%nat).
    - replace (n - k)%nat with 0%nat by lia.
      rewrite (Nat.div_small (0 + (k - 1)) k) by lia.
      symmetry. apply (Nat.div_unique _ _ _ (n - 1)); lia.
    - replace (n + (k - 1))%nat with ((n - k + (k - 1)) + 1 * k)%nat by lia.
      rewrite Nat.div_add by lia. lia. }
  cbn [seq fmap list_fmap]. f_equal.
  rewrite <- fmap_S_seq, <- !list_fmap_compose.
  apply list_fmap_ext. intros i j _. simpl. lia.
Qed.

Lemma range_step_0 k : (0 < k)%nat → range_step 0 k = [].
Proof. intros. unfold range_step. by rewrite Nat.div_small by lia. Qed.

Lemma chunks_nil {A} k : (0 < k)%nat → chunks k (@nil A) = [].
Proof. intros. unfold chunks. simpl. by rewrite range_step_0. Qed.

Lemma chunks_step {A} k (l : list A) :
  (0 < k)%nat → l ≠ [] → chunks k l = take k l :: chunks k (drop k l).
Proof.
  intros Hk Hl. unfold chunks. rewrite range_step_succ; [|done|destruct l; [done|simpl; lia]].
  rewrite length_drop. cbn [fmap list_fmap]. f_equal.
  - unfold slice. by rewrite drop_0, Nat.add_0_l, Nat.sub_0_r.
  - rewrite <- list_fmap_compose. apply list_fmap_ext. intros i j _. simpl.
    rewrite !slice_take_drop, drop_drop. f_equal. f_equal. lia.
Qed.


(** Induction along the chunks of a list. *)
Lemma chunks_ind {A} k (P : list A → Prop) :
  (0 < k)%nat → P [] → (∀ l, l ≠ [] → P (drop k l) → P l) → ∀ l, P l.
Proof.
  intros Hk H0 Hs l. remember (length l) as n eqn:Hn.
  revert l Hn. induction (lt_wf n) as [n _ IH]. intros l ->.
  destruct l as [|x l]; [done|]. apply Hs; [done|].
  eapply IH; [|done]. rewrite length_drop. simpl. lia.
Qed.

Lemma concat_chunks {A} k (l : list A) : (0 < k)%nat → concat (chunks k l) = l.
Proof.
  intros Hk. revert l. apply (chunks_ind k); [done|by rewrite chunks_nil|]. intros l Hl IH.
  rewrite chunks_step by done. simpl. by rewrite IH, take_drop.
Qed.

Lemma chunks_length_bound {A} k (l : list A) :
  (0 < k)%nat → Forall (λ c, 0 < length c ≤ k)%nat (chunks k l).
Proof.
  intros Hk. revert l. apply (chunks_ind k); [done|by rewrite chunks_nil|]. intros l Hl IH.
  rewrite chunks_step by done. constructor; [|done].
  rewrite length_take. destruct l; [done|]. simpl. lia.
Qed.

Lemma chunks_nonempty {A} k (l : list A) : (0 < k)%nat → l ≠ [] → chunks k l ≠ [].
Proof. intros. rewrite chunks_step by done. done. Qed.

Lemma chunks_app_exact {A} k (l1 l2 : list A) :
  (0 < k)%nat → length l1 = k → chunks k (l1 ++ l2) = l1 :: chunks k l2.
Proof.
  intros Hk Hl. rewrite chunks_step by (done || by destruct l1; simpl in *; [lia|]).
  by rewrite take_app_length', drop_app_length'.
Qed.

(** Splitting a blob of equal-sized parts gives the parts back. *)
Lemma chunks_concat {A} k (ls : list (list A)) :
  (0 < k)%nat → Forall (λ l, length l = k) ls → chunks k (concat ls) = ls.
Proof.
  intros Hk. induction 1 as [|l ls Hl _ IH]; [by apply chunks_nil|].
  simpl. by rewrite chunks_app_exact, IH.
Qed.

Lemma length_chunks {A} k (l : list A) :
  length (chunks k l) = ((length l + (k - 1)) / k)%nat.
Proof. unfold chunks, range_step. by rewrite !length_fmap, length_seq. Qed.

Lemma bytes_compare_refl a : bytes_compare a a = Eq.
Proof. induction a as [|x a IH]; simpl; [done|]. by rewrite Z.compare_refl. Qed.

Lemma bytes_compare_eq a b : bytes_compare a b = Eq → a = b.
Proof.
  revert b. induction a as [|x a IH]; intros [|y b]; simpl; try done.
  destruct (Z.compare_spec x y); intros; try done. subst. f_equal. auto.
Qed.

Lemma bytes_compare_antisym a b : bytes_compare b a = CompOpp (bytes_compare a b).
Proof.
  revert b. induction a as [|x a IH]; intros [|y b]; simpl; try done.
  rewrite (Z.compare_antisym x y). destruct (x ?= y); simpl; auto.
Qed.

Lemma bytes_compare_lt_trans a b c :
  bytes_compare a b = Lt → bytes_compare b c = Lt → bytes_compare a c = Lt.
Proof.
  revert b c. induction a as [|x a IH]; intros [|y b] [|z c]; simpl; try done.
  destruct (Z.compare_spec x y), (Z.compare_spec y z), (Z.compare_spec x z);
    intros; subst; try done; try lia; eauto.
Qed.

#[export] Instance bytes_le_dec : RelDecision bytes_le.
Proof. intros a b. unfold bytes_le. apply _. Defined.

#[export] Instance bytes_le_trans : Transitive bytes_le.
Proof.
  intros a b c. unfold bytes_le, bytes_leb.
  destruct (bytes_compare a b) eqn:E1; [apply bytes_compare_eq in E1; by subst| |done].
  destruct (bytes_compare b c) eqn:E2; [apply bytes_compare_eq in E2; subst; by rewrite E1| |done].
  by rewrite (bytes_compare_lt_trans a b c).
Qed.

#[export] Instance bytes_le_total : Total bytes_le.
Proof.
  intros a b. unfold bytes_le, bytes_leb. rewrite (bytes_compare_antisym a b).
  destruct (bytes_compare a b); simpl; auto.
Qed.

#[export] Instance bytes_le_antisym : AntiSymm (=) bytes_le.
Proof.
  intros a b. unfold bytes_le, bytes_leb. rewrite (bytes_compare_antisym a b).
  destruct (bytes_compare a b) eqn:E; simpl; try done. by apply bytes_compare_eq in E.
Qed.

Lemma bytes_ltb_irrefl a : bytes_ltb a a = false.
Proof. unfold bytes_ltb. by rewrite bytes_compare_refl. Qed.

Lemma bytes_ltb_antisym a b : bytes_ltb a b = true → bytes_ltb b a = false.
Proof.
  unfold bytes_ltb. rewrite (bytes_compare_antisym a b). by destruct (bytes_compare a b).
Qed.

Lemma bytes_ltb_total a b : bytes_ltb a b = false → bytes_ltb b a = false → a = b.
Proof.
  unfold bytes_ltb. rewrite (bytes_compare_antisym a b).
  destruct (bytes_compare a b) eqn:E; simpl; try done. intros. by apply bytes_compare_eq.
Qed.

Lemma bytes_ltb_trans a b c : bytes_ltb a b = true → bytes_ltb b c = true → bytes_ltb a c = true.
Proof.
  unfold bytes_ltb. intros H1 H2.
  destruct (bytes_compare a b) eqn:E1, (bytes_compare b c) eqn:E2; try done.
  by rewrite (bytes_compare_lt_trans a b c).
Qed.

Lemma bytes_ltb_negb_leb a b : bytes_ltb a b = negb (bytes_leb b a).
Proof.
  unfold bytes_ltb, bytes_leb. rewrite (bytes_compare_antisym a b).
  by destruct (bytes_compare a b).
Qed.

Lemma bytes_ok_app a b : bytes_ok (a ++ b) ↔ bytes_ok a ∧ bytes_ok b.
Proof. apply Forall_app. Qed.

(** [mapM] in the error monad. *)
Lemma mapM_Ok_Forall2 {A B} (f : A → result B) l k :
  mapM f l = Ok k ↔ Forall2 (λ x y, f x = Ok y) l k.
Proof.
  split.
  - revert k. induction l as [|x l IH]; intros k H; simpl in H; inv_ok; subst; eauto.
  - induction 1 as [|x y l k H _ IH]; simpl; [done|]. rewrite H. simpl. by rewrite IH.
Qed.

Lemma mapM_Ok_map {A B} (f : A → result B) (g : A → B) l :
  Forall (λ x, f x = Ok (g x)) l → mapM f l = Ok (g <$> l).
Proof. induction 1 as [|x l H _ IH]; simpl; [done|]. rewrite H. simpl. by rewrite IH. Qed.

Lemma mapM_Ok_fmap_eq {A B} (f : A → result B) (g : B → A) l k :
  (∀ x y, f x = Ok y → g y = x) → mapM f l = Ok k → g <$> k = l.
Proof.
  intros Hg H%mapM_Ok_Forall2. induction H; simpl; [done|]. f_equal; auto.
Qed.

Create HintDb pylib.
#[export] Hint Resolve bytes_compare_refl bytes_ltb_irrefl : pylib.

Lemma cons_eq_inv {A} (x y : A) l k : x :: l = y :: k → x = y ∧ l = k.
Proof. by intros [=]. Qed.

Lemma enumerate_elem_of {A} (l : list A) i x :
  (i, x) ∈ enumerate l → ∃ j, i = Z.of_nat j ∧ l !! j = Some x.
Proof.
  unfold enumerate. intros (j & y & [= -> ->] & Hj)%elem_of_lookup_imap. eauto.
Qed.

Lemma lookup_enumerate {A} (l : list A) j : enumerate l !! j = (λ x, (Z.of_nat j, x)) <$> l !! j.
Proof. unfold enumerate. by rewrite list_lookup_imap. Qed.

Lemma length_enumerate {A} (l : list A) : length (enumerate l) = length l.
Proof. apply length_imap. Qed.

Lemma filter_snoc {A} (P : A → Prop) `{!∀ x, Decision (P x)} l x :
  filter P (l ++ [x]) = filter P l ++ (if decide (P x) then [x] else []).
Proof. rewrite filter_app. by destruct (decide (P x)) as [Hx|Hx]; [rewrite filter_cons_True|rewrite filter_cons_False]. Qed.

Lemma zlen_snoc {A} (l : list A) x : zlen (l ++ [x]) = zlen l + 1.
Proof. unfold zlen. rewrite length_app. simpl. lia. Qed.

Lemma zsum_with_zero {A} (f : A → Z) l : Forall (λ x, f x = 0) l → zsum_with f l = 0.
Proof. induction 1; [done|]. rewrite zsum_with_cons. lia. Qed.

Lemma zsum_with_filter {A} (f : A → Z) (P : A → Prop) `{!∀ x, Decision (P x)} l :
  zsum_with f (filter P l) = zsum_with (λ x, if decide (P x) then f x else 0) l.
Proof.
  induction l as [|x l IH]; [done|]. rewrite zsum_with_cons. destruct (decide (P x)) as [Hx|Hx].
  - rewrite filter_cons_True, zsum_with_cons by done. lia.
  - rewrite filter_cons_False by done. lia.
Qed.

Lemma zsum_with_point {K} `{EqDecision K} (k : K) (v : Z) ks :
  NoDup ks → k ∈ ks → zsum_with (λ k', if decide (k = k') then v else 0) ks = v.
Proof.
  induction 1 as [|k' ks Hk' _ IH]; intros Hin; [by apply not_elem_of_nil in Hin|]. rewrite zsum_with_cons.
  destruct (decide (k = k')) as [<- |Hne].
  - rewrite zsum_with_zero; [lia|]. apply Forall_forall. intros x Hx. by rewrite decide_False by congruence.
  - rewrite IH by set_solver. lia.
Qed.

(** Adding up by key and then over the keys is adding up. *)
Lemma zsum_with_by_key {A K} `{EqDecision K} (f : A → Z) (key : A → K) ks l :
  NoDup ks → Forall (λ x, key x ∈ ks) l →
  zsum_with (λ k, zsum_with f (filter (λ x, key x = k) l)) ks = zsum_with f l.
Proof.
  intros Hnd. induction 1 as [|x l Hx _ IH]; [by apply zsum_with_zero, Forall_forall|].
  rewrite zsum_with_cons, <- IH, <- (zsum_with_point (key x) (f x) ks) by done. rewrite <- zsum_with_add.
  apply zsum_with_ext, Forall_forall. intros k _. destruct (decide (key x = k)).
  - by rewrite filter_cons_True, zsum_with_cons.
  - by rewrite filter_cons_False.
Qed.

Lemma mapM_Ok_all {A B} (f : A → result B) l k : mapM f l = Ok k → Forall (λ x, ∃ y, f x = Ok y) l.
Proof.
  revert k. induction l as [|x l IH]; intros k H; [constructor|]. cbn in H. inv_ok. constructor; eauto.
Qed.

(** [[f(x) for x in l]] when every call returns. *)
Lemma mapM_from_ok {A B} (d : B) (f : A → result B) l :
  Forall (λ x, ∃ y, f x = Ok y) l → mapM f l = Ok ((λ x, from_ok d (f x)) <$> l).
Proof. induction 1 as [|x l [y Hy] _ IH]; [done|]. cbn. rewrite Hy, IH. done. Qed.

Lemma zsum_with_filter_snoc {A} (f : A → Z) (P : A → Prop) `{!∀ x, Decision (P x)} l x :
  zsum_with f (filter P (l ++ [x])) = zsum_with f (filter P l) + (if decide (P x) then f x else 0).
Proof. rewrite filter_snoc. destruct (decide (P x)); [by rewrite zsum_with_snoc|rewrite app_nil_r; lia]. Qed.

Lemma zlen_filter_snoc {A} (P : A → Prop) `{!∀ x, Decision (P x)} l x :
  zlen (filter P (l ++ [x])) = zlen (filter P l) + (if decide (P x) then 1 else 0).
Proof. rewrite filter_snoc. destruct (decide (P x)); [by rewrite zlen_snoc|rewrite app_nil_r; lia]. Qed.

Lemma zsum_with_split {A} (f : A → Z) (P : A → Prop) `{!∀ x, Decision (P x)} l :
  zsum_with f (filter P l) + zsum_with f (filter (λ x, ¬ P x) l) = zsum_with f l.
Proof.
  rewrite !zsum_with_filter, <- zsum_with_add. apply zsum_with_ext, Forall_forall. intros x _. repeat case_decide; try done; lia.
Qed.

Lemma from_ok_is_ok {A} (d : A) m : is_ok m = true → m = Ok (from_ok d m).
Proof. by destruct m. Qed.

Lemma foldM_ext {St A} (f g : St → A → result St) s l :
  (∀ s x, x ∈ l → f s x = g s x) → foldM f s l = foldM g s l.
Proof.
  revert s. induction l as [|x l IH]; intros s H; [done|]. cbn [foldM]. rewrite H by set_solver.
  destruct (g s x); cbn; [apply IH; set_solver|done].
Qed.

Lemma existsb_false {A} (p : A → bool) l : existsb p l = false ↔ Forall (λ x, p x = false) l.
Proof.
  induction l as [|x l IH]; cbn [existsb]; [by split|].
  rewrite orb_false_iff, IH, Forall_cons. done.
Qed.

Lemma zsum_with_elem_le {A} (f : A → Z) l x : Forall (λ y, 0 ≤ f y) l → x ∈ l → f x ≤ zsum_with f l.
Proof.
  induction 1 as [|y l Hy Hl IH]; intros Hx; [by apply not_elem_of_nil in Hx|]. rewrite zsum_with_cons.
  pose proof (zsum_with_nonneg f l Hl). apply elem_of_cons in Hx as [-> |Hx]; [lia|specialize (IH Hx); lia].
Qed.

Lemma length_concat_same {A} (k : nat) (ls : list (list A)) :
  Forall (λ l, length l = k) ls → length (concat ls) = (length ls * k)%nat.
Proof. induction 1 as [|l ls H _ IH]; [done|]. cbn [concat length]. rewrite length_app, H, IH. lia. Qed.

(** * Lists of lists, filters *)

Lemma concat_nil_Forall {A} (ls : list (list A)) : concat ls = [] → Forall (λ l, l = []) ls.
Proof. induction ls as [|l ls IH]; [constructor|]. cbn [concat]. intros [? ?]%app_eq_nil. constructor; auto. Qed.

Lemma NoDup_fmap_eq {A B} (f : A → B) (l : list A) x y : NoDup (f <$> l) → x ∈ l → y ∈ l → f x = f y → x = y.
Proof.
  intros Hn (i & Hi)%list_elem_of_lookup_1 (j & Hj)%list_elem_of_lookup_1 Hf.
  assert (i = j) as ->; [|congruence]. eapply (NoDup_lookup (f <$> l)); [done|by rewrite list_lookup_fmap, Hi|by rewrite list_lookup_fmap, Hj, Hf].
Qed.

Lemma filter_concat {A} (P : A → Prop) `{!∀ x, Decision (P x)} (ls : list (list A)) : filter P (concat ls) = concat (filter P <$> ls).
Proof. induction ls as [|l ls IH]; [done|]. cbn [concat fmap list_fmap]. by rewrite filter_app, IH. Qed.

Lemma concat_fmap_ext {A B} (f g : A → list B) (l : list A) : (∀ x, x ∈ l → f x = g x) → concat (f <$> l) = concat (g <$> l).
Proof.
  induction l as [|x l IH]; intros Hl; [done|]. cbn [fmap list_fmap concat]. rewrite (Hl x) by left. f_equal. apply IH. intros y Hy. apply Hl. by right.
Qed.

Lemma filter_elem_ext {A} (P Q : A → Prop) `{!∀ x, Decision (P x)} `{!∀ x, Decision (Q x)} (l : list A) :
  (∀ x, x ∈ l → P x ↔ Q x) → filter P l = filter Q l.
Proof.
  induction l as [|x l IH]; intros Hl; [done|]. assert (P x ↔ Q x) as Hx by (apply Hl; left).
  assert (filter P l = filter Q l) as E by (apply IH; intros y Hy; apply Hl; by right).
  destruct (decide (P x)) as [Hp|Hp].
  - rewrite !filter_cons_True by tauto. by rewrite E.
  - rewrite !filter_cons_False by tauto. done.
Qed.

Lemma filter_split_perm {A} (P Q : A → Prop) `{!∀ x, Decision (P x)} `{!∀ x, Decision (Q x)} (l : list A) :
  (∀ x, Q x ↔ ¬ P x) → filter Q l ++ filter P l ≡ₚ l.
Proof.
  intros HQ. induction l as [|x l IH]; [done|]. destruct (decide (P x)) as [Hp|Hp].
  - rewrite (filter_cons_True P), (filter_cons_False Q) by (done || naive_solver). rewrite <- Permutation_middle. by constructor.
  - rewrite (filter_cons_False P), (filter_cons_True Q) by (done || naive_solver). cbn [app]. by constructor.
Qed.

Lemma concat_app_perm {A B} (f g h : A → list B) (l : list A) :
  (∀ x, x ∈ l → f x ++ g x ≡ₚ h x) → concat (f <$> l) ++ concat (g <$> l) ≡ₚ concat (h <$> l).
Proof.
  induction l as [|x l IH]; intros H; [done|]. cbn [fmap list_fmap concat].
  rewrite <- (H x), <- IH by (intros; apply H; by right) || left. rewrite <- !app_assoc. f_equiv. rewrite !app_assoc. f_equiv. apply Permutation_app_comm.
Qed.

Lemma filter_none {A} (P : A → Prop) `{!∀ x, Decision (P x)} (l : list A) : (∀ x, x ∈ l → ¬ P x) → filter P l = [].
Proof.
  induction l as [|x l IH]; intros Hl; [done|]. rewrite filter_cons_False by (apply Hl; left). apply IH. intros y Hy. apply Hl. by right.
Qed.

Lemma fmap_concat {A B} (f : A → B) ls : f <$> concat ls = concat (fmap (M:=list) f <$> ls).
Proof. induction ls as [|l ls IH]; [done|]. cbn [concat fmap list_fmap]. rewrite fmap_app. by rewrite <- IH. Qed.

Lemma concat_fmap_perm {A B} (f : A → list B) (l l' : list A) : l ≡ₚ l' → concat (f <$> l) ≡ₚ concat (f <$> l').
Proof.
  induction 1 as [|x l l' _ IH|x y l|l l' l'' _ IH1 _ IH2]; cbn [fmap list_fmap concat];
    [done|by rewrite IH|by rewrite !app_assoc, (Permutation_app_comm (f x))|by rewrite IH1].
Qed.

Lemma zip_with_fmaps {A B C D} (f : B → C → D) (g : A → B) (h : A → C) l :
  zip_with f (g <$> l) (h <$> l) = (λ x, f (g x) (h x)) <$> l.
Proof. induction l as [|x l IH]; [done|]. cbn [fmap list_fmap zip_with]. by rewrite IH. Qed.
