(* ===== verification/PyStr.v ===== *)
(** Python text and integer primitives used by the sources: the [str] methods
    ([strip], [lower], [partition], ...), [int(text)] and [int(text, 16)],
    decimal and hexadecimal formatting, [bytes.hex]/[bytes.fromhex] and
    [int.to_bytes]/[int.from_bytes].

    Text is ASCII: characters of code 128 to 255 are carried but belong to no
    class (not a digit, not a space, caseless).  The interpreter's limit on
    the number of digits of an integer literal is not modelled. *)

From S2P Require Import Prelude.
Local Open Scope Z_scope.

(** * Characters *)

Definition ord (c : ascii) : Z := Z.of_N (Stdlib.Strings.Ascii.N_of_ascii c).
Definition chr (n : Z) : ascii := Stdlib.Strings.Ascii.ascii_of_N (Z.to_N n).
Definition ords (s : str) : bytes := ord <$> s.

Definition in_range (lo hi n : Z) : bool := (lo <=? n) && (n <=? hi).

(** What [str.strip] removes, and what [int] and [bytes.fromhex] skip. *)
Definition is_space (c : ascii) : bool := in_range 9 13 (ord c) || in_range 28 32 (ord c).
Definition is_cspace (c : ascii) : bool := in_range 9 13 (ord c) || (ord c =? 32).

Definition is_digit (c : ascii) : bool := in_range 48 57 (ord c).
Definition lower_char (c : ascii) : ascii := if in_range 65 90 (ord c) then chr (ord c + 32) else c.
Definition upper_char (c : ascii) : ascii := if in_range 97 122 (ord c) then chr (ord c - 32) else c.

Definition hexdigit (d : Z) : ascii := if d <? 10 then chr (48 + d) else chr (87 + d).
Definition digit_val (c : ascii) : option Z :=
  if in_range 48 57 (ord c) then Some (ord c - 48)
  else if in_range 97 122 (ord c) then Some (ord c - 87)
  else if in_range 65 90 (ord c) then Some (ord c - 55)
  else None.

(** * Methods of [str] *)

Definition str_ltb (s t : str) : bool := bytes_ltb (ords s) (ords t).
Definition str_leb (s t : str) : bool := bytes_leb (ords s) (ords t).
Definition str_le (s t : str) : Prop := bytes_le (ords s) (ords t).

Definition lower (s : str) : str := lower_char <$> s.
Definition upper (s : str) : str := upper_char <$> s.

Fixpoint drop_while {A} (p : A → bool) (l : list A) : list A :=
  match l with [] => [] | x :: l' => if p x then drop_while p l' else l end.
Definition rstrip_with {A} (p : A → bool) (l : list A) : list A := reverse (drop_while p (reverse l)).
Definition strip_with {A} (p : A → bool) (l : list A) : list A := rstrip_with p (drop_while p l).
Definition strip (s : str) : str := strip_with is_space s.
Definition rstrip_char (c : ascii) (s : str) : str := rstrip_with (λ x, bool_decide (x = c)) s.

Definition startswith (s p : str) : bool := bool_decide (take (length p) s = p).
Definition endswith (s p : str) : bool :=
  (length p <=? length s)%nat && bool_decide (drop (length s - length p) s = p).
Definition removeprefix (s p : str) : str := if startswith s p then drop (length p) s else s.

(** [s.partition(c)]: the text before the first [c], whether [c] occurs, the rest. *)
Fixpoint partition (c : ascii) (s : str) : str * bool * str :=
  match s with
  | [] => ([], false, [])
  | x :: s' =>
      if bool_decide (x = c) then ([], true, s')
      else let '(a, f, b) := partition c s' in (x :: a, f, b)
  end.

(** [s.replace(c, "")]. *)
Definition remove_char (c : ascii) (s : str) : str := filter (λ x, x ≠ c) s.

Definition isdigit (s : str) : bool := negb (bool_decide (s = [])) && forallb is_digit s.
Definition rjust (w : nat) (c : ascii) (s : str) : str := replicate (w - length s) c ++ s.
Definition ljust (w : nat) (c : ascii) (s : str) : str := s ++ replicate (w - length s) c.

Fixpoint join (sep : str) (l : list str) : str :=
  match l with
  | [] => []
  | [s] => s
  | s :: l' => s ++ sep ++ join sep l'
  end.

(** * Integers from text *)

(** Digits with single underscores between them; [need] says a digit must come next. *)
Fixpoint int_digits (base : Z) (need : bool) (acc : Z) (s : str) : option Z :=
  match s with
  | [] => if need then None else Some acc
  | c :: s =>
      if bool_decide (c = "_"%char) then (if need then None else int_digits base true acc s)
      else d ← digit_val c;
           if d <? base then int_digits base false (acc * base + d) s else None
  end.

Definition int_unsigned (base : Z) (s : str) : option Z :=
  match s with
  | "0"%char :: x :: s' =>
      if (base =? 16) && (bool_decide (x = "x"%char) || bool_decide (x = "X"%char)) then
        match s' with
        | "_"%char :: s'' => int_digits base true 0 s''
        | _ => int_digits base true 0 s'
        end
      else int_digits base true 0 s
  | _ => int_digits base true 0 s
  end.

(** [int(text, base)] for bases 10 and 16. *)
Definition int_base (base : Z) (s : str) : option Z :=
  match strip_with is_cspace s with
  | "-"%char :: s' => Z.opp <$> int_unsigned base s'
  | "+"%char :: s' => int_unsigned base s'
  | s' => int_unsigned base s'
  end.

Definition py_int (s : str) : result Z :=
  of_option (int_base 10 s) (ValueError "invalid literal for int()").
Definition py_int16 (s : str) : result Z :=
  of_option (int_base 16 s) (ValueError "invalid literal for int() with base 16").

(** * Integers to text *)

Fixpoint digits_aux (fuel : nat) (base n : Z) (acc : list Z) : list Z :=
  match fuel with
  | O => acc
  | S fuel => if n <? base then n :: acc else digits_aux fuel base (n / base) (n mod base :: acc)
  end.

(** The digits of [n >= 0], most significant first. *)
Definition digits (base n : Z) : list Z := digits_aux (S (Z.to_nat (Z.log2 n))) base n [].
Definition undigits (base acc : Z) (ds : list Z) : Z := foldl (λ a d, a * base + d) acc ds.

Definition str_of_nonneg (base n : Z) : str := hexdigit <$> digits base n.

(** [str(n)]. *)
Definition str_of_Z (n : Z) : str :=
  if n <? 0 then "-"%char :: str_of_nonneg 10 (- n) else str_of_nonneg 10 n.

(** [f"{n:0{w}d}"] and [f"{n:0{w}x}"] for [n >= 0]. *)
Definition dec_pad (w : nat) (n : Z) : str := rjust w "0"%char (str_of_nonneg 10 n).
Definition hex_pad (w : nat) (n : Z) : str := rjust w "0"%char (str_of_nonneg 16 n).

(** [f"{n:,}"] for [n >= 0]: groups of three digits from the right. *)
Definition commas (n : Z) : str :=
  reverse (join ","%string (chunks 3 (reverse (str_of_nonneg 10 n)))).

(** * Bytes *)

Definition hex (b : bytes) : str := concat ((λ x, [hexdigit (x / 16); hexdigit (x mod 16)]) <$> b).

Definition hex_val (c : ascii) : option Z :=
  d ← digit_val c; if d <? 16 then Some d else None.

Fixpoint fromhex (s : str) : option bytes :=
  match s with
  | [] => Some []
  | c :: s' =>
      if is_cspace c then fromhex s' else
      match s' with
      | [] => None
      | d :: s'' => h ← hex_val c; l ← hex_val d; r ← fromhex s''; Some (h * 16 + l :: r)
      end
  end.

(** The [w] low bytes of [n], least significant first. *)
Fixpoint to_le (w : nat) (n : Z) : bytes :=
  match w with O => [] | S w => n mod 256 :: to_le w (n / 256) end.
Definition to_be (w : nat) (n : Z) : bytes := reverse (to_le w n).

Fixpoint from_le (b : bytes) : Z :=
  match b with [] => 0 | x :: b => x + 256 * from_le b end.
Definition from_be (b : bytes) : Z := from_le (reverse b).

(** * Lemmas on characters *)

Lemma ord_range c : 0 ≤ ord c < 256.
Proof. unfold ord. pose proof (Stdlib.Strings.Ascii.N_ascii_bounded c). lia. Qed.

Lemma ord_inj c d : ord c = ord d → c = d.
Proof.
  unfold ord. intros H%N2Z.inj.
  rewrite <- (Stdlib.Strings.Ascii.ascii_N_embedding c), H. apply Stdlib.Strings.Ascii.ascii_N_embedding.
Qed.

Lemma ord_chr n : 0 ≤ n < 256 → ord (chr n) = n.
Proof.
  intros. unfold ord, chr. rewrite Stdlib.Strings.Ascii.N_ascii_embedding by lia. lia.
Qed.

Lemma ords_inj s t : ords s = ords t → s = t.
Proof.
  revert t. induction s as [|c s IH]; intros [|d t] H; try done.
  injection H as H1 H2. f_equal; [by apply ord_inj|by apply IH].
Qed.

Lemma ords_ok s : bytes_ok (ords s).
Proof. apply Forall_fmap, Forall_true. intros c. apply ord_range. Qed.

(** Decides a property of all characters by computation. *)
Ltac char_cases c := destruct c as [[] [] [] [] [] [] [] []]; vm_compute.

Lemma lower_char_idemp c : lower_char (lower_char c) = lower_char c.
Proof. by char_cases c. Qed.
Lemma lower_upper_char c : lower_char (upper_char c) = lower_char c.
Proof. by char_cases c. Qed.
Lemma upper_lower_char c : upper_char (lower_char c) = upper_char c.
Proof. by char_cases c. Qed.

Lemma lower_idemp s : lower (lower s) = lower s.
Proof. unfold lower. rewrite <- list_fmap_compose. apply list_fmap_ext. intros. apply lower_char_idemp. Qed.
Lemma lower_upper s : lower (upper s) = lower s.
Proof.
  unfold lower, upper. rewrite <- list_fmap_compose. apply list_fmap_ext. intros. apply lower_upper_char.
Qed.
Lemma length_lower s : length (lower s) = length s.
Proof. apply length_fmap. Qed.
Lemma length_upper s : length (upper s) = length s.
Proof. apply length_fmap. Qed.
Lemma lower_app s t : lower (s ++ t) = lower s ++ lower t.
Proof. apply fmap_app. Qed.

Lemma hexdigit_cases (P : Z → Prop) d :
  0 ≤ d < 16 → P 0 → P 1 → P 2 → P 3 → P 4 → P 5 → P 6 → P 7 → P 8 → P 9 → P 10 → P 11 →
  P 12 → P 13 → P 14 → P 15 → P d.
Proof.
  intros Hd. intros.
  assert (d = 0 ∨ d = 1 ∨ d = 2 ∨ d = 3 ∨ d = 4 ∨ d = 5 ∨ d = 6 ∨ d = 7 ∨ d = 8 ∨ d = 9 ∨ d = 10
    ∨ d = 11 ∨ d = 12 ∨ d = 13 ∨ d = 14 ∨ d = 15) as Hc by lia.
  repeat destruct Hc as [-> | Hc]; subst; done.
Qed.

Ltac hexdigit_cases d H := revert d H; intros d H; apply (hexdigit_cases _ d H); vm_compute.

Lemma digit_val_hexdigit d : 0 ≤ d < 16 → digit_val (hexdigit d) = Some d.
Proof. intros H. by apply (hexdigit_cases (λ d, digit_val (hexdigit d) = Some d) d H). Qed.
Lemma hex_val_hexdigit d : 0 ≤ d < 16 → hex_val (hexdigit d) = Some d.
Proof. intros H. by apply (hexdigit_cases (λ d, hex_val (hexdigit d) = Some d) d H). Qed.
Lemma hexdigit_not_space d : 0 ≤ d < 16 → is_cspace (hexdigit d) = false.
Proof. intros H. by apply (hexdigit_cases (λ d, is_cspace (hexdigit d) = false) d H). Qed.
Lemma hexdigit_not_us d : 0 ≤ d < 16 → hexdigit d ≠ "_"%char.
Proof. intros H. by apply (hexdigit_cases (λ d, hexdigit d ≠ "_"%char) d H). Qed.
Lemma hexdigit_lower d : 0 ≤ d < 16 → lower_char (hexdigit d) = hexdigit d.
Proof. intros H. by apply (hexdigit_cases (λ d, lower_char (hexdigit d) = hexdigit d) d H). Qed.
Lemma hexdigit_is_digit d : 0 ≤ d < 10 → is_digit (hexdigit d) = true.
Proof.
  intros H. unfold is_digit, hexdigit. destruct (Z.ltb_spec d 10); [|lia].
  rewrite ord_chr by lia. unfold in_range. lia.
Qed.

Lemma hex_val_range c v : hex_val c = Some v → 0 ≤ v < 16.
Proof.
  unfold hex_val, digit_val, in_range. intros H.
  destruct ((48 <=? ord c) && (ord c <=? 57)) eqn:E1; simpl in H.
  { destruct (_ <? 16) eqn:?; inv_ok. subst. zbool. lia. }
  destruct ((97 <=? ord c) && (ord c <=? 122)) eqn:E2; simpl in H.
  { destruct (_ <? 16) eqn:?; inv_ok. subst. zbool. lia. }
  destruct ((65 <=? ord c) && (ord c <=? 90)) eqn:E3; simpl in H; [|done].
  destruct (_ <? 16) eqn:?; inv_ok. subst. zbool. lia.
Qed.

(** * Lemmas on digits *)

Lemma undigits_app base acc ds es :
  undigits base acc (ds ++ es) = undigits base (undigits base acc ds) es.
Proof. apply foldl_app. Qed.

Lemma digits_aux_undigits fuel base n acc :
  2 ≤ base → 0 ≤ n < 2 ^ Z.of_nat fuel →
  undigits base 0 (digits_aux fuel base n acc) = undigits base n acc.
Proof.
  revert n acc. induction fuel as [|fuel IH]; intros n acc Hb Hn.
  { replace n with 0 by (change (Z.of_nat 0) with 0 in Hn; lia). done. }
  cbn [digits_aux]. destruct (Z.ltb_spec n base) as [Hlt|Hge].
  { unfold undigits. simpl. f_equal. }
  rewrite IH; [|done|].
  - unfold undigits. simpl. f_equal. rewrite (Z.div_mod n base) at 3 by lia. lia.
  - rewrite Nat2Z.inj_succ, Z.pow_succ_r in Hn by lia. split.
    + apply Z.div_pos; lia.
    + apply Z.div_lt_upper_bound; nia.
Qed.

Lemma digits_fuel_enough n : 0 ≤ n → n < 2 ^ Z.of_nat (S (Z.to_nat (Z.log2 n))).
Proof.
  intros. rewrite Nat2Z.inj_succ, Z2Nat.id by apply Z.log2_nonneg.
  destruct (Z.eq_dec n 0) as [->|]; [done|]. apply Z.log2_spec. lia.
Qed.

Lemma undigits_digits base n : 2 ≤ base → 0 ≤ n → undigits base 0 (digits base n) = n.
Proof.
  intros. unfold digits. rewrite digits_aux_undigits; [done|done|].
  split; [done|by apply digits_fuel_enough].
Qed.

Lemma digits_aux_range fuel base n acc :
  2 ≤ base → 0 ≤ n → Forall (λ d, 0 ≤ d < base) acc →
  Forall (λ d, 0 ≤ d < base) (digits_aux fuel base n acc).
Proof.
  revert n acc. induction fuel as [|fuel IH]; intros n acc Hb Hn Ha; [done|].
  cbn [digits_aux]. destruct (Z.ltb_spec n base); [by constructor|].
  apply IH; [done|apply Z.div_pos; lia|]. constructor; [|done]. apply Z.mod_pos_bound. lia.
Qed.

Lemma digits_range base n : 2 ≤ base → 0 ≤ n → Forall (λ d, 0 ≤ d < base) (digits base n).
Proof. intros. by apply digits_aux_range. Qed.

Lemma digits_aux_length fuel base n acc : (0 < fuel)%nat → digits_aux fuel base n acc ≠ [].
Proof.
  revert n acc. induction fuel as [|[|fuel] IH]; intros n acc Hf; [lia| |].
  - cbn [digits_aux]. by destruct (n <? base).
  - cbn [digits_aux] in *. destruct (n <? base); [done|]. apply IH. lia.
Qed.

Lemma digits_nonnil base n : digits base n ≠ [].
Proof. apply digits_aux_length. lia. Qed.

Lemma undigits_bound base ds acc :
  2 ≤ base → Forall (λ d, 0 ≤ d < base) ds → 0 ≤ acc →
  acc * base ^ zlen ds ≤ undigits base acc ds < (acc + 1) * base ^ zlen ds.
Proof.
  intros Hb. revert acc. induction ds as [|d ds IH]; intros acc Hds Hacc.
  { unfold zlen. simpl. lia. }
  inversion_clear Hds as [|?? Hd Hds'].
  specialize (IH (acc * base + d) Hds' ltac:(nia)).
  unfold undigits in *. cbn [foldl]. unfold zlen in *. cbn [length].
  rewrite Nat2Z.inj_succ, Z.pow_succ_r by lia.
  assert (0 < base ^ Z.of_nat (length ds)) by (apply Z.pow_pos_nonneg; lia). nia.
Qed.

(** Digit lists of one length are determined by their value. *)
Lemma undigits_inj base ds es acc acc' :
  2 ≤ base → length ds = length es →
  Forall (λ d, 0 ≤ d < base) ds → Forall (λ d, 0 ≤ d < base) es →
  0 ≤ acc → 0 ≤ acc' →
  undigits base acc ds = undigits base acc' es → acc = acc' ∧ ds = es.
Proof.
  intros Hb. revert es acc acc'. induction ds as [|d ds IH]; intros [|e es] acc acc' Hl Hd He Ha Ha' Hu;
    try done. inversion_clear Hd as [|?? Hd1 Hd2]. inversion_clear He as [|?? He1 He2].
  unfold undigits in Hu. cbn [foldl] in Hu. injection Hl as Hl.
  destruct (IH es (acc * base + d) (acc' * base + e)) as [Heq ->]; try done; try nia.
  assert (acc = acc') as -> by nia. split; [done|]. f_equal. lia.
Qed.

(** * Reading back what was written *)

Lemma int_digits_hexdigits base acc ds :
  2 ≤ base ≤ 16 → Forall (λ d, 0 ≤ d < base) ds →
  int_digits base false acc (hexdigit <$> ds) = Some (undigits base acc ds).
Proof.
  intros Hb Hds. revert acc. induction Hds as [|d ds Hd _ IH]; intros acc; [done|].
  cbn [fmap list_fmap int_digits].
  rewrite bool_decide_eq_false_2 by (apply hexdigit_not_us; lia).
  rewrite digit_val_hexdigit by lia. simpl.
  destruct (Z.ltb_spec d base); [|lia]. apply IH.
Qed.

Lemma int_digits_need base acc s : s ≠ [] → hd "a"%char s ≠ "_"%char →
  int_digits base true acc s = int_digits base false acc s.
Proof.
  destruct s as [|c s]; [done|]. simpl. intros _ Hc. by rewrite bool_decide_eq_false_2.
Qed.

Lemma int_digits_hexdigits_need base acc ds :
  2 ≤ base ≤ 16 → ds ≠ [] → Forall (λ d, 0 ≤ d < base) ds →
  int_digits base true acc (hexdigit <$> ds) = Some (undigits base acc ds).
Proof.
  intros Hb Hn Hds. rewrite int_digits_need, int_digits_hexdigits; try done.
  - by destruct ds.
  - destruct Hds as [|d ds Hd]; [done|]. simpl. apply hexdigit_not_us. lia.
Qed.

Lemma hexdigit_not_x d : 0 ≤ d < 16 → hexdigit d ≠ "x"%char ∧ hexdigit d ≠ "X"%char.
Proof. intros H. by apply (hexdigit_cases (λ d, hexdigit d ≠ "x"%char ∧ hexdigit d ≠ "X"%char) d H). Qed.
Lemma hexdigit_not_sign d : 0 ≤ d < 16 → hexdigit d ≠ "-"%char ∧ hexdigit d ≠ "+"%char.
Proof. intros H. by apply (hexdigit_cases (λ d, hexdigit d ≠ "-"%char ∧ hexdigit d ≠ "+"%char) d H). Qed.

Lemma int_unsigned_plain base s :
  match s with _ :: x :: _ => x ≠ "x"%char ∧ x ≠ "X"%char | _ => True end →
  int_unsigned base s = int_digits base true 0 s.
Proof.
  intros Hx. unfold int_unsigned. destruct s as [|c [|x s]]; try done.
  - by destruct c as [[] [] [] [] [] [] [] []].
  - destruct Hx as [H1 H2].
    destruct c as [[] [] [] [] [] [] [] []]; try done.
    by rewrite !bool_decide_eq_false_2, andb_false_r by done.
Qed.

Lemma int_unsigned_hexdigits base ds :
  2 ≤ base ≤ 16 → ds ≠ [] → Forall (λ d, 0 ≤ d < base) ds →
  int_unsigned base (hexdigit <$> ds) = Some (undigits base 0 ds).
Proof.
  intros Hb Hn Hds. rewrite int_unsigned_plain; [by apply int_digits_hexdigits_need|].
  destruct Hds as [|d ds Hd [|e es He _]]; try done. simpl. apply hexdigit_not_x. lia.
Qed.

Lemma drop_while_hd {A} (p : A → bool) l :
  match l with x :: _ => p x = false | [] => True end → drop_while p l = l.
Proof. destruct l; simpl; [done|]. by intros ->. Qed.

Lemma drop_while_none {A} (p : A → bool) l : Forall (λ x, p x = false) l → drop_while p l = l.
Proof. intros H. apply drop_while_hd. by destruct H. Qed.

Lemma rstrip_with_none {A} (p : A → bool) l : Forall (λ x, p x = false) l → rstrip_with p l = l.
Proof.
  intros H. unfold rstrip_with. rewrite drop_while_none, reverse_involutive; [done|].
  by apply Forall_reverse.
Qed.

Lemma strip_with_none {A} (p : A → bool) l : Forall (λ x, p x = false) l → strip_with p l = l.
Proof. intros H. unfold strip_with. by rewrite drop_while_none, rstrip_with_none. Qed.

Lemma hexdigits_not_space ds base :
  base ≤ 16 → Forall (λ d, 0 ≤ d < base) ds → Forall (λ c, is_cspace c = false) (hexdigit <$> ds).
Proof.
  intros Hb H. apply Forall_fmap. eapply Forall_impl; [exact H|]. intros d Hd. cbn beta in Hd. unfold compose.
  apply hexdigit_not_space. lia.
Qed.

Lemma int_base_signless base s :
  Forall (λ c, is_cspace c = false) s → s ≠ [] →
  hd "a"%char s ≠ "-"%char ∧ hd "a"%char s ≠ "+"%char →
  int_base base s = int_unsigned base s.
Proof.
  intros Hs Hn [H1 H2]. unfold int_base. rewrite strip_with_none by done.
  destruct s as [|c s]; [done|]. simpl in H1, H2.
  by destruct c as [[] [] [] [] [] [] [] []].
Qed.

Lemma int_base_hexdigits base ds :
  2 ≤ base ≤ 16 → ds ≠ [] → Forall (λ d, 0 ≤ d < base) ds →
  int_base base (hexdigit <$> ds) = Some (undigits base 0 ds).
Proof.
  intros Hb Hn Hds. rewrite int_base_signless.
  - by apply int_unsigned_hexdigits.
  - eapply hexdigits_not_space; [|done]. lia.
  - by destruct ds.
  - destruct Hds as [|d ds Hd _]; [done|]. simpl. apply hexdigit_not_sign. lia.
Qed.

Lemma int_base_str_of_nonneg base n :
  2 ≤ base ≤ 16 → 0 ≤ n → int_base base (str_of_nonneg base n) = Some n.
Proof.
  intros Hb Hn. unfold str_of_nonneg.
  rewrite int_base_hexdigits, undigits_digits; try done; try lia.
  - apply digits_nonnil.
  - by apply digits_range; lia.
Qed.

(** [int(str(n)) == n]. *)
Lemma int_str_of_Z n : py_int (str_of_Z n) = Ok n.
Proof.
  unfold py_int, str_of_Z. destruct (Z.ltb_spec n 0) as [Hn|Hn].
  - assert (Forall (λ d, 0 ≤ d < 10) (digits 10 (- n))) as Hd by (apply digits_range; lia).
    unfold int_base. rewrite strip_with_none.
    2: { constructor; [done|]. eapply hexdigits_not_space; [|done]. lia. }
    unfold str_of_nonneg. rewrite int_unsigned_hexdigits; try done; try lia.
    2: apply digits_nonnil.
    rewrite undigits_digits by lia. simpl. f_equal. lia.
  - by rewrite int_base_str_of_nonneg by lia.
Qed.

Lemma undigits_zeros base k ds : undigits base 0 (replicate k 0 ++ ds) = undigits base 0 ds.
Proof.
  rewrite undigits_app. f_equal. induction k; [done|].
  cbn [replicate]. unfold undigits in *. simpl. done.
Qed.

Lemma rjust_hexdigits w ds :
  rjust w "0"%char (hexdigit <$> ds) = hexdigit <$> (replicate (w - length ds) 0 ++ ds).
Proof. unfold rjust. rewrite length_fmap, fmap_app, fmap_replicate. done. Qed.

Lemma zeros_range base k ds :
  2 ≤ base → Forall (λ d, 0 ≤ d < base) ds → Forall (λ d, 0 ≤ d < base) (replicate k 0 ++ ds).
Proof. intros. apply Forall_app. split; [|done]. apply Forall_replicate. lia. Qed.

Lemma int_base_rjust base w n :
  2 ≤ base ≤ 16 → 0 ≤ n →
  int_base base (rjust w "0"%char (str_of_nonneg base n)) = Some n.
Proof.
  intros Hb Hn. unfold str_of_nonneg. rewrite rjust_hexdigits, int_base_hexdigits.
  - by rewrite undigits_zeros, undigits_digits by lia.
  - done.
  - intros [_ H]%app_eq_nil. by apply digits_nonnil in H.
  - apply zeros_range; [lia|]. by apply digits_range; lia.
Qed.

Lemma dec_pad_inj w i j : 0 ≤ i → 0 ≤ j → dec_pad w i = dec_pad w j → i = j.
Proof. intros Hi Hj H. apply (f_equal (int_base 10)) in H. unfold dec_pad in H. rewrite !int_base_rjust in H by lia. congruence. Qed.

Lemma length_digits_aux_le fuel base n acc (k : nat) :
  2 ≤ base → 0 ≤ n < 2 ^ Z.of_nat fuel → n < base ^ Z.of_nat k → (0 < k)%nat →
  (length (digits_aux fuel base n acc) ≤ k + length acc)%nat.
Proof.
  intros Hb. revert n acc k. induction fuel as [|fuel IH]; intros n acc k Hn Hk Hk0; simpl; [lia|].
  destruct (Z.ltb_spec n base); [simpl; lia|].
  destruct k as [|[|k]]; [lia| |].
  { change (Z.of_nat 1) with 1 in Hk. lia. }
  transitivity (S k + length ((n mod base)%Z :: acc))%nat; [|simpl; lia].
  apply IH; [|rewrite Nat2Z.inj_succ, Z.pow_succ_r in Hk by lia|lia].
  - rewrite Nat2Z.inj_succ, Z.pow_succ_r in Hn by lia.
    split; [apply Z.div_pos; lia|apply Z.div_lt_upper_bound; nia].
  - apply Z.div_lt_upper_bound; lia.
Qed.

Lemma length_str_of_nonneg_le base n k :
  2 ≤ base → 0 ≤ n < base ^ Z.of_nat k → (0 < k)%nat → (length (str_of_nonneg base n) ≤ k)%nat.
Proof.
  intros Hb Hn Hk. unfold str_of_nonneg, digits. rewrite length_fmap.
  etransitivity; [apply (length_digits_aux_le _ _ _ _ k); try done; try lia|simpl; lia].
  split; [lia|]. apply digits_fuel_enough. lia.
Qed.

Lemma length_rjust w c s : (length s ≤ w)%nat → length (rjust w c s) = w.
Proof. intros. unfold rjust. rewrite length_app, length_replicate. lia. Qed.

(** * Lemmas on bytes *)

Lemma hex_cons x b : hex (x :: b) = hexdigit (x / 16) :: hexdigit (x mod 16) :: hex b.
Proof. done. Qed.

Lemma hex_app a b : hex (a ++ b) = hex a ++ hex b.
Proof. induction a as [|x a IH]; [done|]. rewrite <- app_comm_cons, !hex_cons, IH. done. Qed.

Lemma length_hex b : length (hex b) = (2 * length b)%nat.
Proof. induction b as [|x b IH]; [done|]. rewrite hex_cons. simpl. rewrite IH. lia. Qed.

Lemma byte_nibbles x : 0 ≤ x < 256 → 0 ≤ x / 16 < 16 ∧ 0 ≤ x mod 16 < 16.
Proof.
  intros. split; [split; [apply Z.div_pos; lia|apply Z.div_lt_upper_bound; lia]|].
  apply Z.mod_pos_bound. lia.
Qed.

(** [bytes.fromhex(b.hex()) == b]. *)
Lemma fromhex_hex b : bytes_ok b → fromhex (hex b) = Some b.
Proof.
  induction 1 as [|x b Hx _ IH]; [done|]. rewrite hex_cons.
  destruct (byte_nibbles x Hx). cbn [fromhex].
  rewrite hexdigit_not_space, !hex_val_hexdigit, IH by done. simpl.
  do 2 f_equal. rewrite (Z.div_mod x 16) at 3 by lia. lia.
Qed.

Lemma hex_inj a b : bytes_ok a → bytes_ok b → hex a = hex b → a = b.
Proof. intros Ha Hb H. apply (f_equal fromhex) in H. rewrite !fromhex_hex in H by done. congruence. Qed.

Lemma lower_hex b : bytes_ok b → lower (hex b) = hex b.
Proof.
  induction 1 as [|x b Hx _ IH]; [done|]. rewrite hex_cons. destruct (byte_nibbles x Hx).
  unfold lower in *. cbn [fmap list_fmap]. by rewrite !hexdigit_lower, IH.
Qed.

(** Induction for functions that may consume one or two list elements. *)
Lemma list_ind2 {A} (P : list A → Prop) :
  P [] → (∀ x, P [x]) → (∀ x y l, P l → P (y :: l) → P (x :: y :: l)) → ∀ l, P l.
Proof.
  intros H0 H1 H2 l. assert (P l ∧ ∀ x, P (x :: l)) as [? _]; [|done].
  induction l as [|y l [IH1 IH2]]; [by split|]. split; [done|]. intros x. by apply H2.
Qed.

Lemma fromhex_ok s b : fromhex s = Some b → bytes_ok b.
Proof.
  revert b. induction s as [|c|c d s IH1 IH2] using list_ind2; intros b H; cbn [fromhex] in H.
  - injection H as <-. constructor.
  - destruct (is_cspace c); [injection H as <-; constructor|done].
  - destruct (is_cspace c).
    { apply IH2. exact H. }
    destruct (hex_val c) as [h|] eqn:Hh; [|done]. destruct (hex_val d) as [l|] eqn:Hl; [|done].
    destruct (fromhex s) as [r|]; [|done]. simpl in H. injection H as <-.
    apply hex_val_range in Hh, Hl. constructor; [lia|by apply IH1].
Qed.

Lemma length_to_le w n : length (to_le w n) = w.
Proof. revert n. induction w; intros; simpl; auto. Qed.
Lemma length_to_be w n : length (to_be w n) = w.
Proof. unfold to_be. by rewrite length_reverse, length_to_le. Qed.

Lemma to_le_ok w n : bytes_ok (to_le w n).
Proof.
  revert n. induction w as [|w IH]; intros n; simpl; constructor; [|apply IH].
  apply Z.mod_pos_bound. lia.
Qed.
Lemma to_be_ok w n : bytes_ok (to_be w n).
Proof. apply Forall_reverse, to_le_ok. Qed.

Lemma from_to_le w n : 0 ≤ n < 256 ^ Z.of_nat w → from_le (to_le w n) = n.
Proof.
  revert n. induction w as [|w IH]; intros n Hn.
  { change (256 ^ Z.of_nat 0) with 1 in Hn. simpl. lia. }
  cbn [to_le from_le]. rewrite IH.
  - rewrite (Z.div_mod n 256) at 3 by lia. lia.
  - rewrite Nat2Z.inj_succ, Z.pow_succ_r in Hn by lia.
    split; [apply Z.div_pos; lia|apply Z.div_lt_upper_bound; lia].
Qed.

Lemma from_to_be w n : 0 ≤ n < 256 ^ Z.of_nat w → from_be (to_be w n) = n.
Proof. intros. unfold from_be, to_be. by rewrite reverse_involutive, from_to_le. Qed.

Lemma to_be_inj w m n :
  0 ≤ m < 256 ^ Z.of_nat w → 0 ≤ n < 256 ^ Z.of_nat w → to_be w m = to_be w n → m = n.
Proof. intros Hm Hn H. apply (f_equal from_be) in H. by rewrite !from_to_be in H. Qed.

Lemma from_le_range b : bytes_ok b → 0 ≤ from_le b < 256 ^ zlen b.
Proof.
  induction 1 as [|x b Hx _ IH]; [done|]. cbn [from_le]. unfold zlen in *. cbn [length].
  rewrite Nat2Z.inj_succ, Z.pow_succ_r by lia. lia.
Qed.

Lemma to_from_le b : bytes_ok b → to_le (length b) (from_le b) = b.
Proof.
  induction 1 as [|x b Hx _ IH]; [done|]. cbn [length to_le from_le].
  replace (x + 256 * from_le b) with (x + from_le b * 256) by lia.
  rewrite Z.mod_add, Z.div_add, (Z.div_small x), (Z.mod_small x), Z.add_0_l, IH by lia. done.
Qed.

Lemma from_le_app a b : from_le (a ++ b) = from_le a + 256 ^ zlen a * from_le b.
Proof.
  induction a as [|x a IH]; cbn [app from_le]; [unfold zlen; cbn; lia|]. rewrite IH. unfold zlen. cbn [length].
  replace (Z.of_nat (S (length a))) with (Z.succ (Z.of_nat (length a))) by lia. rewrite Z.pow_succ_r by lia. lia.
Qed.

Lemma from_be_app a b : from_be (a ++ b) = from_be a * 256 ^ zlen b + from_be b.
Proof. unfold from_be. rewrite reverse_app, from_le_app. unfold zlen. rewrite length_reverse. lia. Qed.

Lemma from_be_cons x b : from_be (x :: b) = x * 256 ^ Z.of_nat (length b) + from_be b.
Proof. change (x :: b) with ([x] ++ b). rewrite from_be_app. unfold zlen, from_be. cbn. lia. Qed.

Lemma from_be_range b : bytes_ok b → 0 ≤ from_be b < 256 ^ zlen b.
Proof.
  intros H. unfold from_be. replace (zlen b) with (zlen (reverse b)) by (unfold zlen; by rewrite length_reverse).
  apply from_le_range. by apply Forall_reverse.
Qed.

(** Leading zeros: a number in a wider word. *)
Lemma to_be_zeros w k n : 0 ≤ n < 256 ^ Z.of_nat k → to_be (w + k) n = replicate w 0 ++ to_be k n.
Proof.
  intros Hn. unfold to_be. rewrite Nat.add_comm. rewrite <- (reverse_replicate w), <- reverse_app. f_equal.
  revert n Hn. induction k as [|k IH]; intros n Hn.
  - assert (n = 0) as -> by (cbn in Hn; lia). clear. cbn [Nat.add to_le app].
    induction w as [|w IH]; [done|]. cbn [to_le replicate]. f_equal. exact IH.
  - cbn [Nat.add to_le app]. f_equal. apply IH.
    replace (Z.of_nat (S k)) with (Z.succ (Z.of_nat k)) in Hn by lia. rewrite Z.pow_succ_r in Hn by lia.
    split; [apply Z.div_pos; lia|apply Z.div_lt_upper_bound; lia].
Qed.

Lemma to_from_be b : bytes_ok b → to_be (length b) (from_be b) = b.
Proof.
  intros H. unfold to_be, from_be. rewrite <- (length_reverse b), to_from_le.
  - apply reverse_involutive.
  - by apply Forall_reverse.
Qed.

(** * Order on strings *)

#[export] Instance str_le_dec : RelDecision str_le.
Proof. intros s t. unfold str_le. apply _. Defined.
#[export] Instance str_le_trans : Transitive str_le.
Proof. intros s t u. apply bytes_le_trans. Qed.
#[export] Instance str_le_total : Total str_le.
Proof. intros s t. apply bytes_le_total. Qed.
#[export] Instance str_le_antisym : AntiSymm (=) str_le.
Proof. intros s t H1 H2. apply ords_inj. by apply (anti_symm bytes_le). Qed.

Lemma str_ltb_irrefl s : str_ltb s s = false.
Proof. apply bytes_ltb_irrefl. Qed.
Lemma str_ltb_trans s t u : str_ltb s t = true → str_ltb t u = true → str_ltb s u = true.
Proof. apply bytes_ltb_trans. Qed.
Lemma str_ltb_antisym s t : str_ltb s t = true → str_ltb t s = false.
Proof. apply bytes_ltb_antisym. Qed.
Lemma str_leb_false s t : str_leb s t = false → str_ltb t s = true.
Proof. unfold str_leb, str_ltb. rewrite bytes_ltb_negb_leb. intros ->. done. Qed.

Lemma startswith_app p s : startswith (p ++ s) p = true.
Proof. unfold startswith. rewrite take_app_length. by apply bool_decide_eq_true_2. Qed.
Lemma removeprefix_app p s : removeprefix (p ++ s) p = s.
Proof. unfold removeprefix. by rewrite startswith_app, drop_app_length. Qed.

#[export] Hint Resolve ords_ok to_le_ok to_be_ok str_ltb_irrefl : pylib.

(** * Stripping *)

Lemma drop_while_app_all {A} (p : A → bool) r l :
  Forall (λ x, p x = true) r → drop_while p (r ++ l) = drop_while p l.
Proof. induction 1 as [|x r Hx _ IH]; [done|]. simpl. by rewrite Hx. Qed.

Lemma rstrip_with_app {A} (p : A → bool) l r :
  Forall (λ x, p x = true) r → rstrip_with p (l ++ r) = rstrip_with p l.
Proof.
  intros H. unfold rstrip_with. rewrite reverse_app, drop_while_app_all; [done|]. by apply Forall_reverse.
Qed.

(** White space around a text without white space is removed. *)
Lemma strip_with_around {A} (p : A → bool) l m r :
  Forall (λ x, p x = true) l → Forall (λ x, p x = false) m → Forall (λ x, p x = true) r →
  strip_with p (l ++ m ++ r) = m.
Proof.
  intros Hl Hm Hr. unfold strip_with. rewrite drop_while_app_all by done. destruct m as [|x m].
  - rewrite app_nil_l. rewrite <- (app_nil_r r), drop_while_app_all by done. done.
  - rewrite drop_while_hd by (simpl; by inversion Hm). by rewrite rstrip_with_app, rstrip_with_none.
Qed.

Lemma hexdigit_not_pyspace d : 0 ≤ d < 16 → is_space (hexdigit d) = false.
Proof. intros H. by apply (hexdigit_cases (λ d, is_space (hexdigit d) = false) d H). Qed.

Lemma hex_not_space b : bytes_ok b → Forall (λ c, is_space c = false) (hex b).
Proof.
  induction 1 as [|x b Hx _ IH]; [constructor|]. rewrite hex_cons. destruct (byte_nibbles x Hx).
  repeat constructor; auto using hexdigit_not_pyspace.
Qed.

Lemma str_eq_of_ltb x y : str_ltb x y = false → str_ltb y x = false → x = y.
Proof. unfold str_ltb. intros H1 H2. apply ords_inj. by apply bytes_ltb_total. Qed.
Lemma str_ltb_leb x y : str_leb x y = negb (str_ltb y x).
Proof. unfold str_leb, str_ltb. rewrite bytes_ltb_negb_leb. by rewrite negb_involutive. Qed.
Lemma str_ltb_ne x y : str_ltb x y = true → x ≠ y.
Proof. intros H ->. by rewrite str_ltb_irrefl in H. Qed.
Lemma str_leb_refl x : str_leb x x = true.
Proof. by rewrite str_ltb_leb, str_ltb_irrefl. Qed.
Lemma str_ltb_le x y : str_ltb x y = true → str_leb x y = true.
Proof. intros H. by rewrite str_ltb_leb, (str_ltb_antisym x y). Qed.
Lemma str_leb_trans x y z : str_leb x y = true → str_leb y z = true → str_leb x z = true.
Proof. intros Hx Hy. exact (transitivity (R := str_le) Hx Hy). Qed.
Lemma str_leb_ltb_trans x y z : str_leb x y = true → str_ltb y z = true → str_ltb x z = true.
Proof.
  intros H1 H2. destruct (str_ltb x z) eqn:E; [done|]. assert (str_leb z x = true) as H3 by by rewrite str_ltb_leb, E.
  assert (str_leb z y = true) as H4 by by eapply str_leb_trans. by rewrite str_ltb_leb, H2 in H4.
Qed.
Lemma str_ltb_leb_trans x y z : str_ltb x y = true → str_leb y z = true → str_ltb x z = true.
Proof.
  intros H1 H2. destruct (str_ltb x z) eqn:E; [done|]. assert (str_leb z x = true) as H3 by by rewrite str_ltb_leb, E.
  assert (str_leb y x = true) as H4 by by eapply str_leb_trans. by rewrite str_ltb_leb, H1 in H4.
Qed.

(** * Increasing keys

    [previous is not None and key <= previous], the check of every loop over a
    file sorted by secure key. *)

Definition not_increasing (previous : option str) (key : str) : bool :=
  match previous with Some p => str_leb key p | None => false end.

Definition increasing (keys : list str) : Prop := StronglySorted (λ a b, str_ltb a b = true) keys.

Lemma increasing_snoc keys key :
  increasing keys → not_increasing (last keys) key = false → increasing (keys ++ [key]).
Proof.
  unfold increasing. induction keys as [|k keys IH]; intros Hs Hk; cbn [app]; [repeat constructor|].
  inversion_clear Hs as [|?? Hs' Hall]. destruct keys as [|k' keys].
  - cbn in Hk. apply str_leb_false in Hk. repeat constructor. done.
  - assert (increasing ((k' :: keys) ++ [key])) as Hi by (apply IH; [done|by rewrite last_cons_cons in Hk]).
    constructor; [done|]. apply Forall_app. split; [done|]. constructor; [|constructor].
    assert (∃ m, last (k' :: keys) = Some m ∧ m ∈ k' :: keys) as (m & Hm & Hin).
    { destruct (last (k' :: keys)) as [m|] eqn:E; [|by apply last_None in E]. exists m. split; [done|].
      apply last_Some in E as (l & ->). set_solver. }
    rewrite last_cons_cons, Hm in Hk. cbn in Hk. apply str_leb_false in Hk.
    rewrite Forall_forall in Hall. eapply str_ltb_trans; [by apply Hall|done].
Qed.

Lemma increasing_NoDup keys : increasing keys → NoDup keys.
Proof.
  induction 1 as [|k keys _ IH Hall]; constructor; [|done]. intros Hin. rewrite Forall_forall in Hall.
  specialize (Hall k Hin). cbn in Hall. by rewrite str_ltb_irrefl in Hall.
Qed.
