(* ===== verification/PyDict.v ===== *)
(** Python's [dict] and [sorted]: a dictionary is the list of its items in
    insertion order, an assignment to a present key keeps its place; sorting is
    stable. *)

From S2P Require Import Prelude PyStr.
Local Open Scope Z_scope.

(** * Dictionaries *)

Abbreviation dict K A := (list (K * A)).

Section dict.
Context {K : Type} `{EqDecision K} {A : Type}.
Implicit Types (d : dict K A) (k : K) (v : A).

Fixpoint dget (d : dict K A) (k : K) : option A :=
  match d with
  | [] => None
  | (k', v) :: d => if decide (k = k') then Some v else dget d k
  end.

(** [d[k] = v]. *)
Fixpoint dset (d : dict K A) (k : K) (v : A) : dict K A :=
  match d with
  | [] => [(k, v)]
  | (k', v') :: d => if decide (k = k') then (k', v) :: d else (k', v') :: dset d k v
  end.

Definition dmem (d : dict K A) (k : K) : bool := bool_decide (is_Some (dget d k)).
Definition dkeys (d : dict K A) : list K := fst <$> d.
Definition dvalues (d : dict K A) : list A := snd <$> d.

(** [{k: v for k, v in items}]: a later item replaces an earlier one's value. *)
Definition dict_of (items : list (K * A)) : dict K A := foldl (λ d kv, dset d kv.1 kv.2) [] items.

(** [d[k] = f(d.get(k))]. *)
Definition dupdate (d : dict K A) (k : K) (f : option A → A) : dict K A := dset d k (f (dget d k)).

Lemma dget_None d k : dget d k = None ↔ k ∉ dkeys d.
Proof.
  induction d as [|[k' v] d IH]; [split; [intros _; apply not_elem_of_nil|done]|].
  cbn [dget]. unfold dkeys in *. rewrite fmap_cons, not_elem_of_cons. cbn [fst].
  destruct (decide (k = k')) as [-> |Hne]; [by split; [|intros [? _]]|]. rewrite IH. tauto.
Qed.

Lemma dget_Some_key d k v : dget d k = Some v → k ∈ dkeys d.
Proof. intros H. destruct (decide (k ∈ dkeys d)) as [?|Hn]; [done|]. apply dget_None in Hn. congruence. Qed.

Lemma dget_key d k : k ∈ dkeys d → ∃ v, dget d k = Some v.
Proof. intros H. destruct (dget d k) as [v|] eqn:E; [by exists v|]. by apply dget_None in E. Qed.

Lemma dmem_true d k : dmem d k = true ↔ k ∈ dkeys d.
Proof.
  unfold dmem. rewrite bool_decide_eq_true. split; [intros [v H]; by eapply dget_Some_key|].
  intros [v ->]%dget_key. by eexists.
Qed.

Lemma dmem_false d k : dmem d k = false ↔ k ∉ dkeys d.
Proof. rewrite <- not_true_iff_false, dmem_true. done. Qed.

Lemma dget_Some_elem d k v : dget d k = Some v → (k, v) ∈ d.
Proof.
  induction d as [|[k' v'] d IH]; cbn [dget]; [done|]. destruct (decide (k = k')) as [-> |_].
  - intros [= ->]. by left.
  - intros H. right. by apply IH.
Qed.

Lemma dget_elem d k v : NoDup (dkeys d) → dget d k = Some v ↔ (k, v) ∈ d.
Proof.
  intros Hnd. split; [apply dget_Some_elem|]. induction d as [|[k' v'] d IH]; [by intros ?%not_elem_of_nil|].
  unfold dkeys in *. rewrite fmap_cons in Hnd. apply NoDup_cons in Hnd as [Hk Hnd]. cbn [dget].
  intros [H|H]%elem_of_cons; [simplify_eq/=; by rewrite decide_True|].
  rewrite decide_False; [by apply IH|]. intros ->. apply Hk, list_elem_of_fmap. by exists (k', v).
Qed.

Lemma dget_dset d k v k' : dget (dset d k v) k' = if decide (k' = k) then Some v else dget d k'.
Proof.
  induction d as [|[k0 v0] d IH]; cbn [dset dget]; [done|].
  destruct (decide (k = k0)) as [-> |Hne]; cbn [dget].
  - by destruct (decide (k' = k0)).
  - rewrite IH. destruct (decide (k' = k0)) as [-> |]; [by rewrite decide_False|done].
Qed.

Lemma dset_absent d k v : k ∉ dkeys d → dset d k v = d ++ [(k, v)].
Proof.
  induction d as [|[k0 v0] d IH]; intros H; [done|]. unfold dkeys in *. rewrite fmap_cons, not_elem_of_cons in H.
  destruct H as [H1 H2]. cbn [dset]. cbn [fst] in H1. rewrite decide_False by done. cbn [app]. by rewrite IH.
Qed.

Lemma dkeys_dset d k v : dkeys (dset d k v) = if dmem d k then dkeys d else dkeys d ++ [k].
Proof.
  destruct (dmem d k) eqn:E.
  - apply dmem_true in E. induction d as [|[k0 v0] d IH]; [by apply not_elem_of_nil in E|].
    unfold dkeys in *. cbn [dset]. destruct (decide (k = k0)) as [-> |Hne]; [done|].
    rewrite !fmap_cons. f_equal. apply IH. rewrite fmap_cons in E. apply elem_of_cons in E as [E|E]; [done|done].
  - apply dmem_false in E. rewrite dset_absent by done. unfold dkeys. by rewrite fmap_app.
Qed.

Lemma NoDup_dset d k v : NoDup (dkeys d) → NoDup (dkeys (dset d k v)).
Proof.
  intros H. rewrite dkeys_dset. destruct (dmem d k) eqn:E; [done|]. apply dmem_false in E.
  apply NoDup_app. split_and!; [done| |apply NoDup_singleton]. intros x Hx ->%list_elem_of_singleton. done.
Qed.

Lemma elem_of_dkeys_dset d k v k' : k' ∈ dkeys (dset d k v) ↔ k' = k ∨ k' ∈ dkeys d.
Proof.
  rewrite dkeys_dset. destruct (dmem d k) eqn:E; [apply dmem_true in E; split; [by right|by intros [-> |]]|].
  rewrite elem_of_app, list_elem_of_singleton. tauto.
Qed.

Lemma NoDup_dict_of_aux items d : NoDup (dkeys d) → NoDup (dkeys (foldl (λ d kv, dset d kv.1 kv.2) d items)).
Proof. revert d. induction items as [|[k v] items IH]; intros d H; [done|]. apply IH. by apply NoDup_dset. Qed.

Lemma NoDup_dict_of items : NoDup (dkeys (dict_of items)).
Proof. apply NoDup_dict_of_aux. constructor. Qed.

Lemma dict_of_nodup_aux items d :
  NoDup (dkeys d ++ (fst <$> items)) → foldl (λ d kv, dset d kv.1 kv.2) d items = d ++ items.
Proof.
  revert d. induction items as [|[k v] items IH]; intros d H; [by rewrite app_nil_r|].
  cbn [foldl fst snd]. rewrite fmap_cons in H. cbn [fst] in H.
  assert (k ∉ dkeys d) as Hk.
  { intros Hin. apply NoDup_app in H as (_ & H & _). apply (H k Hin). by left. }
  rewrite dset_absent by done. rewrite IH; [by rewrite <- app_assoc|].
  unfold dkeys in *. rewrite fmap_app. cbn [fmap list_fmap fst]. by rewrite <- app_assoc.
Qed.

Lemma dict_of_nodup items : NoDup (fst <$> items) → dict_of items = items.
Proof. intros H. unfold dict_of. by rewrite dict_of_nodup_aux. Qed.

Lemma elem_of_dkeys_dict_of items k : k ∈ dkeys (dict_of items) ↔ k ∈ fst <$> items.
Proof.
  unfold dict_of. assert (∀ d, k ∈ dkeys (foldl (λ d kv, dset d kv.1 kv.2) d items) ↔ k ∈ dkeys d ∨ k ∈ fst <$> items) as H.
  { induction items as [|[k0 v0] items IH]; intros d; [set_solver|]. cbn [foldl fst snd]. rewrite IH, elem_of_dkeys_dset.
    rewrite fmap_cons, elem_of_cons. cbn [fst]. tauto. }
  rewrite H. unfold dkeys. set_solver.
Qed.

(** An entry changes a total by the difference of its values. *)
Lemma zsum_with_dset (f : A → Z) d k v :
  zsum_with f (dvalues (dset d k v))
  = zsum_with f (dvalues d) + f v - match dget d k with Some v' => f v' | None => 0 end.
Proof.
  unfold dvalues. induction d as [|[k0 v0] d IH]; cbn [dset dget].
  - unfold zsum_with. simpl. lia.
  - destruct (decide (k = k0)); rewrite !fmap_cons, !zsum_with_cons; cbn [snd]; [lia|]. rewrite IH. lia.
Qed.

End dict.

(** * Sorting *)

Section sort.
Context {A : Type} (leb : A → A → bool).

Fixpoint insert_by (x : A) (l : list A) : list A :=
  match l with
  | [] => [x]
  | y :: l' => if leb x y then x :: y :: l' else y :: insert_by x l'
  end.

Definition sort_by (l : list A) : list A := foldr insert_by [] l.

Lemma insert_by_perm x l : insert_by x l ≡ₚ x :: l.
Proof.
  induction l as [|y l IH]; [done|]. cbn [insert_by]. destruct (leb x y); [done|]. rewrite IH. constructor.
Qed.

Lemma sort_by_perm l : sort_by l ≡ₚ l.
Proof. induction l as [|x l IH]; [done|]. cbn [sort_by foldr]. rewrite insert_by_perm. by constructor. Qed.

Definition le_of (x y : A) : Prop := leb x y = true.
Hypothesis total : ∀ x y, leb x y = false → leb y x = true.
Hypothesis trans : ∀ x y z, leb x y = true → leb y z = true → leb x z = true.

Lemma insert_by_sorted x l : StronglySorted le_of l → StronglySorted le_of (insert_by x l).
Proof.
  induction 1 as [|y l Hl IH Hy]; cbn [insert_by]; [repeat constructor|].
  destruct (leb x y) eqn:E.
  - constructor; [by constructor|]. constructor; [done|]. eapply Forall_impl; [exact Hy|].
    intros z Hz. unfold le_of in *. by apply (trans x y z).
  - constructor; [done|]. apply Forall_forall. intros z Hz. rewrite insert_by_perm in Hz.
    apply elem_of_cons in Hz as [-> |Hz]; [by apply total|]. rewrite Forall_forall in Hy. by apply Hy.
Qed.

Lemma sort_by_sorted l : StronglySorted le_of (sort_by l).
Proof. induction l as [|x l IH]; [constructor|]. by apply insert_by_sorted. Qed.

End sort.

(** [sorted(l, key=key)] for text and integer keys. *)
Definition sort_str {A} (key : A → str) (l : list A) : list A := sort_by (λ x y, str_leb (key x) (key y)) l.
Definition sort_int {A} (key : A → Z) (l : list A) : list A := sort_by (λ x y, key x <=? key y) l.
(** Keys that are pairs of an integer and a text. *)
Definition pair_leb (a b : Z * str) : bool := (a.1 <? b.1) || ((a.1 =? b.1) && str_leb a.2 b.2).
Definition sort_pair {A} (key : A → Z * str) (l : list A) : list A := sort_by (λ x y, pair_leb (key x) (key y)) l.

Lemma sort_str_perm {A} (key : A → str) l : sort_str key l ≡ₚ l.
Proof. apply sort_by_perm. Qed.
Lemma sort_pair_perm {A} (key : A → Z * str) l : sort_pair key l ≡ₚ l.
Proof. apply sort_by_perm. Qed.
Lemma sort_int_perm {A} (key : A → Z) l : sort_int key l ≡ₚ l.
Proof. apply sort_by_perm. Qed.

Lemma sort_str_sorted {A} (key : A → str) l : StronglySorted (λ x y, str_le (key x) (key y)) (sort_str key l).
Proof.
  apply sort_by_sorted.
  - intros x y H. destruct (total str_le (key x) (key y)) as [Hc|Hc]; [|exact Hc].
    unfold str_le, bytes_le in Hc. unfold str_leb in H. congruence.
  - intros x y z Hx Hy. exact (transitivity (R := str_le) Hx Hy).
Qed.

Lemma pair_leb_total a b : pair_leb a b = false → pair_leb b a = true.
Proof.
  unfold pair_leb. destruct (Z.ltb_spec a.1 b.1), (Z.eqb_spec a.1 b.1), (Z.ltb_spec b.1 a.1), (Z.eqb_spec b.1 a.1); try lia; cbn; try done.
  intros Hl. destruct (total str_le a.2 b.2) as [Hc|Hc]; [|exact Hc].
  unfold str_le, bytes_le in Hc. unfold str_leb in Hl. congruence.
Qed.

Lemma pair_leb_trans a b c : pair_leb a b = true → pair_leb b c = true → pair_leb a c = true.
Proof.
  unfold pair_leb. rewrite !orb_true_iff, !andb_true_iff, !Z.ltb_lt, !Z.eqb_eq.
  intros [?|[? Hab]] [?|[? Hbc]]; [left; lia..|]. right. split; [lia|].
  exact (transitivity (R := str_le) Hab Hbc).
Qed.

Lemma sort_pair_sorted {A} (key : A → Z * str) l :
  StronglySorted (λ x y, pair_leb (key x) (key y) = true) (sort_pair key l).
Proof.
  apply sort_by_sorted.
  - intros x y. apply pair_leb_total.
  - intros x y z. apply pair_leb_trans.
Qed.

(** * Counters

    [for c in cs: t[c] += f(c)], for a dictionary of totals. *)

Definition add_key (f : str → result Z) (t : dict str Z) (c : str) : result (dict str Z) :=
  v ← f c; x ← of_option (dget t c) (KeyError c); Ok (dset t c (x + v)).
Definition add_keys (f : str → result Z) (t : dict str Z) (cs : list str) : result (dict str Z) := foldM (add_key f) t cs.

Lemma add_keys_spec f cs t t' :
  NoDup cs → add_keys f t cs = Ok t' →
  ∀ c x, dget t c = Some x → dget t' c = Some (if decide (c ∈ cs) then x + from_ok 0 (f c) else x).
Proof.
  intros Hnd. unfold add_keys. revert t. induction Hnd as [|c0 cs Hc0 _ IH]; intros t H c x Hx; cbn [foldM] in H.
  - inv_ok. subst. by rewrite decide_False by set_solver.
  - inv_ok. unfold add_key in E. inv_ok. subst a. rewrite (IH _ H c (if decide (c = c0) then x + from_ok 0 (f c) else x)).
    + f_equal. destruct (decide (c = c0)) as [-> |Hne]; repeat case_decide; set_solver.
    + rewrite dget_dset. destruct (decide (c = c0)) as [-> |]; [|done]. f_equal.
      match goal with H : f c0 = Ok _ |- _ => rewrite H end. cbn. congruence.
Qed.

(** Looking up every key of a larger list adds up the values. *)
Lemma dict_total (d : dict str Z) ks :
  NoDup (dkeys d) → NoDup ks → (∀ k, k ∈ dkeys d → k ∈ ks) → zsum_with (λ a, default 0 (dget d a)) ks = zsum (dvalues d).
Proof.
  intros Hd Hks. induction d as [|[k v] d IH]; intros Hin; [by apply zsum_with_zero, Forall_forall|].
  apply NoDup_cons in Hd as [Hk Hd]. change (zsum (dvalues ((k, v) :: d))) with (v + zsum (dvalues d)). rewrite <- IH; [|done|intros; apply Hin; by right].
  rewrite <- (zsum_with_point k v ks) at 1 by (done || (apply Hin; left)). rewrite <- zsum_with_add.
  apply zsum_with_ext, Forall_forall. intros a _. cbn [dget]. change (k ∉ dkeys d) in Hk. apply dget_None in Hk. repeat case_decide; subst; try done. rewrite Hk. cbn. lia.
Qed.
