(* ===== verification/Csv.v ===== *)
(** Python's [csv] module as the tools use it: the reader of the default (excel)
    dialect over a file opened with [newline=""], the writer with
    [lineterminator="\n"], and [csv.DictReader]'s rows.

    Shown here: what the writer writes, the reader reads back, whatever commas,
    quotes and line feeds the fields hold. *)

From S2P Require Import Prelude PyStr.
Local Open Scope Z_scope.

(** * The reader *)

Definition LF : ascii := chr 10.
Definition CR : ascii := chr 13.
Definition QUOTE : ascii := chr 34.
Definition COMMA : ascii := ","%char.

Inductive rstate := StartRecord | StartField | InField | InQuoted | QuoteInQuoted.

Definition end_record (st : rstate) (field : str) (rec : list str) : list str :=
  match st with StartRecord => [] | _ => rec ++ [field] end.

(** The characters are taken one at a time; [field] and [rec] hold what the
    record has so far.  An unquoted line end closes it, "\r\n" being one. *)
Fixpoint csv_scan (s : str) (st : rstate) (field : str) (rec : list str) : list (list str) :=
  match s with
  | [] => match st with StartRecord => [] | _ => [rec ++ [field]] end
  | c :: s' =>
      match st with
      | InQuoted =>
          if bool_decide (c = QUOTE) then csv_scan s' QuoteInQuoted field rec
          else csv_scan s' InQuoted (field ++ [c]) rec
      | _ =>
          if bool_decide (c = LF) then end_record st field rec :: csv_scan s' StartRecord [] []
          else if bool_decide (c = CR) then
            end_record st field rec ::
            csv_scan (match s' with
                      | d :: s'' => if bool_decide (d = LF) then s'' else s'
                      | [] => s' end) StartRecord [] []
          else if bool_decide (c = COMMA) then csv_scan s' StartField [] (rec ++ [field])
          else match st with
               | QuoteInQuoted =>
                   if bool_decide (c = QUOTE) then csv_scan s' InQuoted (field ++ [c]) rec
                   else csv_scan s' InField (field ++ [c]) rec
               | InField => csv_scan s' InField (field ++ [c]) rec
               | _ =>
                   if bool_decide (c = QUOTE) then csv_scan s' InQuoted field rec
                   else csv_scan s' InField (field ++ [c]) rec
               end
      end
  end.

Definition csv_read (text : str) : list (list str) := csv_scan text StartRecord [] [].

(** * The writer *)

Definition needs_quotes (f : str) : bool :=
  existsb (λ c, bool_decide (c = COMMA) || bool_decide (c = QUOTE) || bool_decide (c = LF)) f.

Definition double_quotes (f : str) : str :=
  concat ((λ c, if bool_decide (c = QUOTE) then [c; c] else [c]) <$> f).

Definition csv_field (f : str) : str :=
  if needs_quotes f then [QUOTE] ++ double_quotes f ++ [QUOTE] else f.

Definition csv_record (r : list str) : str :=
  (if bool_decide (r = [[]]) then [QUOTE; QUOTE] else join [COMMA] (csv_field <$> r)) ++ [LF].

Definition csv_write (rows : list (list str)) : str := concat (csv_record <$> rows).

(** * Rows as dictionaries *)

Abbreviation row := (gmap str str).

Definition row_of (header record : list str) : row :=
  foldl (λ m kv, <[kv.1 := kv.2]> m) ∅ (zip header record).

(** [list(csv.DictReader(file))] and its [fieldnames], for files whose records
    all have the header's length; empty lines are skipped. *)
Definition dict_read (text : str) : option (list str) * list row :=
  match csv_read text with
  | [] => (None, [])
  | header :: records => (Some header, row_of header <$> filter (λ r, r ≠ []) records)
  end.

(** [row[key]]. *)
Definition cell (r : row) (key : str) : result str := of_option (r !! key) (KeyError key).
(** [row.get(key, default)]. *)
Definition cell_or (r : row) (key default_ : str) : str := default default_ (r !! key).

(** [int(row[key])]. *)
Definition int_cell (r : row) (key : str) : result Z := v ← cell r key; py_int v.
(** [int(row.get(key, "0") or 0)]. *)
Definition int_cell_or_0 (r : row) (key : str) : result Z :=
  match cell_or r key "0"%string with [] => Ok 0 | v => py_int v end.

(** [required <= set(reader.fieldnames or ())]. *)
Definition has_fields (required : list str) (fieldnames : option (list str)) : bool :=
  forallb (λ f, bool_decide (f ∈ default [] fieldnames)) required.

(** What [csv.DictWriter] writes for a row with the given fields. *)
Definition dict_record (fields : list str) (r : row) : list str := (λ k, cell_or r k []) <$> fields.

(** * The round trip *)

Definition start (st : rstate) : Prop := st = StartRecord ∨ st = StartField.

Lemma scan_in_field f t field rec :
  Forall (λ c, c ≠ LF ∧ c ≠ CR ∧ c ≠ COMMA) f →
  csv_scan (f ++ t) InField field rec = csv_scan t InField (field ++ f) rec.
Proof.
  intros H. revert field. induction H as [|c f (H1 & H2 & H3) _ IH]; intros field; [by rewrite app_nil_r|].
  cbn [app csv_scan]. rewrite !bool_decide_eq_false_2 by done. rewrite IH. by rewrite <- app_assoc.
Qed.

Lemma scan_quoted f t field rec :
  csv_scan (double_quotes f ++ t) InQuoted field rec = csv_scan t InQuoted (field ++ f) rec.
Proof.
  revert field. induction f as [|c f IH]; intros field; [by rewrite app_nil_r|].
  unfold double_quotes in *. cbn [fmap list_fmap concat]. destruct (bool_decide_reflect (c = QUOTE)) as [-> |Hc].
  - cbn [app csv_scan]. rewrite !(bool_decide_eq_true_2 (QUOTE = QUOTE)) by done.
    change (bool_decide (QUOTE = LF)) with false. change (bool_decide (QUOTE = CR)) with false.
    change (bool_decide (QUOTE = COMMA)) with false. cbn iota. rewrite IH. by rewrite <- app_assoc.
  - cbn [app csv_scan]. rewrite bool_decide_eq_false_2 by done. rewrite IH. by rewrite <- app_assoc.
Qed.

(** Reading one written field up to the state its last character leaves. *)
Inductive field_end (st : rstate) (f : str) : rstate → Prop :=
  | fe_empty : f = [] → field_end st f st
  | fe_plain : f ≠ [] → field_end st f InField
  | fe_quoted : field_end st f QuoteInQuoted.

Lemma scan_field st f t rec :
  start st → CR ∉ f → ∃ st', field_end st f st' ∧ csv_scan (csv_field f ++ t) st [] rec = csv_scan t st' f rec.
Proof.
  intros Hst Hcr. unfold csv_field. destruct (needs_quotes f) eqn:Eq.
  - exists QuoteInQuoted. split; [constructor|]. rewrite <- !app_assoc. cbn [app csv_scan].
    change (bool_decide (QUOTE = LF)) with false. change (bool_decide (QUOTE = CR)) with false.
    change (bool_decide (QUOTE = COMMA)) with false. rewrite (bool_decide_eq_true_2 (QUOTE = QUOTE)) by done.
    destruct Hst as [-> | ->]; cbn iota; rewrite scan_quoted; cbn [app csv_scan];
      by rewrite (bool_decide_eq_true_2 (QUOTE = QUOTE)).
  - assert (Forall (λ c, (c ≠ LF ∧ c ≠ CR ∧ c ≠ COMMA) ∧ c ≠ QUOTE) f) as Hf.
    { clear Hst. unfold needs_quotes in Eq. induction f as [|c f IH]; [constructor|]. cbn [existsb] in Eq.
      apply orb_false_elim in Eq as [Hc Eq]. apply orb_false_elim in Hc as [Hc Hlf].
      apply orb_false_elim in Hc as [Hco Hq]. apply not_elem_of_cons in Hcr as [Hcr Hcr'].
      apply bool_decide_eq_false_1 in Hlf, Hco, Hq. constructor; [done|by apply IH]. }
    destruct Hf as [|c f [(H1 & H2 & H3) H4] Hf]; [exists st; split; [by constructor|done]|].
    exists InField. split; [by constructor|]. cbn [app csv_scan]. rewrite !bool_decide_eq_false_2 by done.
    assert (csv_scan (f ++ t) InField [c] rec = csv_scan t InField (c :: f) rec) as E.
    { rewrite scan_in_field; [done|]. eapply Forall_impl; [exact Hf|]. by intros x [? _]. }
    by destruct Hst as [-> | ->].
Qed.

Lemma scan_comma st st' f t rec :
  start st → field_end st f st' → csv_scan (COMMA :: t) st' f rec = csv_scan t StartField [] (rec ++ [f]).
Proof.
  intros Hst He. cbn [csv_scan]. change (bool_decide (COMMA = LF)) with false. change (bool_decide (COMMA = CR)) with false.
  change (bool_decide (COMMA = COMMA)) with true. destruct He as [-> | |], Hst as [-> | ->]; done.
Qed.

Lemma scan_lf st st' f t rec :
  start st → (st = StartRecord → f ≠ []) → field_end st f st' →
  csv_scan (LF :: t) st' f rec = (rec ++ [f]) :: csv_scan t StartRecord [] [].
Proof.
  intros Hst Hne He. cbn [csv_scan]. rewrite (bool_decide_eq_true_2 (LF = LF)) by done.
  destruct He as [-> | |], Hst as [-> | ->]; try done. by specialize (Hne eq_refl).
Qed.

Lemma scan_fields st f fs t rec :
  start st → (st = StartRecord → f :: fs ≠ [[]]) → Forall (λ f, CR ∉ f) (f :: fs) →
  csv_scan (join [COMMA] (csv_field <$> (f :: fs)) ++ LF :: t) st [] rec = (rec ++ f :: fs) :: csv_scan t StartRecord [] [].
Proof.
  revert st f rec. induction fs as [|g fs IH]; intros st f rec Hst Hne Hcr; inversion_clear Hcr as [|?? Hf Hcr'].
  - cbn [fmap list_fmap join]. destruct (scan_field st f (LF :: t) rec Hst Hf) as (st' & He & ->).
    eapply scan_lf; try done. intros E ->. by apply Hne.
  - change (join [COMMA] (csv_field <$> (f :: g :: fs)))
      with (csv_field f ++ [COMMA] ++ join [COMMA] (csv_field <$> (g :: fs))).
    rewrite <- !app_assoc. destruct (scan_field st f ([COMMA] ++ join [COMMA] (csv_field <$> (g :: fs)) ++ LF :: t) rec Hst Hf) as (st' & He & ->).
    change ([COMMA] ++ join [COMMA] (csv_field <$> (g :: fs)) ++ LF :: t) with (COMMA :: (join [COMMA] (csv_field <$> (g :: fs)) ++ LF :: t)).
    rewrite (scan_comma st) by done. rewrite IH; [by rewrite <- app_assoc|by right|done|done].
Qed.

Lemma scan_record r t :
  r ≠ [] → Forall (λ f, CR ∉ f) r → csv_scan (csv_record r ++ t) StartRecord [] [] = r :: csv_scan t StartRecord [] [].
Proof.
  intros Hne Hcr. unfold csv_record. rewrite <- app_assoc. cbn [app].
  destruct (bool_decide_reflect (r = [[]])) as [-> |Hr]; [done|]. destruct r as [|f fs]; [done|].
  rewrite scan_fields; [done|by left|done|done].
Qed.

Definition clean_record (r : list str) : Prop := r ≠ [] ∧ Forall (λ f, CR ∉ f) r.

Lemma csv_read_write rows : Forall clean_record rows → csv_read (csv_write rows) = rows.
Proof.
  intros H. unfold csv_read, csv_write. induction H as [|r rows [Hne Hcr] _ IH]; [done|].
  cbn [fmap list_fmap concat]. rewrite scan_record by done. by f_equal.
Qed.

Lemma csv_examples :
  csv_read ("a,b" ++ String.String LF (String.String QUOTE "x,y")  )%string = [["a"%string : str; "b"%string : str]; ["x,y"%string : str]] ∧
  csv_write [["1"%string : str; "a,b"%string : str]; [[]]]
  = (["1"; ","]%char ++ [QUOTE] ++ "a,b"%string ++ [QUOTE; LF; QUOTE; QUOTE; LF]).
Proof. by vm_compute. Qed.

(** * What a cell that was read held *)

(** The number of a column, 0 where the column holds none. *)
Definition num (r : row) (key : str) : Z := from_ok 0 (int_cell r key).
Definition num0 (r : row) (key : str) : Z := from_ok 0 (int_cell_or_0 r key).

Lemma int_cell_num r key v : int_cell r key = Ok v → num r key = v.
Proof. unfold num. by intros ->. Qed.
Lemma int_cell_or_0_num r key v : int_cell_or_0 r key = Ok v → num0 r key = v.
Proof. unfold num0. by intros ->. Qed.
Lemma cell_cell_or r key d v : cell r key = Ok v → cell_or r key d = v.
Proof. unfold cell, cell_or. by destruct (r !! key); [intros [= ->]|]. Qed.

(** Names the numbers read from a row in the hypotheses and in the goal. *)
Ltac cells :=
  repeat match goal with
  | H : int_cell ?r ?k = Ok ?v |- _ => apply int_cell_num in H
  | H : int_cell_or_0 ?r ?k = Ok ?v |- _ => apply int_cell_or_0_num in H
  end.
