(* ===== verification/Keccak.v ===== *)
(** Keccak-256 as written in airdrop/tools/common.py (and, word for word, in
    toolkit/scripts/contract-review/contract_review_lib.py): the permutation on
    25 lanes of 64 bits, the sponge with Ethereum's 0x01 padding, and the
    bit-level specification of the permutation (FIPS 202) it implements. *)

From S2P Require Import Prelude PyStr.
Local Open Scope Z_scope.

(** * The code *)

Definition KECCAK_RC : list Z := [
  0x0000000000000001; 0x0000000000008082; 0x800000000000808A; 0x8000000080008000;
  0x000000000000808B; 0x0000000080000001; 0x8000000080008081; 0x8000000000008009;
  0x000000000000008A; 0x0000000000000088; 0x0000000080008009; 0x000000008000000A;
  0x000000008000808B; 0x800000000000008B; 0x8000000000008089; 0x8000000000008003;
  0x8000000000008002; 0x8000000000000080; 0x000000000000800A; 0x800000008000000A;
  0x8000000080008081; 0x8000000000008080; 0x0000000080000001; 0x8000000080008008].

Definition KECCAK_ROT : list (list Z) := [
  [0; 36; 3; 41; 18];
  [1; 44; 10; 45; 2];
  [62; 6; 43; 15; 61];
  [28; 55; 25; 21; 56];
  [27; 20; 39; 8; 14]].

Definition MASK64 : Z := Z.shiftl 1 64 - 1.

Definition rotl64 (value shift : Z) : Z :=
  let shift := shift mod 64 in
  Z.land (Z.lor (Z.shiftl value shift) (Z.shiftr value (64 - shift))) MASK64.

(** The column parities [c] and the words [d] added to every column. *)
Definition theta_c (state : list Z) : list Z :=
  (λ x : nat, Z.lxor (Z.lxor (Z.lxor (Z.lxor (state !!! x) (state !!! (x + 5)%nat))
     (state !!! (x + 10)%nat)) (state !!! (x + 15)%nat)) (state !!! (x + 20)%nat)) <$> seq 0 5.
Definition theta_d (c : list Z) : list Z :=
  (λ x : nat, Z.lxor (c !!! Z.to_nat ((Z.of_nat x - 1) mod 5)) (rotl64 (c !!! ((x + 1) mod 5)%nat) 1))
  <$> seq 0 5.

(** [for x in range(5): for y in range(5): b[...] = ...]. *)
Definition rho_pi (state : list Z) : list Z :=
  foldl (λ b x, foldl (λ b y,
      <[(y + 5 * ((2 * x + 3 * y) mod 5))%nat :=
          rotl64 (state !!! (x + 5 * y)%nat) ((KECCAK_ROT !!! x) !!! y)]> b) b (seq 0 5))
    (replicate 25 0) (seq 0 5).

Definition chi (b : list Z) : list Z :=
  (λ i : nat, Z.lxor (b !!! i)
     (Z.land (Z.lnot (b !!! ((i mod 5 + 1) mod 5 + 5 * (i / 5))%nat))
             (b !!! ((i mod 5 + 2) mod 5 + 5 * (i / 5))%nat))) <$> seq 0 25.

Definition keccak_round (state : list Z) (round_constant : Z) : list Z :=
  let c := theta_c state in
  let d := theta_d c in
  let state := (λ i : nat, Z.lxor (state !!! i) (d !!! (i mod 5)%nat)) <$> seq 0 25 in
  let b := rho_pi state in
  let state := chi b in
  <[0%nat := Z.lxor (state !!! 0%nat) round_constant]> state.

Definition keccak_f (state : list Z) : list Z := foldl keccak_round state KECCAK_RC.

Definition rate : nat := 136.

(** [while len(padded) % rate: padded.append(0x00)]; at most [rate - 1] rounds. *)
Fixpoint pad_zeros (fuel : nat) (padded : bytes) : bytes :=
  match fuel with
  | O => padded
  | S fuel =>
      if (length padded mod rate =? 0)%nat then padded else pad_zeros fuel (padded ++ [0])
  end.

Definition keccak_pad (data : bytes) : bytes :=
  let padded := pad_zeros rate (data ++ [0x01]) in
  alter (λ x, Z.lor x 0x80) (length padded - 1)%nat padded.

Definition absorb_block (state : list Z) (block : bytes) : list Z :=
  foldl (λ state i, <[i := Z.lxor (state !!! i) (from_le (slice block (8 * i) (8 * i + 8)))]> state)
    state (seq 0 (rate / 8)).

Definition keccak256_pure (data : bytes) : bytes :=
  let padded := keccak_pad data in
  let state := foldl (λ state offset,
      keccak_f (absorb_block state (slice padded offset (offset + rate))))
    (replicate 25 0) (range_step (length padded) rate) in
  take 32 (concat ((λ i : nat, to_le 8 (state !!! i)) <$> seq 0 4)).

(** The pure version is the reference; pycryptodome only replaces it for speed. *)
Definition keccak256 : bytes → bytes := keccak256_pure.

(** * The specification: FIPS 202, section 3.2, on bits [A x y z] *)

Definition bits := nat → nat → Z → bool.

Definition spec_parity (A : bits) (x : nat) (z : Z) : bool :=
  xorb (xorb (xorb (xorb (A x 0%nat z) (A x 1%nat z)) (A x 2%nat z)) (A x 3%nat z)) (A x 4%nat z).
Definition spec_theta (A : bits) : bits := λ x y z,
  xorb (A x y z) (xorb (spec_parity A ((x + 4) mod 5) z)
                       (spec_parity A ((x + 1) mod 5) ((z - 1) mod 64))).

(** The walk [(x, y) := (y, 2x + 3y)] from [(1, 0)] with offset [(t+1)(t+2)/2] at step [t]. *)
Fixpoint rho_walk (n : nat) (t : Z) (x y : nat) : list (nat * nat * Z) :=
  match n with
  | O => []
  | S n => (x, y, (t + 1) * (t + 2) / 2) :: rho_walk n (t + 1) y ((2 * x + 3 * y) mod 5)
  end.
Definition rho_offset (x y : nat) : Z :=
  match list_find (λ p, p.1 = (x, y)) (rho_walk 24 0 1 0) with
  | Some (_, p) => p.2
  | None => 0
  end.
Definition spec_rho (A : bits) : bits := λ x y z, A x y ((z - rho_offset x y) mod 64).
Definition spec_pi (A : bits) : bits := λ x y z, A ((x + 3 * y) mod 5)%nat x z.
Definition spec_chi (A : bits) : bits := λ x y z,
  xorb (A x y z) (negb (A ((x + 1) mod 5)%nat y z) && A ((x + 2) mod 5)%nat y z).

(** The round constants' linear feedback shift register (algorithm 5). *)
Definition lfsr_step (R : list bool) : list bool :=
  let R := false :: R in
  let r8 := nth 8 R false in
  take 8 (imap (λ i b, if bool_decide (i ∈ [0; 4; 5; 6]%nat) then xorb b r8 else b) R).
Definition spec_rc (t : nat) : bool :=
  nth 0 (Nat.iter (t mod 255) lfsr_step [true; false; false; false; false; false; false; false]) false.
Definition spec_RC (ir : nat) (z : Z) : bool :=
  existsb (λ j : nat, if z =? 2 ^ Z.of_nat j - 1 then spec_rc (j + 7 * ir) else false) (seq 0 7).
Definition spec_iota (ir : nat) (A : bits) : bits := λ x y z,
  if bool_decide (x = 0%nat ∧ y = 0%nat) then xorb (A x y z) (spec_RC ir z) else A x y z.
Definition spec_round (A : bits) (ir : nat) : bits :=
  spec_iota ir (spec_chi (spec_pi (spec_rho (spec_theta A)))).
Definition spec_keccak_f (A : bits) : bits := foldl spec_round A (seq 0 24).

(** What the code's state of 25 lanes means. *)
Definition lanes (state : list Z) : bits := λ x y z, Z.testbit (state !!! (x + 5 * y)%nat) z.
Definition lane (v : Z) : Prop := 0 ≤ v < 2 ^ 64.
Definition lanes_ok (state : list Z) : Prop := length state = 25%nat ∧ Forall lane state.

(** Equality of bit states on the coordinates that exist. *)
Definition bits_eq (A B : bits) : Prop :=
  ∀ x y z, (x < 5)%nat → (y < 5)%nat → 0 ≤ z < 64 → A x y z = B x y z.

(** [data] followed by a 1 bit, zeros and a final 1 bit, up to a whole block. *)
Definition pad10star1 (data : bytes) : bytes :=
  let gap := (rate - length data mod rate)%nat in
  data ++ match gap with
          | 1%nat => [0x81]
          | _ => [0x01] ++ replicate (gap - 2) 0 ++ [0x80]
          end.

(** * Lanes *)

Lemma lane_bits v : lane v ↔ 0 ≤ v ∧ ∀ i, 64 ≤ i → Z.testbit v i = false.
Proof.
  unfold lane. split.
  - intros [H0 H1]. split; [done|]. intros i Hi.
    rewrite <- (Z.mod_small v (2 ^ 64)) by lia. by apply Z.mod_pow2_bits_high.
  - intros [H0 H]. split; [done|].
    assert (v mod 2 ^ 64 = v) as <-; [|apply Z.mod_pos_bound; lia].
    apply Z.bits_inj'. intros i Hi. destruct (Z.lt_ge_cases i 64).
    + by apply Z.mod_pow2_bits_low.
    + rewrite Z.mod_pow2_bits_high by lia. by rewrite H.
Qed.

Lemma lane_high v i : lane v → 64 ≤ i → Z.testbit v i = false.
Proof. intros H%lane_bits. by apply H. Qed.

Lemma lane_lxor a b : lane a → lane b → lane (Z.lxor a b).
Proof.
  intros Ha Hb. apply lane_bits. split; [apply Z.lxor_nonneg; unfold lane in *; lia|].
  intros i Hi. by rewrite Z.lxor_spec, !lane_high.
Qed.

Lemma lane_land_r a b : lane b → lane (Z.land a b).
Proof.
  intros Hb. apply lane_bits. split; [apply Z.land_nonneg; unfold lane in *; lia|].
  intros i Hi. by rewrite Z.land_spec, (lane_high b), andb_false_r.
Qed.

Lemma lane_0 : lane 0.
Proof. unfold lane. lia. Qed.

Lemma MASK64_lane : lane MASK64.
Proof. by vm_compute. Qed.

Lemma lane_rotl64 v s : lane (rotl64 v s).
Proof. apply lane_land_r, MASK64_lane. Qed.

Lemma lane_lookup_total state i : Forall lane state → lane (state !!! i).
Proof.
  intros H. rewrite list_lookup_total_alt. destruct (state !! i) eqn:E; simpl; [|by vm_compute].
  by eapply (Forall_lookup_1 lane).
Qed.

Lemma lane_from_le b : bytes_ok b → (length b ≤ 8)%nat → lane (from_le b).
Proof.
  intros Hb Hl. pose proof (from_le_range b Hb) as H. unfold lane, zlen in *.
  assert (256 ^ Z.of_nat (length b) ≤ 256 ^ 8) by (apply Z.pow_le_mono_r; lia).
  change (2 ^ 64) with (256 ^ 8). lia.
Qed.

Create HintDb keccak.
#[export] Hint Resolve lane_lxor lane_land_r lane_0 lane_rotl64 lane_lookup_total : keccak.

(** A rotation moves bit [z - s] to bit [z]. *)
Lemma testbit_rotl64 v s z :
  lane v → 0 ≤ z < 64 → Z.testbit (rotl64 v s) z = Z.testbit v ((z - s) mod 64).
Proof.
  intros Hv Hz. unfold rotl64. rewrite Z.land_spec, Z.lor_spec.
  change MASK64 with (Z.ones 64). rewrite Z.ones_spec_low, andb_true_r by lia.
  rewrite Z.shiftl_spec, Z.shiftr_spec by lia.
  pose proof (Z.mod_pos_bound s 64 ltac:(lia)) as Hs.
  rewrite Zminus_mod, (Z.mod_small z) by lia.
  set (r := s mod 64) in *. destruct (Z.lt_ge_cases z r).
  - rewrite (Z.testbit_neg_r _ (z - r)) by lia. simpl. f_equal.
    apply (Z.mod_unique _ _ (-1)); lia.
  - rewrite (lane_high v (z + (64 - r))), orb_false_r by (done || lia). f_equal.
    symmetry. apply Z.mod_small. lia.
Qed.

(** * The round *)

Lemma seq_fmap_total {A} `{Inhabited A} (f : nat → A) n i :
  (i < n)%nat → (f <$> seq 0 n) !!! i = f i.
Proof.
  intros Hi. apply list_lookup_total_correct. rewrite list_lookup_fmap.
  by rewrite lookup_seq_lt.
Qed.

Lemma Forall_seq_fmap {A} (P : A → Prop) (f : nat → A) n : (∀ i, P (f i)) → Forall P (f <$> seq 0 n).
Proof. intros H. apply Forall_fmap, Forall_true. intros i. apply H. Qed.

Lemma length_rho_pi state : length (rho_pi state) = 25%nat.
Proof. reflexivity. Qed.

Lemma Forall_insert_list {A} (P : A → Prop) (l : list A) i x : Forall P l → P x → Forall P (<[i := x]> l).
Proof. intros. by apply Forall_insert. Qed.

Lemma rho_pi_lanes state : Forall lane (rho_pi state).
Proof.
  unfold rho_pi. repeat (constructor; [apply lane_rotl64|]). constructor.
Qed.

(** Case analysis on a coordinate. *)
Lemma lt5_cases (P : nat → Prop) x :
  (x < 5)%nat → P 0%nat → P 1%nat → P 2%nat → P 3%nat → P 4%nat → P x.
Proof. intros. do 5 (destruct x as [|x]; [done|]). lia. Qed.

Lemma rho_pi_lookup state x y :
  (x < 5)%nat → (y < 5)%nat →
  rho_pi state !!! (x + 5 * y)%nat =
    rotl64 (state !!! ((x + 3 * y) mod 5 + 5 * x)%nat) ((KECCAK_ROT !!! ((x + 3 * y) mod 5)%nat) !!! x).
Proof.
  intros Hx Hy. pattern x; apply lt5_cases; [done|..]; pattern y; (apply lt5_cases; [done|..]); reflexivity.
Qed.

Lemma keccak_rot_spec x y : (x < 5)%nat → (y < 5)%nat → (KECCAK_ROT !!! x) !!! y = rho_offset x y mod 64.
Proof.
  intros Hx Hy. pattern x; apply lt5_cases; [done|..]; pattern y; (apply lt5_cases; [done|..]); reflexivity.
Qed.

Lemma length_keccak_round state rc : length (keccak_round state rc) = 25%nat.
Proof. unfold keccak_round, chi. by rewrite length_insert, length_fmap, length_seq. Qed.

Lemma keccak_round_ok state rc : lanes_ok state → lane rc → lanes_ok (keccak_round state rc).
Proof.
  intros [Hl Hs] Hrc. split; [apply length_keccak_round|]. unfold keccak_round.
  assert (Forall lane (chi (rho_pi ((λ i : nat, Z.lxor (state !!! i) (theta_d (theta_c state) !!! (i mod 5)%nat)) <$> seq 0 25)))) as Hchi.
  { apply Forall_seq_fmap. intros i. pose proof (rho_pi_lanes) as Hr. eauto 6 with keccak. }
  apply Forall_insert_list; [done|]. eauto with keccak.
Qed.

Lemma mod5_lt x : (x mod 5 < 5)%nat.
Proof. apply Nat.mod_upper_bound. lia. Qed.

Lemma theta_d_lookup state x :
  (x < 5)%nat →
  theta_d (theta_c state) !!! x =
    Z.lxor (theta_c state !!! ((x + 4) mod 5)%nat) (rotl64 (theta_c state !!! ((x + 1) mod 5)%nat) 1).
Proof.
  intros Hx. unfold theta_d. rewrite seq_fmap_total by done. do 2 f_equal.
  by apply (lt5_cases (λ x, Z.to_nat ((Z.of_nat x - 1) mod 5) = ((x + 4) mod 5)%nat) x Hx).
Qed.

Lemma theta_c_bit state x z :
  (x < 5)%nat → Z.testbit (theta_c state !!! x) z = spec_parity (lanes state) x z.
Proof.
  intros Hx. unfold theta_c. rewrite seq_fmap_total, !Z.lxor_spec by done.
  unfold spec_parity, lanes. do 4 f_equal; f_equal; f_equal; lia.
Qed.

Lemma theta_c_lane state x : Forall lane state → lane (theta_c state !!! x).
Proof.
  intros. apply lane_lookup_total, Forall_seq_fmap. intros j.
  repeat apply lane_lxor; by apply lane_lookup_total.
Qed.

Lemma coord_mod x y : (x < 5)%nat → ((x + 5 * y) mod 5 = x)%nat.
Proof.
  intros. rewrite Nat.mul_comm, Nat.Div0.mod_add. by apply Nat.mod_small.
Qed.
Lemma coord_div x y : (x < 5)%nat → ((x + 5 * y) / 5 = y)%nat.
Proof. intros. rewrite Nat.mul_comm, Nat.div_add by lia. rewrite Nat.div_small; lia. Qed.

(** θ, then ρ and π, then χ, on the lanes. *)
Lemma theta_bits state x y z :
  Forall lane state → (x < 5)%nat → (y < 5)%nat → 0 ≤ z < 64 →
  lanes ((λ i : nat, Z.lxor (state !!! i) (theta_d (theta_c state) !!! (i mod 5)%nat)) <$> seq 0 25) x y z
    = spec_theta (lanes state) x y z.
Proof.
  intros Hs Hx Hy Hz. unfold lanes at 1. rewrite seq_fmap_total by lia.
  rewrite coord_mod, theta_d_lookup, !Z.lxor_spec by done.
  rewrite testbit_rotl64 by (done || by apply theta_c_lane).
  rewrite !theta_c_bit by apply mod5_lt. done.
Qed.

Lemma rho_pi_bits state x y z :
  Forall lane state → (x < 5)%nat → (y < 5)%nat → 0 ≤ z < 64 →
  lanes (rho_pi state) x y z = spec_pi (spec_rho (lanes state)) x y z.
Proof.
  intros Hs Hx Hy Hz. unfold lanes at 1. rewrite rho_pi_lookup by done.
  rewrite testbit_rotl64 by (done || by apply lane_lookup_total).
  unfold spec_pi, spec_rho, lanes. rewrite keccak_rot_spec by (done || apply mod5_lt).
  f_equal. by rewrite Zminus_mod_idemp_r.
Qed.

Lemma chi_bits b x y z :
  (x < 5)%nat → (y < 5)%nat → 0 ≤ z < 64 → lanes (chi b) x y z = spec_chi (lanes b) x y z.
Proof.
  intros Hx Hy Hz. unfold lanes at 1, chi. rewrite seq_fmap_total by lia.
  rewrite coord_mod, coord_div, Z.lxor_spec, Z.land_spec, Z.lnot_spec by (done || lia). done.
Qed.

Lemma spec_round_ext A B ir : bits_eq A B → bits_eq (spec_round A ir) (spec_round B ir).
Proof.
  intros H. unfold spec_round. intros x y z Hx Hy Hz.
  assert (bits_eq (spec_theta A) (spec_theta B)) as Ht.
  { intros ? ? ? ? ? ?. unfold spec_theta, spec_parity.
    rewrite !H; try done; try apply mod5_lt; try lia; apply Z.mod_pos_bound; lia. }
  assert (bits_eq (spec_pi (spec_rho (spec_theta A))) (spec_pi (spec_rho (spec_theta B)))) as Hp.
  { intros ? ? ? ? ? ?. unfold spec_pi, spec_rho. apply Ht; [apply mod5_lt|done|].
    apply Z.mod_pos_bound. lia. }
  unfold spec_iota, spec_chi. rewrite !Hp by (done || apply mod5_lt). done.
Qed.

Lemma keccak_rc_spec ir z :
  (ir < 24)%nat → 0 ≤ z < 64 → Z.testbit (KECCAK_RC !!! ir) z = spec_RC ir z.
Proof.
  intros Hi Hz.
  assert (forallb (λ i, forallb (λ z, Bool.eqb (Z.testbit (KECCAK_RC !!! i) (Z.of_nat z))
    (spec_RC i (Z.of_nat z))) (seq 0 64)) (seq 0 24) = true) as H by by vm_compute.
  rewrite forallb_forall in H. specialize (H ir). rewrite in_seq in H.
  specialize (H ltac:(lia)). rewrite forallb_forall in H. specialize (H (Z.to_nat z)).
  rewrite in_seq in H. specialize (H ltac:(lia)). apply eqb_prop in H. by rewrite Z2Nat.id in H by lia.
Qed.

Lemma keccak_round_bits state ir :
  lanes_ok state → (ir < 24)%nat →
  bits_eq (lanes (keccak_round state (KECCAK_RC !!! ir))) (spec_round (lanes state) ir).
Proof.
  intros [Hl Hs] Hir x y z Hx Hy Hz. unfold keccak_round.
  set (st := (λ i : nat, _) <$> seq 0 25).
  assert (bits_eq (lanes (chi (rho_pi st))) (spec_chi (spec_pi (spec_rho (spec_theta (lanes state)))))) as Hc.
  { assert (Forall lane st) as Hst.
    { apply Forall_seq_fmap. intros i. apply lane_lxor; [by apply lane_lookup_total|].
      apply lane_lookup_total, Forall_seq_fmap. intros j. apply lane_lxor; [by apply theta_c_lane|].
      apply lane_rotl64. }
    intros x' y' z' Hx' Hy' Hz'. rewrite chi_bits by done. unfold spec_chi.
    rewrite !rho_pi_bits by (done || apply mod5_lt). unfold spec_pi, spec_rho, st.
    rewrite !theta_bits by (done || apply mod5_lt || (apply Z.mod_pos_bound; lia)). done. }
  unfold spec_round, spec_iota. rewrite <- Hc by done.
  unfold lanes. destruct (decide (x = 0%nat ∧ y = 0%nat)) as [[-> ->]|Hne].
  - rewrite bool_decide_eq_true_2 by done. rewrite list_lookup_total_insert_eq by (unfold chi; rewrite length_fmap; simpl; lia).
    by rewrite Z.lxor_spec, keccak_rc_spec.
  - rewrite bool_decide_eq_false_2 by done. rewrite list_lookup_total_insert_ne by lia. done.
Qed.

Lemma KECCAK_RC_lanes : Forall lane KECCAK_RC.
Proof. repeat constructor; by vm_compute. Qed.

Lemma foldl_keccak_round_ok state rcs :
  lanes_ok state → Forall lane rcs → lanes_ok (foldl keccak_round state rcs).
Proof.
  intros Hs Hr. revert state Hs. induction Hr as [|rc rcs Hrc _ IH]; intros state Hs; [done|].
  simpl. apply IH. by apply keccak_round_ok.
Qed.

Lemma keccak_f_ok state : lanes_ok state → lanes_ok (keccak_f state).
Proof. intros. apply foldl_keccak_round_ok; [done|apply KECCAK_RC_lanes]. Qed.

Lemma KECCAK_RC_seq : KECCAK_RC = (λ i : nat, KECCAK_RC !!! i) <$> seq 0 24.
Proof. by vm_compute. Qed.

Lemma keccak_rounds_bits irs state A :
  lanes_ok state → bits_eq (lanes state) A → Forall (λ i, i < 24)%nat irs →
  bits_eq (lanes (foldl keccak_round state ((λ i : nat, KECCAK_RC !!! i) <$> irs))) (foldl spec_round A irs).
Proof.
  intros Hs HA Hi. revert state A Hs HA. induction Hi as [|i irs Hi _ IH]; intros state A Hs HA; [done|].
  cbn [fmap list_fmap foldl]. apply IH.
  - apply keccak_round_ok; [done|]. apply lane_lookup_total, KECCAK_RC_lanes.
  - intros x y z Hx Hy Hz. rewrite keccak_round_bits by done. by apply spec_round_ext.
Qed.

Lemma keccak_f_bits state :
  lanes_ok state → bits_eq (lanes (keccak_f state)) (spec_keccak_f (lanes state)).
Proof.
  intros Hs. unfold keccak_f, spec_keccak_f. rewrite KECCAK_RC_seq.
  apply keccak_rounds_bits; [done|done|]. apply list.Forall_forall. intros i ?%elem_of_seq. lia.
Qed.

(** * Padding *)

Lemma pad_zeros_spec fuel l :
  (rate - length l mod rate ≤ fuel ∨ length l mod rate = 0)%nat →
  pad_zeros fuel l = l ++ replicate ((rate - length l mod rate) mod rate) 0.
Proof.
  revert l. induction fuel as [|fuel IH]; intros l Hf; cbn [pad_zeros].
  - destruct Hf as [Hf|Hf].
    { pose proof (Nat.mod_upper_bound (length l) rate). unfold rate in *. lia. }
    rewrite Hf. simpl. by rewrite app_nil_r.
  - destruct (Nat.eqb_spec (length l mod rate) 0) as [E|E].
    { rewrite E. simpl. by rewrite app_nil_r. }
    pose proof (Nat.mod_upper_bound (length l) rate ltac:(done)) as Hm.
    assert (length (l ++ [0%Z]) mod rate = (length l mod rate + 1) mod rate)%nat as HE.
    { rewrite length_app. cbn [length]. by rewrite Nat.Div0.add_mod_idemp_l. }
    rewrite IH, HE.
    + rewrite <- app_assoc. f_equal. change ([0] ++ ?x) with (0 :: x).
      unfold rate in *. destruct (decide (length l mod 136 = 135)%nat) as [E'|E'].
      * by rewrite E'.
      * rewrite (Nat.mod_small (length l mod 136 + 1)), !(Nat.mod_small (136 - _)) by lia.
        replace (136 - length l mod 136)%nat with (S (136 - (length l mod 136 + 1)))%nat by lia. done.
    + rewrite HE. unfold rate in *. destruct (decide (length l mod 136 = 135)%nat) as [E'|E'].
      * right. by rewrite E'.
      * left. rewrite Nat.mod_small by lia. lia.
Qed.

Lemma alter_last {A} (f : A → A) l x : alter f (length (l ++ [x]) - 1)%nat (l ++ [x]) = l ++ [f x].
Proof.
  rewrite length_app. simpl. replace (length l + 1 - 1)%nat with (length l + 0)%nat by lia.
  by rewrite alter_app_r.
Qed.

Lemma keccak_pad_spec data : keccak_pad data = pad10star1 data.
Proof.
  unfold keccak_pad, pad10star1. rewrite pad_zeros_spec.
  2: { pose proof (Nat.mod_upper_bound (length (data ++ [0x01%Z])) rate ltac:(done)).
       destruct (decide (length (data ++ [0x01%Z]) mod rate = 0)%nat); [by right|left; lia]. }
  pose proof (Nat.mod_upper_bound (length data) rate ltac:(done)) as Hm.
  assert (length (data ++ [0x01%Z]) mod rate = (length data mod rate + 1) mod rate)%nat as HE.
  { rewrite length_app. cbn [length]. by rewrite Nat.Div0.add_mod_idemp_l. }
  rewrite HE. clear HE. generalize dependent (length data mod rate)%nat. intros r Hr.
  unfold rate in *. destruct (decide (r = 135)%nat) as [->|Hne].
  - cbn -[alter]. rewrite app_nil_r. by rewrite alter_last.
  - rewrite (Nat.mod_small (r + 1)), (Nat.mod_small (136 - _)) by lia.
    replace (136 - (r + 1))%nat with (S (136 - r - 2)) by lia.
    set (k := (136 - r - 2)%nat). rewrite replicate_S_end, <- !app_assoc, (app_assoc data), (app_assoc _ (replicate k 0)).
    rewrite alter_last, <- !app_assoc. simpl.
    destruct (136 - r)%nat as [|[|?]] eqn:?; [lia|lia|done].
Qed.

Lemma pad10star1_length data : (length (pad10star1 data) mod rate = 0)%nat.
Proof.
  unfold pad10star1. pose proof (Nat.mod_upper_bound (length data) rate ltac:(done)) as Hm.
  pose proof (Nat.div_mod_eq (length data) rate) as Hd.
  destruct (rate - length data mod rate)%nat as [|[|gap]] eqn:Hg; [lia| |].
  all: rewrite length_app; cbn [length app]; rewrite ?length_app, ?length_replicate; cbn [length app].
  - replace (length data + 1)%nat with ((length data / rate + 1) * rate)%nat by lia.
    apply Nat.Div0.mod_mul.
  - replace (length data + _)%nat with ((length data / rate + 1) * rate)%nat by lia.
    apply Nat.Div0.mod_mul.
Qed.

Lemma pad10star1_ok data : bytes_ok data → bytes_ok (pad10star1 data).
Proof.
  intros H. unfold pad10star1. apply bytes_ok_app. split; [done|].
  destruct (rate - length data mod rate)%nat as [|[|gap]]; repeat constructor; try lia.
  apply Forall_app. split; [apply Forall_replicate; lia|repeat constructor; lia].
Qed.

(** * The sponge *)

Lemma absorb_block_ok state block :
  lanes_ok state → bytes_ok block → lanes_ok (absorb_block state block).
Proof.
  intros Hs Hb. unfold absorb_block. generalize (seq 0 (rate / 8)) as idxs. intros idxs.
  revert state Hs. induction idxs as [|i idxs IH]; intros state Hs; [done|]. cbn [foldl]. apply IH.
  destruct Hs as [Hl Hs]. split; [by rewrite length_insert|].
  apply Forall_insert_list; [done|]. apply lane_lxor; [by apply lane_lookup_total|].
  apply lane_from_le.
  - by apply Forall_take, Forall_drop.
  - unfold slice. rewrite length_take. lia.
Qed.

Lemma chunks_bytes_ok k b : bytes_ok b → Forall bytes_ok (chunks k b).
Proof.
  intros H. apply Forall_fmap, Forall_true. intros i. by apply Forall_take, Forall_drop.
Qed.

Lemma zeros_lanes_ok : lanes_ok (replicate 25 0).
Proof. split; [done|]. apply Forall_replicate, lane_0. Qed.

(** The sponge over the blocks of the padded message. *)
Definition sponge (state : list Z) (blocks : list bytes) : list Z :=
  foldl (λ st block, keccak_f (absorb_block st block)) state blocks.

Lemma sponge_ok state blocks :
  lanes_ok state → Forall bytes_ok blocks → lanes_ok (sponge state blocks).
Proof.
  intros Hs Hb. revert state Hs. induction Hb as [|b bs Hb _ IH]; intros state Hs; [done|].
  cbn [sponge foldl]. apply IH, keccak_f_ok. by apply absorb_block_ok.
Qed.

Lemma keccak256_sponge data :
  keccak256 data =
    take 32 (concat ((λ i : nat, to_le 8 (sponge (replicate 25 0) (chunks rate (pad10star1 data)) !!! i)) <$> seq 0 4)).
Proof.
  unfold keccak256, keccak256_pure, sponge, chunks. by rewrite keccak_pad_spec, foldl_fmap.
Qed.

Lemma length_keccak256 data : length (keccak256 data) = 32%nat.
Proof. by rewrite keccak256_sponge. Qed.

Lemma keccak256_ok data : bytes_ok (keccak256 data).
Proof.
  rewrite keccak256_sponge. apply Forall_take, Forall_concat, Forall_fmap, Forall_true.
  intros i. apply to_le_ok.
Qed.

#[export] Hint Resolve keccak256_ok : pylib.

(** * Properties *)

(** C31: the lane program [_keccak_f] computes the Keccak-f[1600] permutation of
    FIPS 202 bit for bit (θ, ρ, π, χ, ι over 24 rounds, with the tables
    [_KECCAK_ROT] and [_KECCAK_RC] equal to the standard's offset walk and
    shift register), and keeps every lane within 64 bits. *)
Theorem keccak_f_implements_fips202 state :
  lanes_ok state →
  lanes_ok (keccak_f state) ∧
  ∀ x y z, (x < 5)%nat → (y < 5)%nat → 0 ≤ z < 64 →
    lanes (keccak_f state) x y z = spec_keccak_f (lanes state) x y z.
Proof. intros H. split; [by apply keccak_f_ok|]. exact (keccak_f_bits state H). Qed.

Lemma keccak_f_implements_fips202_witness :
  lanes_ok (keccak_f (replicate 25 0)) ∧ lanes (keccak_f (replicate 25 0)) 0%nat 0%nat 0 = true.
Proof.
  destruct (keccak_f_implements_fips202 (replicate 25 0)) as [H _].
  - split; [done|]. repeat constructor; lia.
  - split; [exact H|]. by vm_compute.
Defined.

(** [keccak256] is the sponge over Keccak-f with rate 136 and the pad10*1
    padding of its 0x01 domain: the padding loop stops at the shortest whole
    block, every lane fits the eight bytes it is written to, and the digest is
    the first four lanes, 32 bytes, little-endian. *)
Theorem keccak256_is_sponge data :
  bytes_ok data →
  keccak_pad data = pad10star1 data ∧
  (length (keccak_pad data) mod rate = 0)%nat ∧
  (length data < length (keccak_pad data) ≤ length data + rate)%nat ∧
  let final := sponge (replicate 25 0) (chunks rate (pad10star1 data)) in
  lanes_ok final ∧
  keccak256 data = concat (to_le 8 <$> take 4 final) ∧
  length (keccak256 data) = 32%nat.
Proof.
  intros Hd. rewrite keccak_pad_spec. split; [done|]. split; [apply pad10star1_length|]. split.
  { unfold pad10star1. pose proof (Nat.mod_upper_bound (length data) rate ltac:(done)).
    destruct (rate - length data mod rate)%nat as [|[|gap]] eqn:?; [lia| |];
      rewrite length_app; cbn [length app]; rewrite ?length_app, ?length_replicate; cbn [length]; lia. }
  intros final. assert (lanes_ok final) as Hf.
  { apply sponge_ok; [apply zeros_lanes_ok|]. apply chunks_bytes_ok. by apply pad10star1_ok. }
  split; [done|]. split; [|apply length_keccak256].
  rewrite keccak256_sponge. fold final. destruct Hf as [Hl _].
  do 5 (destruct final as [|? final]; [done|]). done.
Qed.

Lemma keccak256_is_sponge_witness :
  (length (keccak_pad (ords "Transfer(address,address,uint256)")) = 136)%nat ∧
  keccak256 [] = [0xc5; 0xd2; 0x46; 0x01; 0x86; 0xf7; 0x23; 0x3c; 0x92; 0x7e; 0x7d; 0xb2; 0xdc; 0xc7;
    0x03; 0xc0; 0xe5; 0x00; 0xb6; 0x53; 0xca; 0x82; 0x27; 0x3b; 0x7b; 0xfa; 0xd8; 0x04; 0x5d; 0x85;
    0xa4; 0x70].
Proof.
  split; [by vm_compute|].
  destruct (keccak256_is_sponge []) as (_ & _ & _ & _ & H & _); [constructor|].
  rewrite H. by vm_compute.
Defined.
