(* ===== verification/Sha256.v ===== *)
(** SHA-256 as [hashlib.sha256] computes it (FIPS 180-4), and the digests the
    tools make of files and texts with it. *)

From S2P Require Import Prelude PyStr.
Local Open Scope Z_scope.

(** * SHA-256 *)

Definition mask32 (x : Z) : Z := Z.land x 0xffffffff.
Definition add32 (x y : Z) : Z := mask32 (x + y).
Definition rotr (n x : Z) : Z := Z.lor (Z.shiftr x n) (mask32 (Z.shiftl x (32 - n))).

(** The round constants and the initial state, as their digits in a row. *)
Definition words_of (digits : str) : list Z := from_be <$> chunks 4 (default [] (fromhex digits)).

Definition K256 : list Z := Eval vm_compute in words_of
  ("428a2f9871374491b5c0fbcfe9b5dba53956c25b59f111f1923f82a4ab1c5ed5d807aa9812835b01243185be550c7dc3"%string
   ++ "72be5d7480deb1fe9bdc06a7c19bf174e49b69c1efbe47860fc19dc6240ca1cc2de92c6f4a7484aa5cb0a9dc76f988da"%string
   ++ "983e5152a831c66db00327c8bf597fc7c6e00bf3d5a7914706ca63511429296727b70a852e1b21384d2c6dfc53380d13"%string
   ++ "650a7354766a0abb81c2c92e92722c85a2bfe8a1a81a664bc24b8b70c76c51a3d192e819d6990624f40e3585106aa070"%string
   ++ "19a4c1161e376c082748774c34b0bcb5391c0cb34ed8aa4a5b9cca4f682e6ff3748f82ee78a5636f84c878148cc70208"%string
   ++ "90befffaa4506cebbef9a3f7c67178f2"%string).

Definition H256 : list Z := Eval vm_compute in words_of
  ("6a09e667bb67ae853c6ef372a54ff53a510e527f9b05688c1f83d9ab5be0cd19"%string).

(** The message schedule, kept newest first. *)
Fixpoint schedule (n : nat) (w : list Z) : list Z :=
  match n with
  | O => w
  | S n =>
      let w15 := nth 14 w 0 in
      let w2 := nth 1 w 0 in
      let s0 := Z.lxor (Z.lxor (rotr 7 w15) (rotr 18 w15)) (Z.shiftr w15 3) in
      let s1 := Z.lxor (Z.lxor (rotr 17 w2) (rotr 19 w2)) (Z.shiftr w2 10) in
      schedule n (add32 (add32 (nth 15 w 0) s0) (add32 (nth 6 w 0) s1) :: w)
  end.

Definition sha_round (st : list Z) (kw : Z * Z) : list Z :=
  match st with
  | [a; b; c; d; e; f; g; h] =>
      let S1 := Z.lxor (Z.lxor (rotr 6 e) (rotr 11 e)) (rotr 25 e) in
      let ch := Z.lxor (Z.land e f) (Z.land (Z.lxor e 0xffffffff) g) in
      let t1 := mask32 (h + S1 + ch + kw.1 + kw.2) in
      let S0 := Z.lxor (Z.lxor (rotr 2 a) (rotr 13 a)) (rotr 22 a) in
      let maj := Z.lxor (Z.lxor (Z.land a b) (Z.land a c)) (Z.land b c) in
      let t2 := add32 S0 maj in
      [add32 t1 t2; a; b; c; add32 d t1; e; f; g]
  | _ => st
  end.

Definition sha_block (st : list Z) (block : bytes) : list Z :=
  let words := from_be <$> chunks 4 block in
  let w := reverse (schedule 48 (reverse words)) in
  zip_with add32 st (foldl sha_round st (zip K256 w)).

(** The message, 0x80, zeros up to 56 modulo 64, and the length in bits. *)
Definition sha_pad (msg : bytes) : bytes :=
  msg ++ [0x80] ++ replicate (Z.to_nat ((55 - zlen msg) mod 64)) 0 ++ to_be 8 (8 * zlen msg).

Definition sha256 (msg : bytes) : bytes :=
  concat (to_be 4 <$> foldl sha_block H256 (chunks 64 (sha_pad msg))).

(** * The code *)

(** [sha256_file]: the digest of the file's bytes. *)
Definition sha256_file (content : bytes) : str := "0x"%string ++ hex (sha256 content).

(** * Lemmas *)

Lemma sha256_vectors :
  hex (sha256 []) = ("e3b0c44298fc1c149afbf4c8996fb92427ae41e4649b934ca495991b7852b855"%string : str) ∧
  hex (sha256 (ords "abc"%string)) = ("ba7816bf8f01cfea414140de5dae2223b00361a396177a9cb410ff61f20015ad"%string : str) ∧
  hex (sha256 (ords "abcdbcdecdefdefgefghfghighijhijkijkljklmklmnlmnomnopnopq"%string))
  = ("248d6a61d20638b8e5c026930c3e6039a33ce45964ff2167f6ecedd419db06c1"%string : str).
Proof. by vm_compute. Qed.

Lemma sha256_padded msg : ∃ k : nat, length (sha_pad msg) = (64 * k)%nat.
Proof.
  unfold sha_pad, zlen. rewrite !length_app, length_replicate, length_to_be. cbn [length].
  exists (Z.to_nat ((Z.of_nat (length msg) + 9 + (55 - Z.of_nat (length msg)) mod 64) / 64)).
  Z.div_mod_to_equations. lia.
Qed.
