(* ===== verification/Abi.v ===== *)
(** ABI encoding: 32-byte words, the batch encoding the airdrop contract hashes
    (airdrop/tools/common.py: [_word], [abi_encode_batch], [encode_call],
    [decode_word]), and the claim-row encoding of the bridge contract
    (bridge-claims/tools/claim_tree.py: [encode_row], [constructor_args]). *)

From S2P Require Import Prelude PyStr Keccak.
Local Open Scope Z_scope.

(** * The code: airdrop/tools/common.py *)

Module Airdrop.

Definition word (value : Z) : result bytes :=
  if (value <? 0) || (Z.shiftl 1 256 <=? value)
  then Raise (ValueError "value does not fit in 256 bits")
  else Ok (to_be 32 value).

Definition abi_encode_batch (batch_index : Z) (recipients : list str) (amounts : list Z) : result bytes :=
  if negb (length recipients =? length amounts)%nat
  then Raise (ValueError "recipients and amounts differ in length")
  else
    let n := zlen recipients in
    w0 ← word batch_index;
    w1 ← word (3 * 32);
    w2 ← word (3 * 32 + 32 + 32 * n);
    let head := w0 ++ w1 ++ w2 in
    wn ← word n;
    rs ← mapM (λ addr, a ← py_int16 addr; word a) recipients;
    let tail := wn ++ concat rs in
    ws ← mapM word amounts;
    let tail := tail ++ wn ++ concat ws in
    Ok (head ++ tail).

Definition batch_leaf (batch_index : Z) (recipients : list str) (amounts : list Z) : result bytes :=
  e ← abi_encode_batch batch_index recipients amounts;
  Ok (keccak256 (keccak256 e)).

Definition selector (signature : str) : bytes := take 4 (keccak256 (ords signature)).

(** An argument of [encode_call] is an address or an integer. *)
Inductive arg := ArgStr (s : str) | ArgInt (z : Z).

Definition hex0x (data : bytes) : str := "0x"%string ++ hex data.

Definition encode_call (signature : str) (args : list arg) : result str :=
  data ← foldM (λ data a,
      w ← match a with
          | ArgStr s => v ← py_int16 s; word v
          | ArgInt z => word z
          end;
      Ok (data ++ w)) (selector signature) args;
  Ok (hex0x data).

Definition decode_word (res : str) : result Z :=
  let body := removeprefix res "0x"%string in
  if (length body <? 64)%nat then Raise (RuntimeError "unexpected eth_call result")
  else py_int16 (take 64 body).

Definition decode_bytes32 (res : str) : result str :=
  w ← decode_word res; Ok ("0x"%string ++ hex_pad 64 w).

(** [bytes.fromhex(text.removeprefix("0x"))]. *)
Definition unhex (text : str) : result bytes :=
  of_option (fromhex (removeprefix text "0x"%string)) (ValueError "non-hexadecimal number found in fromhex()").

End Airdrop.

(** * The code: bridge-claims/tools/claim_tree.py *)

Module Claims.

(** [int(value).to_bytes(32, "big")]. *)
Definition word (value : Z) : result bytes :=
  if (value <? 0) || (2 ^ 256 <=? value) then Raise OverflowError else Ok (to_be 32 value).

Definition encode_row (index : Z) (account token : str) (amount : Z) : result bytes :=
  wi ← word index;
  a ← py_int16 account; wa ← word a;
  t ← py_int16 token; wt ← word t;
  wm ← word amount;
  Ok (wi ++ wa ++ wt ++ wm).

Definition leaf (index : Z) (account token : str) (amount : Z) : result bytes :=
  e ← encode_row index account token amount;
  Ok (keccak256 (keccak256 e)).

Definition NATIVE_TOKEN : str := "0x"%string ++ replicate 40 "0"%char.

(** [wrapped_native] may be empty: chains without a wrapped coin. *)
Definition constructor_args (funder : str) (wrapped_native : option str) (chain_id : Z)
    (root_node : bytes) (claim_count : Z) (list_hash : bytes) : result bytes :=
  f ← py_int16 funder; wf ← word f;
  n ← py_int16 (match wrapped_native with
                | Some (c :: s) => c :: s
                | _ => NATIVE_TOKEN
                end); wn ← word n;
  wc ← word chain_id;
  wk ← word claim_count;
  Ok (wf ++ wn ++ wc ++ root_node ++ wk ++ list_hash).

Definition hex0x (data : bytes) : str := "0x"%string ++ hex data.

Definition unhex (text : str) : result bytes :=
  of_option (fromhex (if startswith text "0x"%string then drop 2 text else text))
    (ValueError "non-hexadecimal number found in fromhex()").

Definition create2_address (deployer : str) (salt init_code : bytes) : result str :=
  d ← of_option (fromhex (drop 2 deployer)) (ValueError "non-hexadecimal number found in fromhex()");
  let digest := keccak256 ([0xff] ++ d ++ salt ++ keccak256 init_code) in
  Ok ("0x"%string ++ hex (drop 12 digest)).

(** The compiled contract: where each immutable is written in the runtime code. *)
Record artifact := {
  creation_code : bytes;
  runtime_template : bytes;
  immutables : list (list (nat * nat));  (* (start, length) positions of each immutable *)
}.

(** [code[start:start + 32] = value] on a [bytearray]. *)
Definition splice (code : bytes) (start : nat) (value : bytes) : bytes :=
  take start code ++ value ++ drop (start + 32) code.

Definition write_immutable (code : bytes) (value : bytes) (pos : nat * nat) : result bytes :=
  let '(start, len) := pos in
  if negb (len =? 32)%nat || existsb (λ b, negb (b =? 0)) (slice code start (start + 32))
  then Raise (ValueError "no zeroed 32-byte immutable at runtime offset")
  else Ok (splice code start value).

Definition runtime_code (a : artifact) (funder : str) (wrapped_native : option str) (chain_id : Z)
    (root_node : bytes) (claim_count : Z) (list_hash : bytes) : result bytes :=
  blob ← constructor_args funder wrapped_native chain_id root_node claim_count list_hash;
  let words := chunks 32 blob in
  if negb (length (immutables a) =? length words)%nat
  then Raise (ValueError "artifact immutables and constructor arguments differ")
  else foldM (λ code pv, foldM (λ code pos, write_immutable code pv.2 pos) code pv.1)
         (runtime_template a) (zip (immutables a) words).

End Claims.

(** * Words *)

(** The values a 256-bit word holds. *)
Definition uint256 (v : Z) : Prop := 0 ≤ v < 2 ^ 256.

#[export] Instance uint256_dec v : Decision (uint256 v).
Proof. unfold uint256. apply _. Defined.

Lemma airdrop_word_Ok v w : Airdrop.word v = Ok w ↔ uint256 v ∧ w = to_be 32 v.
Proof.
  unfold Airdrop.word, uint256. change (Z.shiftl 1 256) with (2 ^ 256).
  destruct ((v <? 0) || (2 ^ 256 <=? v)) eqn:E.
  - split; [done|]. intros [H _]. apply orb_prop in E as [E|E]; zbool; lia.
  - zbool. split; [intros [= <-]; split; [lia|done]|by intros [_ ->]].
Qed.

Lemma claims_word_eq v :
  Claims.word v = match Airdrop.word v with Ok w => Ok w | Raise _ => Raise OverflowError end.
Proof.
  unfold Claims.word, Airdrop.word. change (Z.shiftl 1 256) with (2 ^ 256).
  by destruct ((v <? 0) || (2 ^ 256 <=? v)).
Qed.

Lemma claims_word_Ok v w : Claims.word v = Ok w ↔ uint256 v ∧ w = to_be 32 v.
Proof. rewrite <- airdrop_word_Ok, claims_word_eq. by destruct (Airdrop.word v). Qed.

Lemma to_be_32_inj v w : uint256 v → uint256 w → to_be 32 v = to_be 32 w → v = w.
Proof. unfold uint256. intros. by apply (to_be_inj 32). Qed.

(** A sequence of words is determined by its bytes. *)
Lemma words_inj vs ws :
  Forall uint256 vs → Forall uint256 ws →
  concat (to_be 32 <$> vs) = concat (to_be 32 <$> ws) → vs = ws.
Proof.
  intros Hv Hw H. apply (f_equal (chunks 32)) in H.
  rewrite !chunks_concat in H; try lia;
    try (apply Forall_fmap, Forall_true; intros x; apply length_to_be).
  revert ws Hw H. induction Hv as [|v vs Hv Hvs IH]; intros [|w ws] Hw H; try done.
  inversion_clear Hw as [|?? Hw1 Hw2]. cbn [fmap list_fmap] in H. apply cons_eq_inv in H as [H1 H2].
  f_equal; [apply to_be_32_inj; done|apply IH; done].
Qed.

Lemma length_concat_words vs : length (concat (to_be 32 <$> vs)) = (32 * length vs)%nat.
Proof.
  induction vs as [|v vs IH]; [done|]. cbn [fmap list_fmap concat].
  rewrite length_app, length_to_be, IH. simpl. lia.
Qed.

Lemma concat_words_ok vs : bytes_ok (concat (to_be 32 <$> vs)).
Proof. apply Forall_concat, Forall_fmap, Forall_true. intros v. apply to_be_ok. Qed.

Lemma mapM_word_Ok vs ws :
  mapM Airdrop.word vs = Ok ws ↔ Forall uint256 vs ∧ ws = to_be 32 <$> vs.
Proof.
  rewrite mapM_Ok_Forall2. split.
  - induction 1 as [|v w vs ws [H ->]%airdrop_word_Ok _ [IH1 ->]]; [done|]. split; [by constructor|done].
  - intros [H ->]. induction H as [|v vs H _ IH]; constructor; [by apply airdrop_word_Ok|done].
Qed.

Lemma mapM_bind {A B C} (f : A → result B) (g : B → result C) l k :
  mapM (λ x, y ← f x; g y) l = Ok k ↔ ∃ m, mapM f l = Ok m ∧ mapM g m = Ok k.
Proof.
  setoid_rewrite mapM_Ok_Forall2. split.
  - induction 1 as [|x y l k H _ (m & Hm1 & Hm2)]; [by exists []|].
    apply bind_Ok_inv in H as (z & Hz & Hg). exists (z :: m). eauto.
  - intros (m & H1 & H2). revert k H2. induction H1 as [|x y l m H _ IH]; intros k H2; inversion_clear H2; constructor.
    + by rewrite H.
    + by apply IH.
Qed.

(** * The batch encoding *)

(** The words of [abi.encode(uint256, address[], uint256[])]: three head words
    (the index and the two tail offsets), then each array after its length. *)
Definition batch_words (index : Z) (recipients amounts : list Z) : list Z :=
  let n := zlen recipients in
  [index; 96; 128 + 32 * n] ++ (n :: recipients) ++ (n :: amounts).

Lemma abi_encode_batch_Ok index recipients amounts e :
  Airdrop.abi_encode_batch index recipients amounts = Ok e ↔
  ∃ rs, mapM py_int16 recipients = Ok rs ∧ length recipients = length amounts ∧
    Forall uint256 (batch_words index rs amounts) ∧
    e = concat (to_be 32 <$> batch_words index rs amounts).
Proof.
  unfold Airdrop.abi_encode_batch. destruct (Nat.eqb_spec (length recipients) (length amounts)) as [Hl|Hl]; simpl.
  2: { split; [done|]. by intros (? & _ & ? & _). }
  assert (∀ rs, mapM py_int16 recipients = Ok rs → zlen rs = zlen recipients) as Hzl.
  { intros rs H%mapM_Ok_Forall2. apply Forall2_length in H. unfold zlen. by rewrite H. }
  split.
  - intros H. inv_ok.
    repeat match goal with H : Airdrop.word _ = Ok _ |- _ => apply airdrop_word_Ok in H as [? ->] end.
    repeat match goal with H : mapM Airdrop.word _ = Ok _ |- _ => apply mapM_word_Ok in H as [? ->] end.
    match goal with H : mapM _ recipients = Ok _ |- _ =>
      apply mapM_bind in H as (rs & Hrs & [Hru ->]%mapM_word_Ok) end.
    exists rs. split; [done|]. split; [done|]. unfold batch_words. rewrite (Hzl rs Hrs). split.
    + constructor; [done|]. repeat (constructor; [done|]). apply Forall_app. split; [done|]. by constructor.
    + rewrite <- H. cbn [fmap list_fmap app concat]. rewrite fmap_app, concat_app. cbn [fmap list_fmap concat].
      by rewrite <- !app_assoc.
  - intros (rs & Hrs & _ & Hu & ->). unfold batch_words in *. rewrite (Hzl rs Hrs) in *.
    inversion_clear Hu as [|?? H1 Hu']. inversion_clear Hu' as [|?? H2 Hu]. inversion_clear Hu as [|?? H3 Hu'].
    inversion_clear Hu' as [|?? H4 Hu]. apply Forall_app in Hu as [H5 Hu]. inversion_clear Hu as [|?? _ H6].
    repeat (rewrite (proj2 (airdrop_word_Ok _ _)) by (split; [eassumption|reflexivity]); cbn [mbind result_bind]).
    rewrite (proj2 (mapM_bind _ _ _ (to_be 32 <$> rs))) by (exists rs; split; [done|by apply mapM_word_Ok]).
    cbn [mbind result_bind].
    rewrite (proj2 (mapM_word_Ok _ (to_be 32 <$> amounts))) by done. cbn [mbind result_bind]. f_equal.
    cbn [fmap list_fmap app concat]. rewrite fmap_app, concat_app. cbn [fmap list_fmap concat].
    by rewrite <- !app_assoc.
Qed.

Lemma batch_words_inj i r a i' r' a' :
  length r = length a → length r' = length a' →
  batch_words i r a = batch_words i' r' a' → i = i' ∧ r = r' ∧ a = a'.
Proof.
  unfold batch_words. cbn [app]. intros Hl Hl' H. injection H as -> _ Hn H.
  unfold zlen in Hn. assert (length r = length r') as Hr by lia.
  split; [done|]. apply app_inj_1 in H as [-> H]; [|done]. by injection H as ->.
Qed.

Lemma mapM_py_int16_length rs ints : mapM py_int16 rs = Ok ints → length rs = length ints.
Proof. intros H%mapM_Ok_Forall2. by apply Forall2_length in H. Qed.

Lemma abi_encode_batch_inj i r a i' r' a' e :
  Airdrop.abi_encode_batch i r a = Ok e → Airdrop.abi_encode_batch i' r' a' = Ok e →
  i = i' ∧ mapM py_int16 r = mapM py_int16 r' ∧ a = a'.
Proof.
  intros (rs & Hr & Hl & Hu & ->)%abi_encode_batch_Ok (rs' & Hr' & Hl' & Hu' & He)%abi_encode_batch_Ok.
  apply words_inj in He; [|done|done].
  apply batch_words_inj in He as (-> & -> & ->); [by rewrite Hr, Hr'|..].
  - by rewrite <- (mapM_py_int16_length _ _ Hr).
  - by rewrite <- (mapM_py_int16_length _ _ Hr').
Qed.

Lemma abi_encode_batch_bytes i r a e : Airdrop.abi_encode_batch i r a = Ok e → bytes_ok e.
Proof. intros (? & _ & _ & _ & ->)%abi_encode_batch_Ok. apply concat_words_ok. Qed.

(** * The claim-row encoding *)

Lemma encode_row_Ok i a t m e :
  Claims.encode_row i a t m = Ok e ↔
  ∃ av tv, py_int16 a = Ok av ∧ py_int16 t = Ok tv ∧
    Forall uint256 [i; av; tv; m] ∧ e = concat (to_be 32 <$> [i; av; tv; m]).
Proof.
  unfold Claims.encode_row. split.
  - intros H. inv_ok.
    repeat match goal with H : Claims.word _ = Ok _ |- _ => apply claims_word_Ok in H as [? ->] end.
    eexists _, _. split; [done|]. split; [done|]. split; [do 4 (constructor; [done|]); constructor|].
    rewrite <- H. cbn [fmap list_fmap concat]. by rewrite app_nil_r.
  - intros (av & tv & Ha & Ht & Hu & ->).
    inversion_clear Hu as [|?? H1 Hu']. inversion_clear Hu' as [|?? H2 Hu]. inversion_clear Hu as [|?? H3 Hu'].
    inversion_clear Hu' as [|?? H4 _]. rewrite Ha, Ht. cbn [mbind result_bind].
    repeat (rewrite (proj2 (claims_word_Ok _ _)) by (split; [eassumption|reflexivity]); cbn [mbind result_bind]).
    cbn [fmap list_fmap concat]. by rewrite app_nil_r.
Qed.

Lemma encode_row_inj i a t m i' a' t' m' e :
  Claims.encode_row i a t m = Ok e → Claims.encode_row i' a' t' m' = Ok e →
  i = i' ∧ py_int16 a = py_int16 a' ∧ py_int16 t = py_int16 t' ∧ m = m'.
Proof.
  intros (av & tv & Ha & Ht & Hu & ->)%encode_row_Ok (av' & tv' & Ha' & Ht' & Hu' & He)%encode_row_Ok.
  apply words_inj in He; [|done|done]. injection He as -> -> -> ->. by rewrite Ha, Ha', Ht, Ht'.
Qed.

Lemma encode_row_bytes i a t m e : Claims.encode_row i a t m = Ok e → bytes_ok e.
Proof. intros (? & ? & _ & _ & _ & ->)%encode_row_Ok. apply concat_words_ok. Qed.
