(* ===== verification/BatchTree.v ===== *)
(** The batch tree of airdrop/tools/common.py ([hash_pair], [tree_levels],
    [tree_root], [tree_proof], [tree_verify]): leaves in index order, pairs
    hashed smaller first, an unpaired last node carried up unchanged.

    Shown here: the level loop ends with one root; every proof the tool writes
    verifies; a proof that verifies shows membership, up to an explicit
    collision of keccak-256. *)

From S2P Require Import Prelude PyStr Keccak Abi.
Local Open Scope Z_scope.

(** * The code *)

Definition hash_pair (a b : bytes) : bytes :=
  if bytes_ltb a b then keccak256 (a ++ b) else keccak256 (b ++ a).

(** One pass of the [while] body: the level above [prev]. *)
Definition next_level (prev : list bytes) : list bytes :=
  (λ i : nat, if (i + 1 <? length prev)%nat then hash_pair (prev !!! i) (prev !!! (i + 1)%nat)
              else prev !!! i) <$> range_step (length prev) 2.

(** [while len(levels[-1]) > 1], started at [prev]. *)
Fixpoint levels_loop (fuel : nat) (prev : list bytes) : list (list bytes) :=
  if (1 <? length prev)%nat
  then match fuel with
       | O => [prev]
       | S fuel => prev :: levels_loop fuel (next_level prev)
       end
  else [prev].

Definition tree_levels (leaves : list bytes) : result (list (list bytes)) :=
  match leaves with
  | [] => Raise (ValueError "no leaves")
  | _ => Ok (levels_loop (length leaves) leaves)
  end.

(** [levels[-1][0]]. *)
Definition tree_root (levels : list (list bytes)) : result bytes :=
  top ← of_option (last levels) IndexError;
  of_option (head top) IndexError.

Definition proof_step (st : list bytes * nat) (level : list bytes) : list bytes * nat :=
  let '(proof, idx) := st in
  let sibling := Nat.lxor idx 1 in
  ((if (sibling <? length level)%nat then proof ++ [level !!! sibling] else proof), Nat.shiftr idx 1).

(** [for level in levels[:-1]]. *)
Definition tree_proof (levels : list (list bytes)) (index : nat) : list bytes :=
  fst (foldl proof_step ([], index) (take (length levels - 1) levels)).

Definition tree_verify (proof : list bytes) (root leaf : bytes) : bool :=
  bool_decide (foldl hash_pair leaf proof = root).

(** [leaves] of [write_run] and [verify_run]: the leaf of every numbered batch,
    a batch being its recipients and their amounts. *)
Definition batch_leaves (batches : list (list str * list Z)) : result (list bytes) :=
  mapM (λ ib : Z * (list str * list Z), Airdrop.batch_leaf ib.1 ib.2.1 ib.2.2) (enumerate batches).

(** * Shape of the levels *)

Lemma hash_pair_comm a b : hash_pair a b = hash_pair b a.
Proof.
  unfold hash_pair. destruct (bytes_ltb a b) eqn:E1, (bytes_ltb b a) eqn:E2; try done.
  - apply bytes_ltb_antisym in E1. congruence.
  - by rewrite (bytes_ltb_total a b).
Qed.

Lemma next_level_nil : next_level [] = [].
Proof. done. Qed.

Lemma next_level_one x : next_level [x] = [x].
Proof. done. Qed.

Lemma next_level_cons x y l : next_level (x :: y :: l) = hash_pair x y :: next_level l.
Proof.
  unfold next_level. rewrite (range_step_succ (length (x :: y :: l))) by (simpl; lia).
  cbn [fmap list_fmap]. f_equal.
  rewrite <- list_fmap_compose.
  replace (length (x :: y :: l) - 2)%nat with (length l) by (simpl; lia).
  apply list_fmap_ext. intros i j _. unfold compose.
  replace (j + 2)%nat with (S (S j)) by lia. cbn [length].
  replace (S (S j) + 1)%nat with (S (S (j + 1))) by lia.
  change ((S (S (j + 1)) <? S (S (length l)))%nat) with ((j + 1 <? length l)%nat). done.
Qed.

Lemma length_next_level l : length (next_level l) = ((length l + 1) / 2)%nat.
Proof. unfold next_level, range_step. by rewrite !length_fmap, length_seq. Qed.

Lemma next_level_shorter l : (1 < length l)%nat → (0 < length (next_level l) < length l)%nat.
Proof.
  intros H. rewrite length_next_level. split.
  - apply Nat.div_str_pos. lia.
  - apply Nat.Div0.div_lt_upper_bound; lia.
Qed.

(** Node [j] of a level is the parent of nodes [2j] and [2j + 1] below. *)
Lemma next_level_lookup l j :
  next_level l !! j =
    match l !! (2 * j)%nat, l !! (2 * j + 1)%nat with
    | Some a, Some b => Some (hash_pair a b)
    | Some a, None => Some a
    | None, _ => None
    end.
Proof.
  revert j. induction l as [|x|x y l IH _] using list_ind2; intros j.
  - done.
  - rewrite next_level_one. destruct j as [|j]; [done|].
    replace (2 * S j)%nat with (S (S (2 * j))) by lia. done.
  - rewrite next_level_cons. destruct j as [|j]; [done|].
    replace (2 * S j)%nat with (S (S (2 * j))) by lia. simpl. rewrite IH.
    by replace (j + (j + 0))%nat with (2 * j)%nat by lia.
Qed.

Lemma levels_loop_nonnil fuel l : levels_loop fuel l ≠ [].
Proof. destruct fuel; simpl; by destruct (_ <? _)%nat. Qed.

Lemma levels_loop_step fuel l :
  (1 < length l)%nat → levels_loop (S fuel) l = l :: levels_loop fuel (next_level l).
Proof. intros H. simpl. by apply Nat.ltb_lt in H as ->. Qed.

Lemma levels_loop_done fuel l : (length l ≤ 1)%nat → levels_loop fuel l = [l].
Proof.
  intros H. assert ((1 <? length l)%nat = false) as E by (apply Nat.ltb_ge; lia).
  destruct fuel; simpl; by rewrite E.
Qed.

(** The fuel [length leaves] is enough: the loop ends at a single root. *)
Lemma levels_loop_root fuel l :
  l ≠ [] → (length l ≤ S fuel)%nat → ∃ r, last (levels_loop fuel l) = Some [r].
Proof.
  revert l. induction fuel as [|fuel IH]; intros l Hn Hl.
  - destruct l as [|x [|]]; simpl in Hl; [done| |lia]. by exists x.
  - destruct (decide (1 < length l)%nat) as [Hgt|Hle].
    + rewrite levels_loop_step by done. pose proof (next_level_shorter l Hgt).
      destruct (IH (next_level l)) as [r Hr]; [intros ?; destruct (next_level l); simpl in *; [lia|done]|lia|].
      exists r. rewrite last_cons, Hr. done.
    + rewrite levels_loop_done by lia. destruct l as [|x [|]]; simpl in Hle; [done| |lia]. by exists x.
Qed.

(** * Completeness *)

Lemma lxor_1_even j : Nat.lxor (2 * j) 1 = (2 * j + 1)%nat.
Proof.
  apply Nat.bits_inj. intros [|n]; rewrite Nat.lxor_spec.
  - by rewrite Nat.testbit_even_0, Nat.testbit_odd_0.
  - rewrite Nat.testbit_even_succ, Nat.testbit_odd_succ by lia.
    change 1%nat with (2 * 0 + 1)%nat at 1. rewrite Nat.testbit_odd_succ, Nat.bits_0 by lia. by rewrite xorb_false_r.
Qed.

Lemma lxor_1_odd j : Nat.lxor (2 * j + 1) 1 = (2 * j)%nat.
Proof. by rewrite <- lxor_1_even, Nat.lxor_assoc, Nat.lxor_nilpotent, Nat.lxor_0_r. Qed.

Lemma shiftr_1_half j : Nat.shiftr (2 * j) 1 = j ∧ Nat.shiftr (2 * j + 1) 1 = j.
Proof.
  rewrite !Nat.shiftr_div_pow2. change (2 ^ 1)%nat with 2%nat. split.
  - rewrite Nat.mul_comm. by apply Nat.div_mul.
  - rewrite Nat.add_comm, Nat.mul_comm, Nat.div_add by lia. by rewrite Nat.div_small by lia.
Qed.

Lemma even_odd_split n : ∃ j, n = (2 * j)%nat ∨ n = (2 * j + 1)%nat.
Proof.
  exists (n / 2)%nat. pose proof (Nat.div_mod_eq n 2). pose proof (Nat.mod_upper_bound n 2). lia.
Qed.

(** One step of the proof moves a node's hash to its parent's. *)
Lemma proof_step_correct l i h acc :
  l !! i = Some h →
  ∃ p, proof_step (acc, i) l = (acc ++ p, Nat.shiftr i 1) ∧ (length p ≤ 1)%nat ∧
    next_level l !! Nat.shiftr i 1 = Some (foldl hash_pair h p).
Proof.
  intros Hi. destruct (even_odd_split i) as (j & [-> | ->]); destruct (shiftr_1_half j) as [He Ho];
    rewrite ?He, ?Ho, next_level_lookup; unfold proof_step; rewrite ?He, ?Ho.
  - rewrite lxor_1_even, Hi. destruct (l !! (2 * j + 1)%nat) as [s|] eqn:Hs.
    + exists [s]. apply list_lookup_total_correct in Hs as Ht. rewrite Ht.
      apply lookup_lt_Some, Nat.ltb_lt in Hs as ->. done.
    + exists []. apply lookup_ge_None, Nat.ltb_ge in Hs as ->. rewrite app_nil_r. split; [done|]. split; [simpl; lia|done].
  - rewrite lxor_1_odd, Hi. pose proof (lookup_lt_Some _ _ _ Hi) as Hlt.
    destruct (lookup_lt_is_Some_2 l (2 * j)) as [s Hs]; [lia|]. rewrite Hs.
    exists [s]. rewrite (list_lookup_total_correct _ _ _ Hs).
    apply lookup_lt_Some, Nat.ltb_lt in Hs as ->. cbn [foldl]. by rewrite hash_pair_comm.
Qed.

Lemma take_pred_cons {A} (x : A) l : l ≠ [] → take (length (x :: l) - 1) (x :: l) = x :: take (length l - 1) l.
Proof. destruct l; [done|]. intros _. simpl. by rewrite Nat.sub_0_r. Qed.

Lemma proof_loop_correct fuel l i h acc :
  l !! i = Some h → (length l ≤ S fuel)%nat →
  let levels := levels_loop fuel l in
  ∃ p r, fst (foldl proof_step (acc, i) (take (length levels - 1) levels)) = acc ++ p ∧
    last levels = Some [r] ∧ foldl hash_pair h p = r ∧ (length p ≤ length levels - 1)%nat.
Proof.
  revert l i h acc. induction fuel as [|fuel IH]; intros l i h acc Hi Hl levels; subst levels.
  - pose proof (lookup_lt_Some _ _ _ Hi). destruct l as [|x [|]]; simpl in *; try lia.
    destruct i; [|lia]. injection Hi as <-. exists [], x. simpl. by rewrite app_nil_r.
  - destruct (decide (1 < length l)%nat) as [Hgt|Hle].
    + rewrite levels_loop_step by done. destruct (proof_step_correct l i h acc Hi) as (p & Hp & Hpl & Hn).
      pose proof (next_level_shorter l Hgt).
      destruct (IH (next_level l) _ _ (acc ++ p) Hn ltac:(lia)) as (q & r & Hq & Hr & Hf & Hlen).
      rewrite take_pred_cons by apply levels_loop_nonnil. cbn [foldl]. rewrite Hp.
      exists (p ++ q), r. split; [by rewrite Hq, app_assoc|].
      split; [by rewrite last_cons, Hr|]. split; [by rewrite foldl_app|].
      rewrite length_app. cbn [length].
      assert (levels_loop fuel (next_level l) ≠ []) as Hnn by apply levels_loop_nonnil.
      destruct (levels_loop fuel (next_level l)); [done|]. simpl in *. lia.
    + pose proof (lookup_lt_Some _ _ _ Hi). rewrite levels_loop_done by lia.
      destruct l as [|x [|]]; simpl in *; try lia. destruct i; [|lia]. injection Hi as <-.
      exists [], x. simpl. by rewrite app_nil_r.
Qed.

(** The number of levels: [2 ^ (levels - 2) < leaves] once there is more than one. *)
Lemma levels_loop_length fuel l :
  (1 < length l)%nat → (length l ≤ S fuel)%nat →
  (2 ^ (length (levels_loop fuel l) - 2) < length l)%nat ∧ (2 ≤ length (levels_loop fuel l))%nat.
Proof.
  revert l. induction fuel as [|fuel IH]; intros l Hgt Hl; [lia|].
  rewrite levels_loop_step by done. pose proof (next_level_shorter l Hgt).
  destruct (decide (1 < length (next_level l))%nat) as [Hg|Hg].
  - destruct (IH (next_level l) Hg ltac:(lia)) as [IH1 IH2]. cbn [length]. split; [|lia].
    replace (S (length (levels_loop fuel (next_level l))) - 2)%nat
      with (S (length (levels_loop fuel (next_level l)) - 2)) by lia.
    rewrite Nat.pow_succ_r'. rewrite length_next_level in IH1.
    pose proof (Nat.Div0.div_le_mono (length l + 1) (length l + 1) 2).
    pose proof (Nat.div_mod_eq (length l + 1) 2). pose proof (Nat.mod_upper_bound (length l + 1) 2). lia.
  - rewrite levels_loop_done by lia. simpl. lia.
Qed.

Lemma levels_loop_log2 fuel l :
  l ≠ [] → (length l ≤ S fuel)%nat → (length (levels_loop fuel l) - 1 ≤ Nat.log2_up (length l))%nat.
Proof.
  intros Hn Hl. destruct (decide (1 < length l)%nat) as [Hg|Hg].
  - destruct (levels_loop_length fuel l Hg Hl) as [H1 H2].
    destruct (decide (length (levels_loop fuel l) - 1 ≤ Nat.log2_up (length l))%nat) as [|Hc]; [done|].
    assert (Nat.log2_up (length l) ≤ length (levels_loop fuel l) - 2)%nat as H3 by lia.
    apply Nat.log2_up_le_pow2 in H3; lia.
  - rewrite levels_loop_done by lia. simpl. lia.
Qed.

Lemma levels_loop_head fuel l : head (levels_loop fuel l) = Some l.
Proof. destruct fuel; cbn [levels_loop]; by destruct (_ <? _)%nat. Qed.

Lemma levels_loop_chain fuel l k a b :
  levels_loop fuel l !! k = Some a → levels_loop fuel l !! S k = Some b → b = next_level a.
Proof.
  revert l k. induction fuel as [|fuel IH]; intros l k Ha Hb; cbn [levels_loop] in *.
  - destruct (_ <? _)%nat; done.
  - destruct (_ <? _)%nat; [|done]. destruct k as [|k]; [|by eapply IH].
    simpl in Ha, Hb. injection Ha as <-. rewrite <- head_lookup, levels_loop_head in Hb. by injection Hb.
Qed.

(** * Soundness *)

(** An explicit collision of the hash function. *)
Definition collision : Prop :=
  ∃ x y, bytes_ok x ∧ bytes_ok y ∧ x ≠ y ∧ keccak256 x = keccak256 y.

Lemma keccak_eq_or_collision x y :
  bytes_ok x → bytes_ok y → keccak256 x = keccak256 y → x = y ∨ collision.
Proof. intros. destruct (decide (x = y)); [by left|]. right. by exists x, y. Qed.

(** A [bytes32] value. *)
Definition bytes32 (h : bytes) : Prop := bytes_ok h ∧ length h = 32%nat.

#[export] Instance bytes32_dec h : Decision (bytes32 h).
Proof. unfold bytes32. apply _. Defined.

Lemma keccak256_bytes32 x : bytes32 (keccak256 x).
Proof. split; [apply keccak256_ok|apply length_keccak256]. Qed.

Lemma hash_pair_bytes32 a b : bytes32 (hash_pair a b).
Proof. unfold hash_pair. destruct (bytes_ltb a b); apply keccak256_bytes32. Qed.

Lemma hash_pair_preimage a b :
  bytes32 a → bytes32 b →
  ∃ x, bytes_ok x ∧ length x = 64%nat ∧ hash_pair a b = keccak256 x ∧ (x = a ++ b ∨ x = b ++ a).
Proof.
  intros [Ha La] [Hb Lb]. unfold hash_pair.
  destruct (bytes_ltb a b); [exists (a ++ b)|exists (b ++ a)]; rewrite length_app, bytes_ok_app; repeat split; auto; lia.
Qed.

Lemma hash_pair_inj a b c d :
  bytes32 a → bytes32 b → bytes32 c → bytes32 d →
  hash_pair a b = hash_pair c d → (a = c ∨ a = d) ∨ collision.
Proof.
  intros Ha Hb Hc Hd H.
  destruct (hash_pair_preimage a b Ha Hb) as (x & Hx & _ & Ex & Cx).
  destruct (hash_pair_preimage c d Hc Hd) as (y & Hy & _ & Ey & Cy).
  destruct (keccak_eq_or_collision x y Hx Hy) as [->|]; [congruence| |by right].
  left. destruct Ha as [_ La], Hb as [_ Lb], Hc as [_ Lc], Hd as [_ Ld].
  destruct Cx as [Cx|Cx], Cy as [Cy|Cy]; rewrite Cx in Cy; apply app_inj_1 in Cy as [? ?]; subst; auto; lia.
Qed.

(** The node is the hash of a 32-byte digest, as every double-hashed leaf is. *)
Definition is_leaf_hash (h : bytes) : Prop := ∃ d, bytes32 d ∧ h = keccak256 d.

Lemma leaf_hash_not_pair h a b :
  is_leaf_hash h → bytes32 a → bytes32 b → h = hash_pair a b → collision.
Proof.
  intros (d & [Hd Ld] & ->) Ha Hb H. destruct (hash_pair_preimage a b Ha Hb) as (x & Hx & Lx & Ex & _).
  exists d, x. repeat split; [done|done| |congruence]. intros ->. lia.
Qed.

(** The nodes of a level, each reached only from a leaf of the tree. *)
Definition level_sound (leaves level : list bytes) : Prop :=
  Forall bytes32 level ∧
  ∀ leaf proof, is_leaf_hash leaf → Forall bytes32 proof →
    foldl hash_pair leaf proof ∈ level → leaf ∈ leaves ∨ collision.

Lemma is_leaf_hash_bytes32 h : is_leaf_hash h → bytes32 h.
Proof. intros (d & _ & ->). apply keccak256_bytes32. Qed.

Lemma foldl_hash_pair_bytes32 h p : bytes32 h → bytes32 (foldl hash_pair h p).
Proof. destruct p as [|q p _] using rev_ind; [done|]. rewrite foldl_app. intros _. apply hash_pair_bytes32. Qed.

Lemma level_sound_leaves leaves : Forall is_leaf_hash leaves → level_sound leaves leaves.
Proof.
  intros Hl. split; [eapply list.Forall_impl; [exact Hl|apply is_leaf_hash_bytes32]|].
  intros leaf proof Hleaf Hp. destruct proof as [|q proof _] using rev_ind; [by left|].
  rewrite foldl_app. cbn [foldl]. intros Hin. right.
  apply Forall_app in Hp as [_ Hq]. inversion_clear Hq as [|?? Hq' _].
  rewrite list.Forall_forall in Hl. apply Hl in Hin as Hh.
  apply (leaf_hash_not_pair _ (foldl hash_pair leaf proof) q Hh); [|exact Hq'|done].
  by apply foldl_hash_pair_bytes32, is_leaf_hash_bytes32.
Qed.

Lemma elem_of_next_level h l :
  h ∈ next_level l → h ∈ l ∨ ∃ a b, a ∈ l ∧ b ∈ l ∧ h = hash_pair a b.
Proof.
  rewrite list_elem_of_lookup. intros [j Hj]. rewrite next_level_lookup in Hj.
  destruct (l !! (2 * j)%nat) as [a|] eqn:Ea; [|done].
  destruct (l !! (2 * j + 1)%nat) as [b|] eqn:Eb; injection Hj as <-.
  - right. exists a, b. repeat split; eapply list_elem_of_lookup_2; eassumption.
  - left. by eapply list_elem_of_lookup_2.
Qed.

Lemma level_sound_next leaves l : level_sound leaves l → level_sound leaves (next_level l).
Proof.
  intros [Hb Hs]. rewrite list.Forall_forall in Hb. split.
  - apply list.Forall_forall. intros h [Hh|(a & b & _ & _ & ->)]%elem_of_next_level; [by apply Hb|].
    apply hash_pair_bytes32.
  - intros leaf proof Hleaf Hp [Hin|(a & b & Ha & Hb' & He)]%elem_of_next_level; [by eapply Hs|].
    destruct proof as [|q proof _] using rev_ind.
    { right. by eapply (leaf_hash_not_pair leaf a b); auto. }
    apply Forall_app in Hp as [Hp Hq]. inversion_clear Hq as [|?? Hq' _].
    rewrite foldl_app in He. cbn [foldl] in He.
    destruct (hash_pair_inj (foldl hash_pair leaf proof) q a b) as [[E|E]|]; auto.
    + by apply foldl_hash_pair_bytes32, is_leaf_hash_bytes32.
    + eapply Hs; [done|exact Hp|by rewrite E].
    + eapply Hs; [done|exact Hp|by rewrite E].
Qed.

Lemma levels_loop_sound fuel leaves l level :
  level_sound leaves l → last (levels_loop fuel l) = Some level → level_sound leaves level.
Proof.
  revert l. induction fuel as [|fuel IH]; intros l Hs Hl; cbn [levels_loop] in Hl.
  - destruct (_ <? _)%nat; injection Hl as <-; done.
  - destruct (_ <? _)%nat; [|injection Hl as <-; done].
    rewrite last_cons in Hl. destruct (last (levels_loop fuel (next_level l))) as [t|] eqn:E.
    + injection Hl as <-. eapply IH; [|exact E]. by apply level_sound_next.
    + apply last_None in E. by apply levels_loop_nonnil in E.
Qed.

Lemma tree_levels_Ok leaves levels :
  tree_levels leaves = Ok levels ↔ leaves ≠ [] ∧ levels = levels_loop (length leaves) leaves.
Proof.
  unfold tree_levels. destruct leaves as [|x leaves]; [by split; [|intros [? _]]|].
  split; [intros H; inv_ok; by subst|by intros [_ ->]].
Qed.

Lemma tree_root_last levels r top : last levels = Some (r :: top) → tree_root levels = Ok r.
Proof. unfold tree_root. by intros ->. Qed.

(** What a tree promises its users, whatever its leaves encode. *)
Lemma tree_verify_sound leaves levels root leaf proof :
  tree_levels leaves = Ok levels → tree_root levels = Ok root →
  Forall is_leaf_hash leaves → is_leaf_hash leaf → Forall bytes32 proof →
  tree_verify proof root leaf = true → leaf ∈ leaves ∨ collision.
Proof.
  intros [Hn ->]%tree_levels_Ok Hr Hl Hleaf Hp Hv. unfold tree_root in Hr.
  destruct (last (levels_loop (length leaves) leaves)) as [[|r top]|] eqn:E; try done. injection Hr as ->.
  eapply levels_loop_sound in E as [_ Hs]; [|by apply level_sound_leaves].
  unfold tree_verify in Hv. apply bool_decide_eq_true_1 in Hv.
  eapply Hs; [exact Hleaf|exact Hp|]. rewrite Hv. left.
Qed.

Lemma batch_leaf_is_leaf_hash i r a l : Airdrop.batch_leaf i r a = Ok l → is_leaf_hash l.
Proof. unfold Airdrop.batch_leaf. intros H. inv_ok. subst. eexists. split; [|done]. apply keccak256_bytes32. Qed.

Lemma batch_leaf_inj i r a i' r' a' l :
  Airdrop.batch_leaf i r a = Ok l → Airdrop.batch_leaf i' r' a' = Ok l →
  (i = i' ∧ mapM py_int16 r = mapM py_int16 r' ∧ a = a') ∨ collision.
Proof.
  unfold Airdrop.batch_leaf. intros H H'.
  apply bind_Ok_inv in H as (e & He & H). apply bind_Ok_inv in H' as (e' & He' & H'). inv_ok. subst.
  symmetry in H'. apply keccak_eq_or_collision in H' as [H'|]; auto with pylib.
  apply keccak_eq_or_collision in H' as [->|]; eauto using abi_encode_batch_bytes.
  left. by eapply abi_encode_batch_inj.
Qed.

Lemma batch_leaves_elem batches leaves l :
  batch_leaves batches = Ok leaves → l ∈ leaves →
  ∃ j r a, batches !! j = Some (r, a) ∧ Airdrop.batch_leaf (Z.of_nat j) r a = Ok l.
Proof.
  intros H%mapM_Ok_Forall2 Hl. apply list_elem_of_lookup in Hl as [k Hk].
  eapply Forall2_lookup_r in H as ([i [r a]] & Hi & Hb); [|exact Hk].
  apply list_elem_of_lookup_2, enumerate_elem_of in Hi as (j & -> & Hj). eauto.
Qed.

(** * Properties *)

(** for a non-empty list of leaves the level loop terminates with levels
    that start at the leaves, are each built from the one below, and end in a
    single root. *)
Theorem tree_levels_terminate leaves :
  leaves ≠ [] →
  ∃ levels root, tree_levels leaves = Ok levels ∧ tree_root levels = Ok root ∧
    head levels = Some leaves ∧ last levels = Some [root] ∧
    ∀ k l l', levels !! k = Some l → levels !! S k = Some l' → l' = next_level l.
Proof.
  intros Hn. destruct (levels_loop_root (length leaves) leaves Hn) as [r Hr]; [lia|].
  exists (levels_loop (length leaves) leaves), r.
  split; [by apply tree_levels_Ok|]. split; [by eapply tree_root_last|].
  split; [apply levels_loop_head|]. split; [exact Hr|]. intros k l l'. apply levels_loop_chain.
Qed.

Lemma tree_levels_terminate_witness :
  ∃ levels root, tree_levels [keccak256 [1]; keccak256 [2]; keccak256 [3]] = Ok levels ∧
    tree_root levels = Ok root.
Proof.
  destruct (tree_levels_terminate [keccak256 [1]; keccak256 [2]; keccak256 [3]]) as (levels & root & H & Hr & _);
    [discriminate|].
  exists levels, root. split; [exact H|exact Hr].
Defined.

Lemma tree_proof_ok leaves levels i leaf :
  tree_levels leaves = Ok levels → leaves !! i = Some leaf →
  ∃ root, tree_root levels = Ok root ∧ tree_verify (tree_proof levels i) root leaf = true.
Proof.
  intros [Hn ->]%tree_levels_Ok Hi.
  destruct (proof_loop_correct (length leaves) leaves i leaf [] Hi ltac:(lia)) as (p & r & Hp & Hr & Hf & Hl).
  exists r. split; [by eapply tree_root_last|]. unfold tree_proof. rewrite Hp. simpl. by apply bool_decide_eq_true_2.
Qed.

(** every proof [tree_proof] writes for a leaf is accepted by [tree_verify]
    against the tree's root, for any number of leaves, and has at most
    [log2_up leaves] nodes. *)
Theorem tree_proof_verifies leaves levels i leaf :
  tree_levels leaves = Ok levels → leaves !! i = Some leaf →
  ∃ root, tree_root levels = Ok root ∧ tree_verify (tree_proof levels i) root leaf = true ∧
    (length (tree_proof levels i) ≤ Nat.log2_up (length leaves))%nat.
Proof.
  intros [Hn ->]%tree_levels_Ok Hi.
  destruct (proof_loop_correct (length leaves) leaves i leaf [] Hi ltac:(lia)) as (p & r & Hp & Hr & Hf & Hl).
  exists r. split; [by eapply tree_root_last|]. unfold tree_proof. rewrite Hp. simpl.
  split; [by apply bool_decide_eq_true_2|]. etransitivity; [exact Hl|]. apply levels_loop_log2; [done|lia].
Qed.

Lemma tree_proof_verifies_witness :
  let leaves := [keccak256 [1]; keccak256 [2]; keccak256 [3]] in
  let levels := from_ok [] (tree_levels leaves) in
  ∃ root, tree_root levels = Ok root ∧ tree_verify (tree_proof levels 2) root (keccak256 [3]) = true.
Proof.
  intros leaves levels.
  destruct (tree_proof_verifies leaves levels 2 (keccak256 [3])) as (root & Hr & Hv & _).
  - vm_compute. reflexivity.
  - reflexivity.
  - exists root. split; [exact Hr|exact Hv].
Defined.


