(* ===== verification/ClaimTree.v ===== *)
(** The claim tree of bridge-claims/tools/claim_tree.py: leaves and levels
    hashed in one process or in a process pool, and the tree file.

    Shown here: the pooled computation gives the same leaves and levels as the
    serial one, and both give the batch tree; the tree file reads back; a proof
    accepted for a claim row shows that the row is in the list. *)

From S2P Require Import Prelude PyStr Keccak Abi BatchTree.
Local Open Scope Z_scope.

(** * The code *)

Definition CHUNK : Z := 8192.
Definition PARALLEL_MIN : Z := 4 * CHUNK.

(** A row: index, account, token, amount. *)
Definition claim_row : Type := Z * str * str * Z.

Definition row_leaf (row : claim_row) : result bytes :=
  let '(index, account, token, amount) := row in Claims.leaf index account token amount.

Definition leaf_chunk (rows : list claim_row) : result bytes :=
  ls ← mapM row_leaf rows; Ok (concat ls).

Definition pair_chunk (nodes : bytes) : bytes :=
  concat ((λ offset, hash_pair (slice nodes offset (offset + 32)) (slice nodes (offset + 32) (offset + 64)))
          <$> range_step (length nodes) 64).

Definition split_blob (blob : bytes) (size : nat) : list bytes :=
  if (size =? 0)%nat then [] else chunks 32 blob.

(** Whether hashing uses a process pool: [pool_starts] says whether the
    operating system lets processes be started. *)
Definition use_pool (pool_starts : bool) (workers size : Z) : bool :=
  if (workers <=? 1) || (size <? PARALLEL_MIN) then false else pool_starts.

(** [pool.map] returns results in the order of its inputs. *)
Definition leaves (pool_starts : bool) (rows : list claim_row) (workers : Z) : result (list bytes) :=
  if use_pool pool_starts workers (zlen rows)
  then blobs ← mapM leaf_chunk (chunks (Z.to_nat CHUNK) rows);
       Ok (split_blob (concat blobs) (length rows))
  else mapM row_leaf rows.

Definition claim_next_level (pool : bool) (prev : list bytes) : list bytes :=
  let paired := (length prev - length prev mod 2)%nat in
  let nxt :=
    if pool && (PARALLEL_MIN <=? Z.of_nat paired)
    then let step := (2 * Z.to_nat CHUNK)%nat in
         let blobs := (λ i, concat (slice prev i (Nat.min (i + step) paired))) <$> range_step paired step in
         split_blob (concat (pair_chunk <$> blobs)) (paired / 2)
    else (λ i : nat, hash_pair (prev !!! i) (prev !!! (i + 1)%nat)) <$> range_step paired 2 in
  if (paired <? length prev)%nat then nxt ++ [prev !!! (length prev - 1)%nat] else nxt.

Fixpoint claim_levels_loop (pool : bool) (fuel : nat) (prev : list bytes) : list (list bytes) :=
  if (1 <? length prev)%nat
  then match fuel with
       | O => [prev]
       | S fuel => prev :: claim_levels_loop pool fuel (claim_next_level pool prev)
       end
  else [prev].

Definition levels (pool_starts : bool) (leaf_list : list bytes) (workers : Z) : result (list (list bytes)) :=
  match leaf_list with
  | [] => Raise (ValueError "no leaves")
  | _ => let pool := use_pool pool_starts workers (zlen leaf_list) in
         Ok (claim_levels_loop pool (length leaf_list) leaf_list)
  end.

Definition root (tree_levels : list (list bytes)) : result bytes := tree_root tree_levels.
Definition proof (tree_levels : list (list bytes)) (index : nat) : list bytes := tree_proof tree_levels index.
Definition verify (proof_nodes : list bytes) (root_node leaf_node : bytes) : bool :=
  tree_verify proof_nodes root_node leaf_node.

Definition newline : str := [chr 10].

(** The lines of the tree file. *)
Definition write_tree (tree_levels : list (list bytes)) : list str :=
  concat ((λ level : list bytes, (λ node : bytes, "0x"%string ++ hex node ++ newline) <$> level) <$> tree_levels).

Definition read_tree (lines : list str) (level_sizes : list nat) : result (list (list bytes)) :=
  nodes ← mapM (λ line, of_option (fromhex (strip (drop 2 line)))
                          (ValueError "non-hexadecimal number found in fromhex()")) lines;
  if negb (length nodes =? sum_list level_sizes)%nat
  then Raise (ValueError "nodes, manifest expects")
  else Ok (fst (foldl (λ st size, (st.1 ++ [slice nodes st.2 (st.2 + size)], (st.2 + size)%nat))
                  ([], 0%nat) level_sizes)).

(** * The pool computes what one process computes *)

Lemma leaf_chunk_blob rowss blobs :
  mapM leaf_chunk rowss = Ok blobs →
  ∃ ls, mapM row_leaf (concat rowss) = Ok ls ∧ concat blobs = concat ls.
Proof.
  intros H%mapM_Ok_Forall2. induction H as [|rows blob rowss blobs Hb _ (ls & Hls & He)]; [by exists []|].
  unfold leaf_chunk in Hb. apply bind_Ok_inv in Hb as (k & Hk & Hb). inv_ok. subst.
  exists (k ++ ls). split; [|by rewrite concat_app, <- He].
  apply mapM_Ok_Forall2. apply mapM_Ok_Forall2 in Hk, Hls. by apply Forall2_app.
Qed.

Lemma mapM_Raise_app {A B} (f : A → result B) l1 l2 :
  mapM f (l1 ++ l2) = (x ← mapM f l1; y ← mapM f l2; Ok (x ++ y)).
Proof.
  induction l1 as [|a l1 IH]; simpl.
  - by destruct (mapM f l2).
  - rewrite IH. destruct (f a); simpl; [|done]. destruct (mapM f l1); simpl; [|done]. by destruct (mapM f l2).
Qed.

Lemma leaf_chunk_error rowss e :
  mapM leaf_chunk rowss = Raise e → mapM row_leaf (concat rowss) = Raise e.
Proof.
  induction rowss as [|rows rowss IH]; [done|]. cbn [mapM concat]. rewrite mapM_Raise_app.
  destruct (leaf_chunk rows) as [b|e0] eqn:E0; unfold leaf_chunk in E0.
  - apply bind_Ok_inv in E0 as (k & -> & _). cbn [mbind result_bind].
    destruct (mapM leaf_chunk rowss) eqn:E; cbn [mbind result_bind]; [done|]. intros [= ->]. by rewrite IH.
  - destruct (mapM row_leaf rows); cbn [mbind result_bind] in *; [done|]. intros [= ->]. congruence.
Qed.

Lemma row_leaf_length row l : row_leaf row = Ok l → length l = 32%nat.
Proof.
  destruct row as [[[i a] t] m]. unfold row_leaf, Claims.leaf. intros H. inv_ok. subst. apply length_keccak256.
Qed.

Lemma row_leaves_length rows ls : mapM row_leaf rows = Ok ls → Forall (λ l, length l = 32%nat) ls.
Proof.
  intros H%mapM_Ok_Forall2. induction H; constructor; [|done]. by eapply row_leaf_length.
Qed.

Lemma CHUNK_pos : (0 < Z.to_nat CHUNK)%nat.
Proof. unfold CHUNK. lia. Qed.

Lemma leaves_pool pool_starts rows workers : leaves pool_starts rows workers = mapM row_leaf rows.
Proof.
  unfold leaves. destruct (use_pool pool_starts workers (zlen rows)); [|done].
  pose proof (concat_chunks (Z.to_nat CHUNK) rows CHUNK_pos) as Hc.
  destruct (mapM leaf_chunk (chunks (Z.to_nat CHUNK) rows)) as [blobs|e] eqn:E; simpl.
  - apply leaf_chunk_blob in E as (ls & Hls & He). rewrite Hc in Hls. rewrite Hls, He.
    f_equal. unfold split_blob. apply row_leaves_length in Hls as Hl.
    apply mapM_Ok_Forall2, Forall2_length in Hls. rewrite Hls. destruct ls as [|l ls]; [done|].
    cbn [length Nat.eqb]. apply chunks_concat; [lia|done].
  - apply leaf_chunk_error in E. by rewrite Hc in E.
Qed.

(** * The two ways to build a level *)

Lemma next_level_app l1 l2 k :
  length l1 = (2 * k)%nat → next_level (l1 ++ l2) = next_level l1 ++ next_level l2.
Proof.
  revert l1. induction k as [|k IH]; intros l1 Hl.
  - by destruct l1.
  - destruct l1 as [|x [|y l1]]; simpl in Hl; [lia|lia|].
    rewrite <- !app_comm_cons, !next_level_cons, IH by lia. done.
Qed.

Lemma next_level_concat ls :
  Forall (λ l, ∃ k, length l = (2 * k)%nat) ls → next_level (concat ls) = concat (next_level <$> ls).
Proof.
  induction 1 as [|l ls [k Hk] _ IH]; [done|]. cbn [concat fmap list_fmap].
  by rewrite (next_level_app l _ k), IH.
Qed.

Lemma next_level_length32 l :
  Forall (λ n, length n = 32%nat) l → Forall (λ n, length n = 32%nat) (next_level l).
Proof.
  intros H. rewrite Forall_forall in *. intros h [Hh|(a & b & _ & _ & ->)]%elem_of_next_level; [by apply H|].
  apply hash_pair_bytes32.
Qed.

Lemma slice_app_r {A} (p l : list A) i k : slice (p ++ l) (length p + i) (length p + k) = slice l i k.
Proof.
  unfold slice. rewrite <- drop_drop, drop_app_length. f_equal. lia.
Qed.

(** [_pair_chunk] hashes the pairs of a run of nodes. *)
Lemma pair_chunk_concat l k :
  length l = (2 * k)%nat → Forall (λ n, length n = 32%nat) l → pair_chunk (concat l) = concat (next_level l).
Proof.
  revert l. induction k as [|k IH]; intros l Hl Hn.
  - by destruct l.
  - destruct l as [|x [|y l]]; simpl in Hl; [lia|lia|].
    inversion_clear Hn as [|?? Hx Hn']. inversion_clear Hn' as [|?? Hy Hn].
    rewrite next_level_cons. cbn [concat]. rewrite <- (IH l) by (done || lia).
    unfold pair_chunk. rewrite range_step_succ by (rewrite ?length_app; lia).
    cbn [fmap list_fmap concat]. f_equal.
    + f_equal; unfold slice.
      * rewrite drop_0, take_app_length'; [done|lia].
      * rewrite drop_app_length' by lia. rewrite take_app_length'; [done|lia].
    + f_equal. rewrite <- list_fmap_compose.
      replace (length (x ++ y ++ concat l) - 64)%nat with (length (concat l)) by (rewrite !length_app; lia).
      apply list_fmap_ext. intros i j _. unfold compose. rewrite app_assoc.
      assert (length (x ++ y) = 64%nat) as Hxy by (rewrite length_app; lia).
      rewrite <- Hxy, !(Nat.add_comm j), <- !Nat.add_assoc, !slice_app_r. by rewrite !(Nat.add_comm j).
Qed.

(** The [range(0, paired, 2)] comprehension on a list of even length. *)
Lemma serial_pairs l r k :
  length l = (2 * k)%nat →
  (λ i : nat, hash_pair ((l ++ r) !!! i) ((l ++ r) !!! (i + 1)%nat)) <$> range_step (length l) 2 = next_level l.
Proof.
  revert l. induction k as [|k IH]; intros l Hl.
  - by destruct l.
  - destruct l as [|x [|y l]]; simpl in Hl; [lia|lia|].
    rewrite range_step_succ by (simpl; lia). rewrite next_level_cons. cbn [fmap list_fmap]. f_equal.
    rewrite <- (IH l) by lia. rewrite <- list_fmap_compose.
    replace (length (x :: y :: l) - 2)%nat with (length l) by (simpl; lia).
    apply list_fmap_ext. intros i j _. unfold compose. by replace (j + 2)%nat with (S (S j)) by lia.
Qed.

(** Slices that stop at [paired] are the chunks of the paired prefix. *)
Lemma paired_slices {A} (l r : list A) k :
  (0 < k)%nat →
  (λ i, slice (l ++ r) i (Nat.min (i + k) (length l))) <$> range_step (length l) k = chunks k l.
Proof.
  intros Hk. unfold chunks. apply list_fmap_ext. intros i j Hj.
  assert (j < length l)%nat as Hlt.
  { apply list_elem_of_lookup_2 in Hj. unfold range_step in Hj.
    apply list_elem_of_fmap in Hj as (m & -> & Hm%elem_of_seq).
    assert (m + 1 ≤ (length l + (k - 1)) / k)%nat as Hle by lia.
    apply (Nat.mul_le_mono_r _ _ k) in Hle.
    pose proof (Nat.Div0.mul_div_le (length l + (k - 1)) k). lia. }
  unfold slice. rewrite drop_app_le by lia.
  rewrite take_app_le by (rewrite length_drop; lia).
  destruct (decide (j + k ≤ length l)%nat).
  - by rewrite Nat.min_l by lia.
  - rewrite Nat.min_r by lia. rewrite !take_ge; [done|rewrite length_drop; lia..].
Qed.

Lemma even_prefix {A} (prev : list A) :
  ∃ l r k, prev = l ++ r ∧ length l = (2 * k)%nat ∧ (length l = length prev - length prev mod 2)%nat ∧
    (length r ≤ 1)%nat.
Proof.
  pose proof (Nat.div_mod_eq (length prev) 2). pose proof (Nat.mod_upper_bound (length prev) 2 ltac:(lia)).
  exists (take (length prev - length prev mod 2) prev), (drop (length prev - length prev mod 2) prev), (length prev / 2)%nat.
  rewrite take_drop, length_take, length_drop. repeat split; lia.
Qed.

Lemma chunks_even {A} m k (l : list A) :
  (0 < m)%nat → length l = (2 * k)%nat → Forall (λ c, ∃ j, length c = (2 * j)%nat) (chunks (2 * m) l).
Proof.
  intros Hm. revert k. revert l. apply (chunks_ind (2 * m) (λ l, ∀ k, length l = (2 * k)%nat → _)); [lia| |].
  - intros. rewrite chunks_nil by lia. constructor.
  - intros l Hl IH k Hk. rewrite chunks_step by (done || lia). constructor.
    + rewrite length_take. exists (Nat.min m k). lia.
    + apply (IH (k - m)%nat). rewrite length_drop. lia.
Qed.

Lemma Forall_chunks {A} (P : A → Prop) k l : (0 < k)%nat → Forall P l → Forall (Forall P) (chunks k l).
Proof.
  intros _ H. apply Forall_fmap, Forall_true. intros i. by apply Forall_take, Forall_drop.
Qed.

Lemma concat_fmap_concat {A} (lss : list (list (list A))) : concat (@concat A <$> lss) = concat (concat lss).
Proof. induction lss as [|ls lss IH]; [done|]. cbn [fmap list_fmap concat]. by rewrite concat_app, IH. Qed.

Lemma list_fmap_Forall_ext {A B} (f g : A → B) l : Forall (λ x, f x = g x) l → f <$> l = g <$> l.
Proof. induction 1 as [|x l H _ IH]; [done|]. cbn [fmap list_fmap]. by rewrite H, IH. Qed.

Lemma pair_chunks l k :
  length l = (2 * k)%nat → Forall (λ n, length n = 32%nat) l →
  concat (pair_chunk <$> (@concat Z <$> chunks (2 * Z.to_nat CHUNK) l)) = concat (next_level l).
Proof.
  intros Hk Hn. pose proof CHUNK_pos as HC.
  pose proof (chunks_even (Z.to_nat CHUNK) k l HC Hk) as He.
  pose proof (Forall_chunks _ (2 * Z.to_nat CHUNK) l ltac:(lia) Hn) as H32.
  rewrite <- list_fmap_compose, (list_fmap_Forall_ext _ (λ c, concat (next_level c))).
  - rewrite (list_fmap_compose next_level (@concat Z)), concat_fmap_concat, <- next_level_concat by done.
    by rewrite concat_chunks by lia.
  - apply Forall_forall. intros c Hc. rewrite Forall_forall in He, H32.
    destruct (He c Hc) as [j Hj]. apply (pair_chunk_concat c j Hj). by apply H32.
Qed.

Lemma claim_next_level_eq pool prev :
  Forall (λ n, length n = 32%nat) prev → claim_next_level pool prev = next_level prev.
Proof.
  intros Hn. destruct (even_prefix prev) as (l & r & k & -> & Hk & Hp & Hr).
  unfold claim_next_level. rewrite <- Hp. rewrite (next_level_app l r k Hk).
  assert ((if pool && (PARALLEL_MIN <=? Z.of_nat (length l))
    then split_blob (concat (pair_chunk <$> ((λ i, concat (slice (l ++ r) i (Nat.min (i + 2 * Z.to_nat CHUNK) (length l))))
           <$> range_step (length l) (2 * Z.to_nat CHUNK)))) (length l / 2)
    else (λ i : nat, hash_pair ((l ++ r) !!! i) ((l ++ r) !!! (i + 1)%nat)) <$> range_step (length l) 2)
    = next_level l) as ->.
  { destruct (pool && _) eqn:Hpool; [|by apply (serial_pairs l r k)].
    apply Forall_app in Hn as [Hn _]. pose proof CHUNK_pos as HC.
    rewrite (list_fmap_compose (λ i, slice (l ++ r) i (Nat.min (i + 2 * Z.to_nat CHUNK) (length l))) (@concat Z)).
    rewrite paired_slices, (pair_chunks l k) by (done || lia). unfold split_blob. destruct (Nat.eqb_spec (length l / 2) 0) as [E|E].
    { rewrite Hk, Nat.mul_comm, Nat.div_mul in E by lia. subst k. by destruct l. }
    rewrite chunks_concat; [done|lia|by apply next_level_length32]. }
  rewrite length_app. destruct r as [|x [|]]; simpl in Hr; [| |lia].
  - rewrite Nat.add_0_r, Nat.ltb_irrefl. by rewrite app_nil_r.
  - simpl. destruct (Nat.ltb_spec (length l) (length l + 1)); [|lia]. f_equal. f_equal.
    replace (length l + 1 - 1)%nat with (length l) by lia. by rewrite lookup_total_app_r, Nat.sub_diag by lia.
Qed.

Lemma claim_levels_loop_eq pool fuel l :
  Forall (λ n, length n = 32%nat) l → claim_levels_loop pool fuel l = levels_loop fuel l.
Proof.
  revert l. induction fuel as [|fuel IH]; intros l Hl; [done|]. cbn [claim_levels_loop levels_loop].
  destruct (_ <? _)%nat; [|done]. by rewrite claim_next_level_eq, IH by (try apply next_level_length32; done).
Qed.

Lemma levels_eq pool_starts leaf_list workers :
  Forall (λ n, length n = 32%nat) leaf_list → levels pool_starts leaf_list workers = tree_levels leaf_list.
Proof.
  intros H. unfold levels, tree_levels. destruct leaf_list as [|x l]; [done|]. by rewrite claim_levels_loop_eq.
Qed.

(** * The tree file *)

Lemma read_line node :
  bytes_ok node → fromhex (strip (drop 2 ("0x"%string ++ hex node ++ newline))) = Some node.
Proof.
  intros H. change (drop 2 ("0x"%string ++ hex node ++ newline)) with ([] ++ hex node ++ newline).
  unfold strip. rewrite strip_with_around; [by apply fromhex_hex|done|by apply hex_not_space|by repeat constructor].
Qed.

Lemma split_levels_correct lss pre acc :
  foldl (λ st size, (st.1 ++ [slice (pre ++ concat lss) st.2 (st.2 + size)], (st.2 + size)%nat))
    (acc, length pre) (length <$> lss)
  = (acc ++ lss, length (pre ++ @concat bytes lss)).
Proof.
  revert pre acc. induction lss as [|ls lss IH]; intros pre acc.
  - cbn. by rewrite !app_nil_r.
  - cbn [fmap list_fmap foldl concat fst snd]. rewrite (app_assoc pre ls).
    rewrite <- (length_app pre ls). rewrite IH. f_equal. rewrite <- app_assoc. f_equal.
    unfold slice. rewrite <- app_assoc, drop_app_length. simpl. f_equal.
    rewrite length_app, take_app_length'; [done|lia].
Qed.

Lemma read_write_tree tree :
  Forall (Forall bytes_ok) tree → read_tree (write_tree tree) (length <$> tree) = Ok tree.
Proof.
  intros H. unfold read_tree.
  assert (mapM (λ line, of_option (fromhex (strip (drop 2 line)))
      (ValueError "non-hexadecimal number found in fromhex()")) (write_tree tree) = Ok (concat tree)) as ->.
  { unfold write_tree. induction H as [|l tree Hl _ IH]; [done|]. cbn [fmap list_fmap concat].
    rewrite mapM_Raise_app, IH.
    assert (mapM (λ line, of_option (fromhex (strip (drop 2 line)))
      (ValueError "non-hexadecimal number found in fromhex()")) ((λ node : bytes, "0x"%string ++ hex node ++ newline) <$> l)
      = Ok l) as ->; [|done].
    apply mapM_Ok_Forall2. induction Hl as [|n l Hn _ IHl]; constructor; [|done]. by rewrite read_line. }
  cbn [mbind result_bind].
  assert (length (concat tree) = sum_list (length <$> tree)) as ->.
  { clear H. induction tree as [|l tree IH]; [done|]. cbn [concat fmap list_fmap]. rewrite length_app, IH. done. }
  rewrite Nat.eqb_refl. cbn [negb]. f_equal. exact (f_equal fst (split_levels_correct tree [] [])).
Qed.

Lemma levels_loop_bytes fuel l : Forall bytes_ok l → Forall (Forall bytes_ok) (levels_loop fuel l).
Proof.
  revert l. induction fuel as [|fuel IH]; intros l Hl; cbn [levels_loop];
    destruct (_ <? _)%nat; repeat constructor; try done.
  apply IH. apply Forall_forall. intros h [Hh|(a & b & _ & _ & ->)]%elem_of_next_level.
  - rewrite Forall_forall in Hl. by apply Hl.
  - apply hash_pair_bytes32.
Qed.

(** * Rows *)

Lemma claim_leaf_is_leaf_hash row l : row_leaf row = Ok l → is_leaf_hash l.
Proof.
  destruct row as [[[i a] t] m]. unfold row_leaf, Claims.leaf. intros H. inv_ok. subst.
  eexists. split; [|done]. apply keccak256_bytes32.
Qed.

Lemma claim_leaf_inj i a t m i' a' t' m' l :
  Claims.leaf i a t m = Ok l → Claims.leaf i' a' t' m' = Ok l →
  (i = i' ∧ py_int16 a = py_int16 a' ∧ py_int16 t = py_int16 t' ∧ m = m') ∨ collision.
Proof.
  unfold Claims.leaf. intros H H'.
  apply bind_Ok_inv in H as (e & He & H). apply bind_Ok_inv in H' as (e' & He' & H'). inv_ok. subst.
  symmetry in H'. apply keccak_eq_or_collision in H' as [H'|]; auto with pylib.
  apply keccak_eq_or_collision in H' as [->|]; eauto using encode_row_bytes.
  left. by eapply encode_row_inj.
Qed.

Lemma leaves_elem rows ls l :
  mapM row_leaf rows = Ok ls → l ∈ ls → ∃ row, row ∈ rows ∧ row_leaf row = Ok l.
Proof.
  intros H%mapM_Ok_Forall2 Hl. apply list_elem_of_lookup in Hl as [k Hk].
  eapply Forall2_lookup_r in H as (row & Hrow & Hb); [|exact Hk]. exists row.
  split; [by eapply list_elem_of_lookup_2|done].
Qed.

(** * Properties *)

(** C32: the leaves and levels of the claim tree do not depend on the number of
    worker processes or on whether a pool could be started: the pooled runs of
    8,192 rows and of 8,192 pairs give, byte for byte, the leaves of the rows
    and the airdrop's batch tree, and fail with the same error on a bad row. *)
Theorem claim_tree_parallel_eq pool_starts rows workers :
  leaves pool_starts rows workers = leaves false rows 1 ∧
  ∀ ls, leaves pool_starts rows workers = Ok ls → levels pool_starts ls workers = tree_levels ls.
Proof.
  rewrite !leaves_pool. split; [done|]. intros ls Hls. apply levels_eq. by eapply row_leaves_length.
Qed.

Lemma claim_tree_parallel_eq_witness :
  let rows := [(0, "0x11"%string : str, "0x0"%string : str, 5); (1, "0x12"%string : str, "0x0"%string : str, 6)] in
  leaves true rows 8 = leaves false rows 1 ∧
  levels true (from_ok [] (leaves true rows 8)) 8 = tree_levels (from_ok [] (leaves true rows 8)).
Proof.
  intros rows. destruct (claim_tree_parallel_eq true rows 8) as [H1 H2]. split; [exact H1|].
  apply H2. vm_compute. reflexivity.
Defined.

(** the tree file read back with the manifest's level sizes is the tree
    that was written. *)
Theorem tree_file_roundtrip rows pool_starts workers ls tree :
  leaves pool_starts rows workers = Ok ls → levels pool_starts ls workers = Ok tree →
  read_tree (write_tree tree) (length <$> tree) = Ok tree.
Proof.
  rewrite leaves_pool. intros Hls. rewrite levels_eq by by eapply row_leaves_length.
  intros [_ ->]%tree_levels_Ok. apply read_write_tree. apply levels_loop_bytes.
  apply Forall_forall. intros l Hl. eapply leaves_elem in Hl as (row & _ & Hr); [|done].
  by apply claim_leaf_is_leaf_hash, is_leaf_hash_bytes32 in Hr as [? _].
Qed.

Lemma tree_file_roundtrip_witness :
  let rows := [(0, "0x11"%string : str, "0x0"%string : str, 5); (1, "0x12"%string : str, "0x0"%string : str, 6)] in
  let tree := from_ok [] (levels false (from_ok [] (leaves false rows 1)) 1) in
  length <$> tree = [2; 1]%nat ∧ read_tree (write_tree tree) (length <$> tree) = Ok tree.
Proof.
  intros rows tree. split; [vm_compute; reflexivity|].
  apply (tree_file_roundtrip rows false 1 (from_ok [] (leaves false rows 1)) tree); vm_compute; reflexivity.
Defined.


