(* ===== verification/Bech32.v ===== *)
(** Harmony's bech32 addresses: airdrop/tools/common.py ([_bech32_polymod],
    [to_one1], [from_one1]) and contract_review_lib.py ([bech32_to_hex],
    [hex_to_bech32]).

    Shown here: the checksum the encoder appends makes the polymod 1; decoding
    an encoded address gives it back in both libraries; one wrong character is
    always refused.  [bech32_to_hex] checks neither the prefix nor the padding,
    so it also decodes addresses of other chains. *)

From S2P Require Import Prelude PyStr Keccak Abi.
Local Open Scope Z_scope.

(** * The code *)

Definition BECH32_CHARSET : str := "qpzry9x8gf2tvdw0s3jn54khce6mua7l"%string.

Definition generator : list Z := [0x3B6A57B2; 0x26508E6D; 0x1EA119FA; 0x3D4233DD; 0x2A1462B3].

Definition polymod_step (chk value : Z) : Z :=
  let top := Z.shiftr chk 25 in
  let chk := Z.lxor (Z.shiftl (Z.land chk 0x1FFFFFF) 5) value in
  foldl (λ chk i, if negb (Z.land (Z.shiftr top (Z.of_nat i)) 1 =? 0)
                  then Z.lxor chk (generator !!! i) else chk) chk (seq 0 5).

Definition bech32_polymod (values : list Z) : Z := foldl polymod_step 1 values.

(** [while bits >= wout: bits -= wout; out.append((acc >> bits) & mask)]; each
    round lowers [bits]. *)
Fixpoint emit (wout : Z) (fuel : nat) (acc bits : Z) (out : list Z) : list Z * Z :=
  match fuel with
  | O => (out, bits)
  | S fuel =>
      if wout <=? bits
      then emit wout fuel acc (bits - wout) (out ++ [Z.land (Z.shiftr acc (bits - wout)) (Z.ones wout)])
      else (out, bits)
  end.

Definition regroup_step (win wout : Z) (st : list Z * Z * Z) (v : Z) : list Z * Z * Z :=
  let '(out, acc, bits) := st in
  let acc := Z.lor (Z.shiftl acc win) v in
  let bits := bits + win in
  let '(out, bits) := emit wout (Z.to_nat bits) acc bits out in
  (out, acc, bits).

(** The bits of [vals], [win] bits each, in groups of [wout]. *)
Definition regroup (win wout : Z) (vals : list Z) : list Z * Z * Z :=
  foldl (regroup_step win wout) ([], 0, 0) vals.

Definition hrp_expand (hrp : str) : list Z :=
  ((λ c, Z.shiftr (ord c) 5) <$> hrp) ++ [0] ++ ((λ c, Z.land (ord c) 31) <$> hrp).

Definition charset_char (d : Z) : ascii := nth (Z.to_nat d) BECH32_CHARSET "q"%char.

(** [_BECH32_CHARSET.index(c)]. *)
Definition charset_index (c : ascii) : option Z :=
  (λ p, Z.of_nat (fst p)) <$> list_find (λ x, x = c) BECH32_CHARSET.

Definition encode_raw (raw : bytes) (hrp : str) : str :=
  let '(data, acc, bits) := regroup 8 5 raw in
  let data := if bits =? 0 then data else data ++ [Z.land (Z.shiftl acc (5 - bits)) 31] in
  let polymod := Z.lxor (bech32_polymod (hrp_expand hrp ++ data ++ replicate 6 0)) 1 in
  let checksum := (λ i : nat, Z.land (Z.shiftr polymod (5 * (5 - Z.of_nat i))) 31) <$> seq 0 6 in
  hrp ++ "1"%string ++ (charset_char <$> (data ++ checksum)).

Definition to_one1 (address hrp : str) : result str :=
  raw ← Airdrop.unhex address; Ok (encode_raw raw hrp).

(** [from_one1] with [checksum=False]: the lower-case 0x address.  The EIP-55
    form is [to_checksum] of it. *)
Definition from_one1_lower (value hrp : str) : result str :=
  let text := lower (strip value) in
  let body := drop (length hrp + 1) text in
  match startswith text (hrp ++ "1"%string), mapM charset_index body with
  | true, Some data =>
      if negb (length data =? 38)%nat || negb (bech32_polymod (hrp_expand hrp ++ data) =? 1)
      then Raise (InputError "bad one1 address checksum")
      else let '(out, _, _) := regroup 5 8 (take (length data - 6) data) in
           Ok ("0x"%string ++ hex out)
  | _, _ => Raise (InputError "not a one1 address")
  end.

(** contract_review_lib.py *)
Definition crl_normalize_address (value : str) : option str :=
  let value := lower value in
  let value := if startswith value "0x"%string then value else "0x"%string ++ value in
  if negb (length value =? 42)%nat then None else Some value.

(** [text.rsplit("1", 1)] when "1" occurs. *)
Definition rsplit1 (text : str) : str * str :=
  let '(b, _, a) := partition "1"%char (reverse text) in (reverse a, reverse b).

Definition bech32_to_hex (text : option str) : option str :=
  text ← text;
  let text := strip text in
  if startswith (lower text) "0x"%string then crl_normalize_address text else
  let text := lower text in
  if negb (bool_decide ("1"%char ∈ text)) then None else
  let '(hrp, data) := rsplit1 text in
  values ← mapM charset_index data;
  if negb (bech32_polymod (hrp_expand hrp ++ values) =? 1) then None else
  let '(out, _, _) := regroup 5 8 (take (length values - 6) values) in
  if negb (length out =? 20)%nat then None else Some ("0x"%string ++ hex out).

Definition hex_to_bech32 (address hrp : str) : result str :=
  a ← of_option (crl_normalize_address address) (TypeError "'NoneType' object is not subscriptable");
  raw ← of_option (fromhex (drop 2 a)) (ValueError "non-hexadecimal number found in fromhex()");
  Ok (encode_raw raw hrp).

Definition any_to_hex (value : option str) : option str :=
  match value with
  | None | Some [] => None
  | Some v => if startswith (lower v) "0x"%string then crl_normalize_address v else bech32_to_hex (Some v)
  end.

Definition require_address_secure_key (address secure_key : str) : result str :=
  normalized ← of_option (any_to_hex (Some address)) (ValueError "invalid address");
  raw ← of_option (fromhex (drop 2 normalized)) (ValueError "invalid address");
  let expected := "0x"%string ++ hex (keccak256 raw) in
  if negb (bool_decide (lower secure_key = expected))
  then Raise (ValueError "address does not match secure key")
  else Ok normalized.

(** * The checksum is linear *)

Definition gen (top : Z) : Z :=
  foldl (λ chk i, if negb (Z.land (Z.shiftr top (Z.of_nat i)) 1 =? 0)
                  then Z.lxor chk (generator !!! i) else chk) 0 (seq 0 5).

Lemma odd_land1 t i : negb (Z.land (Z.shiftr t (Z.of_nat i)) 1 =? 0) = Z.testbit t (Z.of_nat i).
Proof.
  change 1 with (Z.ones 1). rewrite Z.land_ones by lia. change (2 ^ 1) with 2. rewrite <- Z.bit0_mod.
  rewrite Z.shiftr_spec by lia. rewrite Z.add_0_l. by destruct (Z.testbit t (Z.of_nat i)).
Qed.

Definition gen_term (t : Z) (i : nat) : Z := if Z.testbit t (Z.of_nat i) then generator !!! i else 0.

Lemma gen_fold idxs c t :
  foldl (λ chk i, if negb (Z.land (Z.shiftr t (Z.of_nat i)) 1 =? 0)
                  then Z.lxor chk (generator !!! i) else chk) c idxs
  = Z.lxor c (foldr Z.lxor 0 (gen_term t <$> idxs)).
Proof.
  revert c. induction idxs as [|i idxs IH]; intros c; [by rewrite Z.lxor_0_r|].
  cbn [foldl fmap list_fmap foldr]. rewrite IH, odd_land1. unfold gen_term at 2.
  destruct (Z.testbit t (Z.of_nat i)); by rewrite ?Z.lxor_0_l, <- ?Z.lxor_assoc.
Qed.

Lemma gen_foldr t : gen t = foldr Z.lxor 0 (gen_term t <$> seq 0 5).
Proof. unfold gen. by rewrite gen_fold, Z.lxor_0_l. Qed.

Lemma lxor_swap a b c d : Z.lxor (Z.lxor a b) (Z.lxor c d) = Z.lxor (Z.lxor a c) (Z.lxor b d).
Proof. rewrite !Z.lxor_assoc. f_equal. rewrite <- !Z.lxor_assoc. f_equal. apply Z.lxor_comm. Qed.

Lemma gen_term_lxor s t i : gen_term (Z.lxor s t) i = Z.lxor (gen_term s i) (gen_term t i).
Proof.
  unfold gen_term. rewrite Z.lxor_spec.
  destruct (Z.testbit s _), (Z.testbit t _); simpl; by rewrite ?Z.lxor_0_r, ?Z.lxor_0_l, ?Z.lxor_nilpotent.
Qed.

Lemma gen_lxor s t : gen (Z.lxor s t) = Z.lxor (gen s) (gen t).
Proof.
  rewrite !gen_foldr. generalize (seq 0 5) as idxs. intros idxs.
  induction idxs as [|i idxs IH]; [done|]. cbn [fmap list_fmap foldr].
  by rewrite gen_term_lxor, IH, lxor_swap.
Qed.

Lemma polymod_step_gen c v :
  polymod_step c v = Z.lxor (Z.lxor (Z.shiftl (Z.land c 0x1FFFFFF) 5) v) (gen (Z.shiftr c 25)).
Proof. unfold polymod_step. by rewrite gen_fold, gen_foldr. Qed.

Lemma land_lxor_distr a b m : Z.land (Z.lxor a b) m = Z.lxor (Z.land a m) (Z.land b m).
Proof.
  apply Z.bits_inj'. intros i Hi. rewrite Z.land_spec, !Z.lxor_spec, !Z.land_spec.
  destruct (Z.testbit a i), (Z.testbit b i), (Z.testbit m i); done.
Qed.

Lemma polymod_step_linear c d v w :
  polymod_step (Z.lxor c d) (Z.lxor v w) = Z.lxor (polymod_step c v) (polymod_step d w).
Proof.
  rewrite !polymod_step_gen, land_lxor_distr, Z.shiftl_lxor, Z.shiftr_lxor, gen_lxor.
  rewrite (lxor_swap _ _ v w). apply lxor_swap.
Qed.

Lemma polymod_fold_linear vs ws c d :
  length vs = length ws →
  foldl polymod_step (Z.lxor c d) (zip_with Z.lxor vs ws)
  = Z.lxor (foldl polymod_step c vs) (foldl polymod_step d ws).
Proof.
  revert ws c d. induction vs as [|v vs IH]; intros [|w ws] c d Hl; try done. injection Hl as Hl. cbn [foldl zip_with].
  rewrite polymod_step_linear. by apply IH.
Qed.

(** * Bounds *)

Definition sym (v : Z) : Prop := 0 ≤ v < 32.
Definition chk30 (c : Z) : Prop := 0 ≤ c < 2 ^ 30.

Lemma bits_bound n v : 0 ≤ n → (0 ≤ v < 2 ^ n ↔ 0 ≤ v ∧ ∀ i, n ≤ i → Z.testbit v i = false).
Proof.
  intros Hn. split.
  - intros [H0 H1]. split; [done|]. intros i Hi.
    rewrite <- (Z.mod_small v (2 ^ n)) by lia. by apply Z.mod_pow2_bits_high.
  - intros [H0 H]. split; [done|].
    assert (v mod 2 ^ n = v) as <-; [|apply Z.mod_pos_bound; lia].
    apply Z.bits_inj'. intros i Hi. destruct (Z.lt_ge_cases i n).
    + by apply Z.mod_pow2_bits_low.
    + rewrite Z.mod_pow2_bits_high by lia. by rewrite H.
Qed.

Lemma lxor_bound n a b : 0 ≤ n → 0 ≤ a < 2 ^ n → 0 ≤ b < 2 ^ n → 0 ≤ Z.lxor a b < 2 ^ n.
Proof.
  intros Hn [Ha Ha']%bits_bound [Hb Hb']%bits_bound; try done. apply bits_bound; [done|].
  split; [by apply Z.lxor_nonneg|]. intros i Hi. by rewrite Z.lxor_spec, Ha', Hb'.
Qed.

Lemma gen_bound t : chk30 (gen t).
Proof.
  rewrite gen_foldr. unfold chk30. generalize (seq 0 5) as idxs. intros idxs.
  induction idxs as [|i idxs IH]; [simpl; lia|]. cbn [fmap list_fmap foldr].
  apply lxor_bound; [lia| |done]. unfold gen_term. destruct (Z.testbit t (Z.of_nat i)); [|lia].
  do 5 (destruct i as [|i]; [compute_decide|]). compute_decide.
Qed.

Lemma low25_bound c : 0 ≤ Z.land c 0x1FFFFFF < 2 ^ 25.
Proof. change 0x1FFFFFF with (Z.ones 25). rewrite Z.land_ones by lia. apply Z.mod_pos_bound. lia. Qed.

Lemma polymod_step_bound c v : sym v → chk30 (polymod_step c v).
Proof.
  intros Hv. unfold sym, chk30 in *. rewrite polymod_step_gen.
  apply lxor_bound; [lia|apply lxor_bound; [lia| |lia]|apply gen_bound].
  rewrite Z.shiftl_mul_pow2 by lia. pose proof (low25_bound c). lia.
Qed.

Lemma lxor_disjoint a v k : 0 ≤ k → 0 ≤ a → 0 ≤ v < 2 ^ k → Z.lxor (Z.shiftl a k) v = a * 2 ^ k + v.
Proof.
  intros Hk Ha [Hv0 Hv]%bits_bound; [|done]. rewrite <- Z.shiftl_mul_pow2 by done.
  symmetry. apply Z.add_nocarry_lxor. apply Z.bits_inj'. intros i Hi.
  rewrite Z.land_spec, Z.bits_0, Z.shiftl_spec by done. destruct (Z.lt_ge_cases i k).
  - by rewrite Z.testbit_neg_r by lia.
  - by rewrite Hv, andb_false_r.
Qed.

Lemma lor_disjoint a v k : 0 ≤ k → 0 ≤ a → 0 ≤ v < 2 ^ k → Z.lor (Z.shiftl a k) v = a * 2 ^ k + v.
Proof.
  intros Hk Ha Hv. rewrite <- (lxor_disjoint a v k) by done. apply bits_bound in Hv as [Hv0 Hv]; [|done].
  symmetry. apply Z.lxor_lor. apply Z.bits_inj'. intros i Hi.
  rewrite Z.land_spec, Z.bits_0, Z.shiftl_spec by done. destruct (Z.lt_ge_cases i k).
  - by rewrite Z.testbit_neg_r by lia.
  - by rewrite Hv, andb_false_r.
Qed.

(** From a small state the generator is not used: the symbols are shifted in. *)
Lemma polymod_step_small c v : 0 ≤ c < 2 ^ 25 → sym v → polymod_step c v = c * 32 + v.
Proof.
  intros Hc Hv. rewrite polymod_step_gen.
  replace (Z.shiftr c 25) with 0 by (rewrite Z.shiftr_div_pow2, Z.div_small by lia; done).
  change (gen 0) with 0. rewrite Z.lxor_0_r.
  replace (Z.land c 0x1FFFFFF) with c.
  - unfold sym in Hv. rewrite (lxor_disjoint c v 5) by lia. done.
  - change 0x1FFFFFF with (Z.ones 25). rewrite Z.land_ones, Z.mod_small by lia. done.
Qed.

Lemma polymod_fold_small vs c k :
  Forall sym vs → 0 ≤ c < 32 ^ k → 0 ≤ k → k + zlen vs ≤ 6 → foldl polymod_step c vs = undigits 32 c vs.
Proof.
  intros Hv. revert c k. induction Hv as [|v vs Hv _ IH]; intros c k Hc Hk Hl; [done|].
  unfold zlen in *. cbn [length] in Hl.
  assert (32 ^ k ≤ 32 ^ 5) by (apply Z.pow_le_mono_r; lia). change (32 ^ 5) with (2 ^ 25) in *.
  cbn [foldl]. rewrite polymod_step_small by (done || lia). unfold sym in Hv.
  rewrite (IH _ (k + 1)); [done| |lia|lia].
  rewrite Z.pow_add_r by lia. change (32 ^ 1) with 32. lia.
Qed.

(** * The checksum makes the polymod 1 *)

Definition checksum6 (p : Z) : list Z :=
  (λ i : nat, Z.land (Z.shiftr p (5 * (5 - Z.of_nat i))) 31) <$> seq 0 6.

Lemma land31 a : Z.land a 31 = a mod 32.
Proof. change 31 with (Z.ones 5). by rewrite Z.land_ones by lia. Qed.

Lemma checksum6_sym p : Forall sym (checksum6 p).
Proof. apply Forall_fmap, Forall_true. intros i. simpl. rewrite land31. apply Z.mod_pos_bound. lia. Qed.

Lemma length_checksum6 p : length (checksum6 p) = 6%nat.
Proof. unfold checksum6. by rewrite length_fmap. Qed.

Lemma undigits_checksum6 p : chk30 p → undigits 32 0 (checksum6 p) = p.
Proof.
  intros Hp. unfold chk30, checksum6, undigits in *. cbn -[Z.land Z.shiftr Z.mul Z.add Z.sub].
  rewrite !land31, !Z.shiftr_div_pow2 by lia. cbn. Z.div_mod_to_equations. lia.
Qed.

Lemma zip_with_zeros_l vs : zip_with Z.lxor (replicate (length vs) 0) vs = vs.
Proof. induction vs as [|v vs IH]; [done|]. simpl. by rewrite IH. Qed.

Lemma polymod_append vs c :
  length vs = 6%nat → Forall sym vs →
  foldl polymod_step c vs = Z.lxor (foldl polymod_step c (replicate 6 0)) (undigits 32 0 vs).
Proof.
  intros Hl Hv. rewrite <- (zip_with_zeros_l vs) at 1. rewrite Hl, <- (Z.lxor_0_r c) at 1.
  rewrite polymod_fold_linear by by rewrite length_replicate.
  rewrite (polymod_fold_small vs 0 0); [reflexivity|done|lia|lia|]. unfold zlen. rewrite Hl. lia.
Qed.

Lemma polymod_fold_bound c vs : chk30 c → Forall sym vs → chk30 (foldl polymod_step c vs).
Proof.
  intros Hc Hv. revert c Hc. induction Hv as [|v vs Hv _ IH]; intros c Hc; [done|].
  simpl. apply IH. by apply polymod_step_bound.
Qed.

Lemma polymod_checksum vs :
  Forall sym vs →
  bech32_polymod (vs ++ checksum6 (Z.lxor (bech32_polymod (vs ++ replicate 6 0)) 1)) = 1.
Proof.
  intros Hv. unfold bech32_polymod. rewrite !foldl_app.
  assert (chk30 (foldl polymod_step (foldl polymod_step 1 vs) (replicate 6 0))) as Hb.
  { apply polymod_fold_bound; [apply polymod_fold_bound; [by vm_compute|done]|].
    apply Forall_replicate. unfold sym. lia. }
  rewrite (polymod_append (checksum6 _)); [|apply length_checksum6|apply checksum6_sym].
  rewrite undigits_checksum6.
  - by rewrite <- Z.lxor_assoc, Z.lxor_nilpotent, Z.lxor_0_l.
  - apply lxor_bound; [lia|exact Hb|lia].
Qed.

(** * One wrong symbol is always seen *)

Lemma gen_low_zero t : 0 ≤ t < 32 → gen t mod 32 = 0 → t = 0.
Proof.
  intros Ht H.
  assert (forallb (λ n, (negb (gen (Z.of_nat n) mod 32 =? 0)) || (n =? 0)%nat) (seq 0 32) = true) as Hc by by vm_compute.
  rewrite forallb_forall in Hc. specialize (Hc (Z.to_nat t)). rewrite in_seq in Hc.
  specialize (Hc ltac:(lia)). rewrite Z2Nat.id in Hc by lia. rewrite H in Hc. simpl in Hc.
  apply Nat.eqb_eq in Hc. lia.
Qed.

Lemma polymod_step_zero c : chk30 c → polymod_step c 0 = 0 → c = 0.
Proof.
  intros Hc H. rewrite polymod_step_gen, Z.lxor_0_r in H. apply Z.lxor_eq in H.
  assert (Z.shiftr c 25 = 0) as Ht.
  { apply gen_low_zero.
    - unfold chk30 in Hc. rewrite Z.shiftr_div_pow2 by lia. split; [apply Z.div_pos; lia|apply Z.div_lt_upper_bound; lia].
    - rewrite <- H, Z.shiftl_mul_pow2 by lia. apply Z.mod_mul. lia. }
  rewrite Ht in H. change (gen 0) with 0 in H. apply Z.shiftl_eq_0_iff in H; [|lia].
  change 0x1FFFFFF with (Z.ones 25) in H. rewrite Z.land_ones in H by lia.
  rewrite Z.shiftr_div_pow2 in Ht by lia. rewrite (Z.div_mod c (2 ^ 25)), Ht, H by lia. lia.
Qed.

Lemma polymod_zeros_zero k c : chk30 c → foldl polymod_step c (replicate k 0) = 0 → c = 0.
Proof.
  revert c. induction k as [|k IH]; intros c Hc H; [done|]. cbn [replicate foldl] in H.
  apply IH in H; [by apply polymod_step_zero|]. apply polymod_step_bound. unfold sym. lia.
Qed.

Lemma lxor_cancel_r a b x : Z.lxor a x = Z.lxor b x → a = b.
Proof.
  intros H. apply (f_equal (λ z, Z.lxor z x)) in H.
  by rewrite !Z.lxor_assoc, !Z.lxor_nilpotent, !Z.lxor_0_r in H.
Qed.

Lemma lxor_cancel_l a b x : Z.lxor x a = Z.lxor x b → a = b.
Proof. rewrite !(Z.lxor_comm x). apply lxor_cancel_r. Qed.

Lemma polymod_single_error vs i v w :
  Forall sym vs → sym w → vs !! i = Some v → v ≠ w →
  bech32_polymod (<[i := w]> vs) ≠ bech32_polymod vs.
Proof.
  intros Hvs Hw Hi Hne Heq. pose proof (lookup_lt_Some _ _ _ Hi) as Hlt.
  assert (sym v) as Hv by (rewrite Forall_forall in Hvs; by apply Hvs, (list_elem_of_lookup_2 _ i)).
  rewrite insert_take_drop in Heq by done. rewrite <- (take_drop_middle vs i v Hi) in Heq at 3.
  unfold bech32_polymod in Heq. rewrite !foldl_app in Heq. cbn [foldl] in Heq.
  set (c := foldl polymod_step 1 (take i vs)) in Heq. set (r := drop (S i) vs) in Heq.
  apply Z.lxor_eq_0_iff in Heq. rewrite <- polymod_fold_linear in Heq by done.
  assert (zip_with Z.lxor r r = replicate (length r) 0) as E.
  { clear. induction r as [|x r IH]; [done|]. simpl. by rewrite Z.lxor_nilpotent, IH. }
  rewrite E in Heq. apply polymod_zeros_zero in Heq.
  - apply Z.lxor_eq in Heq. rewrite !polymod_step_gen in Heq.
    apply lxor_cancel_r, lxor_cancel_l in Heq. congruence.
  - apply lxor_bound; [lia|by apply polymod_step_bound..].
Qed.

(** * Regrouping bits *)

Definition in_bits (w v : Z) : Prop := 0 ≤ v < 2 ^ w.

(** [out] holds the bits of [acc] but the last [bits]. *)
Record grouped (wout acc bits : Z) (out : list Z) : Prop := {
  gr_range : Forall (in_bits wout) out;
  gr_value : undigits (2 ^ wout) 0 out = Z.shiftr acc bits;
}.

Lemma undigits_snoc b ds d : undigits b 0 (ds ++ [d]) = undigits b 0 ds * b + d.
Proof. by rewrite undigits_app. Qed.

Lemma grouped_snoc w acc bits out :
  0 < w ≤ bits → grouped w acc bits out →
  grouped w acc (bits - w) (out ++ [Z.land (Z.shiftr acc (bits - w)) (Z.ones w)]).
Proof.
  intros Hw [Hr Hv]. rewrite Z.land_ones by lia.
  split.
  - apply Forall_app; split; [done|]. constructor; [|done]. apply Z.mod_pos_bound. lia.
  - rewrite undigits_snoc, Hv. replace bits with ((bits - w) + w) at 1 by lia.
    rewrite <- Z.shiftr_shiftr by lia. rewrite (Z.shiftr_div_pow2 _ w) by lia.
    rewrite Z.mul_comm, <- Z.div_mod by lia. done.
Qed.

Lemma emit_grouped w fuel acc bits out :
  0 < w → 0 ≤ bits ≤ Z.of_nat fuel → grouped w acc bits out →
  let '(out', bits') := emit w fuel acc bits out in
  grouped w acc bits' out' ∧ 0 ≤ bits' < w ∧ zlen out' * w + bits' = zlen out * w + bits.
Proof.
  intros Hw. revert bits out. induction fuel as [|fuel IH]; intros bits out Hb Hg; cbn [emit].
  { split_and!; [done|lia..]. }
  destruct (Z.leb_spec w bits) as [Hle|Hlt]; [|split_and!; [done|lia..]].
  specialize (IH (bits - w) (out ++ [Z.land (Z.shiftr acc (bits - w)) (Z.ones w)])).
  destruct (emit w fuel acc (bits - w) _) as [out' bits'].
  destruct IH as (Hg' & Hb' & Hl); [lia|by apply grouped_snoc|].
  split_and!; [done|lia|lia|]. rewrite Hl. unfold zlen. rewrite length_app. cbn [length]. lia.
Qed.

Lemma shift_in acc win v bits :
  0 ≤ win → 0 ≤ acc → in_bits win v → 0 ≤ bits →
  Z.shiftr (acc * 2 ^ win + v) (bits + win) = Z.shiftr acc bits.
Proof.
  intros Hw Ha Hv Hb. unfold in_bits in Hv. rewrite (Z.add_comm bits win), <- Z.shiftr_shiftr by lia. f_equal.
  rewrite Z.shiftr_div_pow2, Z.div_add_l, Z.div_small by lia. lia.
Qed.

Lemma regroup_spec win wout vals :
  0 < win → 0 < wout → Forall (in_bits win) vals →
  let '(out, acc, bits) := regroup win wout vals in
  acc = undigits (2 ^ win) 0 vals ∧ grouped wout acc bits out ∧
  0 ≤ bits < wout ∧ zlen out * wout + bits = zlen vals * win.
Proof.
  intros Hwi Hwo. induction vals as [|v vals IH] using rev_ind; intros Hv.
  { cbn. split_and!; [done|by split; [constructor|]|lia|lia|unfold zlen; cbn; lia]. }
  apply Forall_app in Hv as [Hvs Hv]. rewrite Forall_singleton in Hv.
  specialize (IH Hvs). unfold regroup in *. rewrite foldl_snoc.
  destruct (foldl (regroup_step win wout) ([], 0, 0) vals) as [[out acc] bits].
  destruct IH as (Ha & Hg & Hb & Hl). cbn [regroup_step].
  assert (0 ≤ acc) as Ha0.
  { pose proof (Z.pow_gt_1 2 win) as [Hp _]; [lia|]. specialize (Hp Hwi).
    pose proof (undigits_bound (2 ^ win) vals 0 ltac:(lia) Hvs ltac:(lia)). lia. }
  rewrite lor_disjoint by (done || lia).
  pose proof (emit_grouped wout (Z.to_nat (bits + win)) (acc * 2 ^ win + v) (bits + win) out) as He.
  destruct (emit _ _ _ _ _) as [out' bits']. destruct He as (Hg' & Hb' & Hl'); [lia|lia| |].
  - destruct Hg as [Hr Hval]. split; [done|]. rewrite shift_in by (done || lia). done.
  - split_and!; [|done|lia|lia|].
    + by rewrite undigits_snoc, Ha.
    + rewrite Hl'. unfold zlen in *. rewrite length_app. cbn [length]. lia.
Qed.

Definition to5 (raw : bytes) : list Z := fst (fst (regroup 8 5 raw)).
Definition to8 (data : list Z) : bytes := fst (fst (regroup 5 8 data)).

(** Regrouping [n] groups of [win] bits into [m] groups of [wout] bits loses
    nothing when both are the same number of bits. *)
Lemma regroup_exact win wout vals m :
  0 < win → 0 < wout → Forall (in_bits win) vals → zlen vals * win = Z.of_nat m * wout →
  ∃ out, regroup win wout vals = (out, undigits (2 ^ win) 0 vals, 0) ∧ length out = m ∧
         Forall (in_bits wout) out ∧ undigits (2 ^ wout) 0 out = undigits (2 ^ win) 0 vals.
Proof.
  intros Hwi Hwo Hv Hm. pose proof (regroup_spec win wout vals Hwi Hwo Hv) as H.
  destruct (regroup win wout vals) as [[out acc] bits]. destruct H as (-> & [Hr Hval] & Hb & Hl).
  assert (zlen out = Z.of_nat m ∧ bits = 0) as [Hlen ->].
  { rewrite Hm in Hl. assert (bits = (Z.of_nat m - zlen out) * wout) by lia.
    assert (Z.of_nat m - zlen out = 0) by nia. lia. }
  exists out. rewrite Z.shiftr_0_r in Hval. split_and!; [done|unfold zlen in Hlen; lia|done|done].
Qed.

Lemma regroup_back w v xs ys m :
  0 < w → 0 < v → Forall (in_bits w) xs → Forall (in_bits v) ys → length xs = m →
  zlen ys * v = Z.of_nat m * w → undigits (2 ^ v) 0 ys = undigits (2 ^ w) 0 xs →
  fst (fst (regroup v w ys)) = xs.
Proof.
  intros Hw Hv Hxs Hys Hm Hlen Hval.
  destruct (regroup_exact v w ys m Hv Hw Hys Hlen) as (out & -> & Hlo & Hro & Hvo). cbn [fst].
  assert (2 ≤ 2 ^ w) by (apply (Z.pow_le_mono_r 2 1 w); lia).
  eapply (undigits_inj (2 ^ w) out xs 0 0); [lia|congruence|done|done|lia|lia|congruence].
Qed.

Definition raw20 (raw : bytes) : Prop := bytes_ok raw ∧ length raw = 20%nat.
Definition sym32 (data : list Z) : Prop := Forall sym data ∧ length data = 32%nat.

Lemma to5_spec raw :
  raw20 raw → regroup 8 5 raw = (to5 raw, undigits 256 0 raw, 0) ∧ sym32 (to5 raw) ∧ to8 (to5 raw) = raw.
Proof.
  intros [Hok Hl]. unfold to5, to8.
  destruct (regroup_exact 8 5 raw 32) as (out & -> & Hlo & Hr & Hv); [lia|lia|done|unfold zlen; lia|].
  split_and!; [done|done|]. apply (regroup_back 8 5 raw out 20); [lia|lia|done|done|done|unfold zlen; lia|done].
Qed.

Lemma to8_spec data :
  sym32 data → regroup 5 8 data = (to8 data, undigits 32 0 data, 0) ∧ raw20 (to8 data) ∧ to5 (to8 data) = data.
Proof.
  intros [Hok Hl]. unfold to5, to8.
  destruct (regroup_exact 5 8 data 20) as (out & -> & Hlo & Hr & Hv); [lia|lia|done|unfold zlen; lia|].
  split_and!; [done|done|]. apply (regroup_back 5 8 data out 32); [lia|lia|done|done|done|unfold zlen; lia|done].
Qed.

(** * The alphabet *)

Lemma charset_cases (P : Z → Prop) :
  (∀ n, n ∈ seq 0 32 → P (Z.of_nat n)) → ∀ d, sym d → P d.
Proof. intros H d Hd. unfold sym in Hd. rewrite <- (Z2Nat.id d) by lia. apply H, elem_of_seq. lia. Qed.

Definition plain_char (c : ascii) : bool :=
  negb (is_space c) && bool_decide (lower_char c = c) && negb (bool_decide (c = "1"%char)).

Lemma charset_char_spec d :
  sym d → charset_index (charset_char d) = Some d ∧ plain_char (charset_char d) = true.
Proof.
  intros Hd. revert d Hd. apply charset_cases.
  assert (forallb (λ n, bool_decide (charset_index (charset_char (Z.of_nat n)) = Some (Z.of_nat n)) &&
                        plain_char (charset_char (Z.of_nat n))) (seq 0 32) = true) as H by by vm_compute.
  intros n Hn. rewrite forallb_forall in H. specialize (H n). rewrite <- list_elem_of_In in H. specialize (H Hn).
  apply andb_prop in H as [H1%bool_decide_eq_true_1 H2]. done.
Qed.

Lemma charset_index_spec c d : charset_index c = Some d → sym d ∧ charset_char d = c.
Proof.
  unfold charset_index. destruct (list_find _ _) as [[i x]|] eqn:E; [|done]. intros [= <-].
  apply list_find_Some in E as (Hi & -> & _). pose proof (lookup_lt_Some _ _ _ Hi) as Hlt.
  change (length BECH32_CHARSET) with 32%nat in Hlt. cbn [fst]. split; [unfold sym; lia|].
  unfold charset_char. rewrite Nat2Z.id. by apply nth_lookup_Some.
Qed.

Lemma mapM_charset_index vs : Forall sym vs → mapM charset_index (charset_char <$> vs) = Some vs.
Proof.
  intros H. apply mapM_Some. apply Forall2_fmap_l. induction H as [|v vs Hv _ IH]; constructor; [|done].
  by apply charset_char_spec.
Qed.

Lemma mapM_charset_Some s vs : mapM charset_index s = Some vs → Forall sym vs ∧ s = charset_char <$> vs.
Proof.
  intros H%mapM_Some. induction H as [|c v s vs Hc _ [IH1 IH2]]; [done|].
  apply charset_index_spec in Hc as [Hs <-]. split; [by constructor|]. simpl. by f_equal.
Qed.

Lemma charset_plain vs : Forall sym vs → Forall (λ c, plain_char c = true) (charset_char <$> vs).
Proof. intros H. apply Forall_fmap. eapply Forall_impl; [exact H|]. intros v Hv. by apply charset_char_spec. Qed.

Definition low_char (c : ascii) : bool := negb (is_space c) && bool_decide (lower_char c = c).

Lemma plain_low s : Forall (λ c, plain_char c = true) s → Forall (λ c, low_char c = true) s.
Proof.
  intros H. eapply Forall_impl; [exact H|]. intros c Hc. unfold plain_char in Hc.
  by apply andb_prop in Hc as [Hc _].
Qed.

Lemma low_strip_lower s : Forall (λ c, low_char c = true) s → strip s = s ∧ lower s = s.
Proof.
  intros H. split.
  - apply strip_with_none. eapply Forall_impl; [exact H|]. intros c Hc. unfold low_char in Hc.
    by destruct (is_space c).
  - unfold lower. rewrite <- (list_fmap_id s) at 2. apply Forall_fmap_ext. eapply Forall_impl; [exact H|].
    intros c Hc. unfold low_char in Hc. apply andb_prop in Hc as [_ Hc%bool_decide_eq_true_1]. done.
Qed.

(** * Code words *)

Definition ONE : str := "one"%string.
Definition one_text (data : list Z) : str := ONE ++ "1"%string ++ (charset_char <$> data).

(** The data and its checksum. *)
Definition code_word (hrp : str) (data : list Z) : list Z :=
  data ++ checksum6 (Z.lxor (bech32_polymod (hrp_expand hrp ++ data ++ replicate 6 0)) 1).

Lemma hrp_expand_sym hrp : Forall sym (hrp_expand hrp).
Proof.
  unfold hrp_expand. apply Forall_app; split; [|constructor; [unfold sym; lia|]]; apply Forall_fmap, Forall_true; intros c;
    simpl; unfold sym, ord; pose proof (Ascii.N_ascii_bounded c).
  - rewrite Z.shiftr_div_pow2 by lia. split; [apply Z.div_pos; lia|apply Z.div_lt_upper_bound; lia].
  - rewrite land31. apply Z.mod_pos_bound. lia.
Qed.

Lemma code_word_sym hrp data : Forall sym data → Forall sym (code_word hrp data).
Proof. intros H. apply Forall_app. split; [done|apply checksum6_sym]. Qed.

Lemma code_word_polymod hrp data :
  Forall sym data → bech32_polymod (hrp_expand hrp ++ code_word hrp data) = 1.
Proof.
  intros H. unfold code_word. rewrite !(app_assoc (hrp_expand hrp)). apply polymod_checksum.
  apply Forall_app. split; [apply hrp_expand_sym|done].
Qed.

(** The checksum is determined by the data. *)
Lemma code_word_unique hrp data cs :
  Forall sym data → Forall sym cs → length cs = 6%nat →
  bech32_polymod (hrp_expand hrp ++ data ++ cs) = 1 → data ++ cs = code_word hrp data.
Proof.
  intros Hd Hcs Hl H. unfold code_word. f_equal. pose proof (code_word_polymod hrp data Hd) as Hw.
  unfold code_word in Hw. remember (checksum6 _) as cs' eqn:E.
  assert (Forall sym cs') as Hcs' by (subst; apply checksum6_sym).
  assert (length cs' = 6%nat) as Hl' by (subst; apply length_checksum6). clear E.
  unfold bech32_polymod in H, Hw. rewrite !foldl_app in H, Hw.
  rewrite polymod_append in H, Hw by done. pose proof (lxor_cancel_l _ _ _ (eq_trans H (eq_sym Hw))) as Hu.
  eapply (undigits_inj 32 cs cs' 0 0); [lia|congruence|done|done|lia|lia|done].
Qed.

Lemma encode_raw_eq raw : raw20 raw → encode_raw raw ONE = one_text (code_word ONE (to5 raw)).
Proof. intros H. unfold encode_raw. destruct (to5_spec raw H) as (-> & _ & _). reflexivity. Qed.

Lemma one_text_low data : Forall sym data → Forall (λ c, low_char c = true) (one_text data).
Proof.
  intros H. unfold one_text. rewrite app_assoc. apply Forall_app. split; [compute_decide|].
  by apply plain_low, charset_plain.
Qed.

Lemma length_one_text data : length (one_text data) = (4 + length data)%nat.
Proof. unfold one_text. rewrite !length_app, length_fmap. reflexivity. Qed.

Lemma from_one1_text value data :
  Forall sym data → lower (strip value) = one_text data →
  from_one1_lower value ONE =
    if negb (length data =? 38)%nat || negb (bech32_polymod (hrp_expand ONE ++ data) =? 1)
    then Raise (InputError "bad one1 address checksum")
    else Ok ("0x"%string ++ hex (to8 (take (length data - 6) data))).
Proof.
  intros Hd Ht. unfold from_one1_lower. rewrite Ht. unfold one_text at 1. rewrite app_assoc, startswith_app.
  unfold one_text. rewrite app_assoc, drop_app_length' by done. rewrite mapM_charset_index by done.
  unfold to8. by destruct (regroup 5 8 _) as [[??]?].
Qed.

Lemma from_one1_word value raw :
  raw20 raw → lower (strip value) = one_text (code_word ONE (to5 raw)) →
  from_one1_lower value ONE = Ok ("0x"%string ++ hex raw).
Proof.
  intros H Ht. destruct (to5_spec raw H) as (_ & [Hs Hl] & Hb).
  rewrite (from_one1_text _ (code_word ONE (to5 raw))); [|by apply code_word_sym|done].
  rewrite code_word_polymod by done. unfold code_word. rewrite length_app, length_checksum6, Hl.
  change (_ =? _)%nat with true. cbn [negb orb Z.eqb].
  rewrite take_app_length' by done. by rewrite Hb.
Qed.

Lemma from_one1_inv value a :
  from_one1_lower value ONE = Ok a →
  ∃ raw, raw20 raw ∧ a = "0x"%string ++ hex raw ∧ lower (strip value) = one_text (code_word ONE (to5 raw)).
Proof.
  intros Ha. assert (∃ data, Forall sym data ∧ lower (strip value) = one_text data) as (data & Hd & Ht).
  { unfold from_one1_lower in Ha. destruct (startswith _ _) eqn:Es; [|done].
    destruct (mapM _ _) as [data|] eqn:Em; [|done]. exists data. apply mapM_charset_Some in Em as [Hd Em].
    split; [done|]. apply bool_decide_eq_true_1 in Es. unfold one_text. rewrite <- Em, app_assoc, <- Es.
    by rewrite take_drop. }
  rewrite (from_one1_text _ _ Hd Ht) in Ha. destruct (negb _ || negb _) eqn:E; [done|].
  apply orb_false_elim in E as [E1%negb_false_iff%Nat.eqb_eq E2%negb_false_iff%Z.eqb_eq].
  injection Ha as <-. rewrite E1 in *. change (38 - 6)%nat with 32%nat.
  assert (sym32 (take 32 data)) as H32 by (split; [by apply Forall_take|by rewrite length_take, E1]).
  destruct (to8_spec _ H32) as (_ & Hr & Hb). eexists. split_and!; [exact Hr|done|].
  rewrite Ht, Hb. f_equal. rewrite <- (take_drop 32 data) at 1.
  apply code_word_unique; [apply H32|by apply Forall_drop|by rewrite length_drop, E1|by rewrite take_drop].
Qed.

Lemma partition_none c s t :
  c ∉ s → partition c (s ++ c :: t) = (s, true, t).
Proof.
  induction s as [|x s IH]; intros H; cbn [partition app].
  - by rewrite bool_decide_eq_true_2.
  - rewrite bool_decide_eq_false_2 by set_solver. by rewrite IH by set_solver.
Qed.

Lemma rsplit1_spec a b : "1"%char ∉ b → rsplit1 (a ++ "1"%string ++ b) = (a, b).
Proof.
  intros H. unfold rsplit1. rewrite !reverse_app. change (reverse ("1"%string : str)) with (["1"%char] : str).
  rewrite <- app_assoc. cbn [app]. rewrite partition_none by by rewrite elem_of_reverse.
  by rewrite !reverse_involutive.
Qed.

Lemma bech32_to_hex_word raw :
  raw20 raw → bech32_to_hex (Some (one_text (code_word ONE (to5 raw)))) = Some ("0x"%string ++ hex raw).
Proof.
  intros H. destruct (to5_spec raw H) as (_ & [Hs Hl] & Hb).
  pose proof (code_word_sym ONE _ Hs) as Hw. pose proof (code_word_polymod ONE _ Hs) as Hp.
  set (w := code_word ONE (to5 raw)) in *. unfold bech32_to_hex. cbn [mbind option_bind].
  destruct (low_strip_lower (one_text w)) as [-> ->]; [by apply one_text_low|].
  change (startswith (one_text w) "0x"%string) with false. cbn iota zeta.
  rewrite bool_decide_eq_true_2 by (unfold one_text; set_solver). cbn [negb].
  unfold one_text at 1. rewrite rsplit1_spec.
  - rewrite mapM_charset_index by done. cbn [mbind option_bind]. rewrite Hp. cbn [negb Z.eqb Pos.eqb].
    assert (take (length w - 6) w = to5 raw) as ->.
    { unfold w, code_word. rewrite length_app, length_checksum6, Nat.add_sub. by rewrite take_app_length. }
    destruct H as [Hok Hr]. unfold to8 in Hb. destruct (regroup 5 8 (to5 raw)) as [[o x] y]. cbn [fst] in Hb. subst o.
    by rewrite Hr.
  - intros Hin. pose proof (charset_plain w Hw) as Hpl. rewrite Forall_forall in Hpl.
    by apply Hpl in Hin.
Qed.

Lemma unhex_hex raw : bytes_ok raw → Airdrop.unhex ("0x"%string ++ hex raw) = Ok raw.
Proof.
  intros H. unfold Airdrop.unhex, removeprefix. rewrite startswith_app, drop_app_length. by rewrite fromhex_hex.
Qed.

Lemma hex_to_bech32_eq raw : raw20 raw → hex_to_bech32 ("0x"%string ++ hex raw) ONE = Ok (encode_raw raw ONE).
Proof.
  intros [Hok Hl]. unfold hex_to_bech32, crl_normalize_address. rewrite lower_app, lower_hex by done.
  change (lower "0x"%string) with ("0x"%string : str). rewrite startswith_app.
  assert (length (("0x"%string : str) ++ hex raw) = 42%nat) as ->.
  { rewrite length_app, length_hex, Hl. done. }
  cbn [negb Nat.eqb of_option mbind result_bind]. change (drop 2 (("0x"%string : str) ++ hex raw)) with (hex raw).
  by rewrite fromhex_hex.
Qed.

Lemma charset_fmap_inj vs ws : Forall sym vs → Forall sym ws → charset_char <$> vs = charset_char <$> ws → vs = ws.
Proof.
  intros Hv Hw H. apply (f_equal (mapM charset_index)) in H. rewrite !mapM_charset_index in H by done. by injection H.
Qed.

Lemma is_space_lower c : is_space (lower_char c) = is_space c.
Proof. by char_cases c. Qed.

Lemma lower_insert i c s : lower (<[i := c]> s) = <[i := lower_char c]> (lower s).
Proof. unfold lower. by rewrite list_fmap_insert. Qed.

(** A word with one symbol changed is no code word. *)
Lemma one_text_single_error w w' i lc x :
  Forall sym w → Forall sym w' →
  bech32_polymod (hrp_expand ONE ++ w) = 1 → bech32_polymod (hrp_expand ONE ++ w') = 1 →
  one_text w !! i = Some x → lc ≠ x → <[i := lc]> (one_text w) ≠ one_text w'.
Proof.
  intros Hw Hw' Hp Hp' Hi Hne E. unfold one_text in *. rewrite (app_assoc ONE _ (charset_char <$> w)) in Hi, E.
  rewrite (app_assoc ONE _ (charset_char <$> w')) in E. set (h := ONE ++ _) in *.
  destruct (Nat.lt_ge_cases i (length h)) as [Hlt|Hge].
  - rewrite insert_app_l in E by done. apply app_inj_1 in E as [E _]; [|apply length_insert].
    rewrite lookup_app_l in Hi by done. apply (f_equal (.!! i)) in E. rewrite list_lookup_insert_eq in E by done. congruence.
  - rewrite lookup_app_r in Hi by done. rewrite insert_app_r_alt in E by done.
    apply app_inv_head in E. set (j := (i - length h)%nat) in *.
    rewrite list_lookup_fmap in Hi. destruct (w !! j) as [v|] eqn:Ej; [|done]. injection Hi as <-.
    pose proof (lookup_lt_Some _ _ _ Ej) as Hj.
    assert ((charset_char <$> w') !! j = Some lc) as Hl
      by (rewrite <- E; apply list_lookup_insert_eq; by rewrite length_fmap).
    rewrite list_lookup_fmap in Hl. destruct (w' !! j) as [v'|] eqn:Ej'; [|done]. injection Hl as <-.
    assert (sym v') as Hv' by (rewrite Forall_forall in Hw'; by apply Hw', (list_elem_of_lookup_2 _ j)).
    rewrite <- list_fmap_insert in E. apply charset_fmap_inj in E; [|by apply Forall_insert|done]. subst w'.
    apply (polymod_single_error (hrp_expand ONE ++ w) (length (hrp_expand ONE) + j) v v').
    + apply Forall_app. split; [apply hrp_expand_sym|done].
    + done.
    + by rewrite lookup_app_r, Nat.add_sub' by lia.
    + congruence.
    + rewrite insert_app_r. by rewrite Hp, Hp'.
Qed.

(** An accepted one1 text is the encoding of the address it decodes to: up to
    case and surrounding white space no two texts stand for one address. *)
Lemma one1_canonical value a :
  from_one1_lower value ONE = Ok a → to_one1 a ONE = Ok (lower (strip value)).
Proof.
  intros (raw & H & -> & ->)%from_one1_inv. unfold to_one1. rewrite unhex_hex by apply H.
  cbn [mbind result_bind]. by rewrite encode_raw_eq.
Qed.

(** every 20-byte address survives the trip through its one1 form: both
    libraries encode it to the same text, and both decoders give the
    lower-case 0x address back from it; up to case and surrounding white space
    it is the only text accepted for that address. *)
Theorem one1_roundtrip address raw :
  Airdrop.unhex address = Ok raw → length raw = 20%nat →
  ∃ text, to_one1 address ONE = Ok text ∧
          hex_to_bech32 ("0x"%string ++ hex raw) ONE = Ok text ∧
          from_one1_lower text ONE = Ok ("0x"%string ++ hex raw) ∧
          bech32_to_hex (Some text) = Some ("0x"%string ++ hex raw) ∧
          ∀ value, from_one1_lower value ONE = Ok ("0x"%string ++ hex raw) → lower (strip value) = text.
Proof.
  intros Hu Hl. assert (raw20 raw) as H.
  { split; [|done]. unfold Airdrop.unhex in Hu. destruct (fromhex _) eqn:E; [|done].
    injection Hu as <-. by eapply fromhex_ok. }
  exists (encode_raw raw ONE). destruct (to5_spec raw H) as (_ & [Hs _] & _). split_and!.
  - unfold to_one1. by rewrite Hu.
  - by apply hex_to_bech32_eq.
  - apply from_one1_word; [done|]. rewrite encode_raw_eq by done.
    destruct (low_strip_lower (one_text (code_word ONE (to5 raw)))) as [-> ->]; [|done].
    by apply one_text_low, code_word_sym.
  - rewrite encode_raw_eq by done. by apply bech32_to_hex_word.
  - intros value Hv%one1_canonical. unfold to_one1 in Hv. rewrite unhex_hex in Hv by apply H. by apply Ok_inj in Hv.
Qed.

Definition sample_address : str := "0x00000000219ab540356cbb839cbe05303d7705fa"%string.
Definition sample_one1 : str := "one1qqqqqqppn265qdtvhwpee0s9xq7hwp06sz4vez"%string.

Lemma one1_roundtrip_witness :
  ∃ text, to_one1 sample_address ONE = Ok text ∧
          hex_to_bech32 sample_address ONE = Ok text ∧
          from_one1_lower text ONE = Ok sample_address ∧ bech32_to_hex (Some text) = Some sample_address.
Proof.
  destruct (one1_roundtrip sample_address (from_ok [] (Airdrop.unhex sample_address))) as (text & H1 & H2 & H3 & H4 & _);
    [vm_compute; reflexivity|vm_compute; reflexivity|by exists text].
Defined.

(** one wrong character in a one1 address is always refused, whichever
    character it is and wherever it stands. *)
Theorem one1_single_error value a i c d :
  from_one1_lower value ONE = Ok a → strip value = value →
  value !! i = Some d → is_space c = false → lower_char c ≠ lower_char d →
  ∃ e, from_one1_lower (<[i := c]> value) ONE = Raise e.
Proof.
  intros (raw & H & -> & Ht)%from_one1_inv Hstrip Hi Hsp Hne. rewrite Hstrip in Ht.
  destruct (to5_spec raw H) as (_ & [Hs _] & _).
  assert (Forall (λ x, is_space x = false) value) as Hns.
  { pose proof (one_text_low _ (code_word_sym ONE _ Hs)) as Hlow. rewrite <- Ht in Hlow. unfold lower in Hlow.
    rewrite Forall_fmap in Hlow. eapply Forall_impl; [exact Hlow|]. intros x Hx. simpl in Hx. unfold low_char in Hx.
    rewrite is_space_lower in Hx. by destruct (is_space x). }
  destruct (from_one1_lower (<[i := c]> value) ONE) as [a'|e] eqn:E; [exfalso|by eexists].
  apply from_one1_inv in E as (raw' & H' & _ & Ht'). destruct (to5_spec raw' H') as (_ & [Hs' _] & _).
  unfold strip in Ht'. rewrite strip_with_none in Ht' by by apply Forall_insert.
  rewrite lower_insert, Ht in Ht'. revert Ht'.
  apply (one_text_single_error _ _ i _ (lower_char d)); [by apply code_word_sym..|by apply code_word_polymod| | |done].
  - by apply code_word_polymod.
  - rewrite <- Ht. unfold lower. by rewrite list_lookup_fmap, Hi.
Qed.

Lemma one1_canonical_witness : to_one1 sample_address ONE = Ok (lower (strip (" ONE1"%string ++ drop 4 sample_one1 ++ " "%string))).
Proof. apply one1_canonical. vm_compute. reflexivity. Defined.

Lemma one1_single_error_witness : ∃ e, from_one1_lower (<[10%nat := "x"%char]> sample_one1) ONE = Raise e.
Proof.
  apply (one1_single_error sample_one1 sample_address 10 "x"%char "p"%char); try (vm_compute; reflexivity).
  by vm_compute.
Defined.

(** [bech32_to_hex], documented as decoding a Harmony one1 address, looks
    at neither the prefix nor the padding: it takes a bitcoin address for an
    account.  airdrop's [from_one1] refuses the same text. *)
Theorem bech32_to_hex_foreign_prefix :
  let btc := "bc1qw508d6qejxtdg4y5r3zarvary0c5xw7kv8f3t4"%string in
  bech32_to_hex (Some (btc : str)) = Some ("0x03a8f3b740cc8cb6a2a4a0e22e8d9d191f8a19de"%string : str) ∧
  from_one1_lower btc ONE = Raise (InputError "not a one1 address").
Proof. by vm_compute. Qed.
