(* ===== verification/Address.v ===== *)
(** 0x addresses: [to_checksum], [normalize_address], [from_one1] and
    [decode_address] of airdrop/tools/common.py.

    [to_checksum] changes the case of letters and nothing else, so it is
    idempotent and blind to the case of its input; [normalize_address] returns
    one spelling per address. *)

From S2P Require Import Prelude PyStr Keccak Abi Bech32.
Local Open Scope Z_scope.

(** * The code *)

(** [ch.upper() if int(digest[i], 16) >= 8 else ch]. *)
Definition checksum_char (digest : str) (p : Z * ascii) : result ascii :=
  let '(i, ch) := p in
  d ← of_option (digest !! Z.to_nat i) IndexError;
  v ← py_int16 [d];
  Ok (if 8 <=? v then upper_char ch else ch).

Definition to_checksum (address : str) : result str :=
  let raw := removeprefix (lower address) "0x"%string in
  let digest := hex (keccak256 (ords raw)) in
  body ← mapM (checksum_char digest) (enumerate raw);
  Ok ("0x"%string ++ body).

Definition is_hex_char (ch : ascii) : bool := bool_decide (ch ∈ ("0123456789abcdefABCDEF"%string : str)).

Definition normalize_address (value : str) : result str :=
  let text := strip value in
  text ← (if startswith text "0x"%string || startswith text "0X"%string
          then Ok ("0x"%string ++ drop 2 text)
          else Raise (InputError "address must start with 0x"));
  let body := drop 2 text in
  if negb (length body =? 40)%nat || existsb (λ ch, negb (is_hex_char ch)) body
  then Raise (InputError "not a 20-byte hex address") else
  n ← py_int16 body;
  if n =? 0 then Raise (InputError "the zero address is not allowed") else
  checksummed ← to_checksum text;
  if negb (bool_decide (body = lower body)) && negb (bool_decide (body = upper body)) &&
     negb (bool_decide (text = checksummed))
  then Raise (InputError "address checksum is wrong (typo?)")
  else Ok checksummed.

Definition from_one1 (value hrp : str) (checksum : bool) : result str :=
  a ← from_one1_lower value hrp;
  if checksum then to_checksum a else Ok a.

Definition decode_address (res : str) : result str :=
  w ← Airdrop.decode_word res;
  to_checksum ("0x"%string ++ hex_pad 40 w).

(** * [to_checksum] *)

(** The letters the digest marks, as a total function. *)
Definition mark (ch d : ascii) : ascii :=
  match hex_val d with Some v => if 8 <=? v then upper_char ch else ch | None => ch end.
Definition checksum_body (raw : str) : str := zip_with mark raw (hex (keccak256 (ords raw))).

Lemma lower_mark ch d : lower_char (mark ch d) = lower_char ch.
Proof. unfold mark. repeat case_match; by rewrite ?lower_upper_char. Qed.

Definition hex_digit (c : ascii) : Prop := ∃ d, 0 ≤ d < 16 ∧ c = hexdigit d.

Lemma hex_hex_digit b : bytes_ok b → Forall hex_digit (hex b).
Proof.
  induction 1 as [|x b Hx _ IH]; [constructor|]. rewrite hex_cons.
  repeat constructor; [exists (x / 16)|exists (x mod 16)|done]; (split; [|done]).
  - split; [apply Z.div_pos; lia|apply Z.div_lt_upper_bound; lia].
  - apply Z.mod_pos_bound. lia.
Qed.

Lemma hexdigit_int16 d : 0 ≤ d < 16 → py_int16 [hexdigit d] = Ok d.
Proof. intros Hd. by apply (hexdigit_cases (λ d, py_int16 [hexdigit d] = Ok d) d Hd). Qed.

Lemma checksum_char_ok digest i ch d :
  digest !! i = Some d → hex_digit d → checksum_char digest (Z.of_nat i, ch) = Ok (mark ch d).
Proof.
  intros Hi (v & Hv & ->). unfold checksum_char. rewrite Nat2Z.id, Hi. cbn [of_option mbind result_bind].
  rewrite hexdigit_int16 by done. unfold mark. by rewrite hex_val_hexdigit.
Qed.

Lemma checksum_chars_ok pre digest raw :
  Forall hex_digit digest → (length raw ≤ length digest)%nat →
  mapM (checksum_char (pre ++ digest)) (imap (λ i x, (Z.of_nat (length pre + i), x)) raw)
  = Ok (zip_with mark raw digest).
Proof.
  intros Hd. revert pre raw. induction Hd as [|d digest Hd _ IH]; intros pre [|ch raw] Hl; try done.
  { simpl in Hl. lia. }
  cbn [imap mapM zip_with]. rewrite Nat.add_0_r.
  rewrite (checksum_char_ok _ _ _ d) by (done || by rewrite lookup_app_r, Nat.sub_diag by done).
  cbn [mbind result_bind]. specialize (IH (pre ++ [d]) raw ltac:(simpl in Hl; lia)).
  rewrite <- app_assoc in IH. cbn [app] in IH. rewrite length_app in IH. cbn [length] in IH.
  erewrite imap_ext; [rewrite IH; done|]. intros i x _. unfold compose. do 2 f_equal. lia.
Qed.

Lemma to_checksum_ok address raw :
  removeprefix (lower address) "0x"%string = raw → (length raw ≤ 64)%nat →
  to_checksum address = Ok ("0x"%string ++ checksum_body raw).
Proof.
  intros <- Hl. unfold to_checksum, enumerate, checksum_body. set (raw := removeprefix _ _) in *.
  pose proof (checksum_chars_ok [] (hex (keccak256 (ords raw))) raw) as H. cbn [length app Nat.add] in H.
  rewrite H; [done|apply hex_hex_digit, keccak256_ok|].
  rewrite length_hex, length_keccak256. done.
Qed.

Lemma lower_checksum_body raw : (length raw ≤ 64)%nat → lower (checksum_body raw) = lower raw.
Proof.
  intros Hl. unfold checksum_body, lower. assert (length raw ≤ length (hex (keccak256 (ords raw))))%nat as Hd
    by (rewrite length_hex, length_keccak256; done).
  revert Hd. generalize (hex (keccak256 (ords raw))) as ds. clear Hl.
  induction raw as [|c raw IH]; intros [|d ds] H; try done; [simpl in H; lia|].
  cbn [zip_with fmap list_fmap]. rewrite lower_mark. f_equal. apply IH. simpl in H. lia.
Qed.

Lemma removeprefix_0x s : removeprefix ("0x"%string ++ s) "0x"%string = s.
Proof. unfold removeprefix. by rewrite startswith_app, drop_app_length. Qed.

Lemma to_checksum_0x body :
  (length body ≤ 64)%nat →
  to_checksum ("0x"%string ++ body) = Ok ("0x"%string ++ checksum_body (lower body)).
Proof.
  intros Hl. apply to_checksum_ok; [|by rewrite length_lower].
  rewrite lower_app. apply removeprefix_0x.
Qed.

Lemma length_checksum_body raw : (length raw ≤ 64)%nat → length (checksum_body raw) = length raw.
Proof.
  intros Hl. unfold checksum_body. rewrite length_zip_with, length_hex, length_keccak256. lia.
Qed.

(** The checksummed spelling is a fixed point. *)
Lemma to_checksum_idemp body :
  (length body ≤ 64)%nat → let a := "0x"%string ++ checksum_body (lower body) in to_checksum a = Ok a.
Proof.
  intros Hl a. unfold a. rewrite to_checksum_0x.
  - rewrite lower_checksum_body by by rewrite length_lower. by rewrite lower_idemp.
  - by rewrite length_checksum_body; rewrite length_lower.
Qed.

(** * [normalize_address] *)

(** The one spelling [normalize_address] returns. *)
Record canonical (a : str) : Prop := {
  ca_shape : ∃ body n, a = "0x"%string ++ body ∧ length body = 40%nat ∧ Forall (λ c, is_hex_char c = true) body ∧
             int_base 16 body = Some n ∧ n ≠ 0;
  ca_checksum : to_checksum a = Ok a;
}.

Lemma is_hex_upper c : is_hex_char c = true → is_hex_char (upper_char c) = true.
Proof. by char_cases c. Qed.
Lemma is_hex_lower c : is_hex_char c = true → is_hex_char (lower_char c) = true.
Proof. by char_cases c. Qed.
Lemma is_hex_not_space c : is_hex_char c = true → is_space c = false.
Proof. by char_cases c. Qed.
Lemma is_hex_digit_val c : is_hex_char c = true → digit_val (lower_char c) = digit_val c.
Proof. by char_cases c. Qed.
Lemma is_hex_plain c :
  is_hex_char c = true → is_cspace c = false ∧ c ≠ "_"%char ∧ c ≠ "x"%char ∧ c ≠ "X"%char ∧ c ≠ "-"%char ∧ c ≠ "+"%char.
Proof. char_cases c; try discriminate; done. Qed.

Lemma int_digits_lower base need acc s :
  Forall (λ c, is_hex_char c = true) s → int_digits base need acc (lower s) = int_digits base need acc s.
Proof.
  intros H. revert need acc. induction H as [|c s Hc _ IH]; intros need acc; [done|].
  cbn [lower fmap list_fmap int_digits].
  pose proof (is_hex_plain c Hc) as (_ & H1 & _). pose proof (is_hex_plain _ (is_hex_lower c Hc)) as (_ & H2 & _).
  rewrite !bool_decide_eq_false_2 by done. rewrite is_hex_digit_val by done.
  destruct (digit_val c) as [d|]; [|done]. cbn [mbind option_bind]. destruct (d <? base); [|done]. apply IH.
Qed.

Lemma int_base_hex s :
  s ≠ [] → Forall (λ c, is_hex_char c = true) s → int_base 16 s = int_digits 16 true 0 s.
Proof.
  intros Hn H. rewrite int_base_signless; [rewrite int_unsigned_plain; [done|]| |done|].
  - destruct H as [|c s Hc [|d s' Hd _]]; try done. by apply is_hex_plain in Hd as (_ & _ & ? & ? & _).
  - eapply Forall_impl; [exact H|]. intros c Hc. by apply is_hex_plain.
  - destruct H as [|c s Hc _]; [done|]. by apply is_hex_plain in Hc as (_ & _ & _ & _ & ? & ?).
Qed.

Lemma Forall_hex_lower s :
  Forall (λ c, is_hex_char c = true) (lower s) ↔ Forall (λ c, is_hex_char c = true) s.
Proof.
  unfold lower. rewrite Forall_fmap. apply Forall_iff. intros c. unfold compose. split; [|apply is_hex_lower].
  by char_cases c.
Qed.

Lemma int_base_hex_case s t :
  s ≠ [] → Forall (λ c, is_hex_char c = true) s → lower s = lower t → int_base 16 s = int_base 16 t.
Proof.
  intros Hn Hs E. assert (Forall (λ c, is_hex_char c = true) t) as Ht by by rewrite <- Forall_hex_lower, <- E, Forall_hex_lower.
  assert (t ≠ []) as Hn' by (intros ->; by destruct s).
  rewrite !int_base_hex by done. by rewrite <- (int_digits_lower _ _ _ s), <- (int_digits_lower _ _ _ t), E.
Qed.

Lemma existsb_not_hex body :
  existsb (λ ch, negb (is_hex_char ch)) body = false ↔ Forall (λ c, is_hex_char c = true) body.
Proof.
  split.
  - induction body as [|c body IH]; [constructor|]. cbn [existsb]. intros [H1%negb_false_iff H2]%orb_false_elim.
    constructor; [done|by apply IH].
  - induction 1 as [|c body Hc _ IH]; [done|]. cbn [existsb]. by rewrite Hc, IH.
Qed.

Definition prefixed (value body : str) : Prop :=
  strip value = "0x"%string ++ body ∨ strip value = "0X"%string ++ body.

Lemma startswith_split s p : startswith s p = true → s = p ++ drop (length p) s.
Proof. intros H%bool_decide_eq_true_1. rewrite <- H at 1. by rewrite take_drop. Qed.

(** What an accepted address looks like, and what is returned for it. *)
Lemma normalize_address_inv value a :
  normalize_address value = Ok a →
  ∃ body n, prefixed value body ∧ length body = 40%nat ∧ Forall (λ c, is_hex_char c = true) body ∧
          int_base 16 body = Some n ∧ n ≠ 0 ∧ a = "0x"%string ++ checksum_body (lower body).
Proof.
  unfold normalize_address. intros H. set (text := strip value) in H.
  destruct (startswith text _ || startswith text _) eqn:Ep; [|done]. cbn [mbind result_bind] in H.
  change (drop 2 (("0x"%string : str) ++ drop 2 text)) with (drop 2 text) in H.
  destruct (negb _ || existsb _ _) eqn:E; [done|].
  apply orb_false_elim in E as [E1%negb_false_iff%Nat.eqb_eq E2%existsb_not_hex].
  unfold py_int16 in H. destruct (int_base 16 (drop 2 text)) as [n|] eqn:En; [|done]. cbn [of_option mbind result_bind] in H.
  destruct (Z.eqb_spec n 0) as [|Hn]; [done|]. rewrite to_checksum_0x in H by lia. cbn [mbind result_bind] in H.
  destruct (negb _ && negb _ && negb _); [done|]. injection H as <-.
  exists (drop 2 text), n. split_and!; [|done..]. unfold prefixed.
  apply orb_true_elim in Ep as [Ep|Ep]; apply startswith_split in Ep; [by left|by right].
Qed.

Lemma canonical_checksum body n :
  length body = 40%nat → Forall (λ c, is_hex_char c = true) body → int_base 16 body = Some n → n ≠ 0 →
  canonical ("0x"%string ++ checksum_body (lower body)).
Proof.
  intros Hl Hh Hn Hn0. assert (lower (checksum_body (lower body)) = lower body) as Hlow
    by (rewrite lower_checksum_body, lower_idemp; [done|rewrite length_lower; lia]).
  split; [|apply to_checksum_idemp; lia].
  eexists _, n. split_and!; [reflexivity| | | |done].
  - rewrite length_checksum_body; rewrite length_lower; lia.
  - by rewrite <- Forall_hex_lower, Hlow, Forall_hex_lower.
  - rewrite <- (int_base_hex_case body); [done| |done|done]. by destruct body.
Qed.

Lemma normalize_canonical value a : normalize_address value = Ok a → canonical a.
Proof. intros (body & n & _ & Hl & Hh & Hn & Hn0 & ->)%normalize_address_inv. by eapply canonical_checksum. Qed.

Lemma normalize_fixed a : canonical a → normalize_address a = Ok a.
Proof.
  intros [(body & n & -> & Hl & Hh & Hn & Hn0) Hc]. unfold normalize_address.
  assert (strip (("0x"%string : str) ++ body) = "0x"%string ++ body) as ->.
  { apply strip_with_none, Forall_app. split; [compute_decide|].
    eapply Forall_impl; [exact Hh|]. intros c. apply is_hex_not_space. }
  rewrite startswith_app. cbn [orb mbind result_bind].
  change (drop 2 (("0x"%string : str) ++ body)) with body.
  change (drop 2 (("0x"%string : str) ++ body)) with body.
  rewrite Hl. apply existsb_not_hex in Hh as ->. cbn [negb orb Nat.eqb].
  unfold py_int16. rewrite Hn. cbn [of_option mbind result_bind]. destruct (Z.eqb_spec n 0) as [|_]; [done|].
  rewrite Hc. cbn [mbind result_bind]. rewrite (bool_decide_eq_true_2 (_ ++ _ = _)) by done.
  by rewrite andb_false_r.
Qed.

Lemma to_checksum_lower a b : lower a = lower b → to_checksum a = to_checksum b.
Proof. unfold to_checksum. by intros ->. Qed.

(** Canonical addresses that differ only in case are equal. *)
Lemma canonical_lower_inj a b : canonical a → canonical b → lower a = lower b → a = b.
Proof. intros [_ Ha] [_ Hb] H%to_checksum_lower. congruence. Qed.

Definition hex_value (c : ascii) : Z := default 0 (hex_val c).

Lemma is_hex_value c :
  is_hex_char c = true →
  (0 <=? hex_value c) && (hex_value c <? 16) && bool_decide (lower_char c = hexdigit (hex_value c)) = true.
Proof. by char_cases c. Qed.

Lemma hex_digits s :
  Forall (λ c, is_hex_char c = true) s →
  ∃ ds, Forall (λ d, 0 ≤ d < 16) ds ∧ length ds = length s ∧ lower s = hexdigit <$> ds.
Proof.
  induction 1 as [|c s Hc _ (ds & Hd & Hl & E)]; [by exists []|].
  assert (∃ d, 0 ≤ d < 16 ∧ lower_char c = hexdigit d) as (d & Hd' & Ec).
  { pose proof (is_hex_value c Hc) as H. rewrite !andb_true_iff in H. destruct H as [[H1 H2] H3%bool_decide_eq_true_1].
    exists (hex_value c). split; [lia|done]. }
  exists (d :: ds). split_and!; [by constructor|simpl; lia|].
  cbn [lower fmap list_fmap]. by rewrite Ec, <- E.
Qed.

Lemma int_base_0x body :
  body ≠ [] → Forall (λ c, is_hex_char c = true) body →
  int_base 16 ("0x"%string ++ body) = int_digits 16 true 0 (lower body).
Proof.
  intros Hne Hh. rewrite int_digits_lower by done. unfold int_base. rewrite strip_with_none.
  - cbn -[int_digits]. destruct Hh as [|c body Hc _]; [done|]. apply is_hex_plain in Hc as (_ & Hu & _).
    by destruct c as [[] [] [] [] [] [] [] []].
  - apply Forall_app. split; [compute_decide|]. eapply Forall_impl; [exact Hh|]. intros c Hc. by apply is_hex_plain.
Qed.

(** Hex digits two by two are the bytes they spell. *)
Lemma hexdigits_bytes k ds :
  Forall (λ d, 0 ≤ d < 16) ds → length ds = (2 * k)%nat →
  ∃ b, length b = k ∧ bytes_ok b ∧ hexdigit <$> ds = hex b ∧
    ∀ acc, undigits 16 acc ds = acc * 256 ^ Z.of_nat k + from_be b.
Proof.
  revert ds. induction k as [|k IH]; intros ds Hd Hl.
  { destruct ds; [|done]. exists []. split_and!; [done|constructor|done|]. intros acc. cbn. lia. }
  destruct ds as [|d [|e ds]]; [done|simpl in Hl; lia|]. inversion_clear Hd as [|?? H1 Hd']. inversion_clear Hd' as [|?? H2 Hd].
  destruct (IH ds Hd) as (b & Hb & Hok & E & Hu); [simpl in Hl; lia|]. exists (d * 16 + e :: b).
  split_and!; [simpl; lia|constructor; [lia|done]| |].
  - cbn [fmap list_fmap]. rewrite hex_cons, E, Z.div_add_l, Z.div_small, Z.add_0_r by lia.
    by rewrite Z.add_comm, Z.mod_add, Z.mod_small by lia.
  - intros acc. unfold undigits in *. cbn [foldl]. rewrite Hu. rewrite from_be_cons, Hb.
    replace (Z.of_nat (S k)) with (Z.succ (Z.of_nat k)) by lia. rewrite Z.pow_succ_r by lia. nia.
Qed.

Lemma fromhex_lower s : Forall (λ c, is_hex_char c = true) s → fromhex (lower s) = fromhex s.
Proof.
  induction s as [| |c d s IH] using list_ind2; intros H; [done| |].
  - inversion_clear H as [|?? Hc _]. cbn [lower fmap list_fmap fromhex].
    by destruct (is_hex_plain _ Hc) as [-> _], (is_hex_plain _ (is_hex_lower _ Hc)) as [-> _].
  - inversion_clear H as [|?? Hc H']. inversion_clear H' as [|?? Hd H]. specialize (IH H).
    cbn [lower fmap list_fmap fromhex] in *.
    destruct (is_hex_plain _ Hc) as [-> _], (is_hex_plain _ (is_hex_lower _ Hc)) as [-> _].
    unfold hex_val. rewrite !is_hex_digit_val by done. by rewrite <- IH.
Qed.

(** The 20 bytes 40 hex digits stand for, in every form the code reads them. *)
Lemma hex_body_bytes body :
  length body = 40%nat → Forall (λ c, is_hex_char c = true) body →
  ∃ b, length b = 20%nat ∧ bytes_ok b ∧ lower body = hex b ∧
    Airdrop.unhex ("0x"%string ++ body) = Ok b ∧ py_int16 ("0x"%string ++ body) = Ok (from_be b).
Proof.
  intros Hl Hh. assert (body ≠ []) as Hne by by destruct body.
  destruct (hex_digits body Hh) as (ds & Hd & Hld & E).
  destruct (hexdigits_bytes 20 ds Hd) as (b & Hb & Hok & Ehex & Hu); [lia|].
  exists b. split_and!; [done|done|by rewrite E, Ehex| |].
  - unfold Airdrop.unhex. rewrite removeprefix_0x, <- fromhex_lower, E, Ehex, fromhex_hex by done. done.
  - unfold py_int16. rewrite int_base_0x by done.
    by rewrite E, (int_digits_hexdigits_need 16), Hu, Z.mul_0_l, Z.add_0_l; [|lia|by destruct ds, body|].
Qed.

(** An address as the code spells it, and its 20 bytes. *)
Definition address_bytes (a : str) (b : bytes) : Prop :=
  length b = 20%nat ∧ bytes_ok b ∧ to_checksum ("0x"%string ++ hex b) = Ok a.

Lemma address_bytes_forms a b :
  address_bytes a b → Airdrop.unhex a = Ok b ∧ py_int16 a = Ok (from_be b) ∧ lower a = "0x"%string ++ hex b.
Proof.
  intros (Hl & Hok & Hc). rewrite to_checksum_0x in Hc by (rewrite length_hex; lia). apply Ok_inj in Hc as <-.
  set (body := checksum_body (lower (hex b))).
  assert (lower body = hex b) as El.
  { unfold body. rewrite lower_checksum_body, lower_hex, lower_hex by (done || rewrite length_lower, length_hex; lia). done. }
  assert (length body = 40%nat) as Hlb by (rewrite <- length_lower, El, length_hex; lia).
  assert (Forall (λ c, is_hex_char c = true) body) as Hh.
  { rewrite <- Forall_hex_lower, El. eapply Forall_impl; [by apply hex_hex_digit|].
    intros c (d & Hd & ->). by apply (hexdigit_cases (λ d, is_hex_char (hexdigit d) = true) d Hd). }
  destruct (hex_body_bytes body Hlb Hh) as (b' & _ & Hok' & E & Hu & Hi).
  assert (b' = b) as -> by (apply hex_inj; [done..|by rewrite <- E, El]).
  split; [done|]. split; [done|]. by rewrite lower_app, El.
Qed.

Lemma address_bytes_inj a b a' b' : address_bytes a b → address_bytes a' b' → lower a = lower a' → a = a' ∧ b = b'.
Proof.
  intros Ha Ha' E. destruct (address_bytes_forms _ _ Ha) as (_ & _ & H1), (address_bytes_forms _ _ Ha') as (_ & _ & H2).
  rewrite H1, H2 in E. apply app_inv_head in E. destruct Ha as (_ & Hok & Hc), Ha' as (_ & Hok' & Hc').
  apply hex_inj in E as ->; [|done..]. split; congruence.
Qed.

Lemma canonical_bytes a : canonical a → ∃ b, address_bytes a b ∧ 0 < from_be b.
Proof.
  intros [(body & n & -> & Hl & Hh & Hn & Hn0) Hc].
  destruct (hex_body_bytes body Hl Hh) as (b & Hb & Hok & E & Hu & Hi).
  assert (body ≠ []) as Hne by by destruct body.
  exists b. split; [split; [done|]; split; [done|]|].
  - rewrite <- Hc. apply to_checksum_lower. rewrite !lower_app, E. by rewrite lower_hex.
  - unfold py_int16 in Hi. rewrite int_base_0x, int_digits_lower, <- int_base_hex, Hn in Hi by done.
    injection Hi as ->. apply from_be_range in Hok. lia.
Qed.

(** The number an address stands for; [py_int16] reads it with its prefix. *)
Lemma canonical_int a : canonical a → ∃ n, py_int16 a = Ok n ∧ 0 < n < 2 ^ 160.
Proof.
  intros (b & Ha & Hp)%canonical_bytes. exists (from_be b). split; [by apply address_bytes_forms|]. split; [done|].
  destruct Ha as (Hb & Hok & _). apply from_be_range in Hok. unfold zlen in Hok. rewrite Hb in Hok. apply Hok.
Qed.

Lemma normalize_stripped v a : normalize_address v = Ok a → to_checksum (strip v) = Ok a ∧ lower a = lower (strip v).
Proof.
  intros (body & n & Hp & Hl & _ & _ & _ & ->)%normalize_address_inv.
  assert (lower (strip v) = lower ("0x"%string ++ body)) as E by (destruct Hp as [-> | ->]; by rewrite !lower_app).
  split.
  - rewrite (to_checksum_lower _ _ E). apply to_checksum_0x. lia.
  - rewrite E, !lower_app, lower_checksum_body, lower_idemp by (rewrite length_lower; lia). done.
Qed.

(** C39: [normalize_address] returns one spelling per address: what it returns
    it accepts unchanged, it is the EIP-55 form of the text it was given, and
    two accepted texts have the same result exactly when they are the same
    address up to the case of their letters and the white space around them. *)
Theorem normalize_address_canonical v w a b :
  normalize_address v = Ok a → normalize_address w = Ok b →
  normalize_address a = Ok a ∧ to_checksum (strip v) = Ok a ∧ (a = b ↔ lower (strip v) = lower (strip w)).
Proof.
  intros Hv Hw. split; [by eapply normalize_fixed, normalize_canonical|].
  apply normalize_stripped in Hv as [Hv Ev]. apply normalize_stripped in Hw as [Hw Ew].
  split; [done|]. split; [congruence|]. intros E%to_checksum_lower. congruence.
Qed.

Lemma normalize_address_canonical_witness :
  let a := "0x5aAeb6053F3E94C9b9A09f33669435E7Ef1BeAed"%string : str in
  let v := " 0X5aAeb6053F3E94C9b9A09f33669435E7Ef1BeAed "%string : str in
  let w := "0x5AAEB6053F3E94C9B9A09F33669435E7EF1BEAED"%string : str in
  normalize_address a = Ok a ∧ to_checksum (strip v) = Ok a ∧ (a = a ↔ lower (strip v) = lower (strip w)).
Proof. apply normalize_address_canonical; vm_compute; reflexivity. Defined.
