(* ===== verification/Amount.v ===== *)
(** Amounts: [parse_amount] and [format_one] of airdrop/tools/common.py, over a
    model of [decimal.Decimal] in Python's default context (28 significant
    digits, round half even).

    Every amount below 10^28 atto survives [format_one] and [parse_amount], and
    a text of at most 28 significant digits is read exactly.  Beyond that the
    product with 10^18 is rounded: [parse_amount] then accepts texts with more
    than 18 decimals and returns another amount than the one written. *)

From S2P Require Import Prelude PyStr.
Local Open Scope Z_scope.

(** * [decimal.Decimal] *)

(** [(-1)^neg * coeff * 10^exp], or a value that is not a number. *)
Inductive decimal :=
  | Finite (neg : bool) (coeff exp : Z)
  | Infinity
  | NaN.

Definition ndigits (n : Z) : Z := zlen (digits 10 n).

(** The exact conversion refuses exponents outside libmpdec's range. *)
Definition MAX_EMAX : Z := 999999999999999999.
Definition MIN_ETINY : Z := -1999999999999999997.

Definition split_sign (s : str) : bool * str :=
  match s with
  | "-"%char :: s => (true, s)
  | "+"%char :: s => (false, s)
  | _ => (false, s)
  end.

Definition parse_exponent (marked : bool) (s : str) : option Z :=
  if negb marked then Some 0 else
  let '(neg, ds) := split_sign s in
  if isdigit ds then (λ n, if neg then - n else n) <$> int_base 10 ds else None.

Definition parse_finite (neg : bool) (s : str) : option decimal :=
  let '(mant, marked, ex) := partition "e"%char s in
  let '(ip, _, fp) := partition "."%char mant in
  if negb (isdigit (ip ++ fp)) then None else
  coeff ← int_base 10 (ip ++ fp);
  e ← parse_exponent marked ex;
  let exp := e - zlen fp in
  if (MAX_EMAX <? exp + (if coeff =? 0 then 0 else ndigits coeff - 1)) || (exp <? MIN_ETINY) then None
  else Some (Finite neg coeff exp).

(** [Decimal(text)]; [None] is [InvalidOperation]. *)
Definition parse_decimal (text : str) : option decimal :=
  let s := lower (remove_char "_"%char (strip text)) in
  let '(neg, s) := split_sign s in
  if bool_decide (s = "inf"%string) || bool_decide (s = "infinity"%string) then Some Infinity else
  if startswith s "nan"%string then (if forallb is_digit (drop 3 s) then Some NaN else None) else
  if startswith s "snan"%string then (if forallb is_digit (drop 4 s) then Some NaN else None) else
  parse_finite neg s.

(** The default context. *)
Definition PREC : Z := 28.
Definition EMAX : Z := 999999.
Definition ETINY : Z := -1000026.

(** [c / 10^k] rounded half to even, [k >= 0]. *)
Definition round_half_even (c k : Z) : Z :=
  let q := c / 10 ^ k in
  let r := c mod 10 ^ k in
  match 2 * r ?= 10 ^ k with
  | Lt => q
  | Eq => if Z.even q then q else q + 1
  | Gt => q + 1
  end.

(** Rounding a coefficient and its exponent to the context. *)
Definition ctx_round (c e : Z) : result (Z * Z) :=
  if c =? 0 then Ok (0, Z.max ETINY (Z.min e EMAX)) else
  let k := Z.max 0 (Z.max (ndigits c - PREC) (ETINY - e)) in
  let c' := round_half_even c k in
  if EMAX <? e + k + ndigits c' - 1 then Raise DecimalOverflow
  else if PREC <? ndigits c' then Ok (c' / 10, e + k + 1)
  else Ok (c', e + k).

(** [dec * n] for a finite [dec] and an [int] [n >= 0]. *)
Definition dec_mul_int (neg : bool) (c e n : Z) : result decimal :=
  '(c', e') ← ctx_round (c * n) e;
  Ok (Finite neg c' e').

Definition dec_is_integral (c e : Z) : bool := (0 <=? e) || (c mod 10 ^ (- e) =? 0).

(** [int(dec)] for an integral value. *)
Definition dec_to_int (neg : bool) (c e : Z) : Z :=
  let m := if 0 <=? e then c * 10 ^ e else c / 10 ^ (- e) in
  if neg then - m else m.

(** * The code *)

Definition ATTO_PER_ONE : Z := 10 ^ 18.
Definition UINT96_MAX : Z := 2 ^ 96 - 1.

Definition parse_amount_one (text : str) : result Z :=
  dec ← of_option (parse_decimal text) (InputError "not a decimal number");
  match dec with
  | NaN | Infinity => Raise (InputError "not a finite number")
  | Finite neg c e =>
      scaled ← dec_mul_int neg c e ATTO_PER_ONE;
      match scaled with
      | Finite neg c e =>
          if negb (dec_is_integral c e) then Raise (InputError "more than 18 decimal places")
          else Ok (dec_to_int neg c e)
      | _ => Raise (ValueError "unreachable")
      end
  end.

Definition parse_amount (value unit : str) : result Z :=
  let text := remove_char "_"%char (remove_char ","%char (strip value)) in
  if bool_decide (text = []) then Raise (InputError "empty amount") else
  amount ← (if bool_decide (unit = "atto"%string) then
              if negb (isdigit text) then Raise (InputError "atto amounts must be whole numbers") else py_int text
            else if bool_decide (unit = "one"%string) then parse_amount_one text
            else Raise (InputError "unknown amount unit"));
  if amount <=? 0 then Raise (InputError "amount must be positive") else Ok amount.

Definition format_one (atto : Z) : str :=
  let whole := atto / ATTO_PER_ONE in
  let frac := atto mod ATTO_PER_ONE in
  if frac =? 0 then commas whole
  else commas whole ++ "."%string ++ rstrip_char "0"%char (rjust 18 "0"%char (str_of_Z frac)).

(** * Digits *)

Lemma ndigits_bound n : 0 ≤ n → n < 10 ^ ndigits n.
Proof.
  intros Hn. rewrite <- (undigits_digits 10 n) at 1 by lia.
  pose proof (undigits_bound 10 (digits 10 n) 0 ltac:(lia) (digits_range 10 n ltac:(lia) Hn) ltac:(lia)).
  unfold ndigits. lia.
Qed.

Lemma ndigits_le n k : 0 ≤ n < 10 ^ k → 0 < k → ndigits n ≤ k.
Proof.
  intros Hn Hk. unfold ndigits, zlen. pose proof (length_str_of_nonneg_le 10 n (Z.to_nat k)) as H.
  unfold str_of_nonneg in H. rewrite length_fmap in H. rewrite Z2Nat.id in H by lia. lia.
Qed.

(** * Exact products *)

Lemma round_half_even_exact q k : 0 ≤ k → round_half_even (q * 10 ^ k) k = q.
Proof.
  intros Hk. unfold round_half_even. assert (0 < 10 ^ k) by lia.
  rewrite Z.div_mul, Z.mod_mul by lia. destruct (Z.compare_spec (2 * 0) (10 ^ k)); try lia; done.
Qed.

(** A coefficient of at most 28 digits times 10^18 is not rounded. *)
Lemma ctx_round_exact c e :
  0 < c < 10 ^ 28 → -100 ≤ e ≤ 100 →
  ∃ c' j, ctx_round (c * ATTO_PER_ONE) e = Ok (c', e + j) ∧ 0 ≤ j ∧ c' * 10 ^ j = c * ATTO_PER_ONE.
Proof.
  intros Hc He. unfold ctx_round, ATTO_PER_ONE. destruct (Z.eqb_spec (c * 10 ^ 18) 0) as [|_]; [lia|].
  assert (ndigits (c * 10 ^ 18) ≤ 46) as Hn by (apply ndigits_le; lia).
  set (k := Z.max 0 (Z.max (ndigits (c * 10 ^ 18) - PREC) (ETINY - e))).
  assert (0 ≤ k ≤ 18) as Hk by (unfold k, PREC, ETINY; lia).
  assert (c * 10 ^ 18 = (c * 10 ^ (18 - k)) * 10 ^ k) as E.
  { rewrite <- Z.mul_assoc, <- Z.pow_add_r by lia. do 2 f_equal. lia. }
  rewrite E, round_half_even_exact by lia. set (c' := c * 10 ^ (18 - k)) in *.
  assert (0 < c' * 10 ^ k) as Hpos by lia.
  assert (ndigits c' ≤ 28) as Hn'.
  { destruct (Z.eq_dec k 0) as [Hk0|Hk0].
    - rewrite Hk0 in E. change (10 ^ 0) with 1 in E. rewrite Z.mul_1_r in E. rewrite <- E. unfold k, PREC in Hk0. lia.
    - apply ndigits_le; [|lia]. pose proof (ndigits_bound (c * 10 ^ 18) ltac:(lia)) as Hub.
      assert (ndigits (c * 10 ^ 18) = 28 + k) as Hnk by (unfold k, PREC, ETINY in *; lia).
      rewrite Hnk, E, Z.pow_add_r in Hub by lia. assert (0 < 10 ^ k) by lia. nia. }
  destruct (Z.ltb_spec EMAX (e + k + ndigits c' - 1)); [unfold EMAX in *; lia|].
  destruct (Z.ltb_spec PREC (ndigits c')); [unfold PREC in *; lia|].
  exists c', k. split_and!; [done|lia|done].
Qed.

Lemma scaled_integral c e c' j :
  0 ≤ c → -18 ≤ e → 0 ≤ j → c' * 10 ^ j = c * ATTO_PER_ONE →
  dec_is_integral c' (e + j) = true ∧ dec_to_int false c' (e + j) = c * 10 ^ (18 + e).
Proof.
  intros Hc He Hj H. unfold ATTO_PER_ONE in H. unfold dec_is_integral, dec_to_int.
  assert (c * 10 ^ 18 * 10 ^ (e + 18) = c * 10 ^ (18 + e) * 10 ^ 18) as Hs
    by (rewrite (Z.add_comm e 18); ring).
  destruct (Z.leb_spec 0 (e + j)) as [Hp|Hp]; cbn [orb].
  - split; [done|]. apply (Z.mul_reg_r _ _ (10 ^ 18)); [lia|]. rewrite <- Hs, <- H.
    rewrite <- !Z.mul_assoc, <- !Z.pow_add_r by lia. do 2 f_equal. lia.
  - assert (c' = c * 10 ^ (18 + e) * 10 ^ (- (e + j))) as ->.
    { apply (Z.mul_reg_r _ _ (10 ^ j)); [lia|]. rewrite H.
      rewrite <- !Z.mul_assoc, <- !Z.pow_add_r by lia. do 2 f_equal. lia. }
    rewrite Z.mod_mul, Z.div_mul by lia. done.
Qed.

(** * Texts of digits *)

Definition digit_text (ds : list Z) : str := hexdigit <$> ds.
Definition dig (d : Z) : Prop := 0 ≤ d < 10.

Lemma dig_char d : dig d → let c := hexdigit d in
  is_digit c = true ∧ is_space c = false ∧ lower_char c = c ∧ c ≠ "e"%char ∧ c ≠ "."%char ∧ c ≠ "_"%char ∧ c ≠ ","%char ∧
  c ≠ "-"%char ∧ c ≠ "+"%char ∧ c ≠ "i"%char ∧ c ≠ "n"%char ∧ c ≠ "s"%char.
Proof.
  intros Hd. assert (0 ≤ d < 16) as H by (unfold dig in Hd; lia). revert Hd.
  apply (hexdigit_cases (λ d, dig d → let c := hexdigit d in _) d H); unfold dig; intros Hd; try lia; by vm_compute.
Qed.

Lemma isdigit_text ds : Forall dig ds → isdigit (digit_text ds) = negb (bool_decide (ds = [])).
Proof.
  intros H. unfold isdigit, digit_text. rewrite (bool_decide_ext _ (ds = [])).
  - replace (forallb is_digit (hexdigit <$> ds)) with true; [by rewrite andb_true_r|].
    symmetry. induction H as [|d ds Hd _ IH]; [done|]. cbn [fmap list_fmap forallb].
    rewrite IH. by destruct (dig_char d Hd) as [-> _].
  - by destruct ds.
Qed.

Lemma partition_absent c s : c ∉ s → partition c s = (s, false, []).
Proof.
  induction s as [|x s IH]; intros H; [done|]. cbn [partition].
  rewrite bool_decide_eq_false_2 by set_solver. by rewrite IH by set_solver.
Qed.

Lemma partition_present c s t : c ∉ s → partition c (s ++ c :: t) = (s, true, t).
Proof.
  induction s as [|x s IH]; intros H; cbn [partition app].
  - by rewrite bool_decide_eq_true_2.
  - rewrite bool_decide_eq_false_2 by set_solver. by rewrite IH by set_solver.
Qed.

Lemma digit_text_absent ds c : Forall dig ds → (∀ d, dig d → hexdigit d ≠ c) → c ∉ digit_text ds.
Proof.
  intros H Hc (d & -> & Hin)%list_elem_of_fmap. rewrite Forall_forall in H. by apply (Hc d (H d Hin)).
Qed.

Definition text_char (c : ascii) : Prop := c = "."%char ∨ ∃ d, dig d ∧ c = hexdigit d.

Lemma text_char_spec c :
  text_char c → is_space c = false ∧ lower_char c = c ∧ c ≠ "_"%char ∧ c ≠ "e"%char ∧ c ≠ ","%char ∧
  c ≠ "-"%char ∧ c ≠ "+"%char ∧ c ≠ "i"%char ∧ c ≠ "n"%char ∧ c ≠ "s"%char.
Proof.
  intros [-> |(d & Hd & ->)]; [by vm_compute|].
  destruct (dig_char d Hd) as (_ & ? & ? & ? & _ & ? & ? & ? & ? & ? & ? & ?). done.
Qed.

Lemma text_chars_digits ds : Forall dig ds → Forall text_char (digit_text ds).
Proof. intros H. apply Forall_fmap. eapply Forall_impl; [exact H|]. intros d Hd. right. by exists d. Qed.

Lemma text_strip s : Forall text_char s → strip s = s.
Proof. intros H. apply strip_with_none. eapply Forall_impl; [exact H|]. intros c Hc. by apply text_char_spec. Qed.

Lemma remove_absent c s : c ∉ s → remove_char c s = s.
Proof.
  intros H. unfold remove_char. induction s as [|x s IH]; [done|].
  rewrite filter_cons_True by set_solver. f_equal. apply IH. set_solver.
Qed.

Lemma text_remove_us s : Forall text_char s → remove_char "_"%char s = s.
Proof.
  intros H. apply remove_absent. intros Hin. rewrite Forall_forall in H. by apply H, text_char_spec in Hin as (_ & _ & ? & _).
Qed.

Lemma text_lower s : Forall text_char s → lower s = s.
Proof.
  intros H. unfold lower. rewrite <- (list_fmap_id s) at 2. apply Forall_fmap_ext. eapply Forall_impl; [exact H|].
  intros c Hc. by apply text_char_spec.
Qed.

Lemma parse_decimal_text s : Forall text_char s → parse_decimal s = parse_finite false s.
Proof.
  intros H. unfold parse_decimal. rewrite text_strip, text_remove_us, text_lower by done.
  destruct H as [|c s Hc H]; [done|].
  assert (split_sign (c :: s) = (false, c :: s)) as ->.
  { apply text_char_spec in Hc as (_ & _ & _ & _ & _ & Hm & Hp & _). by destruct c as [[] [] [] [] [] [] [] []]. }
  apply text_char_spec in Hc as (_ & _ & _ & _ & _ & _ & _ & Hi & Hn & Hs).
  rewrite !bool_decide_eq_false_2 by (intros E; cbn in E; injection E as E _; congruence).
  unfold startswith. rewrite !bool_decide_eq_false_2 by (intros E; cbn in E; injection E as E _; congruence). done.
Qed.

(** What [Decimal] makes of [ip], or of [ip.fp]. *)
Lemma parse_finite_digits neg ip fp :
  Forall dig ip → Forall dig fp → ip ++ fp ≠ [] → zlen fp ≤ 100 → zlen (ip ++ fp) ≤ 100 →
  let r := Some (Finite neg (undigits 10 0 (ip ++ fp)) (- zlen fp)) in
  parse_finite neg (digit_text ip ++ "."%char :: digit_text fp) = r ∧ (fp = [] → parse_finite neg (digit_text ip) = r).
Proof.
  intros Hip Hfp Hne Hl1 Hl r. assert (Forall dig (ip ++ fp)) as Hall by by apply Forall_app.
  assert (0 ≤ undigits 10 0 (ip ++ fp) < 10 ^ 100) as Hub.
  { pose proof (undigits_bound 10 (ip ++ fp) 0 ltac:(lia) Hall ltac:(lia)).
    assert (10 ^ zlen (ip ++ fp) ≤ 10 ^ 100) by (apply Z.pow_le_mono_r; unfold zlen in *; lia). lia. }
  assert (∀ s, (digit_text ip ++ digit_text fp = s) →
     (if negb (isdigit s) then None else
      coeff ← int_base 10 s; e ← parse_exponent false [];
      if (MAX_EMAX <? e - zlen (digit_text fp) + (if coeff =? 0 then 0 else ndigits coeff - 1)) ||
         (e - zlen (digit_text fp) <? MIN_ETINY) then None
      else Some (Finite neg coeff (e - zlen (digit_text fp)))) = r) as Hcore.
  { intros s <-. unfold digit_text. rewrite <- fmap_app. fold (digit_text (ip ++ fp)).
    rewrite isdigit_text, bool_decide_eq_false_2 by done. cbn [negb]. unfold digit_text.
    rewrite int_base_hexdigits by (done || lia). cbn [mbind option_bind parse_exponent negb].
    pose proof (ndigits_le (undigits 10 0 (ip ++ fp)) 100 Hub ltac:(lia)).
    assert (zlen (hexdigit <$> fp) = zlen fp) as -> by (unfold zlen; by rewrite length_fmap).
    destruct (Z.ltb_spec MAX_EMAX (0 - zlen fp + (if undigits 10 0 (ip ++ fp) =? 0 then 0 else ndigits (undigits 10 0 (ip ++ fp)) - 1))) as [Hx|_].
    { unfold MAX_EMAX, zlen in *. destruct (_ =? 0); lia. }
    destruct (Z.ltb_spec (0 - zlen fp) MIN_ETINY) as [Hx|_]; [unfold MIN_ETINY, zlen in *; lia|]. done. }
  assert (∀ ds, Forall dig ds → ("."%char ∉ digit_text ds) ∧ ("e"%char ∉ digit_text ds)) as Hno.
  { intros ds Hds. split; apply digit_text_absent; try done; intros d Hd; by destruct (dig_char d Hd) as (_ & _ & _ & ? & ? & _). }
  split.
  - unfold parse_finite. rewrite (partition_absent "e"%char).
    + rewrite partition_present by by apply Hno. by apply Hcore.
    + rewrite elem_of_app, elem_of_cons. pose proof (Hno ip Hip). pose proof (Hno fp Hfp). by intros [?|[?|?]]; [apply H| |apply H0].
  - intros ->. unfold parse_finite. rewrite (partition_absent "e"%char) by by apply Hno.
    rewrite (partition_absent "."%char) by by apply Hno. by apply Hcore.
Qed.

(** Reading [ip.fp] tokens with at most 28 significant digits and 18 decimals
    gives exactly [ip.fp * 10^18] atto. *)
Lemma parse_amount_one_exact ip fp s :
  Forall dig ip → Forall dig fp → ip ++ fp ≠ [] → zlen fp ≤ 18 → zlen (ip ++ fp) ≤ 100 →
  0 < undigits 10 0 (ip ++ fp) < 10 ^ 28 →
  s = digit_text ip ++ "."%char :: digit_text fp ∨ (fp = [] ∧ s = digit_text ip) →
  parse_amount_one s = Ok (undigits 10 0 (ip ++ fp) * 10 ^ (18 - zlen fp)).
Proof.
  intros Hip Hfp Hne Hl1 Hl Hc Hs. assert (0 ≤ zlen fp) by (unfold zlen; lia).
  destruct (parse_finite_digits false ip fp Hip Hfp Hne ltac:(lia) Hl) as [H1 H2].
  assert (Forall text_char s) as Ht.
  { destruct Hs as [-> |[_ ->]]; [|by apply text_chars_digits]. apply Forall_app. split; [by apply text_chars_digits|].
    constructor; [by left|by apply text_chars_digits]. }
  unfold parse_amount_one. rewrite parse_decimal_text by done.
  assert (parse_finite false s = Some (Finite false (undigits 10 0 (ip ++ fp)) (- zlen fp))) as ->
    by (destruct Hs as [-> |[Hf ->]]; auto).
  cbn [of_option mbind result_bind]. unfold dec_mul_int.
  destruct (ctx_round_exact (undigits 10 0 (ip ++ fp)) (- zlen fp)) as (c' & j & -> & Hj & Hv); [lia|lia|].
  cbn [mbind result_bind].
  destruct (scaled_integral (undigits 10 0 (ip ++ fp)) (- zlen fp) c' j) as [-> ->]; [lia..|done|]. done.
Qed.

(** * [format_one] *)

Lemma join_remove_sep c (ls : list str) :
  Forall (λ l, c ∉ l) ls → remove_char c (join [c] ls) = concat ls.
Proof.
  intros H. induction H as [|l ls Hl H IH]; [done|].
  destruct ls as [|l' ls]; [cbn; rewrite app_nil_r; by apply remove_absent|].
  change (join [c] (l :: l' :: ls)) with (l ++ [c] ++ join [c] (l' :: ls)).
  unfold remove_char in *. rewrite !filter_app, IH.
  change (filter (λ x, x ≠ c) l) with (remove_char c l). rewrite remove_absent by done.
  rewrite filter_cons_False by (intros Hx; by apply Hx). done.
Qed.

Lemma remove_reverse c s : remove_char c (reverse s) = reverse (remove_char c s).
Proof.
  unfold remove_char. induction s as [|x s IH]; [done|]. rewrite reverse_cons, filter_app, IH.
  rewrite !filter_cons, filter_nil. destruct (decide (x ≠ c)); [by rewrite reverse_cons|by rewrite app_nil_r].
Qed.

Lemma remove_commas n : 0 ≤ n → remove_char ","%char (commas n) = str_of_nonneg 10 n.
Proof.
  intros Hn. unfold commas. rewrite remove_reverse. change (","%string : str) with ([","%char]).
  rewrite join_remove_sep.
  - by rewrite concat_chunks, reverse_involutive by lia.
  - apply Forall_forall. intros l Hl Hc. assert (","%char ∈ str_of_nonneg 10 n) as Hin.
    { rewrite <- elem_of_reverse, <- (concat_chunks 3) by lia. rewrite list_elem_of_In, in_concat.
      exists l. by rewrite <- !list_elem_of_In. }
    revert Hin. apply digit_text_absent; [by apply digits_range; lia|]. intros d Hd.
    by destruct (dig_char d Hd) as (_ & _ & _ & _ & _ & _ & ? & _).
Qed.

Lemma rstrip_zeros ds :
  Forall dig ds → ∃ fp k, rstrip_char "0"%char (digit_text ds) = digit_text fp ∧ ds = fp ++ replicate k 0.
Proof.
  intros H. induction ds as [|d ds IH] using rev_ind; [by exists [], 0%nat|].
  apply Forall_app in H as [H Hd]. rewrite Forall_singleton in Hd. unfold digit_text. rewrite fmap_app.
  destruct (Z.eq_dec d 0) as [-> |Hd0].
  - destruct (IH H) as (fp & k & Hr & ->). exists fp, (S k). split.
    + unfold rstrip_char. rewrite rstrip_with_app; [exact Hr|]. by repeat constructor.
    + by rewrite replicate_S_end, app_assoc.
  - exists (ds ++ [d]), 0%nat. split; [|by rewrite app_nil_r]. rewrite fmap_app. cbn [fmap list_fmap].
    unfold rstrip_char, rstrip_with. rewrite reverse_app, reverse_singleton. cbn [app drop_while].
    rewrite bool_decide_eq_false_2.
    + by rewrite reverse_cons, reverse_involutive.
    + intros E. apply Hd0. assert (hex_val (hexdigit d) = hex_val "0"%char) as E' by by rewrite E.
      rewrite hex_val_hexdigit in E' by (unfold dig in Hd; lia). by injection E'.
Qed.

Lemma undigits_trailing ds k : undigits 10 0 (ds ++ replicate k 0) = undigits 10 0 ds * 10 ^ Z.of_nat k.
Proof.
  induction k as [|k IH]; [by rewrite app_nil_r, Z.mul_1_r|].
  rewrite replicate_S_end, app_assoc, undigits_app, IH. unfold undigits at 1. cbn [foldl].
  rewrite Nat2Z.inj_succ, Z.pow_succ_r by lia. ring.
Qed.

Lemma undigits_concat ip fp : undigits 10 0 (ip ++ fp) = undigits 10 0 ip * 10 ^ zlen fp + undigits 10 0 fp.
Proof.
  rewrite undigits_app. generalize (undigits 10 0 ip) as a. induction fp as [|d fp IH] using rev_ind; intros a.
  - unfold zlen. simpl. unfold undigits. simpl. lia.
  - rewrite !undigits_app, IH. unfold undigits at 1 3. cbn [foldl]. unfold zlen. rewrite length_app, Nat2Z.inj_add.
    rewrite Z.pow_add_r by lia. simpl length. change (10 ^ Z.of_nat 1) with 10. ring.
Qed.

(** The text of an amount below 10^28 atto, without its commas. *)
Lemma format_one_digits n :
  0 < n < 10 ^ 28 →
  ∃ ip fp, Forall dig ip ∧ Forall dig fp ∧ ip ≠ [] ∧ zlen fp ≤ 18 ∧ zlen (ip ++ fp) ≤ 100 ∧
    undigits 10 0 (ip ++ fp) * 10 ^ (18 - zlen fp) = n ∧
    (remove_char ","%char (format_one n) = digit_text ip ++ "."%char :: digit_text fp ∨
     (fp = [] ∧ remove_char ","%char (format_one n) = digit_text ip)).
Proof.
  intros Hn. unfold format_one, ATTO_PER_ONE.
  pose proof (Z.div_mod n (10 ^ 18) ltac:(lia)) as Hdm. pose proof (Z.mod_pos_bound n (10 ^ 18) ltac:(lia)) as Hm.
  set (whole := n / 10 ^ 18) in *. set (frac := n mod 10 ^ 18) in *.
  assert (0 ≤ whole < 10 ^ 10) as Hw by lia.
  assert (Forall dig (digits 10 whole)) as Hip by (apply digits_range; lia).
  assert (zlen (digits 10 whole) ≤ 10) as Hlw by (apply ndigits_le; lia).
  destruct (Z.eqb_spec frac 0) as [Hf|Hf].
  - exists (digits 10 whole), []. split_and!; [done|constructor|apply digits_nonnil|unfold zlen; simpl; lia| | |].
    + rewrite app_nil_r. lia.
    + rewrite app_nil_r, undigits_digits by lia. change (18 - zlen []) with 18. lia.
    + right. split; [done|]. by apply remove_commas; lia.
  - assert (str_of_Z frac = digit_text (digits 10 frac)) as ->.
    { unfold str_of_Z. destruct (Z.ltb_spec frac 0); [lia|done]. }
    unfold digit_text at 1. rewrite rjust_hexdigits. fold (digit_text (replicate (18 - length (digits 10 frac)) 0 ++ digits 10 frac)).
    set (pf := replicate _ 0 ++ digits 10 frac).
    assert (Forall dig pf) as Hpf by (apply zeros_range; [lia|apply digits_range; lia]).
    assert (zlen (digits 10 frac) ≤ 18) as Hlf by (apply ndigits_le; lia).
    assert (length pf = 18%nat) as Hlpf by (unfold pf, zlen in *; rewrite length_app, length_replicate; lia).
    assert (undigits 10 0 pf = frac) as Hvf by (unfold pf; rewrite undigits_zeros; apply undigits_digits; lia).
    destruct (rstrip_zeros pf Hpf) as (fp & k & -> & Ek). clearbody pf. subst pf.
    rewrite length_app, length_replicate in Hlpf. apply Forall_app in Hpf as [Hfp _].
    exists (digits 10 whole), fp. split_and!; [done|done|apply digits_nonnil|unfold zlen; lia| | |].
    + unfold zlen in *. rewrite length_app. lia.
    + replace (18 - zlen fp) with (Z.of_nat k) by (unfold zlen; lia). rewrite <- undigits_trailing, <- app_assoc.
      rewrite undigits_concat, Hvf, undigits_digits by lia. unfold zlen. rewrite length_app, length_replicate, Hlpf.
      change (10 ^ Z.of_nat 18) with (10 ^ 18). lia.
    + left. unfold remove_char. rewrite !filter_app. change (filter (λ x, x ≠ ","%char) (commas whole)) with (remove_char ","%char (commas whole)).
      rewrite remove_commas by lia. f_equal. change (filter (λ x, x ≠ ","%char) ("."%string : str)) with (["."%char]).
      cbn [app]. f_equal. apply (remove_absent ","%char). apply digit_text_absent; [done|].
      intros d Hd. by destruct (dig_char d Hd) as (_ & _ & _ & _ & _ & _ & ? & _).
Qed.

Lemma elem_of_remove_char x c s : x ∈ remove_char c s ↔ x ∈ s ∧ x ≠ c.
Proof. unfold remove_char. rewrite list_elem_of_filter. tauto. Qed.

Lemma strip_with_commas s : Forall text_char (remove_char ","%char s) → strip s = s.
Proof.
  intros H. apply strip_with_none, Forall_forall. intros c Hc. rewrite Forall_forall in H.
  destruct (decide (c = ","%char)) as [-> |Hn]; [done|]. by apply text_char_spec, H, elem_of_remove_char.
Qed.

Lemma parse_amount_text s unit :
  Forall text_char (remove_char ","%char s) → remove_char ","%char s ≠ [] →
  parse_amount s unit =
    (amount ← (if bool_decide (unit = "atto"%string) then
                 if negb (isdigit (remove_char ","%char s)) then Raise (InputError "atto amounts must be whole numbers")
                 else py_int (remove_char ","%char s)
               else if bool_decide (unit = "one"%string) then parse_amount_one (remove_char ","%char s)
               else Raise (InputError "unknown amount unit"));
     if amount <=? 0 then Raise (InputError "amount must be positive") else Ok amount).
Proof.
  intros Ht Hn. unfold parse_amount. rewrite strip_with_commas, text_remove_us by done.
  by rewrite bool_decide_eq_false_2.
Qed.

Lemma text_char_comma s : Forall text_char s → remove_char ","%char s = s.
Proof.
  intros H. apply remove_absent. intros Hin. rewrite Forall_forall in H.
  by apply H, text_char_spec in Hin as (_ & _ & _ & _ & ? & _).
Qed.

Lemma parse_amount_atto n : 0 < n → parse_amount (str_of_Z n) "atto"%string = Ok n.
Proof.
  intros Hn. assert (str_of_Z n = digit_text (digits 10 n)) as E by (unfold str_of_Z; by destruct (Z.ltb_spec n 0); [lia|]).
  assert (Forall dig (digits 10 n)) as Hd by (apply digits_range; lia).
  pose proof (text_chars_digits _ Hd) as Ht. pose proof (digits_nonnil 10 n) as Hne.
  rewrite parse_amount_text; rewrite E, text_char_comma by done; [|done|by destruct (digits 10 n)].
  rewrite bool_decide_eq_true_2, isdigit_text, bool_decide_eq_false_2 by done. cbn [negb].
  rewrite <- E, int_str_of_Z. cbn [mbind result_bind]. by destruct (Z.leb_spec n 0); [lia|].
Qed.

(** an amount of fewer than 10^28 atto printed by [format_one], with its
    thousands separators and without trailing zeros, is read back by
    [parse_amount] as the same amount; so is its plain decimal text in atto,
    of any size. *)
Theorem parse_format_one n :
  0 < n →
  (n < 10 ^ 28 → parse_amount (format_one n) "one"%string = Ok n) ∧ parse_amount (str_of_Z n) "atto"%string = Ok n.
Proof.
  intros Hn. split.
  - intros Hlt. destruct (format_one_digits n ltac:(lia)) as (ip & fp & Hip & Hfp & Hne & Hl & Hl' & Hv & Ht).
    assert (ip ++ fp ≠ []) as Hne' by (intros [? _]%app_eq_nil; done).
    assert (0 < undigits 10 0 (ip ++ fp) < 10 ^ 28) as Hc.
    { assert (0 ≤ undigits 10 0 (ip ++ fp)).
      { apply (undigits_bound 10 (ip ++ fp) 0); [lia|by apply Forall_app|lia]. }
      assert (1 ≤ 10 ^ (18 - zlen fp)) by (apply (Z.pow_le_mono_r 10 0); lia). nia. }
    rewrite parse_amount_text.
    + rewrite bool_decide_eq_false_2, bool_decide_eq_true_2 by done.
      rewrite (parse_amount_one_exact ip fp _ Hip Hfp Hne' Hl Hl' Hc Ht). cbn [mbind result_bind]. rewrite Hv.
      by destruct (Z.leb_spec n 0); [lia|].
    + destruct Ht as [-> |[_ ->]]; [|by apply text_chars_digits].
      apply Forall_app; split; [|constructor; [by left|]]; by apply text_chars_digits.
    + destruct Ht as [-> |[_ ->]]; [by destruct ip|by destruct ip].
  - by apply parse_amount_atto.
Qed.

Lemma parse_format_one_witness :
  (1234567500000000000000001 < 10 ^ 28 →
   parse_amount (format_one 1234567500000000000000001) "one"%string = Ok 1234567500000000000000001) ∧
  parse_amount (str_of_Z 1234567500000000000000001) "atto"%string = Ok 1234567500000000000000001.
Proof. apply parse_format_one. lia. Defined.

(** a decimal text [ip.fp] of tokens with at most 18 decimals and at most 28
    significant digits, commas aside, is read as exactly that many atto. *)
Theorem parse_amount_exact ip fp :
  Forall dig ip → Forall dig fp → ip ≠ [] → zlen fp ≤ 18 → zlen (ip ++ fp) ≤ 100 →
  0 < undigits 10 0 (ip ++ fp) < 10 ^ 28 →
  parse_amount (digit_text ip ++ "."%char :: digit_text fp) "one"%string
  = Ok (undigits 10 0 (ip ++ fp) * 10 ^ (18 - zlen fp)).
Proof.
  intros Hip Hfp Hne Hl Hl' Hc. assert (ip ++ fp ≠ []) as Hne' by (intros [? _]%app_eq_nil; done).
  assert (Forall text_char (digit_text ip ++ "."%char :: digit_text fp)) as Ht.
  { apply Forall_app; split; [|constructor; [by left|]]; by apply text_chars_digits. }
  rewrite parse_amount_text; rewrite text_char_comma by done; [|done|by destruct ip].
  rewrite bool_decide_eq_false_2, bool_decide_eq_true_2 by done.
  rewrite (parse_amount_one_exact ip fp) by (done || by left). cbn [mbind result_bind].
  destruct (Z.leb_spec (undigits 10 0 (ip ++ fp) * 10 ^ (18 - zlen fp)) 0); [|done].
  assert (1 ≤ 10 ^ (18 - zlen fp)) by (apply (Z.pow_le_mono_r 10 0); lia). nia.
Qed.

Lemma parse_amount_exact_witness :
  parse_amount (digit_text [0; 1; 2] ++ "."%char :: digit_text [5; 0]) "one"%string
  = Ok (undigits 10 0 ([0; 1; 2] ++ [5; 0]) * 10 ^ (18 - zlen [5; 0])).
Proof. apply parse_amount_exact; try compute_decide; done. Defined.

(** Past 28 significant digits the product with 10^18 is rounded before the
    check for more than 18 decimals: ten billion tokens and one atto are read
    as ten billion tokens, nineteen decimals are accepted, and thirty-five
    nines become 10^35 tokens. *)
Theorem parse_amount_rounds :
  parse_amount ("10000000000.000000000000000001"%string : str) "one"%string = Ok (10 ^ 10 * ATTO_PER_ONE) ∧
  parse_amount ("12345678901.0000000000000000005"%string : str) "one"%string = Ok (12345678901 * ATTO_PER_ONE) ∧
  parse_amount (digit_text (replicate 35 9)) "one"%string = Ok (10 ^ 35 * ATTO_PER_ONE).
Proof. by vm_compute. Qed.
