(* ===== verification/Recipients.v ===== *)
(** Recipient lists: [csv_sources], [_pick_column], [detect_amount_unit],
    [PortalReview], [read_rows], [consolidate] and [chunk] of
    airdrop/tools/common.py.

    A directory is the list of its entries and a file the text it holds.
    Shown here: [read_rows] takes every non-blank record of every file and
    nothing else, all of them with a canonical address and a positive amount,
    and from a claim portal export only approved, pending rows; [consolidate]
    keeps every recipient's total, one row per address, in the order asked. *)

From S2P Require Import Prelude PyStr PyDict Csv Sha256 Abi Bech32 Address Amount.
Local Open Scope Z_scope.

(** * The code *)

Definition ADDRESS_COLUMNS : list str :=
  ["address"%string : str; "destination_address"%string : str; "recipient"%string : str;
   "recipient_address"%string : str; "to"%string : str; "wallet"%string : str].
Definition ATTO_COLUMNS : list str :=
  ["amount_atto"%string : str; "amount_wei"%string : str; "atto"%string : str; "wei"%string : str;
   "amount_smallest_unit"%string : str].
Definition ONE_COLUMNS : list str :=
  ["amount_one"%string : str; "amount_ether"%string : str; "one"%string : str; "ether"%string : str].
Definition GENERIC_AMOUNT_COLUMNS : list str := ["amount"%string : str; "value"%string : str].

Record Row := MkRow {
  address : str;  (** EIP-55 *)
  amount : Z;     (** atto *)
  source : str;   (** "file:line" for error messages *)
}.

(** What a path leads to: nothing, a file's text, or a directory with the text
    of its entries that are regular files. *)
Inductive location :=
  | Missing
  | FileAt (content : str)
  | DirAt (entries : list (str * option str)).

(** [Path(name).suffix]. *)
Definition suffix (name : str) : str :=
  match list_find (λ c, c = "."%char) (reverse name) with
  | Some (i, _) => if (0 <? i)%nat && (i + 1 <? length name)%nat then drop (length name - i - 1) name else []
  | None => []
  end.

(** The files under [path] with their texts. *)
Definition csv_sources (path : str) (loc : location) : result (list (str * str)) :=
  match loc with
  | DirAt entries =>
      let csvs := omap (λ e : str * option str,
        content ← e.2;
        if bool_decide (lower (suffix e.1) = ".csv"%string) then Some (path ++ "/"%string ++ e.1, content) else None) entries in
      let files := sort_str fst csvs in
      if bool_decide (files = []) then Raise (InputError "no .csv files in directory") else Ok files
  | Missing => Raise (InputError "input not found")
  | FileAt content => Ok [(path, content)]
  end.

(** [bool(text)] of an optional text. *)
Definition given (o : option str) : option str :=
  match o with Some (c :: s) => Some (c :: s) | _ => None end.

Definition norm (h : str) : str := lower (strip h).

Definition pick_column (header : list str) (wanted : option str) (candidates : list str) : result str :=
  let lowered := dict_of ((λ h, (norm h, h)) <$> header) in
  match given wanted with
  | Some wanted => of_option (dget lowered (lower wanted)) (InputError "column not found")
  | None =>
      match omap (dget lowered) candidates with
      | [hit] => Ok hit
      | [] => Raise (InputError "could not find the column")
      | _ => Raise (InputError "several possible columns")
      end
  end.

Definition detect_amount_unit (column : str) (explicit : option str) : result str :=
  match given explicit with
  | Some explicit => Ok explicit
  | None =>
      let name := norm column in
      if bool_decide (name ∈ ATTO_COLUMNS) || endswith name "_atto"%string || endswith name "_wei"%string
      then Ok ("atto"%string : str)
      else if bool_decide (name ∈ ONE_COLUMNS) || endswith name "_one"%string then Ok ("one"%string : str)
      else Raise (InputError "cannot tell whether the column is in atto or ONE")
  end.

(** [l.index(x)]. *)
Definition index_of (x : str) (l : list str) : option nat := fst <$> list_find (λ y, y = x) l.

Definition PORTAL_DECISION_COLUMN : str := "decision"%string.
Definition PORTAL_WALLET_STATUS_COLUMN : str := "wallet_status"%string.
Definition PORTAL_VAULT_STATUS_COLUMN : str := "sent_status"%string.

Module PortalReview.

Record t := Mk { decision : option nat; status : option nat; status_column : str }.

Definition init (header : list str) (status_column : str) : t :=
  let lowered := norm <$> header in
  Mk (index_of PORTAL_DECISION_COLUMN lowered) (index_of status_column lowered) status_column.

Definition columns (self : t) : list str :=
  omap (λ p : str * option nat, match p.2 with Some _ => Some p.1 | None => None end)
    [(PORTAL_DECISION_COLUMN, decision self); (status_column self, status self)].

Definition cell (record : list str) (index : nat) : str := default [] (norm <$> record !! index).

Definition check (self : t) (record : list str) : result unit :=
  _ ← raise_if (match decision self with
                | Some i => negb (bool_decide (cell record i = "approved"%string)) | None => false end)
        (InputError "not 'approved'");
  raise_if (match status self with
            | Some i => negb (bool_decide (cell record i = "pending"%string)) | None => false end)
    (InputError "not 'pending'").

End PortalReview.

Record source_info := MkSource {
  src_path : str; src_sha256 : str; src_rows : Z; portal_review_columns : option (list str) }.

Record read_info := MkInfo {
  sources : list source_info; address_column : str; amount_column : str; amount_unit : str }.

Definition blank (record : list str) : bool :=
  bool_decide (record = []) || forallb (λ c, bool_decide (strip c = [])) record.

(** [path.open(encoding="utf-8-sig")]: a byte order mark is dropped. *)
Definition decode_sig (content : str) : str := removeprefix content [chr 0xEF; chr 0xBB; chr 0xBF].

Definition where_ (path : str) (line_no : Z) : str := path ++ ":"%string ++ str_of_Z line_no.

(** One record of a file: its row, or nothing for a blank one. *)
Definition read_record (path : str) (ai mi : nat) (unit : str) (review : option PortalReview.t)
    (line : Z * list str) : result (option Row) :=
  let '(line_no, record) := line in
  if blank record then Ok None else
  let where_ := where_ path line_no in
  _ ← raise_if (length record <=? Nat.max ai mi)%nat (InputError "too few columns");
  _ ← (match review with Some r => PortalReview.check r record | None => Ok () end);
  a ← of_option (record !! ai) IndexError;
  a ← normalize_address a;
  m ← of_option (record !! mi) IndexError;
  m ← parse_amount m unit;
  Ok (Some (MkRow a m where_)).

(** The columns and the unit a file is read with. *)
Definition read_header (header : list str) (address_column amount_column amount_unit : option str)
    (review_portal_exports : bool) (resolved_unit : option str)
  : result (option PortalReview.t * (str * str) * str) :=
  review ← (if review_portal_exports then
              if bool_decide (PORTAL_VAULT_STATUS_COLUMN ∈ norm <$> header)
              then Raise (InputError "this is the claim portal's vault-shares export")
              else Ok (Some (PortalReview.init header PORTAL_WALLET_STATUS_COLUMN))
            else Ok None);
  addr_col ← pick_column header address_column ADDRESS_COLUMNS;
  amt_col ← pick_column header amount_column (ATTO_COLUMNS ++ ONE_COLUMNS ++ GENERIC_AMOUNT_COLUMNS);
  unit ← detect_amount_unit amt_col amount_unit;
  _ ← raise_if (match resolved_unit with Some u => negb (bool_decide (unit = u)) | None => false end)
        (InputError "amount unit differs from earlier files");
  Ok (review, (addr_col, amt_col), unit).

Definition file_state : Type := list Row * list source_info * option str * option (str * str).

Definition read_file (address_column amount_column amount_unit : option str) (review_portal_exports : bool)
    (st : file_state) (f : str * str) : result file_state :=
  let '(rows, sources, resolved_unit, _) := st in
  let '(path, content) := f in
  '(header, records) ← (match csv_read (decode_sig content) with
                        | [] => Raise (InputError "empty file")
                        | header :: records => Ok (header, records)
                        end);
  '(review, cols, unit) ← read_header header address_column amount_column amount_unit review_portal_exports resolved_unit;
  ai ← of_option (index_of cols.1 header) (ValueError "not in list");
  mi ← of_option (index_of cols.2 header) (ValueError "not in list");
  read ← mapM (read_record path ai mi unit review) (imap (λ i r, (Z.of_nat i + 2, r)) records);
  let new := omap id read in
  let columns := match review with
                 | Some r => if bool_decide (PortalReview.columns r = []) then None else Some (PortalReview.columns r)
                 | None => None end in
  Ok (rows ++ new, sources ++ [MkSource path (sha256_file (ords content)) (zlen new) columns], Some unit, Some cols).

Definition read_rows (path : str) (loc : location) (address_column amount_column amount_unit : option str)
    (review_portal_exports : bool) : result (list Row * read_info) :=
  files ← csv_sources path loc;
  '(rows, sources, unit, cols) ←
    foldM (read_file address_column amount_column amount_unit review_portal_exports) ([], [], None, None) files;
  _ ← raise_if (bool_decide (length rows = 0%nat)) (InputError "the input contains no recipients");
  '(a, m) ← of_option cols (TypeError "'NoneType' object is not subscriptable");
  Ok (rows, MkInfo sources a m (default [] unit)).

Definition key (r : Row) : str := lower (address r).

(** One turn of [consolidate]'s loop; the second part collects the duplicates. *)
Definition consolidate_step (merge_duplicates : bool) (st : dict str Row * list str) (row : Row)
  : dict str Row * list str :=
  let '(by_address, duplicates) := st in
  match dget by_address (key row) with
  | Some prev =>
      if merge_duplicates
      then (dset by_address (key row)
              (MkRow (address prev) (amount prev + amount row) (source prev ++ "+"%string ++ source row)), duplicates)
      else (by_address, duplicates ++ [address row ++ " ("%string ++ source prev ++ " and "%string ++ source row ++ ")"%string])
  | None => (dset by_address (key row) row, duplicates)
  end.

Definition consolidate (rows : list Row) (order : str) (merge_duplicates : bool) : result (list Row) :=
  let '(by_address, duplicates) := foldl (consolidate_step merge_duplicates) ([], []) rows in
  _ ← raise_if (negb (bool_decide (duplicates = []))) (InputError "duplicate address(es)");
  let out := dvalues by_address in
  if bool_decide (order = "address"%string) then Ok (sort_str key out)
  else if bool_decide (order = "input"%string) then Ok out
  else Raise (InputError "unknown order").

(** [[rows[i:i + size] for i in range(0, len(rows), size)]]: a step of zero is an
    error, a negative one gives no slices. *)
Definition chunk (rows : list Row) (size : Z) : result (list (list Row)) :=
  if size =? 0 then Raise (ValueError "range() arg 3 must not be zero")
  else if size <? 0 then Ok [] else Ok (chunks (Z.to_nat size) rows).

(** * Text of the rows *)

Lemma no_CR (s : str) : Forall (λ c, is_space c = false) s → CR ∉ s.
Proof. intros H Hin. rewrite Forall_forall in H. by apply H in Hin. Qed.

Lemma canonical_no_CR a : canonical a → CR ∉ a.
Proof.
  intros [(body & n & -> & _ & Hh & _) _]. apply no_CR, Forall_app. split; [compute_decide|].
  eapply Forall_impl; [exact Hh|]. apply is_hex_not_space.
Qed.

Lemma str_of_Z_no_CR n : 0 ≤ n → CR ∉ str_of_Z n.
Proof.
  intros Hn. unfold str_of_Z. destruct (Z.ltb_spec n 0); [lia|]. apply no_CR.
  change (str_of_nonneg 10 n) with (digit_text (digits 10 n)).
  eapply Forall_impl; [apply text_chars_digits; by apply digits_range; lia|]. intros c Hc. by apply text_char_spec.
Qed.

(** * [read_rows] *)

Definition good_row (r : Row) : Prop := canonical (address r) ∧ 0 < amount r.

(** The data records of a file that are not blank. *)
Definition data_records (content : str) : list (list str) :=
  filter (λ r, blank r = false) (tail (csv_read (decode_sig content))).

(** A file the portal review lets through: where it has the review columns,
    every record is approved and pending. *)
Definition reviewed (content : str) : Prop :=
  ∀ header, head (csv_read (decode_sig content)) = Some header →
    (PORTAL_VAULT_STATUS_COLUMN ∉ norm <$> header) ∧
    ∀ record, record ∈ data_records content →
      (∀ i, index_of PORTAL_DECISION_COLUMN (norm <$> header) = Some i →
            norm <$> record !! i = Some ("approved"%string : str)) ∧
      (∀ i, index_of PORTAL_WALLET_STATUS_COLUMN (norm <$> header) = Some i →
            norm <$> record !! i = Some ("pending"%string : str)).

Lemma parse_amount_pos v u n : parse_amount v u = Ok n → 0 < n.
Proof. unfold parse_amount. intros H. inv_ok. zbool. subst. lia. Qed.

Lemma review_cell record i s : s ≠ [] → PortalReview.cell record i = s → norm <$> record !! i = Some s.
Proof. unfold PortalReview.cell. destruct (record !! i); simpl; congruence. Qed.

Lemma review_check r record u :
  PortalReview.check r record = Ok u →
  (∀ i, PortalReview.decision r = Some i → norm <$> record !! i = Some ("approved"%string : str)) ∧
  (∀ i, PortalReview.status r = Some i → norm <$> record !! i = Some ("pending"%string : str)).
Proof.
  unfold PortalReview.check. intros H. inv_ok.
  split; intros i Hi; rewrite Hi in *; zbool; by apply review_cell.
Qed.

Lemma read_record_inv path ai mi unit review n record o :
  read_record path ai mi unit review (n, record) = Ok o →
  match o with
  | None => blank record = true
  | Some r => blank record = false ∧ good_row r ∧
      match review with Some rv => ∃ u, PortalReview.check rv record = Ok u | None => True end
  end.
Proof.
  unfold read_record. intros H. destruct (blank record) eqn:Eb; [by inv_ok; subst|].
  inv_ok. subst. split; [done|]. split; [split; [by eapply normalize_canonical|by eapply parse_amount_pos]|].
  destruct review; [by eexists|done].
Qed.

(** The records of one file, in order. *)
Lemma read_records_inv path ai mi unit review records read k :
  mapM (read_record path ai mi unit review) (imap (λ i r, (Z.of_nat (k + i) + 2, r)) records) = Ok read →
  Forall good_row (omap id read) ∧ length (omap id read) = length (filter (λ r, blank r = false) records) ∧
  ∀ rv, review = Some rv → ∀ record, record ∈ records → blank record = false →
    ∃ u, PortalReview.check rv record = Ok u.
Proof.
  revert k read. induction records as [|r records IH]; intros k read H; cbn [imap mapM] in H.
  { inv_ok. subst. split_and!; [constructor|done|]. by intros ? _ ? ?%not_elem_of_nil. }
  inv_ok. subst. rewrite (imap_ext _ (λ i r, (Z.of_nat (S k + i) + 2, r))) in E0
    by (intros; unfold compose; do 3 f_equal; lia).
  destruct (IH _ _ E0) as (Hg & Hl & Hr). apply read_record_inv in E. rewrite filter_cons.
  destruct a as [row|].
  - destruct E as (Eb & Hrow & Hrv). rewrite decide_True by done. cbn [omap list_omap id length].
    split_and!; [by constructor|by f_equal|]. intros rv -> record [-> |Hin]%elem_of_cons Hb; [done|by eapply Hr].
  - rewrite decide_False by congruence. cbn [omap list_omap id].
    split_and!; [done|done|]. intros rv Hrv record [-> |Hin]%elem_of_cons Hb; [congruence|by eapply Hr].
Qed.

Lemma read_file_inv ac mc au review rows srcs ru cols path content st' :
  read_file ac mc au review (rows, srcs, ru, cols) (path, content) = Ok st' →
  ∃ new src unit' cols', st' = (rows ++ new, srcs ++ [src], Some unit', Some cols') ∧
    Forall good_row new ∧ src_path src = path ∧ src_rows src = zlen new ∧
    src_sha256 src = sha256_file (ords content) ∧
    length new = length (data_records content) ∧ (review = true → reviewed content).
Proof.
  unfold read_file. intros H. destruct (csv_read (decode_sig content)) as [|header records] eqn:Ec; inv_ok.
  simplify_eq. unfold data_records. rewrite Ec. cbn [tail].
  match goal with H : mapM _ (imap ?f _) = Ok _ |- _ =>
    rewrite (imap_ext f (λ i r, (Z.of_nat (0 + i) + 2, r))) in H by done; apply read_records_inv in H as (Hg & Hl & Hr) end.
  eexists _, _, _, _. split; [reflexivity|]. cbn [src_path src_rows src_sha256]. split_and!; try done.
  intros ->. unfold reviewed. rewrite Ec. intros h [= <-].
  unfold read_header in *. inv_ok. simplify_eq. zbool. split; [done|]. unfold data_records. rewrite Ec. cbn [tail]. intros record [Hb Hin]%list_elem_of_filter.
  destruct (Hr _ eq_refl record Hin Hb) as [u Hu]. by apply review_check in Hu.
Qed.

(** * [consolidate] *)

(** What [rows] give to one address. *)
Definition amount_of (k : str) (rows : list Row) : Z := zsum_with amount (filter (λ r, key r = k) rows).

(** The elements of a list in the order they first appear. *)
Definition uniq (l : list str) : list str := foldl (λ acc k, if decide (k ∈ acc) then acc else acc ++ [k]) [] l.

Lemma uniq_snoc l k : uniq (l ++ [k]) = if decide (k ∈ uniq l) then uniq l else uniq l ++ [k].
Proof. unfold uniq. by rewrite foldl_snoc. Qed.

Lemma elem_of_uniq l k : k ∈ uniq l ↔ k ∈ l.
Proof.
  induction l as [|x l IH] using rev_ind; [done|]. rewrite uniq_snoc, elem_of_app, list_elem_of_singleton, <- IH.
  destruct (decide (x ∈ uniq l)); [|by rewrite elem_of_app, list_elem_of_singleton]. split; [by left|by intros [?| ->]].
Qed.

Lemma uniq_nodup l : NoDup l → uniq l = l.
Proof.
  induction l as [|x l IH] using rev_ind; intros H; [done|]. apply NoDup_app in H as (Hl & Hx & _).
  rewrite uniq_snoc, IH by done. rewrite decide_False; [done|]. intros Hin. apply (Hx x Hin). by left.
Qed.

Lemma amount_of_snoc k rows r :
  amount_of k (rows ++ [r]) = amount_of k rows + (if decide (key r = k) then amount r else 0).
Proof.
  unfold amount_of. rewrite filter_app, zsum_with_app, filter_cons, filter_nil. f_equal.
  destruct (decide (key r = k)); unfold zsum_with; simpl; lia.
Qed.

Record consolidating (merge : bool) (pre : list Row) (d : dict str Row) (dups : list str) : Prop := {
  co_keys : dkeys d = uniq (key <$> pre);
  co_nodup : NoDup (dkeys d);
  co_own : Forall (λ kv, key kv.2 = kv.1) d;
  co_amount : dups = [] → ∀ k, amount_of k pre = match dget d k with Some v => amount v | None => 0 end;
  co_plain : merge = false → dups = [] → d = (λ r, (key r, r)) <$> pre;
  co_dups : dups = [] ↔ merge = true ∨ NoDup (key <$> pre);
  co_good : Forall good_row pre → Forall good_row (dvalues d);
}.

Lemma dset_Forall {A} (P : str * A → Prop) d k v : Forall P d → P (k, v) → Forall P (dset d k v).
Proof.
  induction 1 as [|[k0 v0] d H0 Hd IH]; intros Hv; cbn [dset]; [by constructor|].
  destruct (decide (k = k0)) as [-> |]; constructor; auto.
Qed.

Lemma consolidating_new merge pre d dups row :
  consolidating merge pre d dups → dget d (key row) = None →
  consolidating merge (pre ++ [row]) (dset d (key row) row) dups.
Proof.
  intros [Hk Hn Ho Ha Hp Hd Hg] E. pose proof E as Hnk. apply dget_None in Hnk.
  assert (key row ∉ key <$> pre) as Hnew by by rewrite <- elem_of_uniq, <- Hk.
  split.
  - rewrite dset_absent by done. unfold dkeys in *. rewrite !fmap_app. cbn [fmap list_fmap fst].
    rewrite uniq_snoc, <- Hk. by rewrite decide_False.
  - by apply NoDup_dset.
  - by apply dset_Forall.
  - intros Hdu k. rewrite amount_of_snoc, Ha by done. rewrite dget_dset. destruct (decide (k = key row)) as [-> |Hne].
    + rewrite E, decide_True by done. lia.
    + rewrite decide_False by congruence. lia.
  - intros Hm Hdu. rewrite dset_absent by done. rewrite Hp by done. by rewrite fmap_app.
  - rewrite Hd, fmap_app. cbn [fmap list_fmap]. rewrite NoDup_app. split; [|tauto].
    intros [?|Hnd]; [by left|right]. split_and!; [done| |apply NoDup_singleton]. by intros x Hx ->%list_elem_of_singleton.
  - intros [Hgp Hgr]%Forall_app. rewrite dset_absent by done. unfold dvalues in *. rewrite fmap_app.
    apply Forall_app. split; [by apply Hg|done].
Qed.

Lemma consolidating_merge pre d dups row prev s :
  consolidating true pre d dups → dget d (key row) = Some prev →
  consolidating true (pre ++ [row]) (dset d (key row) (MkRow (address prev) (amount prev + amount row) s)) dups.
Proof.
  intros [Hk Hn Ho Ha Hp Hd Hg] E. pose proof (dget_Some_key _ _ _ E) as Hin.
  assert (dups = []) as Hdu by (apply Hd; by left).
  assert (key prev = key row) as Hkey by (rewrite Forall_forall in Ho; by apply (Ho (key row, prev)), dget_Some_elem).
  split; try done.
  - rewrite dkeys_dset. apply dmem_true in Hin as Hm. rewrite Hm, fmap_app. cbn [fmap list_fmap].
    rewrite uniq_snoc, <- Hk. by rewrite decide_True.
  - by apply NoDup_dset.
  - apply dset_Forall; [done|]. exact Hkey.
  - intros _ k. rewrite amount_of_snoc, Ha by done. rewrite dget_dset. destruct (decide (k = key row)) as [-> |Hne].
    + rewrite E, decide_True by done. cbn [amount]. lia.
    + rewrite decide_False by congruence. lia.
  - rewrite Hdu. split; [by left|done].
  - intros [Hgp Hgr]%Forall_app. specialize (Hg Hgp). rewrite Forall_singleton in Hgr.
    assert (good_row prev) as Hpr.
    { rewrite Forall_forall in Hg. apply Hg, list_elem_of_fmap. exists (key row, prev). split; [done|by apply dget_Some_elem]. }
    unfold dvalues in *. apply Forall_fmap. apply dset_Forall; [by apply Forall_fmap|].
    destruct Hpr, Hgr. split; cbn [snd address amount]; [done|lia].
Qed.

Lemma consolidating_dup pre d dups row prev s :
  consolidating false pre d dups → dget d (key row) = Some prev →
  consolidating false (pre ++ [row]) d (dups ++ [s]).
Proof.
  intros [Hk Hn Ho Ha Hp Hd Hg] E. pose proof (dget_Some_key _ _ _ E) as Hin.
  assert (key row ∈ key <$> pre) as Hold by by rewrite <- elem_of_uniq, <- Hk.
  split; try done; try (by intros [_ ?]%app_eq_nil); try (by intros _ [_ ?]%app_eq_nil).
  - rewrite fmap_app. cbn [fmap list_fmap]. rewrite uniq_snoc, <- Hk. by rewrite decide_True.
  - split; [by intros [_ ?]%app_eq_nil|]. intros [?|Hnd]; [done|]. rewrite fmap_app in Hnd.
    apply NoDup_app in Hnd as (_ & Hx & _). exfalso. apply (Hx _ Hold). by left.
  - intros [Hgp _]%Forall_app. by apply Hg.
Qed.

Lemma consolidate_loop merge rows :
  let '(d, dups) := foldl (consolidate_step merge) ([], []) rows in consolidating merge rows d dups.
Proof.
  induction rows as [|row rows IH] using rev_ind.
  { split; try done; [apply NoDup_nil_2|]. split; [intros _; right; apply NoDup_nil_2|done]. }
  rewrite foldl_snoc. destruct (foldl _ _ rows) as [d dups]. unfold consolidate_step.
  destruct (dget d (key row)) as [prev|] eqn:E; [|by apply consolidating_new].
  destruct merge; [by apply consolidating_merge|by eapply consolidating_dup].
Qed.

Lemma amount_of_dvalues d k :
  NoDup (dkeys d) → Forall (λ kv, key kv.2 = kv.1) d →
  amount_of k (dvalues d) = match dget d k with Some v => amount v | None => 0 end.
Proof.
  intros Hn Ho. unfold amount_of, dvalues, dkeys in *. induction Ho as [|[k0 v0] d Hk Ho IH]; [done|].
  rewrite fmap_cons in Hn. apply NoDup_cons in Hn as [Hk0 Hn]. cbn [fst snd] in Hk, Hk0.
  rewrite fmap_cons, filter_cons. cbn [snd dget]. specialize (IH Hn). rewrite Hk.
  destruct (decide (k0 = k)) as [-> |Hne].
  - rewrite zsum_with_cons, IH, decide_True by done. assert (dget d k = None) as -> by by apply dget_None. lia.
  - rewrite decide_False by done. done.
Qed.

Lemma amount_of_perm k l1 l2 : l1 ≡ₚ l2 → amount_of k l1 = amount_of k l2.
Proof. intros H. unfold amount_of. by rewrite H. Qed.

Lemma own_keys (d : dict str Row) : Forall (λ kv, key kv.2 = kv.1) d → key <$> dvalues d = dkeys d.
Proof. intros H. unfold dvalues, dkeys. rewrite <- list_fmap_compose. by apply Forall_fmap_ext. Qed.

(** A list's total is the sum of what its addresses get. *)
Lemma total_amount_of rows ks :
  NoDup ks → (∀ r, r ∈ rows → key r ∈ ks) → zsum_with amount rows = zsum_with (λ k, amount_of k rows) ks.
Proof.
  intros Hnd. induction rows as [|r rows IH] using rev_ind; intros Hin.
  { induction ks as [|k ks IH] in Hnd |- *; [done|]. rewrite zsum_with_cons, <- IH; [done|by inversion_clear Hnd]. }
  rewrite zsum_with_snoc, IH by (intros r' Hr'; apply Hin, elem_of_app; by left).
  rewrite (zsum_with_ext (λ k, amount_of k (rows ++ [r])) (λ k, amount_of k rows + (if decide (key r = k) then amount r else 0)))
    by (apply Forall_true; intros; apply amount_of_snoc).
  rewrite zsum_with_add. f_equal. assert (key r ∈ ks) as Hk by (apply Hin, elem_of_app; right; by left).
  clear -Hnd Hk. induction Hnd as [|k ks Hk' Hnd IH]; [by apply not_elem_of_nil in Hk|].
  rewrite zsum_with_cons. apply elem_of_cons in Hk as [<-|Hk].
  - rewrite decide_True by done. assert (zsum_with (λ k, if decide (key r = k) then amount r else 0) ks = 0) as ->; [|lia].
    clear IH. induction ks as [|k ks IH]; [done|]. rewrite zsum_with_cons. apply not_elem_of_cons in Hk' as [H1 H2].
    rewrite decide_False by done. inversion_clear Hnd. rewrite IH by done. done.
  - rewrite decide_False by (intros <-; done). by rewrite <- IH.
Qed.

Lemma consolidate_inv rows order merge out :
  consolidate rows order merge = Ok out →
  ∃ d, consolidating merge rows d [] ∧ (order = "address"%string ∧ out = sort_str key (dvalues d) ∨
                                        order = "input"%string ∧ out = dvalues d).
Proof.
  unfold consolidate. intros H. pose proof (consolidate_loop merge rows) as Hc.
  destruct (foldl _ _ _) as [d dups]. inv_ok. zbool. subst dups. exists d. split; [done|].
  destruct (bool_decide_reflect (order = "address"%string)); inv_ok; [by left|].
  zbool. by right.
Qed.

Lemma consolidate_perm rows order merge out :
  consolidate rows order merge = Ok out → ∃ d, consolidating merge rows d [] ∧ out ≡ₚ dvalues d.
Proof.
  intros (d & Hc & [[_ ->] | [_ ->]])%consolidate_inv; exists d; (split; [done|]); [apply sort_str_perm|done].
Qed.

Lemma consolidate_good rows order merge out :
  consolidate rows order merge = Ok out → Forall good_row rows → NoDup (key <$> out) ∧ Forall good_row out.
Proof.
  intros (d & Hc & Hp)%consolidate_perm Hg. rewrite Hp. split; [rewrite own_keys; apply Hc|by apply Hc].
Qed.

Lemma consolidate_keeps rows order merge out :
  consolidate rows order merge = Ok out →
  NoDup (key <$> out) ∧ (∀ k, amount_of k out = amount_of k rows) ∧
  zsum_with amount out = zsum_with amount rows ∧ (∀ k, k ∈ key <$> out ↔ k ∈ key <$> rows) ∧
  (merge = false → out ≡ₚ rows) ∧
  (order = "address"%string → StronglySorted (λ a b, str_le (key a) (key b)) out) ∧
  (order = "input"%string → key <$> out = uniq (key <$> rows)).
Proof.
  intros H. destruct (consolidate_perm _ _ _ _ H) as (d & [Hk Hn Ho Ha Hp Hd Hg] & Hperm).
  assert (∀ k, amount_of k out = amount_of k rows) as Hamt.
  { intros k. rewrite (amount_of_perm k _ _ Hperm), amount_of_dvalues by done. by rewrite Ha. }
  assert (key <$> out ≡ₚ uniq (key <$> rows)) as Hkeys by (rewrite Hperm, own_keys by done; by rewrite Hk).
  assert (NoDup (key <$> out)) as Hnd by (rewrite Hkeys, <- Hk; done).
  split_and!; [done|done| | | | |].
  - rewrite (total_amount_of out (key <$> out)); [|done|intros r Hr; by apply list_elem_of_fmap_2].
    rewrite (total_amount_of rows (key <$> out)); [|done|].
    + by apply zsum_with_ext, Forall_true.
    + intros r Hr. rewrite Hkeys, elem_of_uniq. by apply list_elem_of_fmap_2.
  - intros k. by rewrite Hkeys, elem_of_uniq.
  - intros ->. rewrite Hperm, Hp by done. unfold dvalues. rewrite <- list_fmap_compose.
    rewrite (list_fmap_ext _ id); [by rewrite list_fmap_id|done].
  - intros ->. destruct (consolidate_inv _ _ _ _ H) as (d' & _ & [[_ ->]|[? _]]); [|done]. apply sort_str_sorted.
  - intros ->. destruct (consolidate_inv _ _ _ _ H) as (d' & Hc & [[? _]|[_ ->]]); [done|].
    rewrite own_keys by apply Hc. apply Hc.
Qed.

(** [consolidate] fails on a repeated address exactly when it was not asked to
    merge, and for no other reason than that and an unknown order. *)
Lemma consolidate_succeeds rows order merge :
  (∃ out, consolidate rows order merge = Ok out) ↔
  (merge = true ∨ NoDup (key <$> rows)) ∧ (order = "address"%string ∨ order = "input"%string).
Proof.
  split.
  - intros [out (d & Hc & Ho)%consolidate_inv]. split; [by apply Hc|]. destruct Ho as [[? _]|[? _]]; auto.
  - intros [Hm Ho]. unfold consolidate. pose proof (consolidate_loop merge rows) as Hc.
    destruct (foldl _ _ _) as [d dups]. apply Hc in Hm as ->.
    rewrite (bool_decide_eq_true_2 (@nil str = [])) by done. cbn [negb raise_if mbind result_bind].
    destruct Ho as [-> | ->]; eexists; reflexivity.
Qed.

(** C33: [consolidate] keeps what each address is owed: the list it returns has
    every address of the input once, with the sum of its rows' amounts, so
    the total is unchanged; without merging it is the input's own rows.  It is
    sorted by address, or in order of first appearance.  It fails only on a
    repeated address that it was not asked to merge or an unknown order. *)
Theorem consolidate_conserves rows order merge :
  match consolidate rows order merge with
  | Ok out =>
      NoDup (key <$> out) ∧ (∀ k, amount_of k out = amount_of k rows) ∧
      zsum_with amount out = zsum_with amount rows ∧ (∀ k, k ∈ key <$> out ↔ k ∈ key <$> rows) ∧
      (merge = false → out ≡ₚ rows) ∧
      (order = "address"%string → StronglySorted (λ a b, str_le (key a) (key b)) out) ∧
      (order = "input"%string → key <$> out = uniq (key <$> rows))
  | Raise _ => merge = false ∧ ¬ NoDup (key <$> rows) ∨ order ≠ "address"%string ∧ order ≠ "input"%string
  end.
Proof.
  pose proof (consolidate_succeeds rows order merge) as [_ Hs]. destruct (consolidate rows order merge) eqn:E.
  - by apply consolidate_keeps.
  - destruct (decide (merge = true ∨ NoDup (key <$> rows))) as [Hm|Hm].
    + right. split; intros ->; by destruct Hs as [? ?]; [auto|].
    + left. destruct merge; [tauto|]. tauto.
Qed.

Definition row_a1 := MkRow "0x5aAeb6053F3E94C9b9A09f33669435E7Ef1BeAed"%string 5 "a.csv:2"%string.
Definition row_b := MkRow "0x00000000219ab540356cBB839Cbe05303d7705Fa"%string 7 "a.csv:3"%string.
Definition row_a2 := MkRow "0x5aAeb6053F3E94C9b9A09f33669435E7Ef1BeAed"%string 11 "b.csv:2"%string.
Definition row_a := MkRow (address row_a1) 16 "a.csv:2+b.csv:2"%string.

Lemma consolidate_merges : consolidate [row_a1; row_b; row_a2] "address"%string true = Ok [row_b; row_a].
Proof. vm_compute. reflexivity. Qed.


Lemma read_rows_good path loc ac mc au review rows info :
  read_rows path loc ac mc au review = Ok (rows, info) → Forall good_row rows.
Proof.
  unfold read_rows. intros H. inv_ok. simplify_eq.
  match goal with H : foldM _ _ _ = Ok _ |- _ => rename H into Hf end.
  apply (foldM_inv (λ _ st, Forall good_row (st : file_state).1.1.1)) in Hf; [done|done|].
  intros pre [p c] [[[rs srcs] ru] cols] st' H1 Hs.
  apply read_file_inv in Hs as (new & src & u & cl & -> & Hg & _). by apply Forall_app.
Qed.

(** what [read_rows] returns is every non-blank record of every file and
    nothing else, each with a canonical address and a positive amount; the
    counts it reports are the files' counts.  From a claim portal export it
    returns rows only if all of them are approved and pending. *)
Theorem read_rows_complete path loc ac mc au review rows info :
  read_rows path loc ac mc au review = Ok (rows, info) →
  ∃ files, csv_sources path loc = Ok files ∧ rows ≠ [] ∧ Forall good_row rows ∧
    src_path <$> sources info = files.*1 ∧
    src_rows <$> sources info = (λ f, zlen (data_records f.2)) <$> files ∧
    zlen rows = zsum_with src_rows (sources info) ∧
    (review = true → Forall (λ f, reviewed f.2) files).
Proof.
  unfold read_rows. intros H. inv_ok. subst. exists a. simplify_eq. zbool.
  match goal with H : foldM _ _ _ = Ok _ |- _ => rename H into Hf end.
  apply (foldM_inv (λ pre st, let '(rows, srcs, _, _) := (st : file_state) in
    Forall good_row rows ∧ src_path <$> srcs = pre.*1 ∧
    src_rows <$> srcs = (λ f, zlen (data_records f.2)) <$> pre ∧
    zlen rows = zsum_with src_rows srcs ∧ (review = true → Forall (λ f, reviewed f.2) pre))) in Hf.
  - destruct Hf as (H1 & H2 & H3 & H4 & H5). split_and!; try done. by intros ->.
  - done.
  - intros pre [p c] [[[rs srcs] ru] cols] st' (H1 & H2 & H3 & H4 & H5) Hs.
    apply read_file_inv in Hs as (new & src & u & cl & -> & Hg & Hp & Hn & _ & Hl & Hr).
    rewrite !fmap_app, H2, H3. cbn [fmap list_fmap fst snd]. split_and!.
    + by apply Forall_app.
    + by rewrite Hp.
    + unfold zlen in *. by rewrite Hn, Hl.
    + rewrite zsum_with_snoc, Hn, <- H4. unfold zlen. rewrite length_app. lia.
    + intros Hrv. apply Forall_app. split; [by apply H5|]. constructor; [by apply Hr|constructor].
Qed.

Definition sample_csv : str :=
  csv_write [["Address"%string : str; "amount_one"%string : str; "decision"%string : str];
             [row_b.(address); "1,000.5"%string : str; "Approved"%string : str]; [[]; []; []];
             [lower row_a1.(address); "2"%string : str; "approved"%string : str]].

Lemma read_rows_complete_witness :
  ∃ rows info, read_rows "list.csv"%string (FileAt sample_csv) None None None true = Ok (rows, info) ∧
    ∃ files, csv_sources "list.csv"%string (FileAt sample_csv) = Ok files ∧ rows ≠ [] ∧ Forall good_row rows ∧
    src_path <$> sources info = files.*1 ∧
    src_rows <$> sources info = (λ f, zlen (data_records f.2)) <$> files ∧
    zlen rows = zsum_with src_rows (sources info) ∧ (true = true → Forall (λ f, reviewed f.2) files).
Proof.
  eexists _, _. split; [vm_compute; reflexivity|].
  apply (read_rows_complete _ _ None None None true). vm_compute. reflexivity.
Defined.
