(* ===== verification/RunDir.v ===== *)
(** Run directories: [batch_file], [write_run], [read_manifest],
    [read_distribution] and [read_batch] of airdrop/tools/common.py, build.py's
    [main], verify.py's [verify_run] and [verify_contract].

    A run directory is its three kinds of files: the text of distribution.csv,
    the manifest and the batch files by name; JSON files are the records they
    hold.  Shown here: [verify_run] finds no problem in what [build] writes,
    and a directory without problems holds, batch by batch, the recipients and
    amounts of its list with proofs that reach the manifest's root. *)

From S2P Require Import Prelude PyStr PyDict Csv Sha256 Keccak Abi BatchTree Bech32 Address Amount Recipients.
Local Open Scope Z_scope.

(** * The code: common.py *)

Definition FORMAT : str := "committed-batch-airdrop/v1"%string.
Definition LEAF_SCHEME : str :=
  "keccak256(keccak256(abi.encode(uint256 batchIndex, address[] recipients, uint256[] amounts)))"%string.
Definition TREE_SCHEME : str :=
  "binary tree over batch leaves in index order; pairs hashed keccak256(min || max); unpaired node carried up"%string.
Definition MAX_BATCH_SIZE : Z := 500.
Definition DEFAULT_BATCH_SIZE : Z := 400.

Record payload := MkPayload {
  batch_index : Z; leaf : str; proof : list str; recipients : list str; amounts : list str }.

Record summary := MkSummary { s_index : Z; s_leaf : str; s_recipients : Z; s_amount : str }.

Record manifest := MkManifest {
  format : str; created_utc : str; label : str; keccak_backend : str; m_info : read_info; order : str;
  batch_size : Z; batch_count : Z; recipient_count : Z; total_amount : str; total_amount_display : str;
  root : str; list_sha256 : str; leaf_scheme : str; tree_scheme : str; batches : list summary }.

(** The files of a run directory. *)
Record run_dir := MkRunDir {
  distribution_csv : option str; manifest_json : option manifest; batch_files : dict str payload }.

Definition batch_file (index : Z) : str := "batches/batch-"%string ++ dec_pad 5 index ++ ".json"%string.

Definition distribution_text (rows : list Row) : str :=
  csv_write (["address"%string : str; "amount"%string : str] :: ((λ r, [address r; str_of_Z (amount r)]) <$> rows)).

Definition leaf_of (ib : Z * list Row) : result bytes :=
  Airdrop.batch_leaf ib.1 (address <$> ib.2) (amount <$> ib.2).

Definition batch_payload (levels : list (list bytes)) (ibl : Z * (list Row * bytes)) : payload :=
  let '(i, (b, l)) := ibl in
  MkPayload i (Airdrop.hex0x l) (Airdrop.hex0x <$> tree_proof levels (Z.to_nat i)) (address <$> b) (str_of_Z <$> (amount <$> b)).

Definition batch_summary (ibl : Z * (list Row * bytes)) : summary :=
  let '(i, (b, l)) := ibl in MkSummary i (Airdrop.hex0x l) (zlen b) (str_of_Z (zsum_with amount b)).

(** [exists_] says the directory is there already; [now] and [backend] are the
    clock and the name of the keccak implementation. *)
Definition write_run (exists_ : bool) (now backend : str) (rows : list Row) (batch_size : Z) (info : read_info)
    (label order : str) : result (run_dir * manifest) :=
  _ ← raise_if ((batch_size <? 1) || (MAX_BATCH_SIZE <? batch_size)) (InputError "batch size must be between 1 and 500");
  _ ← raise_if exists_ FileExistsError;
  let distribution := distribution_text rows in
  let list_sha256 := sha256_file (ords distribution) in
  batches ← chunk rows batch_size;
  leaves ← mapM leaf_of (enumerate batches);
  levels ← tree_levels leaves;
  root ← tree_root levels;
  let items := enumerate (zip batches leaves) in
  let files := foldl (λ d ibl, dset d (batch_file ibl.1) (batch_payload levels ibl)) [] items in
  let total := zsum_with amount rows in
  let m := MkManifest FORMAT now label backend info order batch_size (zlen batches) (zlen rows)
             (str_of_Z total) (format_one total) (Airdrop.hex0x root) list_sha256 LEAF_SCHEME TREE_SCHEME
             (batch_summary <$> items) in
  Ok (MkRunDir (Some distribution) (Some m) files, m).

Definition read_manifest (d : run_dir) : result manifest :=
  m ← of_option (manifest_json d) (InputError "not found; is it a run directory?");
  if negb (bool_decide (format m = FORMAT)) then Raise (InputError "unexpected format") else Ok m.

(** A record of distribution.csv; [record[1]] fails on a short one. *)
Definition distribution_row (line : Z * list str) : result Row :=
  let '(line_no, record) := line in
  a ← of_option (record !! 0%nat) IndexError;
  m ← of_option (record !! 1%nat) IndexError;
  m ← py_int m;
  Ok (MkRow a m (where_ "distribution.csv"%string line_no)).

Definition read_distribution (d : run_dir) : result (list Row) :=
  text ← of_option (distribution_csv d) FileNotFoundError;
  match csv_read text with
  | [] => Raise (RuntimeError "StopIteration")
  | header :: records =>
      if negb (bool_decide (header = ["address"%string : str; "amount"%string : str]))
      then Raise (InputError "unexpected header")
      else mapM distribution_row (imap (λ i r, (Z.of_nat i + 2, r)) records)
  end.

Definition read_batch (d : run_dir) (index : Z) : result payload :=
  p ← of_option (dget (batch_files d) (batch_file index)) FileNotFoundError;
  if negb (batch_index p =? index) then Raise (InputError "unexpected batch_index") else Ok p.

(** * The code: verify.py *)

Inductive problem :=
  | NotChecksummed (source : str) | DuplicateAddress (source : str) | NonPositive (source : str)
  | WrongBatchCount | WrongRecipientCount | WrongTotal | WrongRoot | WrongListSha256
  | BatchUnreadable (i : Z) | RecipientsDiffer (i : Z) | AmountsDiffer (i : Z) | LeafDiffers (i : Z)
  | ProofDiffers (i : Z) | ProofFails (i : Z)
  | OnChainDiffers (name : string).

Definition when (b : bool) (p : problem) : list problem := if b then [p] else [].

(** One row of the first loop; [seen] holds the lower-case addresses so far. *)
Definition check_row (st : list problem * list str) (row : Row) : result (list problem * list str) :=
  let '(problems, seen) := st in
  c ← to_checksum (address row);
  let problems := problems
    ++ when (negb (bool_decide (address row = c))) (NotChecksummed (source row))
    ++ when (bool_decide (key row ∈ seen)) (DuplicateAddress (source row))
    ++ when (amount row <=? 0) (NonPositive (source row)) in
  Ok (problems, seen ++ [key row]).

(** One batch of the last loop. *)
Definition check_batch (d : run_dir) (levels : list (list bytes)) (root : bytes) (ibl : Z * (list Row * bytes))
  : result (list problem) :=
  let '(i, (b, l)) := ibl in
  match read_batch d i with
  | Raise FileNotFoundError | Raise (InputError _) => Ok [BatchUnreadable i]
  | Raise e => Raise e
  | Ok p =>
      amounts ← mapM py_int (amounts p);
      proof ← mapM Airdrop.unhex (proof p);
      Ok (when (negb (bool_decide (recipients p = address <$> b))) (RecipientsDiffer i)
          ++ when (negb (bool_decide (amounts = amount <$> b))) (AmountsDiffer i)
          ++ when (negb (bool_decide (leaf p = Airdrop.hex0x l))) (LeafDiffers i)
          ++ when (negb (bool_decide (proof = tree_proof levels (Z.to_nat i)))) (ProofDiffers i)
          ++ when (negb (tree_verify proof root l)) (ProofFails i))
  end.

Record verification := MkVerification {
  v_manifest : manifest; v_root : str; v_batch_count : Z; v_recipient_count : Z; v_total_amount : Z;
  v_list_sha256 : str; problems : list problem }.

Definition verify_run (d : run_dir) : result verification :=
  m ← read_manifest d;
  rows ← read_distribution d;
  '(row_problems, _) ← foldM check_row ([], []) rows;
  batches ← chunk rows (batch_size m);
  leaves ← mapM leaf_of (enumerate batches);
  levels ← tree_levels leaves;
  raw_root ← tree_root levels;
  let root_ := Airdrop.hex0x raw_root in
  let total := zsum_with amount rows in
  text ← of_option (distribution_csv d) FileNotFoundError;
  let list_sha256_ := sha256_file (ords text) in
  let problems := row_problems
    ++ when (negb (zlen batches =? batch_count m)) WrongBatchCount
    ++ when (negb (zlen rows =? recipient_count m)) WrongRecipientCount
    ++ when (negb (bool_decide (str_of_Z total = total_amount m))) WrongTotal
    ++ when (negb (bool_decide (root_ = root m))) WrongRoot
    ++ when (negb (bool_decide (list_sha256_ = list_sha256 m))) WrongListSha256 in
  batch_problems ← mapM (check_batch d levels raw_root) (enumerate (zip batches leaves));
  Ok (MkVerification m root_ (zlen batches) (zlen rows) total list_sha256_ (problems ++ concat batch_problems)).

(** [verify_contract]: [raw] are the results of the four calls it makes. *)
Definition verify_contract (raw : list str) (v : verification) : result (list problem) :=
  match raw with
  | [r; c; t; h] =>
      r ← Airdrop.decode_bytes32 r; c ← Airdrop.decode_word c; t ← Airdrop.decode_word t; h ← Airdrop.decode_bytes32 h;
      Ok (when (negb (bool_decide (lower r = lower (v_root v)))) (OnChainDiffers "root")
          ++ when (negb (bool_decide (str_of_Z c = str_of_Z (v_batch_count v)))) (OnChainDiffers "batchCount")
          ++ when (negb (bool_decide (str_of_Z t = str_of_Z (v_total_amount v)))) (OnChainDiffers "totalAmount")
          ++ when (negb (bool_decide (lower h = lower (v_list_sha256 v)))) (OnChainDiffers "listHash"))
  | _ => Raise (RuntimeError "short batch response")
  end.

(** * The code: build.py *)

Record build_args := MkBuildArgs {
  a_input : str; a_location : location; a_address_column : option str; a_amount_column : option str;
  a_amount_unit : option str; a_order : str; a_merge_duplicates : bool; a_batch_size : Z; a_label : str;
  a_exists : bool; a_force : bool }.

Definition build_body (now backend : str) (args : build_args) : result (run_dir * manifest) :=
  '(rows, info) ← read_rows (a_input args) (a_location args) (a_address_column args) (a_amount_column args)
                    (a_amount_unit args) true;
  rows ← consolidate rows (a_order args) (a_merge_duplicates args);
  _ ← raise_if (a_exists args && negb (a_force args)) (InputError "already exists; pass --force to replace it");
  (* an existing directory has been removed by now *)
  write_run false now backend rows (a_batch_size args) info (a_label args) (a_order args).

(** [main]: an [InputError] ends the program with its message. *)
Definition build_main (now backend : str) (args : build_args) : result (run_dir * manifest) :=
  match build_body now backend args with
  | Raise (InputError m) => Raise (SystemExit m)
  | r => r
  end.

(** * Reading back the list *)

Lemma when_nil b p : when b p = [] ↔ b = false.
Proof. by destruct b. Qed.

(** The rows as the file gives them back: with its own line numbers. *)
Definition relabel (rows : list Row) : list Row :=
  imap (λ i r, MkRow (address r) (amount r) (where_ "distribution.csv"%string (Z.of_nat i + 2))) rows.

Definition view (r : Row) : str * Z := (address r, amount r).

Lemma view_relabel rows : view <$> relabel rows = view <$> rows.
Proof.
  unfold relabel. rewrite fmap_imap. rewrite (imap_ext _ (λ _ r, view r)) by done.
  generalize 0%nat. intros _. induction rows as [|r rows IH]; [done|]. rewrite imap_cons. cbn [fmap list_fmap].
  f_equal. by rewrite <- IH.
Qed.

Lemma distribution_row_ok n a m :
  distribution_row (n, [a; str_of_Z m]) = Ok (MkRow a m (where_ "distribution.csv"%string n)).
Proof. unfold distribution_row. cbn [lookup list_lookup of_option mbind result_bind]. by rewrite int_str_of_Z. Qed.

Lemma distribution_rows_ok (f : nat → Z) rows :
  mapM distribution_row (imap (λ i r, (f i, r)) ((λ r, [address r; str_of_Z (amount r)]) <$> rows))
  = Ok (imap (λ i r, MkRow (address r) (amount r) (where_ "distribution.csv"%string (f i))) rows).
Proof.
  revert f. induction rows as [|r rows IH]; intros f; [done|].
  cbn [fmap list_fmap imap mapM]. rewrite distribution_row_ok. cbn [mbind result_bind].
  specialize (IH (λ i, f (S i))). unfold compose in *. cbn [fmap list_fmap] in IH. by rewrite IH.
Qed.

Lemma read_distribution_text rows m files :
  Forall good_row rows →
  read_distribution (MkRunDir (Some (distribution_text rows)) m files) = Ok (relabel rows).
Proof.
  intros Hg. unfold read_distribution, distribution_text. cbn [distribution_csv of_option mbind result_bind].
  rewrite csv_read_write.
  - rewrite bool_decide_eq_true_2 by done. cbn [negb]. unfold relabel.
    exact (distribution_rows_ok (λ i, Z.of_nat i + 2) rows).
  - constructor; [split; [done|compute_decide]|]. apply Forall_fmap. eapply Forall_impl; [exact Hg|].
    intros r [Hc Ha]. split; [done|]. repeat constructor; [by apply canonical_no_CR|apply str_of_Z_no_CR; lia].
Qed.

Lemma chunks_fmap {A B} (f : A → B) k (l : list A) :
  (0 < k)%nat → chunks k (f <$> l) = (λ c : list A, f <$> c) <$> chunks k l.
Proof.
  intros Hk. revert l. apply (chunks_ind k); [done|by cbn; rewrite !chunks_nil|].
  intros l Hl IH. rewrite chunks_step by (done || by destruct l). rewrite <- fmap_drop, IH.
  rewrite (chunks_step k l) by (done || by destruct l). cbn [fmap list_fmap]. by rewrite <- fmap_take.
Qed.

(** * What [write_run] writes *)

Definition same_batch (b b' : list Row) : Prop := view <$> b = view <$> b'.

Lemma same_batch_cols b b' : same_batch b b' → address <$> b = address <$> b' ∧ amount <$> b = amount <$> b'.
Proof.
  intros H. apply (f_equal (fmap fst)) in H as H1. apply (f_equal (fmap snd)) in H as H2.
  rewrite <- !list_fmap_compose in H1, H2. done.
Qed.

Lemma mapM_ext2 {A B} (f : A → result B) l l' : Forall2 (λ x y, f x = f y) l l' → mapM f l = mapM f l'.
Proof. induction 1 as [|x y l l' H _ IH]; [done|]. cbn [mapM]. by rewrite H, IH. Qed.

Lemma leaves_same bs bs' :
  Forall2 same_batch bs bs' → mapM leaf_of (enumerate bs) = mapM leaf_of (enumerate bs').
Proof.
  intros H. apply mapM_ext2, Forall2_same_length_lookup. rewrite !length_enumerate.
  split; [by eapply Forall2_length|]. intros j [i b] [i' b']. rewrite !lookup_enumerate.
  destruct (bs !! j) as [b0|] eqn:E; [|done]. destruct (bs' !! j) as [b0'|] eqn:E'; [|done].
  intros [= <- <-] [= <- <-]. unfold leaf_of. cbn [fst snd].
  destruct (same_batch_cols b0 b0') as [-> ->]; [by eapply Forall2_lookup_lr|done].
Qed.

Lemma chunks_relabel k rows : (0 < k)%nat → Forall2 same_batch (chunks k (relabel rows)) (chunks k rows).
Proof.
  intros Hk. unfold same_batch. apply (Forall2_fmap_1 (λ c, view <$> c) (λ c, view <$> c)), list_eq_Forall2.
  by rewrite <- !chunks_fmap, view_relabel.
Qed.

Lemma batch_file_inj i j : 0 ≤ i → 0 ≤ j → batch_file i = batch_file j → i = j.
Proof. intros Hi Hj H. unfold batch_file in H. apply app_inv_head, app_inv_tail in H. by eapply dec_pad_inj. Qed.

Lemma payload_files levels items :
  foldl (λ d ibl, dset d (batch_file ibl.1) (batch_payload levels ibl)) [] (enumerate items)
  = (λ ibl, (batch_file ibl.1, batch_payload levels ibl)) <$> enumerate items.
Proof.
  set (f := λ ibl : Z * (list Row * bytes), (batch_file ibl.1, batch_payload levels ibl)).
  rewrite <- (dict_of_nodup (f <$> enumerate items)).
  - unfold dict_of. symmetry. generalize (@nil (str * payload)) as d. generalize (enumerate items) as l.
    intros l. induction l as [|x l IH]; intros d; [done|]. cbn [fmap list_fmap foldl]. apply IH.
  - rewrite <- list_fmap_compose. apply NoDup_alt. intros a b k. rewrite !list_lookup_fmap, !lookup_enumerate.
    destruct (items !! a) as [x|] eqn:Ea; [|done]. destruct (items !! b) as [y|] eqn:Eb; [|done].
    cbn [fmap option_fmap option_map]. unfold compose, f. cbn [fst snd]. intros H1 H2.
    rewrite <- H1 in H2. apply Some_inj in H2. apply batch_file_inj in H2; lia.
Qed.

Lemma dget_payload levels items j x :
  items !! j = Some x →
  dget (foldl (λ d ibl, dset d (batch_file ibl.1) (batch_payload levels ibl)) [] (enumerate items)) (batch_file (Z.of_nat j))
  = Some (batch_payload levels (Z.of_nat j, x)).
Proof.
  intros Hj. apply dget_elem.
  - assert (∀ l (d : dict str payload), NoDup (dkeys d) → NoDup (dkeys (foldl
      (λ d ibl, dset d (batch_file ibl.1) (batch_payload levels ibl)) d l))) as H.
    { induction l as [|y l IH]; intros d Hd; [done|]. apply IH. by apply NoDup_dset. }
    apply H. apply NoDup_nil_2.
  - rewrite payload_files. apply list_elem_of_fmap. exists (Z.of_nat j, x). split; [done|].
    apply (list_elem_of_lookup_2 _ j). by rewrite lookup_enumerate, Hj.
Qed.

(** * The tree's nodes are bytes *)

Lemma next_level_bytes32 l : Forall bytes32 l → Forall bytes32 (next_level l).
Proof.
  intros H. rewrite Forall_forall in H |- *. intros h [Hh|(a & b & _ & _ & ->)]%elem_of_next_level; [by apply H|].
  apply hash_pair_bytes32.
Qed.

Lemma levels_bytes32 fuel l : Forall bytes32 l → Forall (Forall bytes32) (levels_loop fuel l).
Proof.
  revert l. induction fuel as [|fuel IH]; intros l H; cbn [levels_loop]; destruct (_ <? _)%nat; repeat constructor; try done.
  by apply IH, next_level_bytes32.
Qed.

Lemma tree_proof_bytes32 levels i : Forall (Forall bytes32) levels → Forall bytes32 (tree_proof levels i).
Proof.
  intros H. unfold tree_proof. apply (Forall_take _ (length levels - 1)) in H. revert H. generalize (take (length levels - 1) levels) as ls.
  intros ls Hls. assert (∀ p, Forall bytes32 (fst p) → Forall bytes32 (fst (foldl proof_step p ls))) as Hg.
  { induction Hls as [|l ls Hl _ IH]; intros [p k] Hp; [done|]. apply IH. cbn [proof_step fst].
    destruct (Nat.ltb_spec (Nat.lxor k 1) (length l)) as [Hlt|]; [|done]. apply Forall_app. split; [done|].
    constructor; [|constructor]. destruct (lookup_lt_is_Some_2 l _ Hlt) as [x Hx].
    rewrite (list_lookup_total_correct _ _ _ Hx). rewrite Forall_forall in Hl. by eapply Hl, list_elem_of_lookup_2. }
  apply Hg. constructor.
Qed.

Lemma leaves_bytes32 bs leaves : mapM leaf_of (enumerate bs) = Ok leaves → Forall bytes32 leaves.
Proof.
  intros H%mapM_Ok_Forall2. apply Forall_forall. intros l (j & Hj)%list_elem_of_lookup_1.
  destruct (Forall2_lookup_r _ _ _ _ _ H Hj) as ([i b] & _ & Hl).
  unfold leaf_of, Airdrop.batch_leaf in Hl. inv_ok. subst. apply keccak256_bytes32.
Qed.

Lemma unhex_hex0x l : Forall bytes32 l → mapM Airdrop.unhex (Airdrop.hex0x <$> l) = Ok l.
Proof.
  intros H. induction H as [|x l [Hx _] _ IH]; [done|]. cbn [fmap list_fmap mapM]. change (Airdrop.hex0x x) with ("0x"%string ++ hex x).
  rewrite unhex_hex by done. cbn [mbind result_bind]. by rewrite IH.
Qed.

Lemma mapM_int_str l : mapM py_int (str_of_Z <$> l) = Ok l.
Proof. induction l as [|x l IH]; [done|]. cbn [fmap list_fmap mapM]. rewrite int_str_of_Z. cbn [mbind result_bind]. by rewrite IH. Qed.

(** * [verify_run] on what [write_run] wrote *)

Lemma check_rows_ok rows seen :
  Forall good_row rows → NoDup (seen ++ (key <$> rows)) →
  foldM check_row ([], seen) rows = Ok ([], seen ++ (key <$> rows)).
Proof.
  intros Hg. revert seen. induction Hg as [|r rows [Hc Ha] _ IH]; intros seen Hn; [by rewrite app_nil_r|].
  cbn [foldM check_row]. rewrite (ca_checksum _ Hc). cbn [mbind result_bind].
  rewrite bool_decide_eq_true_2 by done. rewrite bool_decide_eq_false_2.
  - destruct (Z.leb_spec (amount r) 0); [lia|]. cbn [when negb app mbind result_bind].
    rewrite IH; [by rewrite <- app_assoc|]. rewrite <- app_assoc. done.
  - intros Hin. apply NoDup_app in Hn as (_ & Hd & _). apply (Hd _ Hin). by left.
Qed.

Lemma key_relabel rows : key <$> relabel rows = key <$> rows.
Proof.
  pose proof (view_relabel rows) as H. apply (f_equal (fmap (λ v : str * Z, lower v.1))) in H.
  by rewrite <- !list_fmap_compose in H.
Qed.

Lemma amounts_relabel rows : amount <$> relabel rows = amount <$> rows.
Proof.
  pose proof (view_relabel rows) as H. apply (f_equal (fmap snd)) in H. by rewrite <- !list_fmap_compose in H.
Qed.

Lemma good_relabel rows : Forall good_row rows → Forall good_row (relabel rows).
Proof.
  intros H. unfold relabel. apply Forall_forall. intros r (i & x & -> & Hx)%elem_of_lookup_imap.
  rewrite Forall_forall in H. by apply (H x), (list_elem_of_lookup_2 _ i).
Qed.

Lemma length_relabel rows : length (relabel rows) = length rows.
Proof. apply length_imap. Qed.

Lemma check_batch_written rows_b b l j text m levels root leaves batches :
  tree_levels leaves = Ok levels → tree_root levels = Ok root → Forall bytes32 leaves →
  batches !! j = Some rows_b → leaves !! j = Some l → same_batch b rows_b →
  check_batch (MkRunDir text m (foldl (λ d ibl, dset d (batch_file ibl.1) (batch_payload levels ibl)) []
                                 (enumerate (zip batches leaves)))) levels root (Z.of_nat j, (b, l)) = Ok [].
Proof.
  intros Ht Hr Hl Hb Hlj Hs. unfold check_batch, read_batch. cbn [batch_files].
  rewrite (dget_payload levels _ j (rows_b, l)) by by rewrite lookup_zip_with, Hb; cbn; rewrite Hlj.
  cbn [of_option mbind result_bind batch_payload batch_index proof amounts recipients leaf].
  rewrite Z.eqb_refl. cbn [negb mbind result_bind batch_payload batch_index proof amounts recipients leaf].
  rewrite mapM_int_str. cbn [mbind result_bind].
  destruct (same_batch_cols _ _ Hs) as [-> ->]. rewrite Nat2Z.id.
  pose proof (tree_levels_Ok leaves levels) as [Hlv _]. destruct (Hlv Ht) as [_ Elv].
  rewrite unhex_hex0x by (apply tree_proof_bytes32; rewrite Elv; by apply levels_bytes32).
  cbn [mbind result_bind]. rewrite !bool_decide_eq_true_2 by done.
  destruct (tree_proof_ok leaves levels j l Ht Hlj) as (root' & Hr' & Hv).
  assert (root' = root) as -> by congruence. by rewrite Hv.
Qed.

Lemma write_run_inv exists_ now backend rows size info label order dir m :
  write_run exists_ now backend rows size info label order = Ok (dir, m) →
  1 ≤ size ≤ MAX_BATCH_SIZE ∧
  ∃ leaves levels root_, let batches := chunks (Z.to_nat size) rows in
    mapM leaf_of (enumerate batches) = Ok leaves ∧ tree_levels leaves = Ok levels ∧ tree_root levels = Ok root_ ∧
    dir = MkRunDir (Some (distribution_text rows)) (Some m)
            (foldl (λ d ibl, dset d (batch_file ibl.1) (batch_payload levels ibl)) [] (enumerate (zip batches leaves))) ∧
    format m = FORMAT ∧ batch_size m = size ∧ batch_count m = zlen batches ∧ recipient_count m = zlen rows ∧
    total_amount m = str_of_Z (zsum_with amount rows) ∧ root m = Airdrop.hex0x root_ ∧
    list_sha256 m = sha256_file (ords (distribution_text rows)).
Proof.
  unfold write_run. intros H. inv_ok. zbool. unfold chunk in *.
  destruct (Z.eqb_spec size 0); [lia|]. destruct (Z.ltb_spec size 0); [lia|]. inv_ok. simplify_eq.
  split; [lia|]. eexists _, _, _. cbn zeta. split_and!; try done; reflexivity.
Qed.

Lemma Forall_enumerate {A} (P : Z * A → Prop) l :
  (∀ j x, l !! j = Some x → P (Z.of_nat j, x)) → Forall P (enumerate l).
Proof.
  intros H. apply Forall_forall. intros [i x] (j & -> & Hj)%enumerate_elem_of. by apply H.
Qed.

Lemma mapM_const_nil {A B} (f : A → result (list B)) l :
  Forall (λ x, f x = Ok []) l → mapM f l = Ok (replicate (length l) []).
Proof. induction 1 as [|x l H _ IH]; [done|]. cbn [mapM length replicate]. by rewrite H, IH. Qed.

Lemma concat_nils {A} n : concat (replicate n (@nil A)) = [].
Proof. by induction n. Qed.

Lemma verify_written exists_ now backend rows size info label order dir m :
  write_run exists_ now backend rows size info label order = Ok (dir, m) →
  Forall good_row rows → NoDup (key <$> rows) →
  ∃ v, verify_run dir = Ok v ∧ problems v = [] ∧ v_manifest v = m ∧ v_root v = root m ∧
       v_total_amount v = zsum_with amount rows ∧ v_recipient_count v = zlen rows.
Proof.
  intros (Hs & leaves & levels & root_ & Hl & Ht & Hr & -> & Hf & Hbs & Hbc & Hrc & Hto & Hro & Hsh)%write_run_inv Hg Hn.
  assert (0 < Z.to_nat size)%nat as Hk by lia.
  pose proof (chunks_relabel _ rows Hk) as Hsame. pose proof (leaves_bytes32 _ _ Hl) as H32.
  unfold verify_run, read_manifest. cbn [manifest_json of_option mbind result_bind].
  rewrite bool_decide_eq_true_2 by done. cbn [negb mbind result_bind].
  rewrite read_distribution_text by done. cbn [mbind result_bind].
  rewrite check_rows_ok; [|by apply good_relabel|by rewrite key_relabel]. cbn [mbind result_bind].
  unfold chunk. rewrite Hbs. destruct (Z.eqb_spec size 0); [lia|]. destruct (Z.ltb_spec size 0); [lia|].
  cbn [mbind result_bind]. rewrite (leaves_same _ _ Hsame), Hl. cbn [mbind result_bind]. rewrite Ht. cbn [mbind result_bind].
  rewrite Hr. cbn [mbind result_bind distribution_csv of_option].
  rewrite mapM_const_nil.
  - cbn [mbind result_bind]. eexists. split; [reflexivity|]. cbn [problems v_manifest v_root v_total_amount v_recipient_count].
    rewrite concat_nils, Hbc, Hrc, Hto, Hro, Hsh.
    assert (zsum_with amount (relabel rows) = zsum_with amount rows) as -> by (unfold zsum_with; by rewrite amounts_relabel).
    assert (zlen (relabel rows) = zlen rows) as -> by (unfold zlen; by rewrite length_relabel).
    assert (zlen (chunks (Z.to_nat size) (relabel rows)) = zlen (chunks (Z.to_nat size) rows)) as ->
      by (unfold zlen; by rewrite (Forall2_length _ _ _ Hsame)).
    rewrite !Z.eqb_refl, !bool_decide_eq_true_2 by done. done.
  - apply Forall_enumerate. intros j [b l] Hj. rewrite lookup_zip_with in Hj.
    destruct (chunks _ (relabel rows) !! j) as [b0|] eqn:Eb; [|done].
    destruct (leaves !! j) as [l0|] eqn:El; [|done]. cbn in Hj. injection Hj as <- <-.
    destruct (Forall2_lookup_l _ _ _ _ _ Hsame Eb) as (b' & Eb' & Hb'). by eapply check_batch_written.
Qed.

(** C3: whatever list [build.py] is given, once it writes a run directory
    [verify.py] accepts it: the check runs to the end and reports no problem,
    with the root, the number of recipients and the total of the manifest. *)
Theorem build_then_verify now backend args dir m :
  build_main now backend args = Ok (dir, m) →
  ∃ v, verify_run dir = Ok v ∧ problems v = [] ∧ v_manifest v = m ∧ v_root v = root m ∧
       v_recipient_count v = recipient_count m ∧ str_of_Z (v_total_amount v) = total_amount m.
Proof.
  unfold build_main. intros H. destruct (build_body now backend args) as [[dir' m']|e] eqn:E; [|by destruct e].
  injection H as -> ->. unfold build_body in E. inv_ok.
  match goal with Hr : read_rows _ _ _ _ _ _ = Ok _, Hc : consolidate _ _ _ = Ok _, Hw : write_run _ _ _ _ _ _ _ _ = Ok _ |- _ =>
    destruct (consolidate_good _ _ _ _ Hc (read_rows_good _ _ _ _ _ _ _ _ Hr)) as [Hn Hg];
    destruct (verify_written _ _ _ _ _ _ _ _ _ _ Hw Hg Hn) as (v & Hv & Hp & Hm & Hro & Ht & Hrc);
    apply write_run_inv in Hw as (_ & _ & _ & _ & _ & _ & _ & _ & _ & _ & _ & Hrc' & Ht' & _) end.
  exists v. rewrite Ht, Ht', Hrc, Hrc'. done.
Qed.

Definition sample_args : build_args :=
  MkBuildArgs "list.csv"%string (FileAt sample_csv) None None None "address"%string false 1 [] false false.
Definition sample_run : run_dir * manifest :=
  Eval vm_compute in from_ok (MkRunDir None None [], MkManifest [] [] [] [] (MkInfo [] [] [] []) [] 0 0 0 [] [] [] [] [] [] [])
    (build_main [] [] sample_args).

Lemma build_then_verify_witness :
  ∃ v, verify_run sample_run.1 = Ok v ∧ problems v = [] ∧ v_manifest v = sample_run.2 ∧ v_root v = root sample_run.2 ∧
       v_recipient_count v = recipient_count sample_run.2 ∧ str_of_Z (v_total_amount v) = total_amount sample_run.2.
Proof. apply (build_then_verify [] [] sample_args). vm_compute. reflexivity. Defined.

(** * What [verify_run] guarantees *)

Lemma app_nil_iff {A} (l k : list A) : l ++ k = [] ↔ l = [] ∧ k = [].
Proof. split; [apply app_eq_nil|by intros [-> ->]]. Qed.

Lemma check_row_inv ps seen r st :
  check_row (ps, seen) r = Ok st → ∃ new, st = (ps ++ new, seen ++ [key r]) ∧
  (new = [] → to_checksum (address r) = Ok (address r) ∧ 0 < amount r ∧ key r ∉ seen).
Proof.
  cbn [check_row]. intros H. inv_ok. subst. eexists. split; [reflexivity|].
  rewrite !app_nil_iff, !when_nil. intros (H1 & H2 & H3). zbool. split_and!; [congruence|lia|done].
Qed.

Lemma check_rows_sound rows ps seen ps' seen' :
  foldM check_row (ps, seen) rows = Ok (ps', seen') → NoDup seen →
  ∃ new, ps' = ps ++ new ∧
  (new = [] → Forall (λ r, to_checksum (address r) = Ok (address r) ∧ 0 < amount r) rows ∧ NoDup (seen ++ (key <$> rows))).
Proof.
  revert ps seen. induction rows as [|r rows IH]; intros ps seen H Hn; cbn [foldM] in H.
  { inv_ok. simplify_eq. exists []. rewrite !app_nil_r. done. }
  inv_ok. apply check_row_inv in E as (new & -> & Hnew).
  destruct (decide (key r ∈ seen)) as [Hin|Hnin].
  - assert (new ≠ []) as Hne by (intros ->; by destruct (Hnew eq_refl) as (_ & _ & ?)).
    assert (∃ n, ps' = (ps ++ new) ++ n) as [n ->].
    { clear -H. revert H. generalize (ps ++ new) as p, (seen ++ [key r]) as sn. induction rows as [|x rows IH]; intros p sn H; cbn [foldM] in H.
      - inv_ok. simplify_eq. exists []. by rewrite app_nil_r.
      - inv_ok. apply check_row_inv in E as (n & -> & _). apply IH in H as [k ->]. exists (n ++ k). by rewrite app_assoc. }
    exists (new ++ n). rewrite app_assoc. split; [done|]. by intros [? _]%app_eq_nil.
  - apply IH in H as (n & -> & Hrest).
    + exists (new ++ n). rewrite app_assoc. split; [done|]. intros [-> ->]%app_eq_nil.
      destruct (Hnew eq_refl) as (Hc & Ha & _). destruct (Hrest eq_refl) as [Hall Hnd].
      split; [by constructor|]. rewrite <- app_assoc in Hnd. done.
    + apply NoDup_app. split_and!; [done| |apply NoDup_singleton]. by intros x Hx ->%list_elem_of_singleton.
Qed.

Lemma check_batch_sound d levels root_ j b l :
  check_batch d levels root_ (Z.of_nat j, (b, l)) = Ok [] →
  ∃ p proof_, dget (batch_files d) (batch_file (Z.of_nat j)) = Some p ∧ batch_index p = Z.of_nat j ∧
    recipients p = address <$> b ∧ mapM py_int (amounts p) = Ok (amount <$> b) ∧ leaf p = Airdrop.hex0x l ∧
    mapM Airdrop.unhex (proof p) = Ok proof_ ∧ tree_verify proof_ root_ l = true.
Proof.
  unfold check_batch, read_batch. destruct (dget _ _) as [p|]; [|done]. cbn [of_option mbind result_bind].
  destruct (Z.eqb_spec (batch_index p) (Z.of_nat j)) as [Hi|]; [|done]. cbn [negb]. intros H. inv_ok.
  apply app_eq_nil in H as [H1%when_nil H]. apply app_eq_nil in H as [H2%when_nil H].
  apply app_eq_nil in H as [H3%when_nil H]. apply app_eq_nil in H as [H4%when_nil H5%when_nil]. zbool.
  exists p, a0. split_and!; congruence.
Qed.

(** C22: a run directory without problems is consistent: its list has distinct
    checksummed addresses and positive amounts, the manifest's root, counts
    and total are those of the list, and the file of every batch holds exactly
    that batch's recipients and amounts, its leaf, and a proof that leads from
    the leaf to the root. *)
Theorem verify_run_sound d v :
  verify_run d = Ok v → problems v = [] →
  ∃ rows root_ m, read_distribution d = Ok rows ∧ manifest_json d = Some m ∧ v_manifest v = m ∧ 1 ≤ batch_size m ∧
    Forall (λ r, to_checksum (address r) = Ok (address r) ∧ 0 < amount r) rows ∧ NoDup (key <$> rows) ∧
    root m = Airdrop.hex0x root_ ∧ total_amount m = str_of_Z (zsum_with amount rows) ∧
    recipient_count m = zlen rows ∧ batch_count m = zlen (chunks (Z.to_nat (batch_size m)) rows) ∧
    ∀ j b, chunks (Z.to_nat (batch_size m)) rows !! j = Some b →
      ∃ l p proof_, leaf_of (Z.of_nat j, b) = Ok l ∧ dget (batch_files d) (batch_file (Z.of_nat j)) = Some p ∧
        batch_index p = Z.of_nat j ∧ recipients p = address <$> b ∧ mapM py_int (amounts p) = Ok (amount <$> b) ∧
        leaf p = Airdrop.hex0x l ∧ mapM Airdrop.unhex (proof p) = Ok proof_ ∧ tree_verify proof_ root_ l = true.
Proof.
  unfold verify_run, read_manifest. intros H Hp. inv_ok. subst v. cbn [problems v_manifest] in *.
  unfold chunk in *. destruct (Z.eqb_spec (batch_size a) 0); [done|].
  match goal with H : (if ?b <? 0 then _ else _) = Ok _ |- _ => destruct (Z.ltb_spec b 0); inv_ok end.
  { simplify_eq. match goal with H : mapM leaf_of (enumerate []) = Ok _ |- _ => cbn in H end. inv_ok. simplify_eq. }
  match goal with H : foldM check_row _ _ = Ok _ |- _ => apply check_rows_sound in H as (new & -> & Hrows); [|apply NoDup_nil_2] end.
  cbn [app] in Hp. rewrite !app_nil_iff, !when_nil in Hp. destruct Hp as ((-> & H1 & H2 & H3 & H4 & H5) & Hb).
  zbool. destruct (Hrows eq_refl) as [Hall Hnd]. cbn [app] in Hnd. simplify_eq.
  match goal with H : mapM (check_batch _ _ _) _ = Ok _, H' : mapM leaf_of _ = Ok _, H'' : tree_root _ = Ok ?r |- _ =>
    apply mapM_Ok_Forall2 in H as Hch; apply mapM_Ok_Forall2 in H' as Hlv; eexists _, r, a end.
  split_and!; try done; [lia|]. intros j b Hj.
  destruct (Forall2_lookup_l _ _ _ j (Z.of_nat j, b) Hlv) as (l & Hl & Hlb); [by rewrite lookup_enumerate, Hj|].
  apply concat_nil_Forall in Hb.
  destruct (Forall2_lookup_l _ _ _ j (Z.of_nat j, (b, l)) Hch) as (x & Hx & Hcb);
    [by rewrite lookup_enumerate, lookup_zip_with, Hj; cbn; rewrite Hl|].
  rewrite Forall_forall in Hb. rewrite (Hb x) in Hcb by by eapply list_elem_of_lookup_2.
  apply check_batch_sound in Hcb as (p & proof_ & ?). by exists l, p, proof_.
Qed.

Lemma verify_run_sound_witness :
  ∃ rows root_ m, read_distribution sample_run.1 = Ok rows ∧ manifest_json sample_run.1 = Some m ∧
    v_manifest (from_ok (MkVerification sample_run.2 [] 0 0 0 [] []) (verify_run sample_run.1)) = m ∧ 1 ≤ batch_size m ∧
    Forall (λ r, to_checksum (address r) = Ok (address r) ∧ 0 < amount r) rows ∧ NoDup (key <$> rows) ∧
    root m = Airdrop.hex0x root_ ∧ total_amount m = str_of_Z (zsum_with amount rows) ∧
    recipient_count m = zlen rows ∧ batch_count m = zlen (chunks (Z.to_nat (batch_size m)) rows) ∧
    ∀ j b, chunks (Z.to_nat (batch_size m)) rows !! j = Some b →
      ∃ l p proof_, leaf_of (Z.of_nat j, b) = Ok l ∧ dget (batch_files sample_run.1) (batch_file (Z.of_nat j)) = Some p ∧
        batch_index p = Z.of_nat j ∧ recipients p = address <$> b ∧ mapM py_int (amounts p) = Ok (amount <$> b) ∧
        leaf p = Airdrop.hex0x l ∧ mapM Airdrop.unhex (proof p) = Ok proof_ ∧ tree_verify proof_ root_ l = true.
Proof. apply verify_run_sound; vm_compute; reflexivity. Defined.
