(* ===== verification/Json.v ===== *)
(** JSON values as Python holds them: the json module's compact text and Python's
    equality of nested values, in which the order of an object's keys does not
    count.  Numbers are integers; the files of the program hold no others. *)

From S2P Require Import Prelude PyStr PyDict.
Local Open Scope Z_scope.

Inductive json :=
  | JNull
  | JBool (b : bool)
  | JInt (n : Z)
  | JStr (s : str)
  | JList (l : list json)
  | JObj (o : dict str json).

(** The characters json.dumps escapes in ASCII text. *)
Definition escape_char (c : ascii) : str :=
  let n := ord c in
  if n =? 34 then [chr 92; chr 34]
  else if n =? 92 then [chr 92; chr 92]
  else if n =? 10 then [chr 92; "n"%char]
  else if n =? 13 then [chr 92; "r"%char]
  else if n =? 9 then [chr 92; "t"%char]
  else if n =? 12 then [chr 92; "f"%char]
  else if n =? 8 then [chr 92; "b"%char]
  else if n <? 32 then [chr 92; "u"%char] ++ hex_pad 4 n
  else [c].

Definition dumps_str (s : str) : str := [chr 34] ++ concat (escape_char <$> s) ++ [chr 34].

Definition dumps_bool (b : bool) : str := if b then "true"%string else "false"%string.

(** [json.dumps] of a value that is not a container. *)
Definition dumps_scalar (j : json) : str :=
  match j with
  | JBool b => dumps_bool b
  | JInt n => str_of_Z n
  | JStr s => dumps_str s
  | _ => "null"%string
  end.

(** [a == b]; [True] and [False] are the integers 1 and 0. *)
Fixpoint json_eqb (a b : json) {struct a} : bool :=
  match a, b with
  | JNull, JNull => true
  | JBool x, JBool y => Bool.eqb x y
  | JBool x, JInt y | JInt y, JBool x => (if x then 1 else 0) =? y
  | JInt x, JInt y => x =? y
  | JStr x, JStr y => bool_decide (x = y)
  | JList la, JList lb =>
      (fix go la lb := match la, lb with
        | [], [] => true
        | x :: la, y :: lb => json_eqb x y && go la lb
        | _, _ => false
        end) la lb
  | JObj oa, JObj ob =>
      (length oa =? length ob)%nat &&
      forallb (λ kv, match dget ob kv.1 with Some v => json_eqb kv.2 v | None => false end) oa
  | _, _ => false
  end.

(** [o.get(key)] and [o.get(key, {})]. *)
Definition jget (o : dict str json) (key : str) : json := default JNull (dget o key).

(** [d.pop(key, None)]. *)
Definition dpop {A} (d : dict str A) (key : str) : dict str A := filter (λ kv, kv.1 ≠ key) d.

(** * Lemmas *)

Section json_ind.
Context (P : json → Prop).
Hypotheses (Hnull : P JNull) (Hbool : ∀ b, P (JBool b)) (Hint : ∀ n, P (JInt n)) (Hstr : ∀ s, P (JStr s)).
Hypotheses (Hlist : ∀ l, Forall P l → P (JList l)) (Hobj : ∀ o, Forall (λ kv, P kv.2) o → P (JObj o)).

Lemma json_ind' : ∀ j, P j.
Proof.
  fix IH 1. intros [|b|n|s|l|o]; [exact Hnull|exact (Hbool b)|exact (Hint n)|exact (Hstr s)|apply Hlist|apply Hobj].
  - induction l as [|x l IHl]; constructor; [apply IH|exact IHl].
  - induction o as [|[k v] o IHo]; constructor; [apply IH|exact IHo].
Qed.
End json_ind.

(** A Python object has each key once. *)
Inductive json_wf : json → Prop :=
  | wf_null : json_wf JNull
  | wf_bool b : json_wf (JBool b)
  | wf_int n : json_wf (JInt n)
  | wf_str s : json_wf (JStr s)
  | wf_list l : Forall json_wf l → json_wf (JList l)
  | wf_obj o : NoDup (dkeys o) → Forall (λ kv, json_wf kv.2) o → json_wf (JObj o).

Lemma json_eqb_refl j : json_wf j → json_eqb j j = true.
Proof.
  induction j as [|b|n|s|l IH|o IH] using json_ind'; intros Hw; cbn [json_eqb]; try done.
  - by destruct b.
  - apply Z.eqb_refl.
  - by apply bool_decide_eq_true_2.
  - inversion_clear Hw as [| | | |? Hl|]. induction IH as [|x l Hx _ IHl]; [done|].
    inversion_clear Hl as [|?? Hx' Hl']. by rewrite (Hx Hx'), (IHl Hl').
  - inversion_clear Hw as [| | | | |? Hn Ho]. rewrite Nat.eqb_refl. cbn [andb]. apply forallb_forall.
    intros [k v] Hin%list_elem_of_In. cbn [fst snd]. rewrite (proj2 (dget_elem o k v Hn) Hin).
    rewrite Forall_forall in IH, Ho. by apply (IH (k, v)), (Ho (k, v)).
Qed.

Lemma dget_dpop {A} (d : dict str A) k k' : k ≠ k' → dget (dpop d k) k' = dget d k'.
Proof.
  intros Hk. induction d as [|[k0 v] d IH]; [done|]. unfold dpop in *. rewrite filter_cons.
  destruct (decide _) as [|H0]; cbn [dget]; [by rewrite IH|].
  assert (k0 = k) as -> by (by apply dec_stable). rewrite decide_False by done. exact IH.
Qed.
