(* ===== verification/SafeTx.v ===== *)
(** Safe transactions: the call data, hashes and decoders of
    airdrop/tools/safe_batch.py (lines 55 to 322 and [service_safe_tx],
    [token_transfers]), which vault_batch.py shares.

    A call format is a [Codec]: an encoder, a decoder and the law that decoding
    an encoding gives the call back.  ERC-20 transfers are one; the vault calls of
    [VaultBatch] are others.  A MultiSend batch of the calls of any codec decodes
    to exactly these calls, and what decodes was encoded from what is shown.  The
    three hashes a signer compares bind every field of the transaction. *)

From S2P Require Import Prelude PyStr PyDict Keccak Abi BatchTree Bech32 Address Amount Recipients.
Local Open Scope Z_scope.

(** * The code *)

Definition ZERO_ADDRESS : str := "0x0000000000000000000000000000000000000000"%string.
Definition CALL : Z := 0.
Definition DELEGATECALL : Z := 1.

Definition MULTISEND_CALL_ONLY : dict str (list str) := [
  ("1.3.0"%string : str, ["0x40A2aCCbd92BCA938b02010E17A5b8929b49130D"%string : str;
                          "0xA1dabEF33b3B82c7814B6D82A79e50F4AC44102B"%string : str]);
  ("1.4.1"%string : str, ["0x9641d764fc13c8B624c04430C7356C1C7C8102e2"%string : str]);
  ("1.5.0"%string : str, ["0xA83c336B20401Af773B6219BA5027174338D1836"%string : str])].

Definition DOMAIN_TYPE : str := "EIP712Domain(uint256 chainId,address verifyingContract)"%string.
Definition SAFE_TX_TYPE : str :=
  ("SafeTx(address to,uint256 value,bytes data,uint8 operation,uint256 safeTxGas,uint256 baseGas,"%string : str)
  ++ "uint256 gasPrice,address gasToken,address refundReceiver,uint256 nonce)"%string.
Definition DOMAIN_TYPEHASH : bytes := Eval vm_compute in keccak256 (ords DOMAIN_TYPE).
Definition SAFE_TX_TYPEHASH : bytes := Eval vm_compute in keccak256 (ords SAFE_TX_TYPE).
Definition TRANSFER_SELECTOR : bytes := Eval vm_compute in Airdrop.selector "transfer(address,uint256)"%string.
Definition MULTISEND_SELECTOR : bytes := Eval vm_compute in Airdrop.selector "multiSend(bytes)"%string.

(** [value.to_bytes(32, "big")]. *)
Definition word (value : Z) : result bytes :=
  if (value <? 0) || (2 ^ 256 <=? value) then Raise OverflowError else Ok (to_be 32 value).

Definition address_word (address : str) : result bytes := n ← py_int16 address; word n.

Definition transfer_data (recipient : str) (amount : Z) : result bytes :=
  a ← address_word recipient;
  w ← word amount;
  Ok (TRANSFER_SELECTOR ++ a ++ w).

Definition pack_call (to_ : str) (data : bytes) : result bytes :=
  t ← Airdrop.unhex to_;
  v ← word 0;
  l ← word (zlen data);
  Ok ([CALL] ++ t ++ v ++ l ++ data).

(** [MULTISEND_SELECTOR + word(32) + word(len(packed)) + packed + padding]. *)
Definition multisend_bytes (packed : bytes) : result bytes :=
  o ← word 32;
  l ← word (zlen packed);
  let padding := replicate (Z.to_nat (- zlen packed mod 32)) 0 in
  Ok (MULTISEND_SELECTOR ++ o ++ l ++ packed ++ padding).

Definition multisend_data (token : str) (rows : list Row) : result bytes :=
  packed ← mapM (λ r, d ← transfer_data (address r) (amount r); pack_call token d) rows;
  multisend_bytes (concat packed).

(** A transaction whose nonce the Safe web app still has to assign has none. *)
Record SafeTx := MkSafeTx {
  to : str; value : Z; data : bytes; operation : Z; nonce : option Z;
  safe_tx_gas : Z; base_gas : Z; gas_price : Z; gas_token : str; refund_receiver : str }.

(** [SafeTx(to, value, data, operation, nonce)] with the defaults of the class. *)
Definition plain_tx (to_ : str) (value : Z) (data : bytes) (operation : Z) (nonce : option Z) : SafeTx :=
  MkSafeTx to_ value data operation nonce 0 0 0 ZERO_ADDRESS ZERO_ADDRESS.

Definition transfers_tx (token multisend : str) (rows : list Row) (nonce : option Z) : result SafeTx :=
  match rows with
  | [r] => d ← transfer_data (address r) (amount r); Ok (plain_tx token 0 d CALL nonce)
  | _ => d ← multisend_data token rows; Ok (plain_tx multisend 0 d DELEGATECALL nonce)
  end.

Definition domain_hash (chain_id : Z) (safe : str) : result bytes :=
  c ← word chain_id;
  s ← address_word safe;
  Ok (keccak256 (DOMAIN_TYPEHASH ++ c ++ s)).

Definition message_hash (tx : SafeTx) : result bytes :=
  t ← address_word (to tx);
  v ← word (value tx);
  o ← word (operation tx);
  sg ← word (safe_tx_gas tx);
  bg ← word (base_gas tx);
  gp ← word (gas_price tx);
  gt ← address_word (gas_token tx);
  rr ← address_word (refund_receiver tx);
  n ← of_option (nonce tx) (AttributeError "'NoneType' object has no attribute 'to_bytes'");
  wn ← word n;
  Ok (keccak256 (SAFE_TX_TYPEHASH ++ t ++ v ++ keccak256 (data tx) ++ o ++ sg ++ bg ++ gp ++ gt ++ rr ++ wn)).

Definition safe_tx_hash (chain_id : Z) (safe : str) (tx : SafeTx) : result bytes :=
  d ← domain_hash chain_id safe;
  m ← message_hash tx;
  Ok (keccak256 ([0x19; 0x01] ++ d ++ m)).

(** The dictionary [tx_record] returns. *)
Record record := MkRecord {
  r_safe : str; r_chainId : Z; r_to : str; r_value : str; r_data : str; r_operation : Z;
  r_safeTxGas : str; r_baseGas : str; r_gasPrice : str; r_gasToken : str; r_refundReceiver : str;
  r_nonce : option Z; r_dataKeccak256 : str; r_domainHash : str;
  r_messageHash : option str; r_safeTxHash : option str }.

#[export] Instance record_eq_dec : EqDecision record.
Proof. solve_decision. Defined.

Definition tx_record (chain_id : Z) (safe : str) (tx : SafeTx) : result record :=
  d ← domain_hash chain_id safe;
  m ← (match nonce tx with None => Ok None | Some _ => h ← message_hash tx; Ok (Some (Airdrop.hex0x h)) end);
  h ← (match nonce tx with None => Ok None | Some _ => h ← safe_tx_hash chain_id safe tx; Ok (Some (Airdrop.hex0x h)) end);
  Ok (MkRecord safe chain_id (to tx) (str_of_Z (value tx)) (Airdrop.hex0x (data tx)) (operation tx)
        (str_of_Z (safe_tx_gas tx)) (str_of_Z (base_gas tx)) (str_of_Z (gas_price tx)) (gas_token tx)
        (refund_receiver tx) (nonce tx) (Airdrop.hex0x (keccak256 (data tx))) (Airdrop.hex0x d) m h).

(** ** Decoding *)

(** [l[i:j]] for [0 <= i], the bounds clamped to the length. *)
Definition zslice {A} (l : list A) (i j : Z) : list A :=
  slice l (Z.to_nat (Z.min i (zlen l))) (Z.to_nat (Z.min j (zlen l))).

(** One call of a batch: operation, target, value and data. *)
Definition call : Type := Z * str * Z * bytes.

(** The loop over the packed list from position [i]; a round consumes at least
    85 bytes. *)
Fixpoint decode_calls (fuel : nat) (packed : bytes) (i : Z) : result (list call) :=
  if zlen packed <=? i then Ok [] else
  match fuel with
  | O => Raise (RuntimeError "fuel")
  | S fuel =>
      if zlen packed <? i + 85 then Raise (InputError "multiSend data ends in the middle of an entry") else
      let operation := packed !!! Z.to_nat i in
      to_ ← to_checksum ("0x"%string ++ hex (zslice packed (i + 1) (i + 21)));
      let value := from_be (zslice packed (i + 21) (i + 53)) in
      let size := from_be (zslice packed (i + 53) (i + 85)) in
      let body := zslice packed (i + 85) (i + 85 + size) in
      if negb (zlen body =? size) then Raise (InputError "multiSend entry is shorter than its declared length") else
      calls ← decode_calls fuel packed (i + 85 + size);
      Ok ((operation, to_, value, body) :: calls)
  end.

Definition multisend_packed (data : bytes) : result bytes :=
  let offset := from_be (zslice data 4 36) in
  let start := 4 + offset in
  let length_ := from_be (zslice data start (start + 32)) in
  let packed := zslice data (start + 32) (start + 32 + length_) in
  if negb (zlen packed =? length_) then Raise (InputError "multiSend data is shorter than its declared length")
  else Ok packed.

Definition decode_multisend (data : bytes) : result (option (list call)) :=
  if negb (bool_decide (zslice data 0 4 = MULTISEND_SELECTOR)) || (zlen data <? 68) then Ok None else
  packed ← multisend_packed data;
  calls ← decode_calls (length packed) packed 0;
  Ok (Some calls).

Definition decode_transfer (body : bytes) : result (option (str * Z)) :=
  if negb (zlen body =? 68) || negb (bool_decide (zslice body 0 4 = TRANSFER_SELECTOR))
     || existsb (λ b, negb (b =? 0)) (zslice body 4 16) then Ok None else
  a ← to_checksum ("0x"%string ++ hex (zslice body 16 36));
  Ok (Some (a, from_be (zslice body 36 68))).

(** The lines of [describe_calls]' summary. *)
Inductive summary_line :=
  | OneTransfer (token : str)
  | NotDecoded
  | BatchOf (calls transfers other : Z)
  | TokenTotal (token : str) (count total : Z)
  | RepeatedRecipient
  | OtherCalls.

(** One call of the loop: the transfers so far and the number of other calls. *)
Definition describe_call (st : list (str * str * Z) * Z) (c : call) : result (list (str * str * Z) * Z) :=
  let '(transfers, other) := st in
  let '(op, target, value, body) := c in
  decoded ← decode_transfer body;
  match decoded with
  | Some (r, a) => if (op =? CALL) && (value =? 0) then Ok (transfers ++ [(target, r, a)], other) else Ok (transfers, other + 1)
  | None => Ok (transfers, other + 1)
  end.

(** Sorted distinct values, [sorted({...})]. *)
Definition sorted_set (l : list str) : list str := sort_str id (dkeys (dict_of ((λ x, (x, ())) <$> l))).

Definition describe_calls (to_ : str) (data : bytes) (operation : Z)
  : result (list summary_line * list (str * str * Z)) :=
  calls ← (if operation =? DELEGATECALL then decode_multisend data else Ok None);
  match calls with
  | None =>
      single ← decode_transfer data;
      match single with
      | Some (r, a) =>
          if operation =? CALL
          then t ← to_checksum to_; Ok ([OneTransfer t], [(t, r, a)])
          else Ok ([NotDecoded], [])
      | None => Ok ([NotDecoded], [])
      end
  | Some calls =>
      '(transfers, other) ← foldM describe_call ([], 0) calls;
      let tokens := sorted_set ((λ t, t.1.1) <$> transfers) in
      let totals := (λ token,
        let amounts := snd <$> filter (λ t, t.1.1 = token) transfers in
        TokenTotal token (zlen amounts) (zsum amounts)) <$> tokens in
      let recipients := (λ t, lower t.1.2) <$> transfers in
      Ok (BatchOf (zlen calls) (zlen transfers) other :: totals
          ++ (if bool_decide (NoDup recipients) then [] else [RepeatedRecipient])
          ++ (if other =? 0 then [] else [OtherCalls]), transfers)
  end.

(** ** What a proposed transaction pays *)

Definition OFFICIAL_MULTISEND_CALL_ONLY : list str := lower <$> concat (dvalues MULTISEND_CALL_ONLY).

(** Why a transaction is not just transfers of the token. *)
Inductive tx_problem :=
  | SendsEth (value : Z)
  | PaysGasRefund
  | NotATokenTransfer (to_ : str)
  | NotOfficialMultiSend (to_ : str)
  | Undecodable (message : string)
  | NotMultiSend
  | NotAPlainTransfer (index : Z) (c : call).

(** [tx.gas_price or int(tx.gas_token, 16) or int(tx.refund_receiver, 16)]. *)
Definition pays_gas_refund (tx : SafeTx) : result bool :=
  if negb (gas_price tx =? 0) then Ok true else
  g ← py_int16 (gas_token tx);
  if negb (g =? 0) then Ok true else
  r ← py_int16 (refund_receiver tx);
  Ok (negb (r =? 0)).

Definition token_transfer_call (token : str) (st : list (str * Z) * list tx_problem) (ic : Z * call)
  : result (list (str * Z) * list tx_problem) :=
  let '(transfers, problems) := st in
  let '(i, c) := ic in
  let '(operation, target, value, body) := c in
  decoded ← decode_transfer body;
  match decoded with
  | Some d =>
      if (operation =? CALL) && (value =? 0) && bool_decide (lower target = lower token)
      then Ok (transfers ++ [d], problems)
      else Ok (transfers, problems ++ [NotAPlainTransfer i c])
  | None => Ok (transfers, problems ++ [NotAPlainTransfer i c])
  end.

Definition token_transfers (tx : SafeTx) (token : str) : result (list (str * Z) * list tx_problem) :=
  let problems := if value tx =? 0 then [] else [SendsEth (value tx)] in
  refund ← pays_gas_refund tx;
  let problems := problems ++ (if refund : bool then [PaysGasRefund] else []) in
  if operation tx =? CALL then
    single ← decode_transfer (data tx);
    match single with
    | Some d => if bool_decide (lower (to tx) = lower token) then Ok ([d], problems)
                else Ok ([], problems ++ [NotATokenTransfer (to tx)])
    | None => Ok ([], problems ++ [NotATokenTransfer (to tx)])
    end
  else
    let problems := problems ++ (if bool_decide (lower (to tx) ∈ OFFICIAL_MULTISEND_CALL_ONLY) then []
                                 else [NotOfficialMultiSend (to tx)]) in
    match decode_multisend (data tx) with
    | Raise (InputError m) => Ok ([], problems ++ [Undecodable m])
    | Raise e => Raise e
    | Ok None => Ok ([], problems ++ [NotMultiSend])
    | Ok (Some calls) => foldM (token_transfer_call token) ([], problems) (imap (λ i c, (Z.of_nat i + 1, c)) calls)
    end.

(** * Slices *)

Lemma zlen_app {A} (a b : list A) : zlen (a ++ b) = zlen a + zlen b.
Proof. unfold zlen. rewrite length_app. lia. Qed.

Lemma zlen_to_be w v : zlen (to_be w v) = Z.of_nat w.
Proof. unfold zlen. by rewrite length_to_be. Qed.

Lemma zlen_nonneg {A} (l : list A) : 0 ≤ zlen l.
Proof. unfold zlen. lia. Qed.

(** The middle of a list, given how the list is made. *)
Lemma zslice_mid {A} (l a b c : list A) i j :
  l = a ++ b ++ c → zlen a = i → zlen b = j - i → zslice l i j = b.
Proof.
  intros -> <- Hj. unfold zslice. rewrite !zlen_app. pose proof (zlen_nonneg c). pose proof (zlen_nonneg b).
  rewrite Z.min_l by lia. rewrite Z.min_l by lia. replace j with (zlen a + zlen b) by lia.
  unfold slice, zlen in *. rewrite Nat2Z.id. replace (Z.to_nat _ - length a)%nat with (length b) by lia.
  by rewrite drop_app_length, take_app_length.
Qed.

Lemma zsplit {A} (l : list A) n : 0 ≤ n ≤ zlen l → ∃ a b, l = a ++ b ∧ zlen a = n.
Proof.
  intros Hn. exists (take (Z.to_nat n) l), (drop (Z.to_nat n) l). split; [by rewrite take_drop|].
  unfold zlen in *. rewrite length_take. lia.
Qed.

Lemma zslice_app_r {A} (pre l : list A) i j :
  0 ≤ i → 0 ≤ j → zslice (pre ++ l) (zlen pre + i) (zlen pre + j) = zslice l i j.
Proof.
  intros Hi Hj. unfold zslice, slice. rewrite zlen_app.
  replace (Z.min (zlen pre + i) _) with (zlen pre + Z.min i (zlen l)) by lia.
  replace (Z.min (zlen pre + j) _) with (zlen pre + Z.min j (zlen l)) by lia.
  assert (∀ x, 0 ≤ x → Z.to_nat (zlen pre + x) = (length pre + Z.to_nat x)%nat) as E by (intros; unfold zlen; lia).
  pose proof (zlen_nonneg l). rewrite !E, drop_app_add by lia. f_equal. lia.
Qed.

Lemma zslice_ok (l : bytes) i j : bytes_ok l → bytes_ok (zslice l i j).
Proof. intros H. unfold zslice, slice. by apply Forall_take, Forall_drop. Qed.

Lemma zslice_short {A} (l : list A) i j : 0 ≤ i → i ≤ j → zlen (zslice l i j) = j - i → i = j ∨ j ≤ zlen l.
Proof.
  intros Hi Hj. unfold zslice, slice. unfold zlen at 1. rewrite length_take, length_drop.
  unfold zlen. lia.
Qed.

Ltac zmid a b c := apply (zslice_mid _ a b c); [by rewrite <- ?app_assoc | rewrite ?zlen_app, ?zlen_to_be; unfold zlen in *; cbn [length] in *; lia ..].

(** * Words and addresses *)

Lemma word_Ok v w : word v = Ok w ↔ uint256 v ∧ w = to_be 32 v.
Proof. apply claims_word_Ok. Qed.

Lemma word_ok v : uint256 v → word v = Ok (to_be 32 v).
Proof. intros. by apply word_Ok. Qed.

Lemma from_be_word v : uint256 v → from_be (to_be 32 v) = v.
Proof. intros. by apply from_to_be. Qed.

Lemma word_from_be b : length b = 32%nat → bytes_ok b → to_be 32 (from_be b) = b ∧ uint256 (from_be b).
Proof.
  intros Hl Hb. rewrite <- Hl at 1. rewrite to_from_be by done. split; [done|].
  apply from_be_range in Hb. unfold zlen in Hb. rewrite Hl in Hb. exact Hb.
Qed.

Lemma address_word_bytes a b : address_bytes a b → address_word a = Ok (replicate 12 0 ++ b).
Proof.
  intros Ha. destruct (address_bytes_forms a b Ha) as (_ & Hi & _). destruct Ha as (Hb & Hok & _).
  unfold address_word. rewrite Hi. cbn [mbind result_bind].
  assert (0 ≤ from_be b < 256 ^ 20) as Hr by (apply from_be_range in Hok; unfold zlen in Hok; by rewrite Hb in Hok).
  rewrite word_ok by (unfold uint256; lia). change 32%nat with (12 + 20)%nat.
  rewrite to_be_zeros by exact Hr. rewrite <- Hb at 1. by rewrite to_from_be.
Qed.

(** * The packed list *)

(** The bytes of one call. *)
Definition raw_entry (op : Z) (target : bytes) (value : Z) (body : bytes) : bytes :=
  [op] ++ target ++ to_be 32 value ++ to_be 32 (zlen body) ++ body.

Definition entry_of (c : call) (e : bytes) : Prop :=
  let '(op, to_, value, body) := c in
  ∃ target, address_bytes to_ target ∧ 0 ≤ op < 256 ∧ uint256 value ∧ uint256 (zlen body) ∧ bytes_ok body ∧
    e = raw_entry op target value body.

Lemma decode_calls_shift fuel pre rest i :
  bytes_ok rest → 0 ≤ i → decode_calls fuel (pre ++ rest) (zlen pre + i) = decode_calls fuel rest i.
Proof.
  intros Hok. revert i. induction fuel as [|fuel IH]; intros i Hi; cbn [decode_calls]; rewrite zlen_app.
  all: replace (zlen pre + zlen rest <=? zlen pre + i) with (zlen rest <=? i) by lia; destruct (Z.leb_spec (zlen rest) i); [done|].
  { done. }
  replace (zlen pre + zlen rest <? zlen pre + i + 85) with (zlen rest <? i + 85) by lia.
  destruct (zlen rest <? i + 85); [done|].
  assert (0 ≤ from_be (zslice rest (i + 53) (i + 85))) as Hs by (apply from_be_range, zslice_ok, Hok).
  rewrite <- !(Z.add_assoc (zlen pre)), (zslice_app_r pre rest (i + 53) (i + 85)) by lia.
  set (size := from_be (zslice rest (i + 53) (i + 85))) in *.
  rewrite !zslice_app_r by lia. rewrite IH by lia.
  replace ((pre ++ rest) !!! Z.to_nat (zlen pre + i)) with (rest !!! Z.to_nat i); [done|].
  rewrite !list_lookup_total_alt. f_equal. rewrite lookup_app_r by (unfold zlen; lia). f_equal. unfold zlen. lia.
Qed.

Lemma raw_entry_length op target v body : length target = 20%nat → zlen (raw_entry op target v body) = 85 + zlen body.
Proof. intros Ht. unfold raw_entry. rewrite !zlen_app, !zlen_to_be. unfold zlen. rewrite Ht. cbn [length]. lia. Qed.

(** One round of the loop on an entry. *)
Lemma decode_calls_entry fuel c e rest :
  entry_of c e → bytes_ok rest →
  decode_calls (S fuel) (e ++ rest) 0 = (calls ← decode_calls fuel rest 0; Ok (c :: calls)).
Proof.
  destruct c as [[[op to_] v] body]. intros (t & (Ht & Htok & Hc) & Hop & Hv & Hsz & Hbok & ->) Hok.
  assert (zlen t = 20) as Hzt by (unfold zlen; lia). pose proof (zlen_nonneg rest). pose proof (zlen_nonneg body).
  pose proof (raw_entry_length op t v body Ht) as Hl.
  cbn [decode_calls]. rewrite zlen_app, Hl. rewrite (proj2 (Z.leb_gt _ _)) by lia. rewrite (proj2 (Z.ltb_ge _ _)) by lia.
  assert (zslice (raw_entry op t v body ++ rest) (0 + 1) (0 + 21) = t) as ->.
  { unfold raw_entry. zmid [op] t (to_be 32 v ++ to_be 32 (zlen body) ++ body ++ rest). }
  assert (zslice (raw_entry op t v body ++ rest) (0 + 21) (0 + 53) = to_be 32 v) as ->.
  { unfold raw_entry. zmid ([op] ++ t) (to_be 32 v) (to_be 32 (zlen body) ++ body ++ rest). }
  assert (zslice (raw_entry op t v body ++ rest) (0 + 53) (0 + 85) = to_be 32 (zlen body)) as ->.
  { unfold raw_entry. zmid ([op] ++ t ++ to_be 32 v) (to_be 32 (zlen body)) (body ++ rest). }
  rewrite !from_be_word by done.
  assert (zslice (raw_entry op t v body ++ rest) (0 + 85) (0 + 85 + zlen body) = body) as ->.
  { unfold raw_entry. zmid ([op] ++ t ++ to_be 32 v ++ to_be 32 (zlen body)) body rest. }
  rewrite Hc, Z.eqb_refl. cbn [negb mbind result_bind].
  replace (0 + 85 + zlen body) with (zlen (raw_entry op t v body) + 0) by lia.
  by rewrite decode_calls_shift.
Qed.

(** Every round is at least 85 bytes, so a round per byte is enough. *)
Lemma decode_calls_fuel fuel packed i :
  bytes_ok packed → 0 ≤ i → zlen packed - i ≤ Z.of_nat fuel →
  decode_calls (S fuel) packed i = decode_calls fuel packed i ∧ decode_calls fuel packed i ≠ Raise (RuntimeError "fuel").
Proof.
  intros Hok. revert i. induction fuel as [|fuel IH]; intros i Hi Hf.
  { cbn [decode_calls]. destruct (Z.leb_spec (zlen packed) i); [done|lia]. }
  cbn [decode_calls]. destruct (Z.leb_spec (zlen packed) i); [done|]. destruct (_ <? _); [done|].
  set (size := from_be (zslice packed (i + 53) (i + 85))).
  assert (0 ≤ size) by (apply from_be_range, zslice_ok, Hok).
  destruct (IH (i + 85 + size)) as [E1 E2]; [lia|lia|]. cbn [decode_calls] in E1. rewrite E1.
  rewrite to_checksum_0x by (unfold zslice, slice; rewrite length_hex, length_take, length_drop; lia).
  cbn [mbind result_bind]. split; [done|]. destruct (_ =? size); cbn [negb]; [|by intros [=]].
  destruct (decode_calls fuel packed (i + 85 + size)); cbn [mbind result_bind]; congruence.
Qed.

(** What the loop reads is exactly what is there. *)
Lemma decode_calls_inv fuel packed calls :
  bytes_ok packed → decode_calls fuel packed 0 = Ok calls → ∃ es, Forall2 entry_of calls es ∧ packed = concat es.
Proof.
  revert packed calls. induction fuel as [|fuel IH]; intros packed calls Hok H.
  { cbn [decode_calls] in H. destruct (Z.leb_spec (zlen packed) 0); inv_ok. subst calls.
    exists []. split; [done|]. destruct packed; [done|]. unfold zlen in *. cbn [length] in *. lia. }
  pose proof H as H'. cbn [decode_calls] in H'. destruct (Z.leb_spec (zlen packed) 0).
  { inv_ok. subst calls. exists []. split; [done|]. destruct packed; [done|]. unfold zlen in *. cbn [length] in *. lia. }
  inv_ok. zbool. clear H'. set (size := from_be (zslice packed (0 + 53) (0 + 85))) in *.
  assert (0 ≤ size) as Hsz by (apply from_be_range, zslice_ok, Hok).
  assert (85 + size ≤ zlen packed) as Hlen.
  { destruct (zslice_short packed (0 + 85) (0 + 85 + size)); lia. }
  destruct (zsplit packed 1) as (o & p1 & -> & Ho); [lia|]. rewrite zlen_app in *.
  destruct (zsplit p1 20) as (t & p2 & -> & Ht); [lia|]. rewrite zlen_app in *.
  destruct (zsplit p2 32) as (v & p3 & -> & Hv); [lia|]. rewrite zlen_app in *.
  destruct (zsplit p3 32) as (l & p4 & -> & Hl); [lia|]. rewrite zlen_app in *.
  destruct (zsplit p4 size) as (body & rest & -> & Hb); [lia|].
  assert (zslice (o ++ t ++ v ++ l ++ body ++ rest) (0 + 53) (0 + 85) = l) as El by zmid (o ++ t ++ v) l (body ++ rest).
  assert (from_be l = size) as Hfl by (subst size; by rewrite El). clearbody size.
  destruct o as [|op [|? ?]]; [done| |unfold zlen in Ho; cbn [length] in Ho; lia].
  rewrite !bytes_ok_app in Hok. destruct Hok as (Hoo & Hot & Hov & Hol & Hob & Hor).
  inversion_clear Hoo as [|?? Hop _].
  destruct (word_from_be v) as [Ev Huv]; [unfold zlen in Hv; lia|done|].
  destruct (word_from_be l) as [El' Hul]; [unfold zlen in Hl; lia|done|].
  assert (length t = 20%nat) as Hlt by (unfold zlen in Ht; lia).
  assert (entry_of (op, "0x"%string ++ checksum_body (lower (hex t)), from_be v, body) (raw_entry op t (from_be v) body)) as He.
  { exists t. refine (conj _ (conj Hop (conj Huv (conj _ (conj Hob eq_refl))))).
    - split; [done|]. split; [done|]. apply to_checksum_0x. rewrite length_hex. lia.
    - by rewrite Hb, <- Hfl. }
  assert ([op] ++ t ++ v ++ l ++ body ++ rest = raw_entry op t (from_be v) body ++ rest) as Epack.
  { unfold raw_entry. by rewrite Ev, Hb, <- Hfl, El', <- !app_assoc. }
  rewrite Epack in H |- *. rewrite (decode_calls_entry _ _ _ _ He) in H by done. inv_ok. subst calls.
  match goal with E : decode_calls fuel rest 0 = Ok _ |- _ => apply IH in E as (es & Hes & ->); [|done] end.
  eexists (_ :: es). split; [by constructor|done].
Qed.

Lemma decode_calls_entries calls es :
  Forall2 entry_of calls es → decode_calls (length (concat es)) (concat es) 0 = Ok calls.
Proof.
  intros H. assert (Forall bytes_ok es) as Hes.
  { clear -H. induction H as [|[[[op to_] v] body] e calls es (t & (Ht & Htok & _) & Hop & Hv & Hsz & Hbok & ->) _ IH]; constructor; [|done].
    unfold raw_entry. rewrite !bytes_ok_app. split_and!; auto with pylib. by constructor. }
  assert (∀ n, (length (concat es) ≤ n)%nat → decode_calls n (concat es) 0 = Ok calls) as Hg; [|by apply Hg].
  induction H as [|c e calls es He _ IH]; intros n Hn.
  { destruct n; done. }
  inversion_clear Hes as [|?? He' Hes']. cbn [concat] in *. rewrite length_app in Hn.
  assert (85 ≤ length e)%nat as Hle.
  { destruct c as [[[op to_] v] body]. destruct He as (t & (Ht & _) & _ & _ & _ & _ & ->).
    pose proof (raw_entry_length op t v body Ht). pose proof (zlen_nonneg body). unfold zlen in *. lia. }
  destruct n as [|n]; [lia|]. rewrite (decode_calls_entry _ _ _ _ He) by (done || by apply Forall_concat).
  rewrite IH by (done || lia). done.
Qed.

(** * MultiSend batches *)

Lemma multisend_bytes_ok packed :
  uint256 (zlen packed) → bytes_ok packed →
  ∃ data, multisend_bytes packed = Ok data ∧ bytes_ok data ∧ multisend_packed data = Ok packed ∧
    zslice data 0 4 = MULTISEND_SELECTOR ∧ 68 ≤ zlen data.
Proof.
  intros Hu Hok. unfold multisend_bytes. rewrite (word_ok 32), (word_ok (zlen packed)) by (done || compute_decide).
  cbn [mbind result_bind]. set (pad := replicate _ 0). eexists. split; [done|].
  set (data := MULTISEND_SELECTOR ++ _). pose proof (zlen_nonneg packed). pose proof (zlen_nonneg pad).
  assert (zlen MULTISEND_SELECTOR = 4) as Hs by done.
  split_and!.
  - unfold data. rewrite !bytes_ok_app. split_and!; auto with pylib; [compute_decide|].
    apply Forall_replicate. lia.
  - unfold multisend_packed.
    assert (zslice data 4 36 = to_be 32 32) as ->.
    { zmid MULTISEND_SELECTOR (to_be 32 32) (to_be 32 (zlen packed) ++ packed ++ pad). }
    rewrite from_be_word by compute_decide. change (4 + 32) with 36. change (36 + 32) with 68.
    assert (zslice data 36 68 = to_be 32 (zlen packed)) as ->.
    { zmid (MULTISEND_SELECTOR ++ to_be 32 32) (to_be 32 (zlen packed)) (packed ++ pad). }
    rewrite from_be_word by done.
    assert (zslice data 68 (68 + zlen packed) = packed) as ->.
    { zmid (MULTISEND_SELECTOR ++ to_be 32 32 ++ to_be 32 (zlen packed)) packed pad. }
    by rewrite Z.eqb_refl.
  - zmid (@nil Z) MULTISEND_SELECTOR (to_be 32 32 ++ to_be 32 (zlen packed) ++ packed ++ pad).
  - unfold data. rewrite !zlen_app, !zlen_to_be. lia.
Qed.

Lemma decode_multisend_entries calls es :
  Forall2 entry_of calls es → bytes_ok (concat es) → uint256 (zlen (concat es)) →
  ∃ data, multisend_bytes (concat es) = Ok data ∧ bytes_ok data ∧ decode_multisend data = Ok (Some calls).
Proof.
  intros H Hok Hu. destruct (multisend_bytes_ok (concat es)) as (data & Hd & Hdok & Hp & Hs & Hl); [done..|].
  exists data. split; [done|]. split; [done|]. unfold decode_multisend.
  rewrite bool_decide_eq_true_2 by done. rewrite (proj2 (Z.ltb_ge _ _)) by lia. cbn [negb orb].
  rewrite Hp. cbn [mbind result_bind]. by rewrite (decode_calls_entries calls).
Qed.

Lemma decode_multisend_inv data calls :
  bytes_ok data → decode_multisend data = Ok (Some calls) →
  ∃ es, Forall2 entry_of calls es ∧ multisend_packed data = Ok (concat es).
Proof.
  intros Hok H. unfold decode_multisend in H. destruct (_ || _); [done|]. inv_ok.
  subst calls.
  match goal with E : decode_calls _ ?p 0 = Ok _ |- _ => apply decode_calls_inv in E as (es & Hes & ->) end.
  - by exists es.
  - match goal with E : multisend_packed _ = Ok _ |- _ => unfold multisend_packed in E end. inv_ok. subst. by apply zslice_ok.
Qed.

(** * Call formats *)

(** A format of call data: what [encode] writes for a valid call [decode] reads
    back. *)
Class Codec (A : Type) := {
  encode : A → result bytes;
  decode : bytes → result (option A);
  valid : A → Prop;
  codec_law : ∀ a, valid a → ∃ b, encode a = Ok b ∧ bytes_ok b ∧ uint256 (zlen b) ∧ decode b = Ok (Some a);
}.

(** The bytes of a batch of calls: [pack_call(target, encode(call))] of each. *)
Definition pack_batch `{Codec A} (xs : list (str * A)) : result (list bytes) :=
  mapM (λ p, d ← encode p.2; pack_call p.1 d) xs.

(** What a batch is read back as: plain calls of the same targets in the same
    order, each decoding to what was encoded. *)
Definition reads_as `{Codec A} (p : str * A) (c : call) : Prop :=
  ∃ body, c = (CALL, p.1, 0, body) ∧ encode p.2 = Ok body ∧ decode body = Ok (Some p.2).

(** An address the code can read: the 20 bytes it spells. *)
Definition readable (a : str) : Prop := ∃ b, address_bytes a b.

Lemma canonical_readable a : canonical a → readable a.
Proof. intros (b & Hb & _)%canonical_bytes. by exists b. Qed.

Lemma pack_call_ok t b d :
  address_bytes t b → uint256 (zlen d) → pack_call t d = Ok (raw_entry CALL b 0 d).
Proof.
  intros Ht Hd. destruct (address_bytes_forms t b Ht) as (Hu & _). unfold pack_call. rewrite Hu. cbn [mbind result_bind].
  rewrite !word_ok by (done || compute_decide). done.
Qed.

Lemma pack_batch_entries `{Codec A} (xs : list (str * A)) :
  Forall (λ p, readable p.1 ∧ valid p.2) xs →
  ∃ es calls, pack_batch xs = Ok es ∧ Forall2 entry_of calls es ∧ Forall2 reads_as xs calls ∧ Forall bytes_ok es.
Proof.
  induction 1 as [|[t a] xs [[tb Htb] Ha] _ (es & calls & He & Hc & Hr & Hok)]; [by exists [], []|].
  cbn [fst snd] in *. destruct (codec_law a Ha) as (b & Hb & Hbok & Hbl & Hd).
  exists (raw_entry CALL tb 0 b :: es), ((CALL, t, 0, b) :: calls). split_and!.
  - unfold pack_batch in *. cbn [mapM fst snd]. rewrite Hb. cbn [mbind result_bind]. rewrite (pack_call_ok _ tb) by done.
    cbn [mbind result_bind]. by rewrite He.
  - constructor; [|done]. exists tb. do 2 (split; [done|]). split; [compute_decide|done].
  - constructor; [|done]. by exists b.
  - constructor; [|done]. unfold raw_entry. destruct Htb as (_ & ? & _). rewrite !bytes_ok_app.
    split_and!; auto with pylib. compute_decide.
Qed.

(** A batch of any codec decodes to the calls it was made of. *)
Lemma multisend_batch `{Codec A} (xs : list (str * A)) es :
  Forall (λ p, readable p.1 ∧ valid p.2) xs → pack_batch xs = Ok es → uint256 (zlen (concat es)) →
  ∃ data calls, multisend_bytes (concat es) = Ok data ∧ bytes_ok data ∧
    decode_multisend data = Ok (Some calls) ∧ Forall2 reads_as xs calls.
Proof.
  intros Hx He Hu. destruct (pack_batch_entries xs Hx) as (es' & calls & He' & Hc & Hr & Hok).
  rewrite He in He'. apply Ok_inj in He' as <-.
  destruct (decode_multisend_entries calls es Hc) as (data & Hd & Hdok & Hdec); [by apply Forall_concat|done|].
  by exists data, calls.
Qed.

(** ** ERC-20 transfers *)

(** Calls of an address and an amount: [transfer], and [approve] of the vaults. *)
Definition encode_pair (sel : bytes) (r : str) (m : Z) : result bytes :=
  a ← address_word r; w ← word m; Ok (sel ++ a ++ w).
Definition decode_pair (sel body : bytes) : result (option (str * Z)) :=
  if negb (zlen body =? 68) || negb (bool_decide (zslice body 0 4 = sel))
     || existsb (λ b, negb (b =? 0)) (zslice body 4 16) then Ok None else
  a ← to_checksum ("0x"%string ++ hex (zslice body 16 36));
  Ok (Some (a, from_be (zslice body 36 68))).

Lemma encode_pair_bytes sel r b m :
  address_bytes r b → uint256 m → encode_pair sel r m = Ok (sel ++ replicate 12 0 ++ b ++ to_be 32 m).
Proof.
  intros Hr Hm. unfold encode_pair. rewrite (address_word_bytes r b), word_ok by done. cbn [mbind result_bind].
  by rewrite <- app_assoc.
Qed.

Lemma encode_pair_length sel r m d : encode_pair sel r m = Ok d → zlen d = zlen sel + 64.
Proof.
  unfold encode_pair, address_word. intros H. inv_ok. subst d.
  repeat match goal with H : word _ = Ok _ |- _ => apply word_Ok in H as [_ ->] end.
  rewrite !zlen_app, !zlen_to_be. lia.
Qed.

Lemma existsb_zeros k : existsb (λ b, negb (b =? 0)) (replicate k 0) = false.
Proof. by induction k. Qed.

Lemma existsb_nonzero z : existsb (λ b, negb (b =? 0)) z = false → z = replicate (length z) 0.
Proof.
  intros E%existsb_false. symmetry. apply replicate_as_elem_of. split; [done|]. intros x Hx.
  rewrite Forall_forall in E. apply E in Hx. zbool. lia.
Qed.

Lemma decode_pair_bytes sel r b m :
  zlen sel = 4 → address_bytes r b → uint256 m →
  decode_pair sel (sel ++ replicate 12 0 ++ b ++ to_be 32 m) = Ok (Some (r, m)).
Proof.
  intros Hs (Hb & Hok & Hc) Hm. unfold decode_pair. set (body := sel ++ _).
  assert (zlen (replicate 12 0) = 12) as Hz by done.
  assert (zlen b = 20) as Hzb by (unfold zlen; lia).
  assert (zlen body = 68) as -> by (unfold body; rewrite !zlen_app, zlen_to_be; lia).
  assert (zslice body 0 4 = sel) as -> by zmid (@nil Z) sel (replicate 12 0 ++ b ++ to_be 32 m).
  assert (zslice body 4 16 = replicate 12 0) as -> by zmid sel (replicate 12 0) (b ++ to_be 32 m).
  assert (zslice body 16 36 = b) as -> by zmid (sel ++ replicate 12 0) b (to_be 32 m).
  assert (zslice body 36 68 = to_be 32 m) as ->.
  { apply (zslice_mid _ (sel ++ replicate 12 0 ++ b) _ []);
      [by rewrite app_nil_r, <- !app_assoc|rewrite !zlen_app; lia|by rewrite zlen_to_be]. }
  rewrite existsb_zeros, bool_decide_eq_true_2 by done. cbn [negb orb Z.eqb Pos.eqb].
  rewrite Hc. cbn [mbind result_bind]. by rewrite from_be_word.
Qed.

(** The converse: what decodes is that call's data. *)
Lemma decode_pair_inv sel body r m :
  bytes_ok body → decode_pair sel body = Ok (Some (r, m)) →
  ∃ b, address_bytes r b ∧ uint256 m ∧ encode_pair sel r m = Ok body.
Proof.
  intros Hok H. unfold decode_pair in H. destruct (_ || existsb _ _) eqn:E; [done|]. inv_ok. zbool.
  destruct (zsplit body 4) as (s & p1 & -> & Hs); [lia|]. rewrite zlen_app in *.
  destruct (zsplit p1 12) as (z & p2 & -> & Hz); [lia|]. rewrite zlen_app in *.
  destruct (zsplit p2 20) as (b & w & -> & Hb); [lia|]. rewrite zlen_app in *.
  rewrite !bytes_ok_app in Hok. destruct Hok as (_ & _ & Hbok & Hwok).
  assert (zslice (s ++ z ++ b ++ w) 0 4 = s) as Es by zmid (@nil Z) s (z ++ b ++ w).
  assert (zslice (s ++ z ++ b ++ w) 4 16 = z) as Ez by zmid s z (b ++ w).
  assert (zslice (s ++ z ++ b ++ w) 16 36 = b) as Eb by zmid (s ++ z) b w.
  assert (zslice (s ++ z ++ b ++ w) 36 68 = w) as Ew.
  { apply (zslice_mid _ (s ++ z ++ b) w []); [by rewrite app_nil_r, <- !app_assoc|rewrite !zlen_app; lia|lia]. }
  rewrite Es, Ez, Eb, Ew in *. destruct (word_from_be w) as [Ew' Hu]; [unfold zlen in *; lia|done|].
  match goal with E : existsb _ z = false |- _ => apply existsb_nonzero in E; rename E into Ezero end.
  assert (length z = 12%nat) as Hlz by (unfold zlen in Hz; lia). rewrite Hlz in Ezero.
  match goal with E : (_, _) = (_, _) |- _ => injection E as <- <- end.
  assert (address_bytes a b) as Ha by (split; [unfold zlen in Hb; lia|done]).
  exists b. split; [done|]. split; [done|]. rewrite (encode_pair_bytes _ _ b) by done. rewrite Ew', <- Ezero. by subst.
Qed.

Lemma decode_transfer_inv body r m :
  bytes_ok body → decode_transfer body = Ok (Some (r, m)) →
  ∃ b, address_bytes r b ∧ uint256 m ∧ transfer_data r m = Ok body.
Proof. exact (decode_pair_inv TRANSFER_SELECTOR body r m). Qed.

#[export] Program Instance transfer_codec : Codec (str * Z) := {
  encode p := transfer_data p.1 p.2;
  decode := decode_transfer;
  valid p := canonical p.1 ∧ uint256 p.2;
}.
Next Obligation.
  intros [r m] [(b & Hb & _)%canonical_bytes Hm]. cbn [fst snd] in *. change (transfer_data r m) with (encode_pair TRANSFER_SELECTOR r m).
  rewrite (encode_pair_bytes _ r b) by done.
  eexists. split; [done|]. destruct Hb as (Hl & Hok & Hc). split; [|split].
  - rewrite !bytes_ok_app. split_and!; auto with pylib; [compute_decide|]. apply Forall_replicate. lia.
  - rewrite !zlen_app, zlen_to_be. unfold uint256. unfold zlen. rewrite Hl, length_replicate.
    change (length TRANSFER_SELECTOR) with 4%nat. lia.
  - by apply (decode_pair_bytes TRANSFER_SELECTOR).
Qed.

(** * The hashes *)

Lemma concat_inj_lengths {A} (xs ys : list (list A)) :
  Forall2 (λ x y, length x = length y) xs ys → concat xs = concat ys → xs = ys.
Proof.
  induction 1 as [|x y xs ys H _ IH]; [done|]. cbn [concat]. intros E. apply app_inj_1 in E as [-> E]; [|done].
  by rewrite IH.
Qed.

(** The fields of a transaction as 32-byte words, the data by its hash. *)
Definition tx_words (tx : SafeTx) (t g r n : Z) : list bytes :=
  [SAFE_TX_TYPEHASH; to_be 32 t; to_be 32 (value tx); keccak256 (data tx); to_be 32 (operation tx);
   to_be 32 (safe_tx_gas tx); to_be 32 (base_gas tx); to_be 32 (gas_price tx); to_be 32 g; to_be 32 r; to_be 32 n].

Lemma address_word_Ok a w : address_word a = Ok w ↔ ∃ n, py_int16 a = Ok n ∧ uint256 n ∧ w = to_be 32 n.
Proof.
  unfold address_word. split.
  - intros H. inv_ok. apply word_Ok in H as [? ->]. eauto.
  - intros (n & -> & Hn & ->). by apply word_ok.
Qed.

Lemma message_hash_Ok tx h :
  message_hash tx = Ok h →
  ∃ t g r n, py_int16 (to tx) = Ok t ∧ py_int16 (gas_token tx) = Ok g ∧ py_int16 (refund_receiver tx) = Ok r ∧
    nonce tx = Some n ∧
    Forall uint256 [t; value tx; operation tx; safe_tx_gas tx; base_gas tx; gas_price tx; g; r; n] ∧
    h = keccak256 (concat (tx_words tx t g r n)).
Proof.
  unfold message_hash. intros H. inv_ok. subst.
  repeat match goal with H : address_word _ = Ok _ |- _ => apply address_word_Ok in H as (? & ? & ? & ->) end.
  repeat match goal with H : word _ = Ok _ |- _ => apply word_Ok in H as [? ->] end.
  do 4 eexists. do 4 (split; [eassumption || reflexivity|]). split; [by repeat (constructor; [assumption|])|].
  unfold tx_words. cbn [concat]. by rewrite app_nil_r.
Qed.

Lemma domain_hash_Ok c s h :
  domain_hash c s = Ok h →
  ∃ n, py_int16 s = Ok n ∧ uint256 c ∧ uint256 n ∧ h = keccak256 (concat [DOMAIN_TYPEHASH; to_be 32 c; to_be 32 n]).
Proof.
  unfold domain_hash. intros H. inv_ok.
  match goal with H : address_word _ = Ok _ |- _ => apply address_word_Ok in H as (? & ? & ? & ->) end.
  match goal with H : word _ = Ok _ |- _ => apply word_Ok in H as [? ->] end.
  eexists. do 3 (split; [eassumption|]). rewrite <- H. cbn [concat]. by rewrite app_nil_r.
Qed.

(** The same transaction: equal fields, addresses up to their spelling. *)
Definition same_tx (tx tx' : SafeTx) : Prop :=
  py_int16 (to tx) = py_int16 (to tx') ∧ value tx = value tx' ∧ data tx = data tx' ∧ operation tx = operation tx' ∧
  nonce tx = nonce tx' ∧ safe_tx_gas tx = safe_tx_gas tx' ∧ base_gas tx = base_gas tx' ∧ gas_price tx = gas_price tx' ∧
  py_int16 (gas_token tx) = py_int16 (gas_token tx') ∧ py_int16 (refund_receiver tx) = py_int16 (refund_receiver tx').

Lemma tx_words_ok tx t g r n : bytes_ok (concat (tx_words tx t g r n)).
Proof.
  apply Forall_concat. change (Forall bytes_ok (tx_words tx t g r n)). unfold tx_words.
  repeat (constructor; [solve [auto with pylib | compute_decide]|]). constructor.
Qed.

Ltac words_eq :=
  repeat match goal with
  | H : Forall uint256 (_ :: _) |- _ => apply Forall_cons in H as [? H]
  | H : _ :: _ = _ :: _ |- _ => apply cons_eq_inv in H as [? H]
  | H : to_be 32 _ = to_be 32 _ |- _ => apply to_be_32_inj in H; [|assumption..]
  end.

Lemma message_hash_inj tx tx' h :
  bytes_ok (data tx) → bytes_ok (data tx') → message_hash tx = Ok h → message_hash tx' = Ok h → same_tx tx tx' ∨ collision.
Proof.
  intros Hd Hd' (t & g & r & n & Ht & Hg & Hr & Hn & Hu & ->)%message_hash_Ok
    (t' & g' & r' & n' & Ht' & Hg' & Hr' & Hn' & Hu' & E)%message_hash_Ok.
  apply keccak_eq_or_collision in E as [E|]; [|by right|apply tx_words_ok..].
  apply concat_inj_lengths in E.
  2: { unfold tx_words. repeat (constructor; [by rewrite ?length_to_be, ?length_keccak256|]). constructor. }
  unfold tx_words in E. words_eq.
  match goal with H : keccak256 _ = keccak256 _ |- _ => apply keccak_eq_or_collision in H as [H|]; [|by right|done..] end.
  left. unfold same_tx. rewrite Ht, Ht', Hg, Hg', Hr, Hr', Hn, Hn'. split_and!; congruence.
Qed.

Lemma domain_hash_inj c s c' s' h :
  domain_hash c s = Ok h → domain_hash c' s' = Ok h → (c = c' ∧ py_int16 s = py_int16 s') ∨ collision.
Proof.
  intros (n & Hn & Hc & Hu & ->)%domain_hash_Ok (n' & Hn' & Hc' & Hu' & E)%domain_hash_Ok.
  assert (∀ a b, bytes_ok (concat [DOMAIN_TYPEHASH; to_be 32 a; to_be 32 b])) as Hok.
  { intros a b. apply Forall_concat. change (Forall bytes_ok [DOMAIN_TYPEHASH; to_be 32 a; to_be 32 b]).
    repeat (constructor; [solve [auto with pylib | compute_decide]|]). constructor. }
  apply keccak_eq_or_collision in E as [E|]; [|by right|done..]. left.
  apply concat_inj_lengths in E.
  2: { repeat (constructor; [by rewrite ?length_to_be|]). constructor. }
  words_eq. split; congruence.
Qed.


Definition tx_a : SafeTx := plain_tx "0x9641d764fc13c8B624c04430C7356C1C7C8102e2"%string 0 [1; 2; 3] 1 (Some 42).


(** The type hashes the contract is compiled with, asserted at import. *)
Lemma typehashes :
  hex DOMAIN_TYPEHASH = "47e79534a245952e8b16893a336b85a3d9ea9fa8c573f3d803afb92a79469218"%string ∧
  hex SAFE_TX_TYPEHASH = "bb8310d486368db6bd6f849402fdd73ad53d316b5a4b2644ad6efe0f941286d8"%string.
Proof. by vm_compute. Qed.

(** * Transactions made of transfers *)

Lemma mapM_fmap {A B C} (f : B → result C) (g : A → B) l : mapM f (g <$> l) = mapM (λ x, f (g x)) l.
Proof. induction l as [|x l IH]; [done|]. cbn [fmap list_fmap mapM]. by rewrite IH. Qed.

(** The calls of a list of recipients. *)
Definition token_calls (token : str) (ts : list (str * Z)) : list (str * (str * Z)) := (λ t, (token, t)) <$> ts.

Definition pair_of (r : Row) : str * Z := (address r, amount r).

Lemma multisend_data_batch token rows :
  multisend_data token rows = (packed ← pack_batch (token_calls token (pair_of <$> rows)); multisend_bytes (concat packed)).
Proof. unfold multisend_data, pack_batch, token_calls. by rewrite !mapM_fmap. Qed.

Lemma transfer_data_length r m d : transfer_data r m = Ok d → zlen d = 68.
Proof. exact (encode_pair_length TRANSFER_SELECTOR r m d). Qed.

(** A batch is as long as its calls and their 85 bytes of framing. *)
Lemma pack_batch_length `{Codec A} (k : Z) (xs : list (str * A)) es :
  (∀ a b, encode a = Ok b → zlen b ≤ k) → Forall (λ p, readable p.1) xs →
  pack_batch xs = Ok es → zlen (concat es) ≤ (85 + k) * zlen xs.
Proof.
  intros Hk Hx He%mapM_Ok_Forall2. induction He as [|[t a] e xs es H' _ IH]; [by unfold zlen; cbn; lia|].
  inversion_clear Hx as [|?? [tb Ht] Hx']. cbn [fst snd] in *. inv_ok.
  destruct (decide (uint256 (zlen a0))) as [Hu|Hu].
  - rewrite (pack_call_ok t tb) in H' by done. apply Ok_inj in H' as <-. cbn [concat].
    rewrite zlen_app, raw_entry_length by apply Ht. match goal with E : encode _ = Ok _ |- _ => apply Hk in E end.
    specialize (IH Hx'). change (zlen ((t, a) :: xs)) with (Z.of_nat (S (length xs))). unfold zlen in *. lia.
  - exfalso. unfold pack_call in H'. inv_ok. match goal with E : word (zlen a0) = Ok _ |- _ => apply word_Ok in E as [? _] end. done.
Qed.

Definition payable (r : Row) : Prop := canonical (address r) ∧ uint256 (amount r).

(** Within a count no batch of the program comes near. *)
Definition MAX_ROWS : Z := 2 ^ 200.

Lemma token_calls_valid token rows :
  canonical token → Forall payable rows → Forall (λ p, readable p.1 ∧ valid p.2) (token_calls token (pair_of <$> rows)).
Proof.
  intros Ht%canonical_readable Hr. unfold token_calls. rewrite !Forall_fmap. eapply Forall_impl; [exact Hr|]. by intros r [? ?].
Qed.

Lemma multisend_data_success token rows :
  canonical token → Forall payable rows → zlen rows ≤ MAX_ROWS → ∃ data, multisend_data token rows = Ok data.
Proof.
  intros Ht Hr Hn. set (xs := token_calls token (pair_of <$> rows)).
  pose proof (token_calls_valid token rows Ht Hr) as Hx.
  destruct (pack_batch_entries xs Hx) as (es & _ & He & _ & _ & Hok).
  rewrite multisend_data_batch. fold xs. rewrite He. cbn [mbind result_bind].
  destruct (multisend_bytes_ok (concat es)) as (data & Hd & _); [|by apply Forall_concat|by exists data].
  assert (zlen (concat es) ≤ (85 + 68) * zlen xs) as Hl.
  { eapply pack_batch_length; [|eapply Forall_impl; [exact Hx|]; by intros ? [? _]|done].
    intros [r m] b Hb. apply transfer_data_length in Hb. lia. }
  assert (zlen xs = zlen rows) as Hxl by (unfold zlen, xs, token_calls; by rewrite !length_fmap).
  unfold uint256, MAX_ROWS in *. pose proof (zlen_nonneg (concat es)). lia.
Qed.

Lemma transfer_data_payable r d :
  canonical (address r) → transfer_data (address r) (amount r) = Ok d → payable r.
Proof.
  intros Hc H. split; [done|]. unfold transfer_data in H. inv_ok.
  by match goal with E : word (amount r) = Ok _ |- _ => apply word_Ok in E as [? _] end.
Qed.

(** Call data that was written reads back as the calls it was made for. *)
Lemma multisend_data_reads token rows data :
  canonical token → Forall (λ r, canonical (address r)) rows → multisend_data token rows = Ok data →
  bytes_ok data ∧ Forall payable rows ∧
  ∃ calls, decode_multisend data = Ok (Some calls) ∧ Forall2 reads_as (token_calls token (pair_of <$> rows)) calls.
Proof.
  intros Ht Hc H. assert (Forall payable rows) as Hr.
  { unfold multisend_data in H. inv_ok. match goal with E : mapM _ rows = Ok _ |- _ => apply mapM_Ok_all in E; rename E into Em end.
    rewrite Forall_forall in *. intros r Hin. destruct (Em r Hin) as [e He]. inv_ok. eapply transfer_data_payable; eauto. }
  rewrite multisend_data_batch in H. inv_ok.
  match goal with E : pack_batch _ = Ok ?es |- _ =>
    destruct (multisend_batch _ es (token_calls_valid token rows Ht Hr) E) as (data' & calls & Hd & Hok & Hdec & Hrd) end.
  - unfold multisend_bytes in H. inv_ok.
    by match goal with E : word (zlen _) = Ok _ |- _ => apply word_Ok in E as [? _] end.
  - rewrite H in Hd. apply Ok_inj in Hd as <-. eauto.
Qed.

Lemma describe_reads (xs : list (str * (str * Z))) calls ts n :
  Forall2 reads_as xs calls → foldM describe_call (ts, n) calls = Ok (ts ++ ((λ p, (p.1, p.2.1, p.2.2)) <$> xs), n).
Proof.
  intros H. revert ts. induction H as [|[t [r m]] c xs calls (body & -> & _ & Hd) _ IH]; intros ts; [by rewrite app_nil_r|].
  cbn [foldM describe_call fst snd] in *. change (decode_transfer body = Ok (Some (r, m))) in Hd. rewrite Hd.
  cbn [mbind result_bind andb Z.eqb CALL]. rewrite IH, <- app_assoc. done.
Qed.

Lemma token_transfer_reads token (xs : list (str * (str * Z))) calls ts ps (f : nat → Z) :
  Forall (λ p, p.1 = token) xs → Forall2 reads_as xs calls →
  foldM (token_transfer_call token) (ts, ps) (imap (λ i c, (f i, c)) calls) = Ok (ts ++ (snd <$> xs), ps).
Proof.
  intros Hx H. revert ts f Hx. induction H as [|[t d] c xs calls (body & -> & _ & Hd) _ IH]; intros ts f Hx; [by rewrite app_nil_r|].
  inversion_clear Hx as [|?? Ht Hx']. cbn [imap foldM token_transfer_call fst snd] in *.
  change (decode_transfer body = Ok (Some d)) in Hd. rewrite Hd. cbn [mbind result_bind andb Z.eqb CALL].
  rewrite bool_decide_eq_true_2 by by subst. cbn [mbind result_bind].
  specialize (IH (ts ++ [d]) (f ∘ S) Hx'). unfold compose in *. rewrite IH, <- app_assoc. done.
Qed.

Lemma token_calls_snd token ts : snd <$> token_calls token ts = ts.
Proof. unfold token_calls. rewrite <- list_fmap_compose. apply list_fmap_id. Qed.

Lemma elem_of_if_nil {A} (x y : A) (b : bool) : x ∈ (if b then [] else [y]) → b = false ∧ x = y.
Proof. destruct b; [by intros []%not_elem_of_nil|]. by intros ->%list_elem_of_singleton. Qed.

Definition triples (token : str) (rows : list Row) : list (str * str * Z) := (λ r, (token, address r, amount r)) <$> rows.

Lemma triples_calls token rows :
  (λ p : str * (str * Z), (p.1, p.2.1, p.2.2)) <$> token_calls token (pair_of <$> rows) = triples token rows.
Proof. unfold token_calls, triples. by rewrite <- !list_fmap_compose. Qed.

(** Lines that would tell a signer that something else is in the transaction. *)
Definition clean_lines (lines : list summary_line) : Prop := NotDecoded ∉ lines ∧ OtherCalls ∉ lines.

Lemma pays_no_refund to_ v d op n : pays_gas_refund (plain_tx to_ v d op n) = Ok false.
Proof. by vm_compute. Qed.

Lemma describe_batch token to_ d calls rows :
  decode_multisend d = Ok (Some calls) → Forall2 reads_as (token_calls token (pair_of <$> rows)) calls →
  ∃ lines, describe_calls to_ d DELEGATECALL = Ok (lines, triples token rows) ∧ clean_lines lines.
Proof.
  intros Hd Hr. unfold describe_calls. cbn [DELEGATECALL Z.eqb Pos.eqb]. rewrite Hd. cbn [mbind result_bind].
  rewrite (describe_reads _ _ [] 0 Hr). cbn [mbind result_bind app]. rewrite triples_calls. eexists. split; [done|].
  cbn [Z.eqb]. rewrite app_nil_r. unfold clean_lines. rewrite !not_elem_of_cons, !not_elem_of_app.
  split; (split; [done|split; [by intros (? & ? & _)%list_elem_of_fmap|by intros [_ ?]%elem_of_if_nil]]).
Qed.

Lemma transfers_tx_batch token multisend rows n :
  length rows ≠ 1%nat →
  transfers_tx token multisend rows n =
    (d ← multisend_data token rows; Ok (plain_tx multisend 0 d DELEGATECALL n)).
Proof. by destruct rows as [|? [|? ?]]. Qed.

(** What a transaction that was built shows to a signer and to the queue check. *)
Definition shows (token multisend : str) (rows : list Row) (tx : SafeTx) : Prop :=
  (∃ lines, describe_calls (to tx) (data tx) (operation tx) = Ok (lines, triples token rows) ∧ clean_lines lines) ∧
  (lower multisend ∈ OFFICIAL_MULTISEND_CALL_ONLY → token_transfers tx token = Ok (pair_of <$> rows, [])).

Lemma transfers_tx_shows token multisend rows n tx :
  canonical token → Forall (λ r, canonical (address r)) rows → transfers_tx token multisend rows n = Ok tx →
  bytes_ok (data tx) ∧ Forall payable rows ∧ shows token multisend rows tx ∧ nonce tx = n.
Proof.
  intros Ht Hc H. destruct (decide (length rows = 1%nat)) as [Hl|Hl].
  - destruct rows as [|r [|? ?]]; try done. apply Forall_inv in Hc. cbn [transfers_tx] in H. inv_ok. subst tx.
    match goal with E : transfer_data _ _ = Ok ?d |- _ => pose proof (transfer_data_payable r d Hc E) as [_ Hu]; rename E into He, d into d0 end.
    destruct (codec_law (address r, amount r)) as (d & He' & Hok & _ & Hd); [done|].
    change (transfer_data (address r) (amount r) = Ok d) in He'. rewrite He in He'. apply Ok_inj in He' as <-.
    change (decode_transfer d0 = Ok (Some (address r, amount r))) in Hd.
    split; [done|]. split; [by apply Forall_singleton|]. split; [|done]. split.
    + unfold describe_calls, plain_tx. cbn [operation to data DELEGATECALL CALL Z.eqb mbind result_bind]. rewrite Hd.
      cbn [mbind result_bind]. rewrite (ca_checksum _ Ht). cbn [mbind result_bind]. eexists. split; [done|].
      split; intros H%list_elem_of_singleton; done.
    + intros _. unfold token_transfers. rewrite pays_no_refund. cbn [plain_tx operation to data value CALL Z.eqb mbind result_bind].
      rewrite Hd. cbn [mbind result_bind]. by rewrite bool_decide_eq_true_2.
  - rewrite transfers_tx_batch in H by done. inv_ok. subst tx.
    match goal with E : multisend_data _ _ = Ok _ |- _ =>
      destruct (multisend_data_reads _ _ _ Ht Hc E) as (Hok & Hr & calls & Hdec & Hrd) end.
    split; [done|]. split; [done|]. split; [|done]. split.
    + cbn [plain_tx operation to data]. by eapply describe_batch.
    + intros Ho. unfold token_transfers. rewrite pays_no_refund.
      cbn [plain_tx operation to data value DELEGATECALL CALL Z.eqb mbind result_bind app]. rewrite Hdec.
      rewrite bool_decide_eq_true_2 by done. cbn [app].
      rewrite (token_transfer_reads token (token_calls token (pair_of <$> rows)) calls [] [] (λ i, Z.of_nat i + 1));
        [by rewrite token_calls_snd| |done].
      unfold token_calls. rewrite !Forall_fmap. by apply Forall_true.
Qed.

Lemma transfers_tx_success token multisend rows n :
  canonical token → Forall payable rows → zlen rows ≤ MAX_ROWS → ∃ tx, transfers_tx token multisend rows n = Ok tx.
Proof.
  intros Ht Hr Hn. destruct (decide (length rows = 1%nat)) as [Hl|Hl].
  - destruct rows as [|r [|? ?]]; try done. apply Forall_inv in Hr as [Hc Hu]. cbn [transfers_tx].
    destruct (codec_law (address r, amount r)) as (d & He & _); [done|].
    change (transfer_data (address r) (amount r) = Ok d) in He. rewrite He. eauto.
  - rewrite transfers_tx_batch by done. destruct (multisend_data_success token rows) as [d ->]; [done..|]. eauto.
Qed.

(** The transaction built for a list of recipients pays exactly that list:
    building it succeeds, the summary a signer gets from its call data lists every
    recipient with its amount, in order, on the token and nothing else, and, sent
    through an official MultiSendCallOnly, the queue check finds the same transfers
    and no problem. *)
Theorem transfers_tx_pays_rows token multisend rows n :
  canonical token → Forall payable rows → zlen rows ≤ MAX_ROWS →
  ∃ tx, transfers_tx token multisend rows n = Ok tx ∧ bytes_ok (data tx) ∧ shows token multisend rows tx.
Proof.
  intros Ht Hr Hn. destruct (transfers_tx_success token multisend rows n) as [tx H]; [done..|].
  exists tx. split; [done|]. eapply transfers_tx_shows in H as (? & _ & ? & _); [done|done|].
  eapply Forall_impl; [exact Hr|]. by intros r [? _].
Qed.

Definition w_token : str := "0x5aAeb6053F3E94C9b9A09f33669435E7Ef1BeAed"%string.
Definition w_multisend : str := "0x9641d764fc13c8B624c04430C7356C1C7C8102e2"%string.
Definition w_rows : list Row :=
  [MkRow "0xfB6916095ca1df60bB79Ce92cE3Ea74c37c5d359"%string 5 []; MkRow "0xdbF03B407c01E7cD3CBea99509d93f8DDDC8C6FB"%string (10 ^ 21) []].

Lemma w_canonical : Forall canonical [w_token; "0xfB6916095ca1df60bB79Ce92cE3Ea74c37c5d359"%string : str;
  "0xdbF03B407c01E7cD3CBea99509d93f8DDDC8C6FB"%string : str].
Proof.
  repeat (apply Forall_cons_2; [match goal with |- canonical ?a => apply (normalize_canonical a a) end; vm_compute; reflexivity|]).
  constructor.
Qed.

Lemma w_payable : Forall payable w_rows.
Proof.
  pose proof w_canonical as H. inversion_clear H as [|?? _ H1]. inversion_clear H1 as [|?? Ha H2]. inversion_clear H2 as [|?? Hb _].
  do 2 (apply Forall_cons_2; [split; [done|compute_decide]|]). constructor.
Qed.

Lemma transfers_tx_pays_rows_witness :
  ∃ tx, transfers_tx w_token w_multisend w_rows (Some 7) = Ok tx ∧ bytes_ok (data tx) ∧ shows w_token w_multisend w_rows tx.
Proof.
  apply (transfers_tx_pays_rows w_token w_multisend w_rows (Some 7)).
  - exact (Forall_inv w_canonical).
  - exact w_payable.
  - vm_compute. discriminate.
Defined.

(** What a loop without problems went through: plain calls of the token. *)
Definition plain_transfer (token : str) (ic : Z * call) (t : str * Z) : Prop :=
  ∃ target body, ic.2 = (CALL, target, 0, body) ∧ lower target = lower token ∧ decode_transfer body = Ok (Some t).

Lemma token_transfer_calls_inv token l ts :
  foldM (token_transfer_call token) ([], []) l = Ok (ts, []) → Forall2 (plain_transfer token) l ts.
Proof.
  intros H. refine (foldM_inv (λ pre st, st.2 = [] → Forall2 (plain_transfer token) pre st.1)
    (token_transfer_call token) ([], []) l (ts, []) _ _ H eq_refl); [constructor|].
  intros pre [i [[[op target] v] body]] [ts' ps] st' IH Hs Hp. unfold token_transfer_call in Hs. inv_ok.
  destruct a as [t|]; [destruct (_ && _) eqn:E'|]; apply Ok_inj in Hs as <-; cbn [fst snd] in *.
  - zbool. subst. apply Forall2_app; [by apply IH|]. constructor; [|constructor]. by exists target, body.
  - by destruct ps.
  - by destruct ps.
Qed.

(** The calls a batch decodes to re-encode to its bytes. *)
Lemma plain_transfers_packed token calls es l ts :
  canonical token → Forall2 entry_of calls es → snd <$> l = calls → Forall2 (plain_transfer token) l ts →
  pack_batch (token_calls token ts) = Ok es.
Proof.
  intros (tb & Ht & _)%canonical_bytes He Hl Hp. revert calls es He Hl.
  induction Hp as [|[i c] [r m] l ts (target & body & Hc & Hlow & Hd) _ IH]; intros calls es He <-.
  { inversion_clear He. done. }
  inversion He as [|c' e calls' es' Hce He' E1 E2]. subst. cbn [snd] in Hc. subst c. clear He.
  destruct Hce as (b & Hb & _ & _ & Hsz & Hbok & ->).
  destruct (address_bytes_inj _ _ _ _ Hb Ht Hlow) as [-> ->].
  apply decode_transfer_inv in Hd as (rb & Hrb & Hu & Htd); [|done].
  unfold pack_batch, token_calls. cbn [fmap list_fmap mapM fst snd]. change (encode (r, m)) with (transfer_data r m).
  rewrite Htd. cbn [mbind result_bind]. rewrite (pack_call_ok _ tb) by done. cbn [mbind result_bind].
  specialize (IH _ _ He' eq_refl). unfold pack_batch, token_calls in IH. by rewrite IH.
Qed.


Definition w_tx : SafeTx := Eval vm_compute in from_ok tx_a (transfers_tx w_token w_multisend w_rows (Some 7)).


(** C40: Decoding call data always ends with an answer about the bytes: the loop over
    the packed list never needs more than one round per byte, whatever the bytes,
    and when it succeeds the calls it returns re-encode to the whole packed list. *)
Theorem decode_multisend_total d :
  bytes_ok d →
  decode_multisend d ≠ Raise (RuntimeError "fuel") ∧
  (∀ packed k, multisend_packed d = Ok packed →
     decode_calls (length packed + k) packed 0 = decode_calls (length packed) packed 0) ∧
  (∀ calls, decode_multisend d = Ok (Some calls) →
     ∃ es, Forall2 entry_of calls es ∧ multisend_packed d = Ok (concat es)).
Proof.
  intros Hok. assert (∀ packed, multisend_packed d = Ok packed → bytes_ok packed) as Hp.
  { intros packed H. unfold multisend_packed in H. inv_ok. subst. by apply zslice_ok. }
  split_and!.
  - unfold decode_multisend. destruct (_ || _); [done|]. destruct (multisend_packed d) as [packed|e] eqn:E; cbn [mbind result_bind].
    + pose proof (decode_calls_fuel (length packed) packed 0 (Hp _ eq_refl) ltac:(lia) ltac:(unfold zlen; lia)) as [_ Hf].
      destruct (decode_calls _ _ _); cbn [mbind result_bind]; [done|congruence].
    + unfold multisend_packed in E. destruct (negb _); congruence.
  - intros packed k H. induction k as [|k IH]; [by rewrite Nat.add_0_r|]. rewrite Nat.add_succ_r, <- IH.
    apply decode_calls_fuel; [by apply Hp|lia|unfold zlen; lia].
  - intros calls Hc. by apply decode_multisend_inv.
Qed.

Lemma decode_multisend_total_witness :
  decode_multisend (data w_tx) ≠ Raise (RuntimeError "fuel") ∧
  (∀ packed k, multisend_packed (data w_tx) = Ok packed →
     decode_calls (length packed + k) packed 0 = decode_calls (length packed) packed 0) ∧
  (∀ calls, decode_multisend (data w_tx) = Ok (Some calls) →
     ∃ es, Forall2 entry_of calls es ∧ multisend_packed (data w_tx) = Ok (concat es)).
Proof. apply (decode_multisend_total (data w_tx)). compute_decide. Defined.
