(* ===== verification/SafeBatch.v ===== *)
(** Payments from the Safe: [_tx_builder_serialize] to [cmd_build],
    [verify_offline] and the offline part of [cmd_verify] of
    airdrop/tools/safe_batch.py.

    An output directory is its list, its manifest and one folder per Safe
    transaction.  Shown here: a list is cut into transactions of at most the
    asked number of transfers without losing or moving a row; what [cmd_build]
    writes [verify_offline] accepts; and a directory it accepts pays every row of
    its list once, in transactions whose recorded hashes are those of the stored
    transactions. *)

From S2P Require Import Prelude PyStr PyDict Csv Keccak Sha256 Abi BatchTree Bech32 Address Amount Recipients Json SafeTx.
Local Open Scope Z_scope.

(** * The code *)

Definition FORMAT : str := "safe-direct-transfer/v1"%string.
Definition DEFAULT_MAX_TRANSFERS : Z := 300.
Definition MAX_TRANSFERS : Z := 450.
Definition TX_BUILDER_VERSION : str := "1.19.0"%string.

Definition obj (items : list (string * json)) : json := JObj (map (λ p : string * json, (p.1 : str, p.2)) items).

Definition TRANSFER_METHOD : json := obj [
  ("inputs"%string, JList [
     obj [("internalType"%string, JStr "address"%string); ("name"%string, JStr "to"%string); ("type"%string, JStr "address"%string)];
     obj [("internalType"%string, JStr "uint256"%string); ("name"%string, JStr "value"%string); ("type"%string, JStr "uint256"%string)]]);
  ("name"%string, JStr "transfer"%string);
  ("payable"%string, JBool false)].

(** ** The Transaction Builder file *)

(** The items are serialized, then put in the order of the sorted keys. *)
Fixpoint tx_builder_serialize (j : json) : str :=
  match j with
  | JList l => "["%string ++ join ","%string (tx_builder_serialize <$> l) ++ "]"%string
  | JObj o =>
      let items := sort_str fst ((λ kv, (kv.1, tx_builder_serialize kv.2)) <$> o) in
      let keys := "["%string ++ join ","%string (dumps_str <$> (fst <$> items)) ++ "]"%string in
      "{"%string ++ keys ++ concat ((λ kv, kv.2 ++ ","%string) <$> items) ++ "}"%string
  | _ => dumps_scalar j
  end.

(** [copy["meta"].pop("checksum", None)], then [copy["meta"]["name"] = None], on a
    copy of the batch. *)
Definition tx_builder_checksum (batch : dict str json) : result str :=
  meta ← of_option (dget batch "meta"%string) (KeyError "meta"%string);
  match meta with
  | JObj m =>
      let m := dset (dpop m "checksum"%string) "name"%string JNull in
      Ok (Airdrop.hex0x (keccak256 (ords (tx_builder_serialize (JObj (dset batch "meta"%string (JObj m)))))))
  | JList _ => Raise (TypeError "pop expected at most 1 argument, got 2")
  | _ => Raise (AttributeError "object has no attribute 'pop'")
  end.

Definition tx_builder_transaction (token : str) (r : Row) : json := obj [
  ("to"%string, JStr token); ("value"%string, JStr "0"%string); ("data"%string, JNull);
  ("contractMethod"%string, TRANSFER_METHOD);
  ("contractInputsValues"%string, obj [("to"%string, JStr (address r)); ("value"%string, JStr (str_of_Z (amount r)))])].

Definition tx_builder_transactions (token : str) (rows : list Row) : json :=
  JList (tx_builder_transaction token <$> rows).

Definition tx_builder_meta (safe name description : str) (checksum : list (str * json)) : json :=
  JObj ([("name"%string : str, JStr name); ("description"%string : str, JStr description);
         ("txBuilderVersion"%string : str, JStr TX_BUILDER_VERSION); ("createdFromSafeAddress"%string : str, JStr safe);
         ("createdFromOwnerAddress"%string : str, JStr [])] ++ checksum).

Definition tx_builder_batch (chain_id : Z) (transactions : json) (meta : json) (created_at_ms : Z) : dict str json :=
  [("version"%string : str, JStr "1.0"%string); ("chainId"%string : str, JStr (str_of_Z chain_id));
   ("createdAt"%string : str, JInt created_at_ms); ("meta"%string : str, meta);
   ("transactions"%string : str, transactions)].

(** The file and its checksum, [builder["meta"]["checksum"]]. *)
Definition tx_builder_file (chain_id : Z) (safe token : str) (rows : list Row) (name description : str)
    (created_at_ms : Z) : result (dict str json * str) :=
  let transactions := tx_builder_transactions token rows in
  checksum ← tx_builder_checksum
    (tx_builder_batch chain_id transactions (tx_builder_meta safe name description []) created_at_ms);
  let meta := tx_builder_meta safe name description [("checksum"%string : str, JStr checksum)] in
  Ok (tx_builder_batch chain_id transactions meta created_at_ms, checksum).

(** ** Splitting a list into Safe transactions *)

(** [a // b] and [divmod(a, b)]. *)
Definition floordiv (a b : Z) : result Z := if b =? 0 then Raise ZeroDivisionError else Ok (a / b).

(** [[x] * n]. *)
Definition times {A} (x : A) (n : Z) : list A := replicate (Z.to_nat n) x.

Definition split_sizes (count max_transfers : Z) (first : option Z) : result (list Z) :=
  let '(sizes, left_) := match first with
                        | Some first => if first =? 0 then ([], count) else ([Z.min first count], count - Z.min first count)
                        | None => ([], count)
                        end in
  if left_ =? 0 then Ok sizes else
  q ← floordiv (- left_) max_transfers;
  let parts := - q in
  base ← floordiv left_ parts;
  let extra := left_ mod parts in
  Ok (sizes ++ times (base + 1) extra ++ times base (parts - extra)).

(** [l[i:j]], a negative bound counting from the end. *)
Definition py_index {A} (l : list A) (i : Z) : Z := if i <? 0 then Z.max 0 (zlen l + i) else i.
Definition py_slice {A} (l : list A) (i j : Z) : list A := zslice l (py_index l i) (py_index l j).

Definition slices_step {A} (rows : list A) (st : list (list A) * Z) (size : Z) : list (list A) * Z :=
  (st.1 ++ [py_slice rows st.2 (st.2 + size)], st.2 + size).
Definition slices {A} (rows : list A) (sizes : list Z) : list (list A) := (foldl (slices_step rows) ([], 0) sizes).1.

(** The folder's name. *)
Definition tx_dir (index : Z) (nonce : option Z) : str :=
  match nonce with
  | None => "tx-"%string ++ dec_pad 2 index
  | Some n => "tx-"%string ++ dec_pad 2 index ++ "-nonce-"%string ++ str_of_Z n
  end.

Definition recipients_record (r : Row) : list str :=
  [address r; str_of_Z (amount r); remove_char ","%char (format_one (amount r))].

(** The text [write_recipients] writes and the hash it returns. *)
Definition recipients_text (rows : list Row) : str :=
  csv_write (["address"%string : str; "amount_atto"%string : str; "amount_tokens"%string : str]
             :: (recipients_record <$> rows)).
Definition write_recipients (rows : list Row) : str * str :=
  let text := recipients_text rows in (text, sha256_file (ords text)).

Definition read_recipients (path text : str) : result (list Row) :=
  '(rows, _) ← read_rows path (FileAt text) (Some ("address"%string : str)) (Some ("amount_atto"%string : str))
                 (Some ("atto"%string : str)) false;
  Ok rows.

Definition pairs (rows : list Row) : list (str * Z) := pair_of <$> rows.

Definition multisend_for (version : str) (override : option str) : result str :=
  match given override with
  | Some o => normalize_address o
  | None => l ← of_option (dget MULTISEND_CALL_ONLY version) (KeyError version); of_option (head l) IndexError
  end.

Definition build_transactions (chain_id : Z) (safe token multisend : str) (rows : list Row) (sizes : list Z)
    (first_nonce : option Z) : result (list (list Row * SafeTx)) :=
  mapM (λ ic : Z * list Row,
      tx ← transfers_tx token multisend ic.2 ((λ n, n + ic.1) <$> first_nonce); Ok (ic.2, tx))
    (enumerate (slices rows sizes)).

(** ** build *)

(** The node [resolve_safe] asks: its chain, the code at an address, and the result
    of a call without arguments to a contract. *)
Record node := MkNode {
  rpc_chain_id : result Z; rpc_get_code : str → result str; rpc_eth_call : str → str → result str }.

(** [raw[:32]] and so on of [decode_string]; bytes that are not ASCII are outside the model. *)
Definition decode_string (res : str) : result str :=
  raw ← Airdrop.unhex res;
  let offset := from_be (zslice raw 0 32) in
  let length_ := from_be (zslice raw offset (offset + 32)) in
  Ok (chr <$> zslice raw (offset + 32) (offset + 32 + length_)).

Record args := MkArgs {
  a_safe : option str; a_token : option str; a_chain_id : option Z; a_safe_version : option str;
  a_nonce : option Z; a_no_nonce : bool; a_multisend : option str; a_max_transfers : Z; a_first_transfers : option Z;
  a_input : str; a_location : location; a_address_column : option str; a_amount_column : option str;
  a_amount_unit : option str; a_order : str; a_merge_duplicates : bool; a_expect_total : option str;
  a_expect_count : option Z; a_exists : bool; a_force : bool; a_label : option str }.

Record parameter_sources := MkSources { src_version : str; src_nonce : str; src_chain_id : str }.

Record resolved := MkResolved {
  rs_safe : str; rs_token : str; rs_chain_id : Z; rs_version : str; rs_nonce : option Z; rs_sources : parameter_sources }.

(** [x or y] of an optional text and the environment's value. *)
Definition or_env (x : option str) (env : dict str str) (key : str) : str :=
  match given x with Some s => s | None => default [] (dget env key) end.

(** What the chain adds: chain id, version and nonce, checked against the given ones. *)
Definition resolve_chain (rpc : node) (safe : str) (a : args) : result (Z * str * option Z) :=
  rpc_chain ← rpc_chain_id rpc;
  _ ← raise_if (match a_chain_id a with Some c => negb (c =? rpc_chain) | None => false end)
        (InputError "--chain-id but the RPC is on another chain");
  code ← rpc_get_code rpc safe;
  _ ← raise_if (bool_decide ((code : str) = "0x"%string) || bool_decide ((code : str) = "0x0"%string)) (InputError "no contract at the Safe address");
  v ← rpc_eth_call rpc safe "VERSION()"%string;
  chain_version ← decode_string v;
  n ← rpc_eth_call rpc safe "nonce()"%string;
  chain_nonce ← Airdrop.decode_word n;
  _ ← raise_if (match a_safe_version a with Some v => negb (bool_decide (v = chain_version)) | None => false end)
        (InputError "--safe-version but the Safe reports another");
  _ ← raise_if (match a_nonce a with Some n => n <? chain_nonce | None => false end) (InputError "--nonce is already used");
  Ok (default rpc_chain (a_chain_id a), default chain_version (a_safe_version a),
      match a_nonce a with Some n => Some n | None => if a_no_nonce a then None else Some chain_nonce end).

Definition source_of {A} (given_ : option A) : str := if given_ then "argument"%string else "chain"%string.

(** [rpc] is the node at the URL of the arguments or the environment. *)
Definition resolve_safe (env : dict str str) (rpc : option node) (a : args) : result resolved :=
  let safe_text := or_env (a_safe a) env "RESERVE_ADDRESS"%string in
  let token_text := or_env (a_token a) env "TOKEN_ADDRESS"%string in
  _ ← raise_if (bool_decide (safe_text = []) || bool_decide (token_text = [])) (InputError "need --safe and --token");
  safe ← normalize_address safe_text;
  token ← normalize_address token_text;
  _ ← raise_if (a_no_nonce a && bool_decide (is_Some (a_nonce a))) (InputError "pass --nonce or --no-nonce, not both");
  '(chain_id, version, nonce) ←
    (match a_chain_id a, a_safe_version a, a_nonce a, a_no_nonce a with
     | Some c, Some v, Some n, _ => Ok (c, v, Some n)
     | Some c, Some v, None, true => Ok (c, v, None)
     | _, _, _, _ => rpc ← of_option rpc (InputError "need --rpc-url"); resolve_chain rpc safe a
     end);
  _ ← raise_if (negb (dmem MULTISEND_CALL_ONLY version)) (InputError "Safe version is not one this tool knows");
  _ ← raise_if (match nonce with Some n => n <? 0 | None => false end || (chain_id <=? 0))
        (InputError "--nonce must be >= 0 and --chain-id > 0");
  Ok (MkResolved safe token chain_id version nonce
        (MkSources (source_of (a_safe_version a))
           (if a_no_nonce a then "none"%string else source_of (a_nonce a)) (source_of (a_chain_id a)))).

Record entry := MkEntry {
  e_index : Z; e_nonce : option Z; e_folder : str; e_first_position : Z; e_recipients : Z; e_amount : str;
  e_amount_display : str; e_recipients_sha256 : str; e_to : str; e_operation : Z; e_data_bytes : Z;
  e_data_keccak256 : str; e_message_hash : option str; e_safe_tx_hash : option str; e_tx_builder_checksum : str }.

Record manifest := MkManifest {
  m_format : str; m_created_utc : str; m_label : option str; m_keccak_backend : str; m_chain_id : Z; m_safe : str;
  m_safe_version : str; m_token : str; m_multisend_call_only : str; m_multisend_is_official : bool;
  m_info : read_info; m_order : str; m_max_transfers : Z; m_first_transfers : option Z; m_first_nonce : option Z;
  m_parameter_sources : parameter_sources; m_recipient_count : Z; m_total_amount : str; m_total_amount_display : str;
  m_recipients_sha256 : str; m_domain_hash : str; m_transactions : list entry }.

(** transaction-builder.json, safe-transaction.json and recipients.csv. *)
Record folder := MkFolder { f_builder : json; f_record : record; f_recipients : str }.

Record safe_dir := MkSafeDir { d_recipients : str; d_manifest : manifest; d_folders : dict str folder }.

(** The time of the build and the name of the keccak implementation. *)
Record clock := MkClock { created_utc : str; created_ms : Z; backend : str }.

Definition tx_name (label : option str) (i count : Z) (nonce : option Z) : str :=
  default ("Direct payment"%string : str) (given label) ++ " - Safe tx "%string ++ str_of_Z i ++ " of "%string
  ++ str_of_Z count ++ match nonce with None => [] | Some n => " - nonce "%string ++ str_of_Z n end.

(** [str(value)] of an optional text, as an f-string prints it. *)
Definition show_opt (o : option str) : str := default ("None"%string : str) o.

Definition tx_description (safe token : str) (chunk : list Row) (rec : record) : str :=
  str_of_Z (zlen chunk) ++ " ERC-20 transfers from "%string ++ safe ++ " on token "%string ++ token ++ "; total "%string
  ++ str_of_Z (zsum_with amount chunk) ++ "; "%string
  ++ match r_nonce rec with
     | None => "call data keccak-256 "%string ++ r_dataKeccak256 rec
     | Some _ => "expected safeTxHash "%string ++ show_opt (r_safeTxHash rec)
     end.

(** One turn of the loop that writes the folders. *)
Definition write_folder (r : resolved) (label : option str) (now : clock) (count : Z)
    (st : dict str folder * list entry * Z) (itx : Z * (list Row * SafeTx)) : result (dict str folder * list entry * Z) :=
  let '(folders, entries, position) := st in
  let '(i0, (chunk, tx)) := itx in
  let i := i0 + 1 in
  let name := tx_dir i (nonce tx) in
  _ ← raise_if (dmem folders name) FileExistsError;
  rec ← tx_record (rs_chain_id r) (rs_safe r) tx;
  let amount_ := zsum_with amount chunk in
  '(builder, checksum) ← tx_builder_file (rs_chain_id r) (rs_safe r) (rs_token r) chunk
     (tx_name label i count (nonce tx)) (tx_description (rs_safe r) (rs_token r) chunk rec) (created_ms now);
  let '(text, chunk_sha) := write_recipients chunk in
  let e := MkEntry i (nonce tx) name position (zlen chunk) (str_of_Z amount_) (format_one amount_) chunk_sha
             (to tx) (operation tx) (zlen (data tx)) (r_dataKeccak256 rec) (r_messageHash rec) (r_safeTxHash rec) checksum in
  Ok (dset folders name (MkFolder (JObj builder) rec text), entries ++ [e], position + zlen chunk).

(** The part of [cmd_build] inside its [try]: the rows to pay and how they were read. *)
Definition build_input (env : dict str str) (rpc : option node) (a : args)
  : result (resolved * str * list Row * read_info) :=
  r ← resolve_safe env rpc a;
  multisend ← multisend_for (rs_version r) (a_multisend a);
  _ ← raise_if (negb ((1 <=? a_max_transfers a) && (a_max_transfers a <=? MAX_TRANSFERS)))
        (InputError "--max-transfers must be between 1 and 450");
  _ ← raise_if (match a_first_transfers a with
                | Some f => negb ((1 <=? f) && (f <=? a_max_transfers a)) | None => false end)
        (InputError "--first-transfers must be between 1 and --max-transfers");
  '(rows, info) ← read_rows (a_input a) (a_location a) (a_address_column a) (a_amount_column a) (a_amount_unit a) true;
  rows ← consolidate rows (a_order a) (a_merge_duplicates a);
  _ ← raise_if (existsb (λ row, bool_decide (lower (address row) = lower (rs_safe r)) ||
                                bool_decide (lower (address row) = lower (rs_token r))) rows)
        (InputError "the Safe or the token itself cannot be a recipient");
  let total := zsum_with amount rows in
  _ ← (match a_expect_total a with
       | Some t => t ← parse_amount t "one"%string; raise_if (negb (total =? t)) (InputError "list total differs from --expect-total")
       | None => Ok () end);
  _ ← raise_if (match a_expect_count a with Some c => negb (zlen rows =? c) | None => false end)
        (InputError "list has another number of recipients than --expect-count says");
  _ ← raise_if (a_exists a && negb (a_force a)) (InputError "already exists; pass --force to replace it");
  Ok (r, multisend, rows, info).

(** The rest of [cmd_build]: everything it writes. *)
Definition write_build (now : clock) (a : args) (r : resolved) (multisend : str) (rows : list Row) (info : read_info)
  : result safe_dir :=
  sizes ← split_sizes (zlen rows) (a_max_transfers a) (a_first_transfers a);
  txs ← build_transactions (rs_chain_id r) (rs_safe r) (rs_token r) multisend rows sizes (rs_nonce r);
  let '(text, recipients_sha) := write_recipients rows in
  dom ← domain_hash (rs_chain_id r) (rs_safe r);
  '(folders, entries, _) ← foldM (write_folder r (a_label a) now (zlen txs)) ([], [], 1) (enumerate txs);
  official ← of_option (dget MULTISEND_CALL_ONLY (rs_version r)) (KeyError (rs_version r));
  let total := zsum_with amount rows in
  Ok (MkSafeDir text
        (MkManifest FORMAT (created_utc now) (a_label a) (backend now) (rs_chain_id r) (rs_safe r) (rs_version r)
           (rs_token r) multisend (bool_decide (multisend ∈ official)) info (a_order a) (a_max_transfers a)
           (a_first_transfers a) (rs_nonce r) (rs_sources r) (zlen rows) (str_of_Z total) (format_one total)
           recipients_sha (Airdrop.hex0x dom) entries) folders).

Definition cmd_build (env : dict str str) (rpc : option node) (now : clock) (a : args) : result safe_dir :=
  match build_input env rpc a with
  | Raise (InputError m) => Raise (SystemExit m)
  | Raise e => Raise e
  | Ok (r, multisend, rows, info) => write_build now a r multisend rows info
  end.

(** ** verify *)

Inductive failure :=
  | ListSha256 | DuplicateAddress | RecipientCount | TotalAmount | DomainHash | SplitRule | NotCovered
  | TxFields (i : Z) | TxAmount (i : Z) | TxDataHash (i : Z) | TxMessageHash (i : Z) | TxSafeTxHash (i : Z)
  | TxRecord (i : Z) | TxRecipients (i : Z) | TxRecipientsSha256 (i : Z)
  | BuilderChain (i : Z) | BuilderSafe (i : Z) | BuilderCalls (i : Z) | BuilderChecksum (i : Z).

(** [Checks.ok]. *)
Definition ok (condition : bool) (f : failure) : list failure := if condition then [] else [f].

(** [builder.get("meta", {}).get(key)]. *)
Definition meta_get (builder : dict str json) (key : str) : result json :=
  match dget builder "meta"%string with
  | None => Ok JNull
  | Some (JObj m) => Ok (jget m key)
  | Some _ => Raise (AttributeError "object has no attribute 'get'")
  end.

(** The checks of one transaction against its entry and its folder. *)
Definition verify_entry (d : safe_dir) (ec : entry * (list Row * SafeTx)) : result (list failure) :=
  let '(e, (chunk, tx)) := ec in
  let m := d_manifest d in
  let i := e_index e in
  rec ← tx_record (m_chain_id m) (m_safe m) tx;
  f ← of_option (dget (d_folders d) (e_folder e)) FileNotFoundError;
  read ← read_recipients (e_folder e ++ "/recipients.csv"%string) (f_recipients f);
  builder ← (match f_builder f with JObj b => Ok b | _ => Raise (AttributeError "object has no attribute 'get'") end);
  from_safe ← meta_get builder "createdFromSafeAddress"%string;
  checksum ← meta_get builder "checksum"%string;
  computed ← tx_builder_checksum builder;
  Ok (ok (bool_decide (e_nonce e = nonce tx) && bool_decide (e_to e = to tx) && (e_operation e =? operation tx)) (TxFields i)
      ++ ok (bool_decide (e_amount e = str_of_Z (zsum_with amount chunk))) (TxAmount i)
      ++ ok (bool_decide (e_data_keccak256 e = r_dataKeccak256 rec)) (TxDataHash i)
      ++ ok (bool_decide (e_message_hash e = r_messageHash rec)) (TxMessageHash i)
      ++ ok (bool_decide (e_safe_tx_hash e = r_safeTxHash rec)) (TxSafeTxHash i)
      ++ ok (bool_decide (f_record f = rec)) (TxRecord i)
      ++ ok (bool_decide (pairs read = pairs chunk)) (TxRecipients i)
      ++ ok (bool_decide (sha256_file (ords (f_recipients f)) = e_recipients_sha256 e)) (TxRecipientsSha256 i)
      ++ ok (json_eqb (jget builder "chainId"%string) (JStr (str_of_Z (m_chain_id m)))) (BuilderChain i)
      ++ ok (json_eqb from_safe (JStr (m_safe m))) (BuilderSafe i)
      ++ ok (json_eqb (jget builder "transactions"%string) (tx_builder_transactions (m_token m) chunk)) (BuilderCalls i)
      ++ ok (json_eqb checksum (JStr computed)) (BuilderChecksum i)).

(** The rows, the failures and whether the MultiSend address is an official one. *)
Definition verify_offline (d : safe_dir) : result (list Row * list failure * bool) :=
  let m := d_manifest d in
  _ ← raise_if (negb (bool_decide (m_format m = FORMAT))) (InputError "unexpected format");
  rows ← read_recipients "recipients.csv"%string (d_recipients d);
  dom ← domain_hash (m_chain_id m) (m_safe m);
  let official := bool_decide (m_multisend_call_only m ∈ default [] (dget MULTISEND_CALL_ONLY (m_safe_version m))) in
  let sizes := e_recipients <$> m_transactions m in
  rule ← split_sizes (zlen rows) (m_max_transfers m) (m_first_transfers m);
  let fs := ok (bool_decide (sha256_file (ords (d_recipients d)) = m_recipients_sha256 m)) ListSha256
    ++ ok (bool_decide (NoDup (key <$> rows))) DuplicateAddress
    ++ ok (zlen rows =? m_recipient_count m) RecipientCount
    ++ ok (bool_decide (str_of_Z (zsum_with amount rows) = m_total_amount m)) TotalAmount
    ++ ok (bool_decide (Airdrop.hex0x dom = m_domain_hash m)) DomainHash
    ++ ok (bool_decide (sizes = rule)) SplitRule
    ++ ok (zsum sizes =? zlen rows) NotCovered in
  txs ← build_transactions (m_chain_id m) (m_safe m) (m_token m) (m_multisend_call_only m) rows sizes (m_first_nonce m);
  entry_failures ← mapM (verify_entry d) (zip (m_transactions m) txs);
  Ok (rows, fs ++ concat entry_failures, official).

(** [cmd_verify] without a node: failed checks end the program. *)
Definition cmd_verify (d : safe_dir) : result (list Row) :=
  match verify_offline d with
  | Raise (InputError m) => Raise (SystemExit m)
  | Raise e => Raise e
  | Ok (rows, fs, _) => if bool_decide (length fs = 0%nat) then Ok rows else Raise (SystemExit "check(s) failed")
  end.

(** * Splitting *)

Lemma zsum_times x n : 0 ≤ n → zsum (times x n) = x * n.
Proof.
  intros Hn. unfold times. rewrite <- (Z2Nat.id n) at 2 by done. generalize (Z.to_nat n) as k.
  induction k as [|k IH]; cbn [replicate zsum]; lia.
Qed.

Lemma Forall_times {A} (P : A → Prop) x n : (0 < n → P x) → Forall P (times x n).
Proof. intros H. unfold times. destruct (decide (0 < n)); [by apply Forall_replicate, H|]. by rewrite Z2Nat.nonpos by lia. Qed.

Lemma zlen_times {A} (x : A) n : 0 ≤ n → zlen (times x n) = n.
Proof. intros. unfold zlen, times. rewrite length_replicate. lia. Qed.

(** The optional small first transaction. *)
Definition first_part (count : Z) (first : option Z) : list Z :=
  match first with Some f => [Z.min f count] | None => [] end.

Definition split_args_ok (max_transfers : Z) (first : option Z) : Prop :=
  1 ≤ max_transfers ∧ match first with Some f => 1 ≤ f ≤ max_transfers | None => True end.

(** The equal parts of what is left. *)
Lemma equal_parts left_ max :
  0 < left_ → 1 ≤ max →
  ∃ base extra parts, floordiv (- left_) max = Ok (- parts) ∧ floordiv left_ parts = Ok base ∧ left_ mod parts = extra ∧
    0 ≤ extra < parts ∧ 1 ≤ base ∧ base * parts + extra = left_ ∧ (parts - 1) * max < left_ ≤ parts * max ∧
    (0 < extra → base + 1 ≤ max) ∧ base ≤ max.
Proof.
  intros Hl Hm. unfold floordiv. destruct (Z.eqb_spec max 0) as [|_]; [lia|].
  set (parts := - (- left_ / max)). exists (left_ / parts), (left_ mod parts), parts.
  assert ((parts - 1) * max < left_ ≤ parts * max) as Hp.
  { pose proof (Z.div_mod (- left_) max ltac:(lia)) as E. pose proof (Z.mod_pos_bound (- left_) max ltac:(lia)). unfold parts. nia. }
  assert (1 ≤ parts) as Hp1 by nia. destruct (Z.eqb_spec parts 0) as [|_]; [lia|].
  pose proof (Z.div_mod left_ parts ltac:(lia)) as E. pose proof (Z.mod_pos_bound left_ parts ltac:(lia)) as Hr.
  assert (parts ≤ left_) as Hpl by nia. assert (1 ≤ left_ / parts) by (apply Z.div_le_lower_bound; lia).
  split_and!; try lia; try done.
  - unfold parts. f_equal. lia.
  - intros. nia.
  - nia.
Qed.

Lemma split_sizes_ok count max first :
  0 < count → split_args_ok max first →
  ∃ rest base, split_sizes count max first = Ok (first_part count first ++ rest) ∧
    zsum (first_part count first ++ rest) = count ∧ Forall (λ s, 1 ≤ s ≤ max) (first_part count first ++ rest) ∧
    Forall (λ s, s = base ∨ s = base + 1) rest ∧
    (zlen rest - 1) * max < count - zsum (first_part count first) ≤ zlen rest * max.
Proof.
  intros Hc [Hm Hf]. unfold split_sizes.
  assert ((match first with
           | Some f => if f =? 0 then ([], count) else ([Z.min f count], count - Z.min f count)
           | None => ([], count) end) = (first_part count first, count - zsum (first_part count first))) as ->.
  { unfold first_part. destruct first as [f|]; [|cbn; f_equal; lia]. destruct (Z.eqb_spec f 0); [lia|]. cbn. f_equal. lia. }
  assert (Forall (λ s, 1 ≤ s ≤ max) (first_part count first)) as Hfp.
  { unfold first_part. destruct first; repeat constructor; lia. }
  assert (0 ≤ count - zsum (first_part count first)) as Hl.
  { unfold first_part. destruct first; cbn; lia. }
  set (hd_ := first_part count first) in *. set (left_ := count - zsum hd_) in *.
  destruct (Z.eqb_spec left_ 0) as [H0|H0].
  { exists [], 0. rewrite app_nil_r. split_and!; try done; unfold zlen; cbn; lia. }
  destruct (equal_parts left_ max) as (base & extra & parts & -> & E2 & E3 & Hx & Hb & Hsum & Hp & Hbm & Hbm'); [lia..|].
  cbn [mbind result_bind]. rewrite Z.opp_involutive, E2. cbn [mbind result_bind]. rewrite E3.
  exists (times (base + 1) extra ++ times base (parts - extra)), base. split; [done|]. split_and!.
  - rewrite !zsum_app, !zsum_times by lia. unfold left_ in Hsum. lia.
  - rewrite !Forall_app. split_and!; [done|apply Forall_times; lia..].
  - apply Forall_app. split; apply Forall_times; auto.
  - rewrite zlen_app, !zlen_times by lia. lia.
  - rewrite zlen_app, !zlen_times by lia. lia.
Qed.

Lemma py_slice_app {A} (a b c : list A) n m :
  n = zlen a → m = zlen a + zlen b → py_slice (a ++ b ++ c) n m = b.
Proof.
  intros -> ->. pose proof (zlen_nonneg a). pose proof (zlen_nonneg b). unfold py_slice, py_index.
  rewrite !(proj2 (Z.ltb_ge _ _)) by lia. apply (zslice_mid _ a b c); [done..|lia].
Qed.

(** Slices of the sizes of a partition are that partition. *)
Lemma slices_concat_aux {A} (pre : list A) parts acc :
  foldl (slices_step (pre ++ concat parts)) (acc, zlen pre) (zlen <$> parts) = (acc ++ parts, zlen (pre ++ concat parts)).
Proof.
  revert pre acc. induction parts as [|p parts IH]; intros pre acc; cbn [fmap list_fmap foldl concat]; [by rewrite !app_nil_r|].
  unfold slices_step at 2. cbn [fst snd]. rewrite py_slice_app by done. rewrite <- zlen_app.
  replace (pre ++ p ++ concat parts) with ((pre ++ p) ++ concat parts) by by rewrite <- app_assoc.
  rewrite IH, <- app_assoc. done.
Qed.

Lemma slices_concat {A} (parts : list (list A)) : slices (concat parts) (zlen <$> parts) = parts.
Proof. unfold slices. pose proof (slices_concat_aux [] parts []) as H. cbn [app] in H. change (zlen []) with 0 in H. by rewrite H. Qed.

(** Sizes that add up to the length cut the list into parts of these sizes. *)
Lemma parts_of_sizes {A} (rows : list A) sizes :
  Forall (λ s, 0 ≤ s) sizes → zsum sizes = zlen rows → ∃ parts, rows = concat parts ∧ sizes = zlen <$> parts.
Proof.
  intros H. revert rows. induction H as [|s sizes Hs H IH]; intros rows Hl.
  { exists []. destruct rows; [done|]. unfold zlen in Hl. cbn in Hl. lia. }
  cbn [zsum] in Hl. assert (0 ≤ zsum sizes) by (clear -H; induction H; cbn; lia).
  destruct (zsplit rows s) as (p & rest & -> & Hp); [lia|]. rewrite zlen_app in Hl.
  destruct (IH rest) as (parts & -> & ->); [lia|]. exists (p :: parts). by rewrite <- Hp.
Qed.

Lemma slices_ok {A} (rows : list A) sizes :
  Forall (λ s, 0 ≤ s) sizes → zsum sizes = zlen rows →
  concat (slices rows sizes) = rows ∧ zlen <$> slices rows sizes = sizes.
Proof. intros H Hl. destruct (parts_of_sizes rows sizes H Hl) as (parts & -> & ->). by rewrite slices_concat. Qed.

Lemma slices_fmap {A B} (f : A → B) (rows : list A) sizes :
  slices (f <$> rows) sizes = fmap (M:=list) f <$> slices rows sizes.
Proof.
  unfold slices. assert (∀ (acc : list (list A)) n,
    foldl (slices_step (f <$> rows)) (fmap (M:=list) f <$> acc, n) sizes =
    prod_map (fmap (M:=list) (fmap (M:=list) f)) id (foldl (slices_step rows) (acc, n) sizes)) as H.
  { induction sizes as [|s sizes IH]; intros acc n; cbn [foldl]; [done|]. unfold slices_step at 2 4. cbn [fst snd].
    rewrite <- IH. f_equal. f_equal. rewrite fmap_app. cbn [fmap list_fmap]. do 2 f_equal.
    unfold py_slice, py_index, zslice, slice, zlen. by rewrite !length_fmap, fmap_take, fmap_drop. }
  specialize (H [] 0). cbn [fmap list_fmap] in H. by rewrite H.
Qed.

(** * The lists *)

Lemma elem_of_join c sep (ls : list str) : c ∈ join sep ls → c ∈ sep ∨ c ∈ concat ls.
Proof.
  induction ls as [|l [|l' ls] IH]; [by intros []%not_elem_of_nil| |].
  - intros H. right. cbn [join concat] in *. by rewrite app_nil_r.
  - change (join sep (l :: l' :: ls)) with (l ++ sep ++ join sep (l' :: ls)).
    rewrite !elem_of_app. intros [H|[H|[H|H]%IH]]; auto; right; cbn [concat] in *; rewrite !elem_of_app in *; tauto.
Qed.

Lemma commas_chars c n : c ∈ commas n → c = ","%char ∨ c ∈ str_of_nonneg 10 n.
Proof.
  unfold commas. rewrite elem_of_reverse. intros [H|H]%elem_of_join; [left; by apply list_elem_of_singleton|right].
  by rewrite concat_chunks, elem_of_reverse in H by lia.
Qed.

Lemma rstrip_chars x c s : x ∈ rstrip_char c s → x ∈ s.
Proof.
  unfold rstrip_char, rstrip_with. rewrite elem_of_reverse. intros H. apply elem_of_reverse. revert H.
  generalize (reverse s) as l. induction l as [|y l IH]; [done|]. cbn [drop_while].
  case_bool_decide; [|done]. intros H'%IH. by right.
Qed.

Lemma nonneg_no_CR n : 0 ≤ n → CR ∉ str_of_nonneg 10 n.
Proof. intros Hn H. apply (str_of_Z_no_CR n Hn). unfold str_of_Z. by destruct (Z.ltb_spec n 0); [lia|]. Qed.

Lemma format_one_no_CR n : 0 ≤ n → CR ∉ format_one n.
Proof.
  intros Hn H. unfold format_one in H.
  assert (0 ≤ n / ATTO_PER_ONE) as Hq by (apply Z.div_pos; unfold ATTO_PER_ONE; lia).
  assert (0 ≤ n mod ATTO_PER_ONE) as Hr by (apply Z.mod_pos_bound; unfold ATTO_PER_ONE; lia).
  assert (CR ∉ commas (n / ATTO_PER_ONE)) as Hc by (intros [?|Hc]%commas_chars; [done|by apply nonneg_no_CR in Hc]).
  destruct (_ =? 0); [done|]. rewrite !elem_of_app in H. destruct H as [H|[H|H]]; [done| |].
  - by apply list_elem_of_singleton in H.
  - apply rstrip_chars in H. unfold rjust in H. apply elem_of_app in H as [[? _]%elem_of_replicate|H]; [done|].
    by apply str_of_Z_no_CR in H.
Qed.

(** The rows as a file gives them back, with its own line numbers. *)
Definition relabel (path : str) (rows : list Row) : list Row :=
  imap (λ i r, MkRow (address r) (amount r) (where_ path (Z.of_nat i + 2))) rows.

Lemma pairs_relabel path rows : pairs (relabel path rows) = pairs rows.
Proof.
  unfold pairs, relabel. rewrite fmap_imap. exact (imap_const pair_of rows).
Qed.

Lemma good_not_blank r : good_row r → blank (recipients_record r) = false.
Proof.
  intros [[(body & n & E & Hl & Hh & _) _] _]. unfold blank, recipients_record. rewrite bool_decide_eq_false_2 by done.
  cbn [orb forallb]. rewrite E. rewrite bool_decide_eq_false_2; [done|]. unfold strip.
  rewrite strip_with_none; [done|]. apply Forall_app. split; [compute_decide|].
  eapply Forall_impl; [exact Hh|]. apply is_hex_not_space.
Qed.

Lemma read_recipients_record path n r :
  good_row r →
  read_record path 0 1 "atto"%string None (n, recipients_record r) = Ok (Some (MkRow (address r) (amount r) (where_ path n))).
Proof.
  intros Hr. unfold read_record. rewrite good_not_blank by done. destruct Hr as [Hc Ha].
  change (length (recipients_record r) <=? Nat.max 0 1)%nat with false. cbn [raise_if mbind result_bind].
  change (recipients_record r !! 0%nat) with (Some (address r)). change (recipients_record r !! 1%nat) with (Some (str_of_Z (amount r))).
  cbn [of_option mbind result_bind]. rewrite normalize_fixed by done. cbn [mbind result_bind].
  by rewrite parse_amount_atto.
Qed.

Lemma read_recipients_records path (f : nat → Z) rows :
  Forall good_row rows →
  mapM (read_record path 0 1 "atto"%string None) (imap (λ i r, (f i, r)) (recipients_record <$> rows))
  = Ok (imap (λ i r, Some (MkRow (address r) (amount r) (where_ path (f i)))) rows).
Proof.
  intros H. revert f. induction H as [|r rows Hr _ IH]; intros f; [done|]. cbn [fmap list_fmap imap mapM].
  rewrite read_recipients_record by done. cbn [mbind result_bind].
  specialize (IH (f ∘ S)). unfold compose in *. cbn [fmap list_fmap] in IH. rewrite IH. done.
Qed.

Lemma omap_imap_Some {A B} (f : nat → A → B) l : omap id (imap (λ i x, Some (f i x)) l) = imap f l.
Proof. revert f. induction l as [|x l IH]; intros f; [done|]. cbn. f_equal. apply IH. Qed.

Lemma recipients_text_read rows :
  Forall good_row rows →
  csv_read (decode_sig (recipients_text rows)) =
    ["address"%string : str; "amount_atto"%string : str; "amount_tokens"%string : str] :: (recipients_record <$> rows).
Proof.
  intros H. unfold decode_sig, removeprefix.
  assert (startswith (recipients_text rows) [chr 0xEF; chr 0xBB; chr 0xBF] = false) as ->.
  { unfold startswith. apply bool_decide_eq_false_2.
    change (take (length [chr 0xEF; chr 0xBB; chr 0xBF]) (recipients_text rows)) with (["a"; "d"; "d"]%char). intros E. discriminate E. }
  unfold recipients_text. apply csv_read_write. constructor; [split; [done|compute_decide]|].
  apply Forall_fmap. eapply Forall_impl; [exact H|]. intros r [Hc Ha]. split; [done|].
  constructor; [by apply canonical_no_CR|]. constructor; [apply str_of_Z_no_CR; lia|]. constructor; [|constructor].
  intros [Hin _]%elem_of_remove_char. apply format_one_no_CR in Hin; [done|lia].
Qed.

(** What was written is read back, for a list that is not empty. *)
Lemma read_recipients_text path rows :
  Forall good_row rows → rows ≠ [] → read_recipients path (recipients_text rows) = Ok (relabel path rows).
Proof.
  intros H Hne. unfold read_recipients, read_rows. cbn [csv_sources mbind result_bind foldM].
  unfold read_file. rewrite recipients_text_read by done. cbn [mbind result_bind].
  assert (∀ u, read_header ["address"%string : str; "amount_atto"%string : str; "amount_tokens"%string : str]
      (Some ("address"%string : str)) (Some ("amount_atto"%string : str)) (Some ("atto"%string : str)) false None = u →
      u = Ok (None, ("address"%string : str, "amount_atto"%string : str), "atto"%string : str)) as Hh by (intros ? <-; by vm_compute).
  rewrite (Hh _ eq_refl). cbn [mbind result_bind fst snd].
  change (index_of "address"%string ["address"%string : str; "amount_atto"%string : str; "amount_tokens"%string : str]) with (Some 0%nat).
  change (index_of "amount_atto"%string ["address"%string : str; "amount_atto"%string : str; "amount_tokens"%string : str]) with (Some 1%nat).
  cbn [of_option mbind result_bind]. rewrite (read_recipients_records path (λ i, Z.of_nat i + 2)) by done.
  cbn [mbind result_bind]. rewrite omap_imap_Some. cbn [app]. fold (relabel path rows).
  rewrite bool_decide_eq_false_2; [done|]. unfold relabel. rewrite length_imap. by destruct rows.
Qed.

Lemma good_relabel_path path rows : Forall good_row rows → Forall good_row (relabel path rows).
Proof.
  intros H. apply Forall_forall. intros r (i & x & -> & Hx)%elem_of_lookup_imap.
  rewrite Forall_forall in H. by apply (H x), (list_elem_of_lookup_2 _ i).
Qed.

(** * The transactions *)

Lemma transfers_tx_pairs token multisend r1 r2 n :
  pairs r1 = pairs r2 → transfers_tx token multisend r1 n = transfers_tx token multisend r2 n.
Proof.
  intros H. assert (length r1 = length r2) as Hl by (apply (f_equal length) in H; unfold pairs in H; by rewrite !length_fmap in H).
  destruct (decide (length r1 = 1%nat)) as [H1|H1].
  - destruct r1 as [|a [|]], r2 as [|b [|]]; try done. cbn [transfers_tx]. injection H as Ha Hm. by rewrite Ha, Hm.
  - rewrite !transfers_tx_batch by congruence. rewrite !multisend_data_batch. unfold pairs in H. by rewrite H.
Qed.

Lemma zsum_amount_pairs r1 r2 : pairs r1 = pairs r2 → zsum_with amount r1 = zsum_with amount r2.
Proof.
  intros H. unfold zsum_with. apply (f_equal (fmap snd)) in H. unfold pairs in H. rewrite <- !list_fmap_compose in H.
  change (snd ∘ pair_of) with amount in H. by rewrite H.
Qed.

Lemma zlen_pairs r1 r2 : pairs r1 = pairs r2 → zlen r1 = zlen r2.
Proof. intros H. apply (f_equal zlen) in H. unfold pairs, zlen in *. by rewrite !length_fmap in H. Qed.

Lemma key_pairs r1 r2 : pairs r1 = pairs r2 → key <$> r1 = key <$> r2.
Proof. intros H. apply (f_equal (fmap (λ p : str * Z, lower p.1))) in H. unfold pairs in H. by rewrite <- !list_fmap_compose in H. Qed.

Lemma transactions_pairs token r1 r2 :
  pairs r1 = pairs r2 → tx_builder_transactions token r1 = tx_builder_transactions token r2.
Proof.
  intros H. unfold tx_builder_transactions. f_equal. revert r2 H.
  induction r1 as [|a r1 IH]; intros [|b r2] H; try done. unfold pairs in H. cbn [fmap list_fmap] in *.
  apply cons_eq_inv in H as [H1 H2]. injection H1 as Ha Hm. f_equal; [|by apply IH].
  unfold tx_builder_transaction. by rewrite Ha, Hm.
Qed.

(** Two lists with the same addresses and amounts give the same transactions. *)
Definition same_part (p q : list Row * SafeTx) : Prop := pairs p.1 = pairs q.1 ∧ p.2 = q.2.

Lemma build_parts_pairs token multisend n (f : nat → Z) l1 l2 txs :
  let part := λ ic : Z * list Row, tx ← transfers_tx token multisend ic.2 ((λ n, n + ic.1) <$> n); Ok (ic.2, tx) in
  pairs <$> l1 = pairs <$> l2 → mapM part (imap (λ i x, (f i, x)) l1) = Ok txs →
  ∃ txs', mapM part (imap (λ i x, (f i, x)) l2) = Ok txs' ∧ Forall2 same_part txs txs'.
Proof.
  intros part. revert l2 txs f. induction l1 as [|a l1 IH]; intros [|b l2] txs f Hs Hb; try done.
  { cbn in Hb. inv_ok. subst. by exists []. }
  cbn [fmap list_fmap] in Hs. apply cons_eq_inv in Hs as [H1 H2]. cbn [imap mapM] in *. inv_ok. subst txs.
  match goal with E : part (f 0%nat, a) = Ok _ |- _ => unfold part in E; cbn [fst snd] in E; inv_ok; rename E into Ep end.
  assert (part (f 0%nat, b) = Ok (b, a2)) as ->.
  { unfold part. cbn [fst snd]. rewrite <- (transfers_tx_pairs _ _ a b) by done.
    match goal with E : transfers_tx _ _ a _ = Ok _ |- _ => rewrite E end. done. }
  cbn [mbind result_bind]. match goal with E : mapM _ (imap _ l1) = Ok _ |- _ => destruct (IH l2 _ (f ∘ S) H2 E) as (txs' & Ht & Hf) end.
  unfold compose in *. rewrite Ht. eexists. split; [reflexivity|]. constructor; [by subst|done].
Qed.

Lemma build_transactions_pairs c s token multisend r1 r2 sizes n txs :
  pairs r1 = pairs r2 → build_transactions c s token multisend r1 sizes n = Ok txs →
  ∃ txs', build_transactions c s token multisend r2 sizes n = Ok txs' ∧ Forall2 same_part txs txs'.
Proof.
  intros H Hb. apply (build_parts_pairs _ _ _ _ (slices r1 sizes)); [|exact Hb].
  unfold pairs in *. by rewrite <- !slices_fmap, H.
Qed.

Lemma build_transactions_slices c s token multisend rows sizes n txs :
  build_transactions c s token multisend rows sizes n = Ok txs →
  txs.*1 = slices rows sizes ∧
  ∀ i chunk tx, txs !! i = Some (chunk, tx) → transfers_tx token multisend chunk ((λ k, k + Z.of_nat i) <$> n) = Ok tx.
Proof.
  intros H%mapM_Ok_Forall2. split.
  - apply list_eq_same_length with (length (slices rows sizes)); [done|by rewrite length_fmap, <- (Forall2_length _ _ _ H), length_enumerate|].
    intros i x y _. rewrite list_lookup_fmap. destruct (txs !! i) as [[chunk tx]|] eqn:E; [|done]. cbn. intros [= <-] Hy.
    destruct (Forall2_lookup_r _ _ _ _ _ H E) as ([j c'] & Hj & Ht). rewrite lookup_enumerate, Hy in Hj. cbn in Hj. simplify_eq.
    cbn [fst snd] in Ht. inv_ok. by simplify_eq.
  - intros i chunk tx E. destruct (Forall2_lookup_r _ _ _ _ _ H E) as ([j c'] & Hj & Ht). rewrite lookup_enumerate in Hj.
    destruct (slices rows sizes !! i) as [c''|] eqn:Ec; [|done]. cbn in Hj. simplify_eq. cbn [fst snd] in Ht. inv_ok. by simplify_eq.
Qed.

(** * The folders *)

Lemma app_sep_inj {A} (c : A) a b x y : c ∉ a → c ∉ b → a ++ c :: x = b ++ c :: y → a = b.
Proof.
  revert b. induction a as [|z a IH]; intros [|w b] Ha Hb H; cbn [app] in H.
  - done.
  - injection H as -> _. by destruct Hb; left.
  - injection H as -> _. by destruct Ha; left.
  - injection H as -> H. f_equal. apply IH; [|by intros ?; apply Hb; right|done]. intros ?; apply Ha; by right.
Qed.

Lemma dec_pad_chars w n c : 0 ≤ n → c ∈ dec_pad w n → is_digit c = true.
Proof.
  intros Hn. unfold dec_pad, rjust, str_of_nonneg. intros [[-> _]%elem_of_replicate|H]%elem_of_app; [done|].
  apply list_elem_of_fmap in H as (d & -> & Hd). pose proof (digits_range 10 n ltac:(lia) Hn) as Hr.
  rewrite Forall_forall in Hr. by apply hexdigit_is_digit, Hr.
Qed.

Lemma tx_dir_inj i j n m :
  0 ≤ i → 0 ≤ j → (is_Some n ↔ is_Some m) → tx_dir i n = tx_dir j m → i = j.
Proof.
  intros Hi Hj Hnm. unfold tx_dir. destruct n as [n|], m as [m|].
  - intros H%app_inv_head. apply (dec_pad_inj 2); [done..|].
    eapply (app_sep_inj "-"%char); [| |exact H]; by intros Hc%dec_pad_chars.
  - by destruct (proj1 Hnm ltac:(by eexists)).
  - by destruct (proj2 Hnm ltac:(by eexists)).
  - intros H%app_inv_head. by apply (dec_pad_inj 2).
Qed.

(** The Transaction Builder file: its checksum covers what it says it covers. *)
Lemma meta_without_checksum safe name description c :
  dpop ([("name"%string : str, JStr name); ("description"%string : str, JStr description);
         ("txBuilderVersion"%string : str, JStr TX_BUILDER_VERSION); ("createdFromSafeAddress"%string : str, JStr safe);
         ("createdFromOwnerAddress"%string : str, JStr [])] ++ [("checksum"%string : str, JStr c)]) "checksum"%string
  = [("name"%string : str, JStr name); ("description"%string : str, JStr description);
     ("txBuilderVersion"%string : str, JStr TX_BUILDER_VERSION); ("createdFromSafeAddress"%string : str, JStr safe);
     ("createdFromOwnerAddress"%string : str, JStr [])].
Proof. reflexivity. Qed.

Lemma tx_builder_checksum_batch chain_id transactions safe name description cs ms :
  tx_builder_checksum (tx_builder_batch chain_id transactions (tx_builder_meta safe name description cs) ms) =
  Ok (Airdrop.hex0x (keccak256 (ords (tx_builder_serialize (JObj (tx_builder_batch chain_id transactions
        (JObj (dset (dpop ([("name"%string : str, JStr name); ("description"%string : str, JStr description);
         ("txBuilderVersion"%string : str, JStr TX_BUILDER_VERSION); ("createdFromSafeAddress"%string : str, JStr safe);
         ("createdFromOwnerAddress"%string : str, JStr [])] ++ cs) "checksum"%string) "name"%string JNull)) ms)))))).
Proof. reflexivity. Qed.

Lemma tx_builder_file_ok chain_id safe token rows name description ms :
  ∃ b c, tx_builder_file chain_id safe token rows name description ms = Ok (b, c) ∧
    tx_builder_checksum b = Ok c ∧ meta_get b "checksum"%string = Ok (JStr c) ∧
    meta_get b "createdFromSafeAddress"%string = Ok (JStr safe) ∧
    jget b "chainId"%string = JStr (str_of_Z chain_id) ∧ jget b "transactions"%string = tx_builder_transactions token rows.
Proof.
  unfold tx_builder_file. rewrite tx_builder_checksum_batch. cbn [mbind result_bind]. eexists _, _. split; [reflexivity|].
  split; [|split; [reflexivity|split; [reflexivity|split; reflexivity]]].
  rewrite tx_builder_checksum_batch, meta_without_checksum. rewrite app_nil_r. reflexivity.
Qed.

(** What the folder and the manifest say about one transaction. *)
Definition entry_for (r : resolved) (folders : dict str folder) (itx : Z * (list Row * SafeTx)) (e : entry) : Prop :=
  let '(i, (chunk, tx)) := itx in
  ∃ rec b name description ms position,
    tx_record (rs_chain_id r) (rs_safe r) tx = Ok rec ∧
    tx_builder_file (rs_chain_id r) (rs_safe r) (rs_token r) chunk name description ms = Ok (b, e_tx_builder_checksum e) ∧
    dget folders (e_folder e) = Some (MkFolder (JObj b) rec (recipients_text chunk)) ∧
    e = MkEntry (i + 1) (nonce tx) (tx_dir (i + 1) (nonce tx)) position (zlen chunk) (str_of_Z (zsum_with amount chunk))
          (format_one (zsum_with amount chunk)) (sha256_file (ords (recipients_text chunk))) (to tx) (operation tx)
          (zlen (data tx)) (r_dataKeccak256 rec) (r_messageHash rec) (r_safeTxHash rec) (e_tx_builder_checksum e).

Definition folder_name (itx : Z * (list Row * SafeTx)) : str := tx_dir (itx.1 + 1) (nonce itx.2.2).

Lemma write_folder_step r label now count folders entries position i chunk tx :
  is_ok (tx_record (rs_chain_id r) (rs_safe r) tx) = true → folder_name (i, (chunk, tx)) ∉ dkeys folders →
  ∃ f e, write_folder r label now count (folders, entries, position) (i, (chunk, tx)) =
      Ok (dset folders (folder_name (i, (chunk, tx))) f, entries ++ [e], position + zlen chunk) ∧
    ∀ folders', dget folders' (folder_name (i, (chunk, tx))) = Some f → entry_for r folders' (i, (chunk, tx)) e.
Proof.
  intros Hrec Hfresh.
  apply (from_ok_is_ok (MkRecord [] 0 [] [] [] 0 [] [] [] [] [] None [] [] None None)) in Hrec. set (rec := from_ok _ _) in Hrec.
  destruct (tx_builder_file_ok (rs_chain_id r) (rs_safe r) (rs_token r) chunk (tx_name label (i + 1) count (nonce tx))
    (tx_description (rs_safe r) (rs_token r) chunk rec) (created_ms now)) as (b & c & Hb & _).
  unfold write_folder. unfold folder_name in *. cbn [fst snd] in *.
  rewrite (proj2 (dmem_false _ _)) by done. cbn [raise_if mbind result_bind]. rewrite Hrec. cbn [mbind result_bind]. rewrite Hb.
  cbn [mbind result_bind write_recipients]. eexists _, _. split; [reflexivity|].
  intros folders' Hd. repeat eexists; [done|done|exact Hd].
Qed.

Lemma write_folders r label now count l folders entries position :
  Forall (λ itx, is_ok (tx_record (rs_chain_id r) (rs_safe r) itx.2.2) = true) l →
  NoDup (folder_name <$> l) → (∀ n, n ∈ folder_name <$> l → n ∉ dkeys folders) →
  ∃ folders' new position',
    foldM (write_folder r label now count) (folders, entries, position) l = Ok (folders', entries ++ new, position') ∧
    Forall2 (entry_for r folders') l new ∧ (∀ k f, dget folders k = Some f → dget folders' k = Some f).
Proof.
  intros Hr. revert folders entries position. induction Hr as [|[i [chunk tx]] l Hrec _ IH]; intros folders entries position Hn Hd.
  { exists folders, [], position. rewrite app_nil_r. by split_and!. }
  cbn [fmap list_fmap] in Hn, Hd. apply NoDup_cons in Hn as [Hni Hn].
  assert (folder_name (i, (chunk, tx)) ∉ dkeys folders) as Hfresh by (apply Hd; left).
  destruct (write_folder_step r label now count folders entries position i chunk tx Hrec Hfresh) as (fo & e & Hw & He).
  cbn [foldM]. rewrite Hw. cbn [mbind result_bind]. set (name := folder_name (i, (chunk, tx))) in *.
  destruct (IH (dset folders name fo) (entries ++ [e]) (position + zlen chunk) Hn) as (folders' & new & pos' & Hf & Hnew & Hmono).
  { intros n Hin [->|Hk]%elem_of_dkeys_dset; [done|]. apply (Hd n); [by right|done]. }
  exists folders', (e :: new), pos'. split_and!.
  - rewrite <- app_assoc in Hf. exact Hf.
  - constructor; [|done]. apply He, Hmono. rewrite dget_dset. by rewrite decide_True.
  - intros k f Hk. apply Hmono. rewrite dget_dset, decide_False; [done|]. intros ->. by apply dget_Some_key in Hk.
Qed.

Lemma json_str_eqb s : json_eqb (JStr s) (JStr s) = true.
Proof. by apply bool_decide_eq_true_2. Qed.

Lemma transactions_wf token rows : json_wf (tx_builder_transactions token rows).
Proof.
  unfold tx_builder_transactions. constructor. apply Forall_fmap, Forall_true. intros r. unfold compose, tx_builder_transaction, TRANSFER_METHOD, obj.
  cbn [map fst snd]. repeat first [apply wf_null | apply wf_bool | apply wf_str | apply wf_list | apply wf_obj; [compute_decide|] | apply Forall_nil_2 | apply Forall_cons_2; cbn [snd]].
Qed.

Lemma ok_true b f : b = true → ok b f = [].
Proof. by intros ->. Qed.

(** One transaction of a directory that was built passes its checks. *)
Lemma verify_entry_ok r d itx chunk' e :
  m_chain_id (d_manifest d) = rs_chain_id r → m_safe (d_manifest d) = rs_safe r → m_token (d_manifest d) = rs_token r →
  entry_for r (d_folders d) itx e → pairs chunk' = pairs itx.2.1 → Forall good_row itx.2.1 → itx.2.1 ≠ [] →
  verify_entry d (e, (chunk', itx.2.2)) = Ok [].
Proof.
  destruct itx as [i [chunk tx]]. cbn [fst snd]. intros Hc Hs Ht (rec & b & name & desc & ms & pos & Hrec & Hb & Hf & He) Hp Hg Hne.
  destruct (tx_builder_file_ok (rs_chain_id r) (rs_safe r) (rs_token r) chunk name desc ms) as (b' & c & Hb' & H1 & H2 & H3 & H4 & H5).
  rewrite Hb in Hb'. apply Ok_inj in Hb'. injection Hb' as <- <-.
  unfold verify_entry. rewrite Hc, Hs, Ht, Hrec. cbn [mbind result_bind]. rewrite Hf. cbn [of_option mbind result_bind f_recipients f_builder f_record].
  rewrite read_recipients_text by done. cbn [mbind result_bind]. rewrite H3. cbn [mbind result_bind]. rewrite H2. cbn [mbind result_bind].
  rewrite H1. cbn [mbind result_bind]. rewrite H4, H5, He. cbn [e_index e_nonce e_to e_operation e_amount e_data_keccak256 e_message_hash e_safe_tx_hash e_recipients_sha256 e_folder].
  rewrite (transactions_pairs _ _ _ Hp), (zsum_amount_pairs _ _ Hp), !json_str_eqb.
  rewrite (json_eqb_refl _ (transactions_wf (rs_token r) chunk)), Z.eqb_refl, pairs_relabel.
  rewrite !bool_decide_eq_true_2 by done. done.
Qed.

Lemma mapM_all_nil {A B} (f : A → result (list B)) l : Forall (λ x, f x = Ok []) l → ∃ k, mapM f l = Ok k ∧ concat k = [].
Proof.
  induction 1 as [|x l H _ (k & Hk & Hc)]; [by exists []|]. exists ([] :: k). cbn [mapM]. rewrite H. cbn [mbind result_bind].
  by rewrite Hk.
Qed.

(** What the [try] block of [cmd_build] lets through. *)
Record input_ok (a : args) (r : resolved) (multisend : str) (rows : list Row) : Prop := {
  io_multisend : canonical multisend; io_safe : canonical (rs_safe r); io_token : canonical (rs_token r); io_rows : Forall good_row rows; io_nodup : NoDup (key <$> rows);
  io_nonempty : rows ≠ []; io_split : split_args_ok (a_max_transfers a) (a_first_transfers a);
  io_max : a_max_transfers a ≤ MAX_TRANSFERS;
  io_version : is_Some (dget MULTISEND_CALL_ONLY (rs_version r)); io_chain : 0 < rs_chain_id r;
  io_nonce : ∀ n, rs_nonce r = Some n → 0 ≤ n;
  io_not_self : Forall (λ row, key row ≠ lower (rs_safe r) ∧ key row ≠ lower (rs_token r)) rows;
}.

Lemma official_canonical : Forall (Forall canonical) (dvalues MULTISEND_CALL_ONLY).
Proof.
  cbn [dvalues MULTISEND_CALL_ONLY fmap list_fmap snd].
  repeat first [apply Forall_nil_2 | apply Forall_cons_2 |
    match goal with |- canonical ?a => apply (normalize_canonical a a); vm_compute; reflexivity end].
Qed.

Lemma multisend_for_canonical version override m : multisend_for version override = Ok m → canonical m.
Proof.
  unfold multisend_for. destruct (given override); [apply normalize_canonical|]. intros H. inv_ok. subst.
  pose proof official_canonical as Ho. rewrite Forall_forall in Ho.
  match goal with E : dget _ _ = Some ?l, E' : head ?l = Some _ |- _ =>
    apply dget_Some_elem in E; assert (l ∈ dvalues MULTISEND_CALL_ONLY) as Hl by (apply list_elem_of_fmap; by exists (version, l));
    apply Ho in Hl; destruct l; [done|]; injection E' as <-; by apply Forall_inv in Hl end.
Qed.

Lemma consolidate_nonempty rows order merge out : consolidate rows order merge = Ok out → rows ≠ [] → out ≠ [].
Proof.
  intros H Hne ->. destruct rows as [|r rows]; [done|].
  destruct (consolidate_keeps _ _ _ _ H) as (_ & _ & _ & Hk & _). apply (not_elem_of_nil (key r)).
  apply (Hk (key r)). cbn [fmap list_fmap]. by left.
Qed.

Lemma resolve_safe_ok env rpc a r :
  resolve_safe env rpc a = Ok r →
  canonical (rs_safe r) ∧ canonical (rs_token r) ∧ is_Some (dget MULTISEND_CALL_ONLY (rs_version r)) ∧ 0 < rs_chain_id r ∧
  (∀ n, rs_nonce r = Some n → 0 ≤ n).
Proof.
  unfold resolve_safe. intros H. inv_ok. subst r. cbn [rs_safe rs_token rs_version rs_chain_id rs_nonce]. zbool.
  repeat match goal with E : normalize_address _ = Ok _ |- _ => apply normalize_canonical in E end.
  split_and!; try done.
  - match goal with E : dmem _ _ = true |- _ => apply dmem_true, dget_key in E as [? ->] end. by eexists.
  - intros n ->. zbool. lia.
Qed.

Lemma build_input_ok env rpc a r multisend rows info :
  build_input env rpc a = Ok (r, multisend, rows, info) → input_ok a r multisend rows.
Proof.
  unfold build_input. intros H. inv_ok. simplify_eq.
  match goal with E : resolve_safe _ _ _ = Ok _ |- _ => destruct (resolve_safe_ok _ _ _ _ E) as (? & ? & ? & ? & ?) end.
  match goal with Hr : read_rows _ _ _ _ _ _ = Ok _, Hc : consolidate _ _ _ = Ok _ |- _ =>
    destruct (consolidate_good _ _ _ _ Hc (read_rows_good _ _ _ _ _ _ _ _ Hr)) as [Hn Hg];
    apply consolidate_nonempty in Hc; [|unfold read_rows in Hr; inv_ok; zbool; simplify_eq; by intros ->] end.
  match goal with E : multisend_for _ _ = Ok _ |- _ => apply multisend_for_canonical in E end.
  match goal with E : existsb _ _ = false |- _ => apply existsb_false in E; rename E into Eself end.
  split; try done.
  - zbool. split; [done|]. destruct (a_first_transfers a); [|done]. zbool. lia.
  - by zbool.
  - eapply Forall_impl; [exact Eself|]. intros row Hrow. cbv beta in Hrow. apply orb_false_elim in Hrow as [? ?]. zbool. done.
Qed.

(** ** The hashes of a transaction that is built *)

Lemma zero_address : py_int16 ZERO_ADDRESS = Ok 0.
Proof. by vm_compute. Qed.

Lemma domain_hash_ok c safe : uint256 c → canonical safe → is_ok (domain_hash c safe) = true.
Proof.
  intros Hc (n & Hn & Hb)%canonical_int. unfold domain_hash, address_word. rewrite word_ok by done. cbn [mbind result_bind].
  rewrite Hn. cbn [mbind result_bind]. rewrite word_ok; [done|]. unfold uint256. lia.
Qed.

Lemma tx_record_ok c safe to_ d op n :
  uint256 c → canonical safe → canonical to_ → uint256 op → (∀ k, n = Some k → uint256 k) →
  is_ok (tx_record c safe (plain_tx to_ 0 d op n)) = true.
Proof.
  intros Hc Hs (t & Ht & Hb)%canonical_int Hop Hn. unfold tx_record.
  pose proof (from_ok_is_ok [] _ (domain_hash_ok c safe Hc Hs)) as Hd. set (dh := from_ok _ _) in Hd.
  destruct n as [k|]; [|by rewrite Hd].
  assert (∃ h, message_hash (plain_tx to_ 0 d op (Some k)) = Ok h) as [h Hm].
  { unfold message_hash, address_word, plain_tx. cbn [to value operation safe_tx_gas base_gas gas_price gas_token refund_receiver nonce data].
    rewrite Ht, zero_address. cbn [mbind result_bind].
    rewrite (word_ok t) by (unfold uint256; lia). rewrite (word_ok 0) by compute_decide. rewrite (word_ok op) by done.
    cbn [of_option mbind result_bind]. rewrite (word_ok k) by by apply Hn. cbn [mbind result_bind]. by eexists. }
  unfold safe_tx_hash. rewrite Hd, Hm. done.
Qed.

Lemma transfers_tx_shape token multisend rows n tx :
  transfers_tx token multisend rows n = Ok tx →
  ∃ to_ d op, tx = plain_tx to_ 0 d op n ∧ (to_ = token ∧ op = CALL ∨ to_ = multisend ∧ op = DELEGATECALL).
Proof.
  destruct (decide (length rows = 1%nat)).
  - destruct rows as [|r [|]]; try done. cbn [transfers_tx]. intros H. inv_ok. subst. eauto 10.
  - rewrite transfers_tx_batch by done. intros H. inv_ok. subst. eauto 10.
Qed.

Lemma transfers_record_ok c safe token multisend rows n tx :
  uint256 c → canonical safe → canonical token → canonical multisend → (∀ k, n = Some k → uint256 k) →
  transfers_tx token multisend rows n = Ok tx → is_ok (tx_record c safe tx) = true ∧ nonce tx = n.
Proof.
  intros Hc Hs Ht Hm Hn (to_ & d & op & -> & [[-> ->]|[-> ->]])%transfers_tx_shape; (split; [|done]);
    (apply tx_record_ok; [done..|compute_decide|done]).
Qed.

(** * What is built verifies *)

Lemma mapM_success {A B} (f : A → result B) l : Forall (λ x, ∃ y, f x = Ok y) l → ∃ k, mapM f l = Ok k.
Proof.
  induction 1 as [|x l [y Hy] _ [k Hk]]; [by exists []|]. exists (y :: k). cbn [mapM]. rewrite Hy. cbn [mbind result_bind].
  by rewrite Hk.
Qed.

Lemma parts_Forall {A} (P : A → Prop) (parts : list (list A)) : Forall P (concat parts) → Forall (Forall P) parts.
Proof. induction parts as [|p parts IH]; [by constructor|]. cbn [concat]. rewrite Forall_app. intros [? ?]. constructor; auto. Qed.

Lemma enumerate_lookup_inv {A} (l : list A) p : p ∈ enumerate l → ∃ i, p.1 = Z.of_nat i ∧ l !! i = Some p.2.
Proof. intros (i & x & -> & Hx)%elem_of_lookup_imap. by exists i. Qed.

(** The numbers that must fit in a word. *)
Record fits (r : resolved) (rows : list Row) : Prop := {
  fit_amounts : Forall (λ x, amount x < 2 ^ 256) rows;
  fit_chain : rs_chain_id r < 2 ^ 256;
  fit_nonce : ∀ n, rs_nonce r = Some n → n + zlen rows < 2 ^ 256;
}.

(** The parts a list is cut into by the sizes of [split_sizes]. *)
Lemma split_parts {A} (rows : list A) max first :
  rows ≠ [] → split_args_ok max first →
  ∃ sizes, split_sizes (zlen rows) max first = Ok sizes ∧ concat (slices rows sizes) = rows ∧
    zlen <$> slices rows sizes = sizes ∧ zsum sizes = zlen rows ∧ Forall (λ p, 1 ≤ zlen p ≤ max) (slices rows sizes).
Proof.
  intros Hne Hsp. destruct (split_sizes_ok (zlen rows) max first) as (rest & base & Hs & Hsum & Hb & _); [|done|].
  { destruct rows; [done|]. unfold zlen. cbn [length]. lia. }
  set (sizes := first_part _ _ ++ rest) in *. exists sizes. split; [done|].
  destruct (slices_ok rows sizes) as [Hc Hz]; [eapply Forall_impl; [exact Hb|]; intros; cbv beta in *; lia|done|].
  split_and!; try done. rewrite <- Hz in Hb. rewrite Forall_fmap in Hb. exact Hb.
Qed.

Lemma build_transactions_ok r a multisend rows sizes :
  input_ok a r multisend rows → fits r rows → concat (slices rows sizes) = rows →
  Forall (λ p, 1 ≤ zlen p ≤ a_max_transfers a) (slices rows sizes) →
  ∃ txs, build_transactions (rs_chain_id r) (rs_safe r) (rs_token r) multisend rows sizes (rs_nonce r) = Ok txs.
Proof.
  intros Hi Hf Hcat Hb. apply mapM_success. apply Forall_forall. intros [j p] (i & _ & Hp)%enumerate_lookup_inv.
  cbn [snd] in Hp. cbn [fst snd]. apply list_elem_of_lookup_2 in Hp.
  assert (Forall payable p) as Hpay.
  { assert (Forall payable (concat (slices rows sizes))) as H%parts_Forall; [|rewrite Forall_forall in H; by apply H].
    rewrite Hcat. pose proof (io_rows _ _ _ _ Hi) as Hg. pose proof (fit_amounts _ _ Hf) as Ha.
    rewrite Forall_forall in *. intros x Hx. destruct (Hg x Hx) as [? ?]. specialize (Ha x Hx). split; [done|]. unfold uint256. lia. }
  rewrite Forall_forall in Hb. specialize (Hb p Hp). pose proof (io_max _ _ _ _ Hi).
  destruct (transfers_tx_success (rs_token r) multisend p ((λ n, n + j) <$> rs_nonce r)) as [tx ->].
  - apply Hi.
  - done.
  - unfold MAX_TRANSFERS, MAX_ROWS in *. lia.
  - cbn [mbind result_bind]. eauto.
Qed.

Lemma slices_length_le {A} (parts : list (list A)) :
  Forall (λ p, 1 ≤ zlen p) parts → zlen parts ≤ zlen (concat parts).
Proof.
  induction 1 as [|p parts Hp _ IH]; [done|]. cbn [concat]. rewrite zlen_app. unfold zlen in *. cbn [length]. lia.
Qed.

Lemma folder_names_nodup (txs : list (list Row * SafeTx)) n :
  (∀ i p, txs !! i = Some p → nonce p.2 = (λ k, k + Z.of_nat i) <$> n) → NoDup (folder_name <$> enumerate txs).
Proof.
  intros H. apply NoDup_alt. intros i j x. rewrite !list_lookup_fmap, !lookup_enumerate.
  destruct (txs !! i) as [p|] eqn:Ei; [|done]. destruct (txs !! j) as [q|] eqn:Ej; [|done].
  cbn [fmap option_fmap option_map]. intros [= <-] [= Hq]. unfold folder_name in Hq. cbn [fst snd] in Hq.
  rewrite (H _ _ Ei), (H _ _ Ej) in Hq. symmetry in Hq. apply tx_dir_inj in Hq; [lia..|]. by destruct n.
Qed.

Lemma Forall2_zip_all {A B} (P : A * B → Prop) (l : list A) (k : list B) : Forall2 (λ x y, P (x, y)) l k → Forall P (zip l k).
Proof. induction 1; constructor; auto. Qed.

(** Every transaction of a build has its hashes, and its nonce in order. *)
Lemma build_records a r multisend rows sizes txs :
  input_ok a r multisend rows → fits r rows → concat (slices rows sizes) = rows →
  Forall (λ p, 1 ≤ zlen p ≤ a_max_transfers a) (slices rows sizes) →
  build_transactions (rs_chain_id r) (rs_safe r) (rs_token r) multisend rows sizes (rs_nonce r) = Ok txs →
  ∀ i p, txs !! i = Some p →
    is_ok (tx_record (rs_chain_id r) (rs_safe r) p.2) = true ∧ nonce p.2 = (λ k, k + Z.of_nat i) <$> rs_nonce r.
Proof.
  intros Hi Hf Hcat Hb Htx i [chunk tx] Hp. destruct (build_transactions_slices _ _ _ _ _ _ _ _ Htx) as [Hfst Hnth].
  apply (transfers_record_ok _ _ (rs_token r) multisend chunk); [|apply Hi..| |by apply Hnth].
  { pose proof (io_chain _ _ _ _ Hi). pose proof (fit_chain _ _ Hf). unfold uint256. lia. }
  intros k Hk. destruct (rs_nonce r) as [n|] eqn:En; [|done]. injection Hk as <-.
  pose proof (fit_nonce _ _ Hf n En). pose proof (io_nonce _ _ _ _ Hi n En). apply lookup_lt_Some in Hp.
  assert (zlen txs ≤ zlen rows) as Hl.
  { rewrite <- Hcat. transitivity (zlen (slices rows sizes)); [rewrite <- Hfst; unfold zlen; rewrite length_fmap; lia|].
    apply slices_length_le. eapply Forall_impl; [exact Hb|]. cbv beta. lia. }
  unfold uint256, zlen in *. lia.
Qed.

Lemma entry_sizes r folders txs entries :
  Forall2 (entry_for r folders) (enumerate txs) entries → e_recipients <$> entries = zlen <$> txs.*1.
Proof.
  unfold enumerate. generalize Z.of_nat as f. revert entries.
  induction txs as [|[chunk tx] txs IH]; intros entries f He; [by inversion_clear He|].
  cbn [imap] in He. apply Forall2_cons_inv_l in He as (e & es & (rec & b & nm & desc & ms & ps & _ & _ & _ & E) & He & ->).
  cbn [fmap list_fmap fst]. f_equal; [by rewrite E|]. exact (IH es (f ∘ S) He).
Qed.

(** The entries of a build pass against the transactions recomputed from its list. *)
Lemma entries_verify r d txs txs' :
  m_chain_id (d_manifest d) = rs_chain_id r → m_safe (d_manifest d) = rs_safe r → m_token (d_manifest d) = rs_token r →
  Forall2 (entry_for r (d_folders d)) (enumerate txs) (m_transactions (d_manifest d)) → Forall2 same_part txs txs' →
  Forall (λ p, Forall good_row p.1 ∧ p.1 ≠ []) txs →
  Forall (λ x, verify_entry d x = Ok []) (zip (m_transactions (d_manifest d)) txs').
Proof.
  intros Hc Hs Ht He Hsame Hg. apply Forall2_zip_all, Forall2_same_length_lookup_2.
  - by rewrite <- (Forall2_length _ _ _ Hsame), <- (Forall2_length _ _ _ He), length_enumerate.
  - intros i e [chunk' tx'] Hei Hti. destruct (Forall2_lookup_r _ _ _ _ _ Hsame Hti) as ([chunk tx] & Htx & Hsp1 & Hsp2).
    cbn [fst snd] in Hsp1, Hsp2. subst tx'.
    assert (enumerate txs !! i = Some (Z.of_nat i, (chunk, tx))) as Hen by by rewrite lookup_enumerate, Htx.
    pose proof (Forall2_lookup_lr _ _ _ _ _ _ He Hen Hei) as Hent. destruct (Forall_lookup_1 _ _ _ _ Hg Htx) as [Hgc Hne].
    by apply (verify_entry_ok r d (Z.of_nat i, (chunk, tx))).
Qed.

Lemma write_build_verifies now a r multisend rows info :
  input_ok a r multisend rows → fits r rows →
  ∃ d, write_build now a r multisend rows info = Ok d ∧
    ∃ official, verify_offline d = Ok (relabel "recipients.csv"%string rows, [], official).
Proof.
  intros Hi Hf. pose proof (io_rows _ _ _ _ Hi) as Hg.
  destruct (split_parts rows (a_max_transfers a) (a_first_transfers a)) as (sizes & Hsp & Hcat & Hz & Hsum & Hb); [apply Hi..|].
  destruct (build_transactions_ok r a multisend rows sizes Hi Hf Hcat Hb) as [txs Htx].
  destruct (build_transactions_slices _ _ _ _ _ _ _ _ Htx) as [Hfst _].
  pose proof (build_records a r multisend rows sizes txs Hi Hf Hcat Hb Htx) as Hrec.
  destruct (write_folders r (a_label a) now (zlen txs) (enumerate txs) [] [] 1) as (folders & entries & pos & Hw & He & _).
  { apply Forall_forall. intros p (i & _ & Hp)%enumerate_lookup_inv. by apply Hrec in Hp as [? _]. }
  { eapply folder_names_nodup. intros i p Hp. by apply Hrec. }
  { intros n _. apply not_elem_of_nil. }
  destruct (io_version _ _ _ _ Hi) as [official Hoff].
  assert (is_ok (domain_hash (rs_chain_id r) (rs_safe r)) = true) as Hd%(from_ok_is_ok []).
  { apply domain_hash_ok; [destruct Hi, Hf; unfold uint256; lia|apply Hi]. }
  unfold write_build. rewrite Hsp. cbn [mbind result_bind]. rewrite Htx. cbn [mbind result_bind write_recipients].
  rewrite Hd. cbn [mbind result_bind]. rewrite Hw. cbn [mbind result_bind]. rewrite Hoff. cbn [of_option mbind result_bind].
  eexists. split; [reflexivity|]. unfold verify_offline. match goal with |- context [d_recipients ?x] => set (d := x) end.
  cbn [d d_manifest d_recipients d_folders m_format m_chain_id m_safe m_token m_multisend_call_only m_transactions m_max_transfers
       m_first_transfers m_first_nonce m_recipients_sha256 m_recipient_count m_total_amount m_domain_hash m_safe_version].
  rewrite bool_decide_eq_true_2 by done. cbn [negb raise_if mbind result_bind].
  rewrite read_recipients_text by (done || apply Hi). cbn [mbind result_bind]. rewrite Hd. cbn [mbind result_bind app].
  set (rows' := relabel "recipients.csv"%string rows). assert (pairs rows' = pairs rows) as Hp by apply pairs_relabel.
  rewrite (zlen_pairs _ _ Hp), Hsp. cbn [mbind result_bind]. rewrite (entry_sizes r folders txs), Hfst, Hz by done.
  destruct (build_transactions_pairs _ _ _ _ rows rows' sizes _ _ (eq_sym Hp) Htx) as (txs' & -> & Hsame). cbn [mbind result_bind].
  destruct (mapM_all_nil (verify_entry d) (zip entries txs')) as (k & Hk & Hkc).
  { apply (entries_verify r d txs txs'); try done. rewrite <- (Forall_fmap fst (λ c, Forall good_row c ∧ c ≠ [])), Hfst.
    rewrite <- Hcat in Hg. apply parts_Forall in Hg. rewrite Forall_forall in *. intros p Hin. split; [by apply Hg|].
    specialize (Hb p Hin). intros ->. unfold zlen in Hb. cbn in Hb. lia. }
  rewrite Hk. cbn [mbind result_bind]. rewrite Hkc, (key_pairs _ _ Hp), (zsum_amount_pairs _ _ Hp), Hsum, !Z.eqb_refl.
  eexists. rewrite (bool_decide_eq_true_2 (NoDup _)) by apply Hi. rewrite !(bool_decide_eq_true_2 (_ = _)) by done. reflexivity.
Qed.

(** A list is cut into Safe transactions without losing, repeating or moving a
    row: the parts in order are the list, none is empty or larger than the maximum,
    the first has the asked size, the others differ by at most one and are as few as
    the maximum allows. *)
Theorem split_covers_list {A} (rows : list A) max first :
  rows ≠ [] → split_args_ok max first →
  ∃ sizes rest base, split_sizes (zlen rows) max first = Ok sizes ∧ sizes = first_part (zlen rows) first ++ rest ∧
    concat (slices rows sizes) = rows ∧ zlen <$> slices rows sizes = sizes ∧ Forall (λ s, 1 ≤ s ≤ max) sizes ∧
    Forall (λ s, s = base ∨ s = base + 1) rest ∧
    (zlen rest - 1) * max < zlen rows - zsum (first_part (zlen rows) first) ≤ zlen rest * max.
Proof.
  intros Hne Hsp. destruct (split_sizes_ok (zlen rows) max first) as (rest & base & Hs & Hsum & Hb & Heq & Hmin); [|done|].
  { destruct rows; [done|]. unfold zlen. cbn [length]. lia. }
  exists (first_part (zlen rows) first ++ rest), rest, base.
  destruct (slices_ok rows (first_part (zlen rows) first ++ rest)) as [Hc Hz];
    [|done|exact (conj Hs (conj eq_refl (conj Hc (conj Hz (conj Hb (conj Heq Hmin))))))].
  eapply Forall_impl; [exact Hb|]. intros; cbv beta in *; lia.
Qed.

Lemma split_covers_list_witness :
  ∃ sizes rest base, split_sizes (zlen [1; 2; 3; 4; 5; 6; 7; 8]) 3 (Some 1) = Ok sizes ∧
    sizes = first_part (zlen [1; 2; 3; 4; 5; 6; 7; 8]) (Some 1) ++ rest ∧
    concat (slices [1; 2; 3; 4; 5; 6; 7; 8] sizes) = [1; 2; 3; 4; 5; 6; 7; 8] ∧
    zlen <$> slices [1; 2; 3; 4; 5; 6; 7; 8] sizes = sizes ∧ Forall (λ s, 1 ≤ s ≤ 3) sizes ∧
    Forall (λ s, s = base ∨ s = base + 1) rest ∧
    (zlen rest - 1) * 3 < zlen [1; 2; 3; 4; 5; 6; 7; 8] - zsum (first_part (zlen [1; 2; 3; 4; 5; 6; 7; 8]) (Some 1)) ≤ zlen rest * 3.
Proof. apply (split_covers_list [1; 2; 3; 4; 5; 6; 7; 8] 3 (Some 1)); [done|]. split; lia. Defined.

(** C2: When the checks of [cmd_build] on its arguments and its list pass and the
    numbers fit in a word, the build succeeds, and [cmd_verify] recomputes every file
    of the directory from its list without a failure, returning the recipients and
    amounts that were given. *)
Theorem safe_build_then_verify env rpc now a r multisend rows info :
  build_input env rpc a = Ok (r, multisend, rows, info) → fits r rows →
  ∃ d rows', cmd_build env rpc now a = Ok d ∧ cmd_verify d = Ok rows' ∧ pairs rows' = pairs rows.
Proof.
  intros Hb Hf. pose proof (build_input_ok _ _ _ _ _ _ _ Hb) as Hi.
  destruct (write_build_verifies now a r multisend rows info Hi Hf) as (d & Hw & o & Hv).
  exists d, (relabel "recipients.csv"%string rows). unfold cmd_build, cmd_verify. rewrite Hb, Hv.
  split; [done|]. split; [done|]. apply pairs_relabel.
Qed.

Definition sample_list : str := "address,amount_atto
0xfB6916095ca1df60bB79Ce92cE3Ea74c37c5d359,5
0xdbF03B407c01E7cD3CBea99509d93f8DDDC8C6FB,1000000000000000000000
0xD1220A0cf47c7B9Be7A2E6BA89F429762e7b9aDb,7
"%string.
Definition sample_args : args :=
  MkArgs (Some ("0x5aAeb6053F3E94C9b9A09f33669435E7Ef1BeAed"%string : str)) (Some ("0x8617E340B3D01FA5F11F306F4090FD50E238070D"%string : str))
    (Some 1) (Some ("1.4.1"%string : str)) (Some 42) false None 2 (Some 1) "list.csv"%string (FileAt sample_list) None None None
    "input"%string false None (Some 3) false false None.

Definition sample_input : resolved * str * list Row * read_info :=
  Eval vm_compute in from_ok (MkResolved [] [] 0 [] None (MkSources [] [] []), [], [], MkInfo [] [] [] []) (build_input [] None sample_args).

Lemma safe_build_then_verify_witness :
  ∃ d rows', cmd_build [] None (MkClock [] 0 []) sample_args = Ok d ∧ cmd_verify d = Ok rows' ∧ pairs rows' = pairs sample_input.1.2.
Proof.
  apply (safe_build_then_verify [] None (MkClock [] 0 []) sample_args sample_input.1.1.1 sample_input.1.1.2 sample_input.1.2 sample_input.2).
  - vm_compute. reflexivity.
  - split; [compute_decide|done|]. intros n [= <-]. done.
Defined.

(** * What [verify_offline] guarantees *)

Lemma ok_nil b f : ok b f = [] → b = true.
Proof. by destruct b. Qed.

(** What the checks of one entry say. *)
Lemma verify_entry_sound d e chunk tx :
  verify_entry d (e, (chunk, tx)) = Ok [] →
  ∃ f rec, dget (d_folders d) (e_folder e) = Some f ∧ f_record f = rec ∧
    tx_record (m_chain_id (d_manifest d)) (m_safe (d_manifest d)) tx = Ok rec ∧
    e_safe_tx_hash e = r_safeTxHash rec ∧ e_nonce e = nonce tx ∧ e_to e = to tx ∧ e_operation e = operation tx ∧
    e_amount e = str_of_Z (zsum_with amount chunk) ∧
    ∃ read, read_recipients (e_folder e ++ "/recipients.csv"%string) (f_recipients f) = Ok read ∧ pairs read = pairs chunk.
Proof.
  unfold verify_entry. intros H. inv_ok. subst.
  repeat match goal with H : _ ++ _ = [] |- _ => apply app_eq_nil in H as [? H] end.
  repeat match goal with H : ok _ _ = [] |- _ => apply ok_nil in H end. zbool. eauto 20.
Qed.

(** What one verified transaction is: its folder holds the record of [tx] with the
    hash of the manifest, and [tx] pays the rows of [p.1]. *)
Definition verified_tx (d : safe_dir) (e : entry) (p : list Row * SafeTx) : Prop :=
  (∃ f, dget (d_folders d) (e_folder e) = Some f ∧
        tx_record (m_chain_id (d_manifest d)) (m_safe (d_manifest d)) p.2 = Ok (f_record f) ∧
        e_safe_tx_hash e = r_safeTxHash (f_record f)) ∧
  e_amount e = str_of_Z (zsum_with amount p.1) ∧
  shows (m_token (d_manifest d)) (m_multisend_call_only (d_manifest d)) p.1 p.2.

Lemma read_recipients_good path text rows : read_recipients path text = Ok rows → Forall good_row rows.
Proof. unfold read_recipients. intros H. inv_ok. subst. by eapply read_rows_good. Qed.


Definition sample_dir : safe_dir :=
  Eval vm_compute in from_ok (MkSafeDir [] (MkManifest [] [] None [] 0 [] [] [] [] false (MkInfo [] [] [] []) [] 0 None None
    (MkSources [] [] []) 0 [] [] [] [] []) []) (cmd_build [] None (MkClock [] 0 []) sample_args).

