(* ===== verification/VaultBatch.v ===== *)
(** Deposits into validator vaults: airdrop/tools/vault_batch.py, from the audited
    artifact to [plan_transactions], the readers of the deposit list and of the
    governors, [assemble_vaults], [check_recipients], and the decoders
    ([decode_deploy] to [decode_vault_tx]).

    The compiled contract is a value of [Artifact], whatever its bytes are.  Shown
    here: the vaults keep every delegator's total; the funding plan pays every
    deposit exactly once, within the gas target and the row limit, in few
    transactions; a planned transaction decodes to its plan without a problem, and a
    transaction that decodes without a problem is, byte for byte, a sequence of
    vault deployments and exactly approved deposits. *)

From S2P Require Import Prelude PyStr PyDict Csv Keccak Sha256 Abi BatchTree Bech32 Address Amount Recipients Json SafeTx SafeBatch.
Local Open Scope Z_scope.

(** * The code *)

Definition AUDITED_SOURCE_SHA256 : str := "df551a62e6b2b967645f51982aad65daedef35eef92d63cf3fbf187bbf9ffbe8"%string.
Definition AUDITED_CREATION_KECCAK : str := "0x72dad98e0eda48dc4d8aae1760b3a11b664c7005dd13f6719d2209355128d4f2"%string.
Definition AUDITED_RUNTIME_TEMPLATE_KECCAK : str := "0x914d3202528eb35450bf1d9582ebb8e83363c4af2b4ea5f81621c866fa372bea"%string.
Definition FACTORY : str := "0x4e59b44847b379578588920cA78FbF26c0B4956C"%string.

Definition APPROVE_SELECTOR : bytes := Eval vm_compute in Airdrop.selector "approve(address,uint256)"%string.
Definition DEPOSIT_BATCH_SELECTOR : bytes := Eval vm_compute in Airdrop.selector "depositBatch(uint256[],address[])"%string.

Definition GAS_TX_CAP : Z := 16777216.
Definition DEPLOY_BASE_GAS : Z := 50000.
Definition DEPLOY_GAS : Z := 540000.
Definition FUND_BASE_GAS : Z := 60000.
Definition FUND_CALL_GAS : Z := 40000.
Definition FUND_ROW_GAS : Z := 26000.
Definition MAX_DEPLOYS_PER_TX : Z := 25.

Definition VALIDATOR_COLUMNS : list str := ["validator_address"%string : str; "validator"%string : str].
Definition DELEGATOR_COLUMNS : list str :=
  ["delegator_address"%string : str; "beneficiary_address"%string : str; "delegator"%string : str; "address"%string : str].
Definition AMOUNT_COLUMNS : list str :=
  dkeys (dict_of ((λ c, (c, ())) <$> (["amount_atto"%string : str; "expected_shares_atto"%string : str; "amount_one"%string : str;
                                       "expected_shares_one"%string : str] ++ ATTO_COLUMNS ++ ONE_COLUMNS ++ GENERIC_AMOUNT_COLUMNS))).
Definition GOVERNOR_COLUMNS : list str :=
  ["governor_address"%string : str; "governor"%string : str; "destination_address"%string : str].
Definition STATUS_COLUMNS : list str :=
  ["destination_status"%string : str; "governor_status"%string : str; "status"%string : str].

Definition aw (address : str) : result bytes := n ← py_int16 address; word n.

Definition one_text (atto : Z) : str := remove_char ","%char (format_one atto).

(** ** The audited contract *)

Record Artifact := MkArtifact { creation : bytes; runtime_template : bytes; offsets : list Z }.

Definition initcode (a : Artifact) (token governor : str) : result bytes :=
  t ← aw token; g ← aw governor; Ok (creation a ++ t ++ g).

(** [code[start:start + 32] = aw(token)] on a [bytearray], [0 <= start]. *)
Definition runtime (a : Artifact) (token : str) : result bytes :=
  foldM (λ code start, t ← aw token;
           Ok (zslice code 0 start ++ t ++ zslice code (start + 32) (zlen code))) (runtime_template a) (offsets a).

(** GovernorDelegator.json as it is read. *)
Record artifact_info := MkArtifactInfo {
  creation_template : str; runtime_template_hex : str; source_sha256 : option str; asset_immutable_offsets : list Z }.

Definition load_artifact (file : option artifact_info) : result Artifact :=
  info ← of_option file (InputError "contract artifact not found");
  creation ← Airdrop.unhex (creation_template info);
  runtime ← Airdrop.unhex (runtime_template_hex info);
  _ ← raise_if (negb (bool_decide (source_sha256 info = Some AUDITED_SOURCE_SHA256))
                || negb (bool_decide (Airdrop.hex0x (keccak256 creation) = AUDITED_CREATION_KECCAK))
                || negb (bool_decide (Airdrop.hex0x (keccak256 runtime) = AUDITED_RUNTIME_TEMPLATE_KECCAK)))
        (InputError "not the audited GovernorDelegator build; refusing to use it");
  _ ← raise_if (existsb (λ o, negb (bool_decide (py_slice runtime o (o + 32) = replicate 32 0))) (asset_immutable_offsets info))
        (InputError "the asset placeholder offsets are not zero in the runtime template");
  Ok (MkArtifact creation runtime (asset_immutable_offsets info)).

Definition salt_for (validator : str) : result bytes := aw validator.

Definition vault_address (a : Artifact) (token validator governor : str) : result str :=
  f ← Airdrop.unhex FACTORY;
  s ← salt_for validator;
  i ← initcode a token governor;
  let digest := keccak256 ([0xff] ++ f ++ s ++ keccak256 i) in
  to_checksum ("0x"%string ++ hex (drop 12 digest)).

(** ** Call data *)

Definition deploy_data (a : Artifact) (token validator governor : str) : result bytes :=
  s ← salt_for validator; i ← initcode a token governor; Ok (s ++ i).

Definition approve_data (spender : str) (amount : Z) : result bytes :=
  s ← aw spender; w ← word amount; Ok (APPROVE_SELECTOR ++ s ++ w).

Definition deposit_batch_data (amounts : list Z) (delegators : list str) : result bytes :=
  let n := zlen amounts in
  h1 ← word 0x40;
  h2 ← word (0x40 + 32 + 32 * n);
  wn ← word n;
  was ← mapM word amounts;
  wds ← mapM aw delegators;
  Ok (DEPOSIT_BATCH_SELECTOR ++ (h1 ++ h2) ++ wn ++ concat was ++ wn ++ concat wds).

Definition multisend_calls (calls : list (str * bytes)) : result bytes :=
  packed ← mapM (λ c, pack_call c.1 c.2) calls;
  multisend_bytes (concat packed).

Definition safe_tx (calls : list (str * bytes)) (multisend : str) (nonce : option Z) : result SafeTx :=
  match calls with
  | [(to_, d)] => Ok (plain_tx to_ 0 d CALL nonce)
  | _ => d ← multisend_calls calls; Ok (plain_tx multisend 0 d DELEGATECALL nonce)
  end.

Definition tx_builder_entries (calls : list (str * bytes)) : json :=
  JList ((λ c : str * bytes, obj [("to"%string, JStr c.1); ("value"%string, JStr "0"%string); ("data"%string, JStr (Airdrop.hex0x c.2));
                                  ("contractMethod"%string, JNull); ("contractInputsValues"%string, JNull)]) <$> calls).

(** ** The plan *)

Record Deposit := MkDeposit { d_validator : str; d_delegator : str; d_amount : Z; d_source : str }.

Record Vault := MkVault { v_validator : str; v_governor : str; v_address : str; v_deposits : list Deposit; v_deploy : bool }.

Definition v_total (v : Vault) : Z := zsum_with d_amount (v_deposits v).

Inductive tx_kind := KDeploy | KFund.

Record PlannedTx := MkPlannedTx {
  p_kind : tx_kind; p_calls : list (str * bytes); p_vaults : list Vault; p_deposits : list (list Deposit); p_gas : Z }.

Definition deploy_call (a : Artifact) (token : str) (v : Vault) : result (str * bytes) :=
  d ← deploy_data a token (v_validator v) (v_governor v); Ok (FACTORY, d).

Definition deploy_txs (a : Artifact) (token : str) (vaults : list Vault) (per_tx : Z) : result (list PlannedTx) :=
  let todo := filter (λ v, v_deploy v = true) vaults in
  groups ← (if bool_decide (length todo = 0%nat) then Ok []
            else sizes ← split_sizes (zlen todo) per_tx None; Ok (slices todo sizes));
  mapM (λ group, calls ← mapM (deploy_call a token) group;
          Ok (MkPlannedTx KDeploy calls group [] (DEPLOY_BASE_GAS + DEPLOY_GAS * zlen group))) groups.

(** A part of a vault's deposits: the vault, the part's index, its rows and its gas. *)
Record item := MkItem { it_vault : Vault; it_index : Z; it_chunk : list Deposit; it_gas : Z }.

Definition vault_items (max_rows : Z) (v : Vault) : result (list item) :=
  parts ← split_sizes (zlen (v_deposits v)) max_rows None;
  Ok ((λ ic : Z * list Deposit, MkItem v ic.1 ic.2 (FUND_CALL_GAS + FUND_ROW_GAS * zlen ic.2))
        <$> enumerate (slices (v_deposits v) parts)).

(** [(it[0].validator.lower(), it[1])]. *)
Definition member_leb (a b : item) : bool :=
  let ka := lower (v_validator (it_vault a)) in let kb := lower (v_validator (it_vault b)) in
  str_ltb ka kb || (bool_decide (ka = kb) && (it_index a <=? it_index b)).
(** [(-it[3], it[0].validator.lower(), it[1])]. *)
Definition item_leb (a b : item) : bool :=
  (it_gas b <? it_gas a) || ((it_gas a =? it_gas b) && member_leb a b).

(** A bin: the gas used and the items in it. *)
Definition bin : Type := Z * list item.

(** Into the first bin with room, else a new one. *)
Fixpoint place (budget : Z) (it : item) (bins : list bin) : list bin :=
  match bins with
  | [] => [(it_gas it, [it])]
  | (used, members) :: bins =>
      if used + it_gas it <=? budget then (used + it_gas it, members ++ [it]) :: bins
      else (used, members) :: place budget it bins
  end.

Definition member_calls (token : str) (it : item) : result (list (str * bytes)) :=
  let v := it_vault it in
  let chunk := it_chunk it in
  a ← approve_data (v_address v) (zsum_with d_amount chunk);
  b ← deposit_batch_data (d_amount <$> chunk) (d_delegator <$> chunk);
  Ok [(token, a); (v_address v, b)].

Definition fund_tx (token : str) (b : bin) : result PlannedTx :=
  let members := sort_by member_leb b.2 in
  calls ← mapM (member_calls token) members;
  Ok (MkPlannedTx KFund (concat calls) (it_vault <$> members) (it_chunk <$> members) (FUND_BASE_GAS + b.1)).

Definition fund_bins (items : list item) (budget : Z) : list bin :=
  foldl (λ bins it, place budget it bins) [] (sort_by item_leb items).

Definition fund_txs (token : str) (vaults : list Vault) (gas_target max_rows : Z) : result (list PlannedTx) :=
  items ← mapM (vault_items max_rows) vaults;
  let budget := gas_target - FUND_BASE_GAS in
  mapM (fund_tx token) (fund_bins (concat items) budget).

Inductive phase := PhaseAll | PhaseDeploy | PhaseFund.

Definition plan_transactions (a : Artifact) (token : str) (vaults : list Vault) (ph : phase)
    (deploys_per_tx gas_target max_rows : Z) : result (list PlannedTx) :=
  t1 ← (match ph with PhaseFund => Ok [] | _ => deploy_txs a token vaults deploys_per_tx end);
  t2 ← (match ph with PhaseDeploy => Ok []
        | _ => fund_txs token (filter (λ v, v_deposits v ≠ []) vaults) gas_target max_rows end);
  Ok (t1 ++ t2).

(** ** Reading the deposit list and the governors *)

Definition column (header : list str) (wanted : option str) (candidates : list str) : result (option nat) :=
  let lowered := norm <$> header in
  match given wanted with
  | Some w => i ← of_option (index_of (lower w) lowered) (InputError "column not found"); Ok (Some i)
  | None => Ok (head (omap (λ name, index_of name lowered) candidates))
  end.

Definition required_column (header : list str) (wanted : option str) (candidates : list str) : result nat :=
  i ← column header wanted candidates; of_option i (InputError "no such column").

Definition zero_amount (text : str) : bool :=
  let t := remove_char ","%char (strip text) in
  match parse_decimal (if bool_decide (t = []) then "x"%string else t) with
  | Some (Finite _ c _) => c =? 0
  | _ => false
  end.

Record deposit_args := MkDepositArgs {
  da_validator_column : option str; da_delegator_column : option str; da_amount_column : option str; da_amount_unit : option str }.

Record deposit_source := MkDepositSource {
  ds_path : str; ds_sha256 : str; ds_rows : Z; ds_zero_rows_skipped : Z; ds_columns : list str; ds_unit : str;
  ds_portal_review_columns : option (list str) }.

Inductive deposit_line := LineBlank | LineZero | LineDeposit (d : Deposit).

(** One record of a file. *)
Definition read_deposit (path : str) (vi di ai : nat) (unit : str) (si : option nat) (review : option PortalReview.t)
    (line : Z * list str) : result deposit_line :=
  let '(n, record) := line in
  if blank record then Ok LineBlank else
  _ ← raise_if (length record <=? Nat.max (Nat.max vi di) ai)%nat (InputError "too few columns");
  amount_text ← of_option (record !! ai) IndexError;
  if zero_amount amount_text then Ok LineZero else
  _ ← (match si with
       | Some si => s ← of_option (record !! si) IndexError;
                    raise_if (negb (bool_decide (norm s = "ready"%string))) (InputError "destination_status is not ready")
       | None => Ok () end);
  _ ← (match review with Some r => PortalReview.check r record | None => Ok () end);
  v ← of_option (record !! vi) IndexError; v ← normalize_address v;
  d ← of_option (record !! di) IndexError; d ← normalize_address d;
  m ← parse_amount amount_text unit;
  Ok (LineDeposit (MkDeposit v d m (where_ path n))).

Definition line_deposit (l : deposit_line) : option Deposit := match l with LineDeposit d => Some d | _ => None end.
Definition is_zero_line (l : deposit_line) : bool := match l with LineZero => true | _ => false end.

Definition read_deposit_file (args : deposit_args) (review_portal_exports : bool) (f : str * str)
  : result (list Deposit * deposit_source) :=
  let '(path, content) := f in
  '(header, records) ← (match csv_read (decode_sig content) with
                        | (_ :: _) as header :: records => Ok (header, records)
                        | _ => Raise (InputError "empty file")
                        end);
  vi ← required_column header (da_validator_column args) VALIDATOR_COLUMNS;
  di ← required_column header (da_delegator_column args) DELEGATOR_COLUMNS;
  _ ← raise_if (vi =? di)%nat (InputError "the validator and delegator columns are the same column");
  ai ← required_column header (da_amount_column args) AMOUNT_COLUMNS;
  amount_name ← of_option (header !! ai) IndexError;
  unit ← detect_amount_unit amount_name (da_amount_unit args);
  si ← column header None ["destination_status"%string : str];
  let review := if review_portal_exports then Some (PortalReview.init header PORTAL_VAULT_STATUS_COLUMN) else None in
  lines ← mapM (read_deposit path vi di ai unit si review) (imap (λ i r, (Z.of_nat i + 2, r)) records);
  let deposits := omap line_deposit lines in
  v_name ← of_option (header !! vi) IndexError;
  d_name ← of_option (header !! di) IndexError;
  let columns := match review with
                 | Some r => if bool_decide (PortalReview.columns r = []) then None else Some (PortalReview.columns r)
                 | None => None end in
  Ok (deposits, MkDepositSource path (sha256_file (ords content)) (zlen deposits)
                  (zlen (filter (λ l, is_zero_line l = true) lines)) [v_name; d_name; amount_name] unit columns).

(** [resolve] is the file system's: the path a name stands for. *)
Definition read_deposits (resolve : str → str) (paths : list (str * location)) (args : deposit_args) (review_portal_exports : bool)
  : result (list Deposit * list deposit_source) :=
  files ← mapM (λ p, csv_sources p.1 p.2) paths;
  let files := concat files in
  _ ← raise_if (negb (bool_decide (NoDup (resolve <$> files.*1)))) (InputError "the same file is given twice");
  read ← mapM (read_deposit_file args review_portal_exports) files;
  let deposits := concat read.*1 in
  _ ← raise_if (bool_decide (length deposits = 0%nat)) (InputError "the deposit list is empty");
  Ok (deposits, read.*2).

Definition governor_state : Type := dict str str * dict str Z.

Definition read_governor (vi gi : nat) (si ti : option nat) (st : governor_state) (record : list str) : result governor_state :=
  let '(governors, assets) := st in
  if blank record then Ok st else
  v ← of_option (record !! vi) IndexError; v ← normalize_address v;
  let validator := lower v in
  _ ← (match si with
       | Some si => s ← of_option (record !! si) IndexError;
                    raise_if (negb (bool_decide (norm s = "ready"%string))) (InputError "governor status is not ready")
       | None => Ok () end);
  _ ← raise_if (dmem governors validator) (InputError "validator appears twice");
  g ← of_option (record !! gi) IndexError; g ← normalize_address g;
  assets ← (match ti with
            | Some ti => t ← of_option (record !! ti) IndexError;
                         if bool_decide (strip t = []) then Ok assets else n ← py_int t; Ok (dset assets validator n)
            | None => Ok assets end);
  Ok (dset governors validator g, assets).

Definition read_governors (content : str) : result governor_state :=
  let '(header, records) := match csv_read (decode_sig content) with
                            | header :: records => (header, records) | [] => ([], []) end in
  vi ← required_column header None VALIDATOR_COLUMNS;
  gi ← required_column header None GOVERNOR_COLUMNS;
  si ← column header None STATUS_COLUMNS;
  ti ← column header None ["initial_assets_atto"%string : str];
  foldM (read_governor vi gi si ti) ([], []) records.

(** [--governor] and the content of [--governors]; the governor of a validator, the
    file's overrides and its initial assets. *)
Definition governor_policy (governor governors : option str) : result ((str → result str) * dict str str * dict str Z) :=
  _ ← raise_if (bool_decide (is_Some (given governor)) && bool_decide (is_Some governors))
        (InputError "pass --governor or --governors, not both");
  match given governor with
  | Some g => single ← normalize_address g; Ok (λ _, Ok single, [], [])
  | None =>
      '(overrides, assets) ← (match governors with Some content => read_governors content | None => Ok ([], []) end);
      Ok (λ validator, match dget overrides (lower validator) with Some g => Ok g | None => to_checksum validator end, overrides, assets)
  end.

Definition dkey (d : Deposit) : str := lower (d_delegator d).
Definition vkey (d : Deposit) : str := lower (d_validator d).

(** [by_validator.setdefault(key, []).append(d)]. *)
Definition group_step (g : dict str (list Deposit)) (d : Deposit) : dict str (list Deposit) :=
  dset g (vkey d) (default [] (dget g (vkey d)) ++ [d]).
Definition by_validator (deposits : list Deposit) : dict str (list Deposit) := foldl group_step [] deposits.

Definition merge_step (merge : bool) (merged : dict str Deposit) (d : Deposit) : result (dict str Deposit) :=
  match dget merged (dkey d) with
  | Some p =>
      if merge
      then Ok (dset merged (dkey d) (MkDeposit (d_validator p) (d_delegator p) (d_amount p + d_amount d)
                                       (d_source p ++ "+"%string ++ d_source d)))
      else Raise (InputError "delegator appears twice for validator")
  | None => Ok (dset merged (dkey d) d)
  end.

Definition assemble_vault (a : Artifact) (token : str) (governor_for : str → result str) (merge : bool) (rows : list Deposit) : result Vault :=
  merged ← foldM (merge_step merge) [] rows;
  validator ← of_option (d_validator <$> head rows) IndexError;
  governor ← governor_for validator;
  address ← vault_address a token validator governor;
  Ok (MkVault validator governor address (dvalues merged) true).

Definition assemble_vaults (a : Artifact) (token : str) (deposits : list Deposit) (governor_for : str → result str) (merge : bool)
  : result (list Vault) :=
  mapM (λ kv, assemble_vault a token governor_for merge kv.2) (sort_str fst (by_validator deposits)).

(** The lower-case addresses no delegator may be. *)
Definition check_recipients (vaults : list Vault) (forbidden : list str) : result unit :=
  let bad := (λ v, lower (v_address v)) <$> vaults in
  let bad := bad ++ (lower <$> forbidden) in
  raise_if (existsb (λ v, existsb (λ d, bool_decide (dkey d ∈ bad)) (v_deposits v)) vaults)
    (InputError "delegator is a vault, the Safe, the token or the deployer").

(** ** Decoding *)

Inductive deploy_error := NotAuditedCode | MalformedArgument | OtherToken | ZeroGovernor.

Definition any (b : bytes) : bool := existsb (λ x, negb (x =? 0)) b.

Definition decode_deploy (a : Artifact) (token : str) (body : bytes) : result (str * str * str + deploy_error) :=
  let n := zlen (creation a) in
  if negb (zlen body =? 32 + n + 64) || negb (bool_decide (zslice body 32 (32 + n) = creation a)) then Ok (inr NotAuditedCode) else
  let salt := zslice body 0 32 in
  let asset := zslice body (32 + n) (32 + n + 32) in
  let governor := zslice body (32 + n + 32) (zlen body) in
  if any (take 12 salt) || any (take 12 asset) || any (take 12 governor) then Ok (inr MalformedArgument) else
  t ← Airdrop.unhex token;
  if negb (bool_decide (drop 12 asset = t)) then Ok (inr OtherToken) else
  validator ← to_checksum ("0x"%string ++ hex (drop 12 salt));
  gov ← to_checksum ("0x"%string ++ hex (drop 12 governor));
  g ← py_int16 gov;
  if g =? 0 then Ok (inr ZeroGovernor) else
  v ← vault_address a token validator gov;
  Ok (inl (validator, gov, v)).

Definition decode_approve (body : bytes) : result (option (str * Z)) :=
  if negb (zlen body =? 68) || negb (bool_decide (zslice body 0 4 = APPROVE_SELECTOR)) || any (zslice body 4 16) then Ok None else
  s ← to_checksum ("0x"%string ++ hex (zslice body 16 36));
  Ok (Some (s, from_be (zslice body 36 68))).

Definition decode_deposit_batch (body : bytes) : result (option (list Z * list str)) :=
  if negb (bool_decide (zslice body 0 4 = DEPOSIT_BATCH_SELECTOR)) then Ok None else
  let a := zslice body 4 (zlen body) in
  let w := λ i, from_be (zslice a i (i + 32)) in
  if (zlen a <? 128) || negb (zlen a mod 32 =? 0) || negb (w 0 =? 64) then Ok None else
  let n := w 64 in
  if negb (w 32 =? 96 + 32 * n) || negb (zlen a =? 96 + 32 * n + 32 + 32 * n) || negb (w (96 + 32 * n) =? n) then Ok None else
  let range := Z.of_nat <$> seq 0 (Z.to_nat n) in
  let amounts := (λ i, w (96 + 32 * i)) <$> range in
  let words := (λ i, zslice a (128 + 32 * n + 32 * i) (160 + 32 * n + 32 * i)) <$> range in
  if existsb (λ x, any (take 12 x)) words then Ok None else
  delegators ← mapM (λ x : bytes, to_checksum ("0x"%string ++ hex (drop 12 x))) words;
  Ok (Some (amounts, delegators)).

Inductive vault_problem :=
  | VSendsEth (value : Z) | VPaysGasRefund | VNotOfficial (to_ : str) | VUndecodable (m : string) | VNotMultiSend
  | VNotPlain (i : Z) | VDeploy (i : Z) (e : deploy_error) | VNotApprove (i : Z) | VUnusedApproval (i : Z)
  | VNotDepositBatch (i : Z) | VNotApproved (i : Z) | VDanglingApproval (i : Z).

Record Decoded := MkDecoded {
  deploys : list (str * str * str); deposits : list (Z * str * str * Z); problems : list vault_problem }.

(** The loop's variables: what was decoded so far and the approval not yet used. *)
Record dstate := MkDState { ds_decoded : Decoded; ds_pending : option (Z * str * Z) }.

Definition report (st : dstate) (p : vault_problem) : dstate :=
  let d := ds_decoded st in MkDState (MkDecoded (deploys d) (deposits d) (problems d ++ [p])) (ds_pending st).

Definition decode_call (a : Artifact) (token : str) (st : dstate) (ic : Z * call) : result dstate :=
  let '(i, (op, to_, value, body)) := ic in
  let d := ds_decoded st in
  if negb (op =? CALL) || negb (value =? 0) then Ok (report st (VNotPlain i)) else
  if bool_decide (lower to_ = lower FACTORY) then
    got ← decode_deploy a token body;
    match got with
    | inr e => Ok (report st (VDeploy i e))
    | inl g => Ok (MkDState (MkDecoded (deploys d ++ [g]) (deposits d) (problems d)) (ds_pending st))
    end
  else if bool_decide (lower to_ = lower token) then
    got ← decode_approve body;
    match got, ds_pending st with
    | None, _ => Ok (report st (VNotApprove i))
    | Some _, Some _ => Ok (report st (VUnusedApproval i))
    | Some (s, m), None => Ok (MkDState d (Some (i, s, m)))
    end
  else
    got ← decode_deposit_batch body;
    match got with
    | None => Ok (report st (VNotDepositBatch i))
    | Some (amounts, delegators) =>
        let approved := match ds_pending st with
                        | Some (_, s, m) => bool_decide (lower s = lower to_) && (m =? zsum amounts)
                        | None => false end in
        let problems_ := problems d ++ (if approved then [] else [VNotApproved i]) in
        t ← (match zip amounts delegators with [] => Ok [] | _ => to_checksum to_ end);
        Ok (MkDState (MkDecoded (deploys d) (deposits d ++ ((λ md : Z * str, (i, t, md.2, md.1)) <$> zip amounts delegators)) problems_) None)
    end.

Definition decode_vault_calls (a : Artifact) (token : str) (ps : list vault_problem) (calls : list call) : result Decoded :=
  st ← foldM (decode_call a token) (MkDState (MkDecoded [] [] ps) None) (imap (λ i c, (Z.of_nat i + 1, c)) calls);
  let d := ds_decoded st in
  Ok (MkDecoded (deploys d) (deposits d)
        (problems d ++ match ds_pending st with Some (i, _, _) => [VDanglingApproval i] | None => [] end)).

Definition decode_vault_tx (tx : SafeTx) (a : Artifact) (token : str) : result Decoded :=
  let ps := if value tx =? 0 then [] else [VSendsEth (value tx)] in
  refund ← pays_gas_refund tx;
  let ps := ps ++ (if refund : bool then [VPaysGasRefund] else []) in
  if operation tx =? CALL then decode_vault_calls a token ps [(CALL, to tx, value tx, data tx)]
  else
    let ps := ps ++ (if bool_decide (lower (to tx) ∈ OFFICIAL_MULTISEND_CALL_ONLY) then [] else [VNotOfficial (to tx)]) in
    match decode_multisend (data tx) with
    | Raise (InputError m) => Ok (MkDecoded [] [] (ps ++ [VUndecodable m]))
    | Raise e => Raise e
    | Ok None => Ok (MkDecoded [] [] (ps ++ [VNotMultiSend]))
    | Ok (Some calls) => decode_vault_calls a token ps calls
    end.

(** * First fit *)

Definition bin_ok (budget : Z) (b : bin) : Prop := b.1 = zsum_with it_gas b.2 ∧ b.1 ≤ budget ∧ b.2 ≠ [].

Lemma place_perm budget it bins : concat (place budget it bins).*2 ≡ₚ it :: concat bins.*2.
Proof.
  induction bins as [|[used members] bins IH]; [done|]. cbn [place].
  destruct (_ <=? _); cbn [fmap list_fmap snd concat].
  - rewrite <- app_assoc. cbn [app]. symmetry. apply Permutation_middle.
  - rewrite IH. symmetry. apply Permutation_middle.
Qed.

(** What placing an item keeps of every bin. *)
Lemma place_Forall (P : bin → Prop) budget it bins :
  (∀ used members, P (used, members) → used + it_gas it ≤ budget → P (used + it_gas it, members ++ [it])) →
  P (it_gas it, [it]) → Forall P bins → Forall P (place budget it bins).
Proof.
  intros Hg Hn H. induction H as [|[used members] bins Hb H IH]; [by apply Forall_singleton|]. cbn [place].
  destruct (Z.leb_spec (used + it_gas it) budget); constructor; auto.
Qed.

Lemma place_ok budget it bins :
  it_gas it ≤ budget → Forall (bin_ok budget) bins → Forall (bin_ok budget) (place budget it bins).
Proof.
  intros Hit. apply place_Forall.
  - intros used members (Hu & Hb & Hne) Hfit. split; [|split; [done|by destruct members]]. cbn [fst snd] in *.
    rewrite zsum_with_snoc. lia.
  - split; [unfold zsum_with; cbn; lia|done].
Qed.

(** Two bins are never both half empty: what the later one holds did not fit in
    the earlier one. *)
Definition crowded (budget : Z) (bins : list bin) : Prop := StronglySorted (λ a b, budget < a.1 + b.1) bins.

Lemma place_crowded budget it bins :
  0 ≤ it_gas it → crowded budget bins → crowded budget (place budget it bins).
Proof.
  intros Hit. induction bins as [|[used members] bins IH]; intros H; [repeat constructor|]. cbn [place].
  apply StronglySorted_inv in H as [Hs Hf]. destruct (Z.leb_spec (used + it_gas it) budget) as [Hfit|Hfit]; constructor; auto.
  - eapply Forall_impl; [exact Hf|]. cbn [fst]. intros b Hb. lia.
  - by apply IH.
  - apply place_Forall; cbn [fst]; [lia|lia|done].
Qed.

Lemma fund_bins_inv items budget :
  Forall (λ it, 0 ≤ it_gas it ≤ budget) items →
  concat (fund_bins items budget).*2 ≡ₚ items ∧ Forall (bin_ok budget) (fund_bins items budget) ∧
  crowded budget (fund_bins items budget).
Proof.
  intros H. unfold fund_bins. rewrite <- (sort_by_perm item_leb items) at 2.
  rewrite <- (sort_by_perm item_leb items) in H. generalize dependent (sort_by item_leb items). intros l Hl.
  assert (∀ bins, Forall (bin_ok budget) bins → crowded budget bins →
    concat (foldl (λ bins it, place budget it bins) bins l).*2 ≡ₚ concat bins.*2 ++ l ∧
    Forall (bin_ok budget) (foldl (λ bins it, place budget it bins) bins l) ∧
    crowded budget (foldl (λ bins it, place budget it bins) bins l)) as Hg.
  { induction Hl as [|it l Hit Hl IH]; intros bins Hb Hc; cbn [foldl]; [by rewrite app_nil_r|].
    destruct (IH (place budget it bins)) as (Hp & ? & ?); [apply place_ok; [lia|done]|apply place_crowded; [lia|done]|].
    split; [|done]. rewrite Hp, place_perm. cbn [app]. by rewrite Permutation_middle. }
  apply (Hg []); [constructor|constructor].
Qed.

(** So the bins hold more than half of what they could. *)
Lemma crowded_count budget bins :
  crowded budget bins → Forall (λ b, 0 ≤ b.1) bins → (zlen bins / 2) * budget ≤ zsum bins.*1.
Proof.
  induction bins as [|b|a b bins IH] using list_ind2; intros Hc Hn.
  - done.
  - change (zlen [b] / 2) with 0. inversion_clear Hn. cbn [fmap list_fmap zsum]. lia.
  - unfold crowded in Hc. apply StronglySorted_inv in Hc as [Hc Hf]. apply StronglySorted_inv in Hc as [Hc _].
    apply Forall_inv in Hf. inversion_clear Hn as [|?? Ha Hn']. inversion_clear Hn' as [|?? Hb Hn].
    specialize (IH Hc Hn). cbn [fmap list_fmap zsum].
    replace (zlen (a :: b :: bins) / 2) with (zlen bins / 2 + 1); [lia|].
    unfold zlen. cbn [length]. rewrite !Nat2Z.inj_succ. rewrite <- (Z.div_add _ 1 2) by lia. f_equal. lia.
Qed.

(** * The funding plan *)

(** The deposits a transaction pays, with the vaults they go to. *)
Definition funded (t : PlannedTx) : list (Vault * Deposit) :=
  concat (zip_with (λ v c, (λ d, (v, d)) <$> c) (p_vaults t) (p_deposits t)).
Definition owed (v : Vault) : list (Vault * Deposit) := (λ d, (v, d)) <$> v_deposits v.

Definition item_deposits (it : item) : list (Vault * Deposit) := (λ d, (it_vault it, d)) <$> it_chunk it.

(** An item of the plan: its gas, and its number of rows. *)
Definition item_ok (max_rows : Z) (it : item) : Prop :=
  it_gas it = FUND_CALL_GAS + FUND_ROW_GAS * zlen (it_chunk it) ∧ 1 ≤ zlen (it_chunk it) ≤ max_rows.

Lemma part_of_concat {A} (parts : list (list A)) p : p ∈ parts → ∃ pre post, concat parts = pre ++ p ++ post.
Proof.
  intros (l1 & l2 & ->)%list_elem_of_split. exists (concat l1), (concat l2). by rewrite concat_app.
Qed.

(** An item holds consecutive deposits of its vault. *)
Definition item_of (v : Vault) (it : item) : Prop :=
  it_vault it = v ∧ ∃ pre post, v_deposits v = pre ++ it_chunk it ++ post.

Lemma vault_items_ok max_rows v :
  1 ≤ max_rows → ∃ items, vault_items max_rows v = Ok items ∧ Forall (item_ok max_rows) items ∧
    Forall (item_of v) items ∧ concat (item_deposits <$> items) = owed v.
Proof.
  intros Hm. unfold vault_items. destruct (decide (v_deposits v = [])) as [E|E].
  { rewrite E. exists []. unfold owed. rewrite E. by repeat constructor. }
  destruct (split_parts (v_deposits v) max_rows None E) as (sizes & -> & Hc & _ & _ & Hb); [by split|]. cbn [mbind result_bind].
  eexists. split; [reflexivity|]. split_and!.
  - apply Forall_fmap, Forall_forall. intros p (i & _ & Hp)%enumerate_lookup_inv. unfold compose, item_ok. cbn [it_gas it_chunk].
    split; [done|]. apply (Forall_lookup_1 _ _ _ _ Hb Hp).
  - apply Forall_fmap, Forall_forall. intros p (i & _ & Hp)%enumerate_lookup_inv. unfold compose. split; [done|]. cbn [it_chunk].
    apply list_elem_of_lookup_2, part_of_concat in Hp as (pre & post & Hp). rewrite Hc in Hp. by exists pre, post.
  - unfold owed. rewrite <- Hc at 2. rewrite fmap_concat. f_equal. rewrite <- list_fmap_compose.
    unfold item_deposits, compose. cbn [it_vault it_chunk]. unfold enumerate. rewrite fmap_imap. apply (imap_const (fmap (λ d, (v, d)))).
Qed.

Lemma all_items_ok max_rows vaults :
  1 ≤ max_rows → ∃ items, mapM (vault_items max_rows) vaults = Ok items ∧ Forall (item_ok max_rows) (concat items) ∧
    Forall (λ it, it_vault it ∈ vaults ∧ item_of (it_vault it) it) (concat items) ∧
    concat (item_deposits <$> concat items) = concat (owed <$> vaults).
Proof.
  intros Hm. induction vaults as [|v vaults (items & E & Ho & Hv & Hc)]; [by exists []|].
  destruct (vault_items_ok max_rows v Hm) as (new & E' & Ho' & Hv' & Hc'). exists (new :: items).
  cbn [mapM]. rewrite E'. cbn [mbind result_bind]. rewrite E. split; [done|]. cbn [concat fmap list_fmap]. split_and!.
  - by apply Forall_app.
  - apply Forall_app. split.
    + eapply Forall_impl; [exact Hv'|]. intros it [<- ?]. split; [by left|done].
    + eapply Forall_impl; [exact Hv|]. intros it [? ?]. split; [by right|done].
  - rewrite fmap_app, concat_app. by rewrite Hc', Hc.
Qed.

Lemma item_gas_bounds max_rows budget it :
  item_ok max_rows it → FUND_CALL_GAS + FUND_ROW_GAS * max_rows ≤ budget → 0 ≤ it_gas it ≤ budget.
Proof. intros [-> ?]. unfold FUND_CALL_GAS, FUND_ROW_GAS. lia. Qed.

(** * The calls *)

Lemma approve_data_pair s m : approve_data s m = encode_pair APPROVE_SELECTOR s m.
Proof. done. Qed.
Lemma decode_approve_pair body : decode_approve body = decode_pair APPROVE_SELECTOR body.
Proof. done. Qed.

Lemma zlen_concat_words (ws : list bytes) : Forall (λ w, zlen w = 32) ws → zlen (concat ws) = 32 * zlen ws.
Proof. induction 1 as [|w l Hw _ IH]; [done|]. cbn [concat]. rewrite zlen_app, IH, Hw. unfold zlen. cbn [length]. lia. Qed.

(** The words of a list inside call data. *)
Lemma nth_words (a pre post : bytes) (ws : list bytes) :
  a = pre ++ concat ws ++ post → Forall (λ w, zlen w = 32) ws →
  (λ i, zslice a (zlen pre + 32 * i) (zlen pre + 32 * i + 32)) <$> (Z.of_nat <$> seq 0 (length ws)) = ws.
Proof.
  intros E H. rewrite <- list_fmap_compose.
  assert (∀ k, zlen pre + 32 * Z.of_nat k = zlen (pre ++ concat (take k ws)) ∨ (length ws < k)%nat) as Hl.
  { intros k. destruct (decide (k ≤ length ws)%nat); [left|right; lia]. rewrite zlen_app. f_equal.
    assert (Forall (λ w, zlen w = 32) (take k ws)) as Ht by by apply Forall_take.
    rewrite (zlen_concat_words _ Ht). unfold zlen. rewrite length_take. lia. }
  apply list_eq. intros i. rewrite list_lookup_fmap. destruct (decide (i < length ws)%nat) as [Hi|Hi].
  - rewrite lookup_seq_lt by done. cbn [fmap option_fmap option_map Nat.add]. unfold compose.
    destruct (lookup_lt_is_Some_2 _ _ Hi) as [w Hw]. rewrite Hw. f_equal.
    destruct (Hl i) as [Hli|]; [|lia]. pose proof (Forall_lookup_1 _ _ _ _ H Hw) as Hw32. cbv beta in Hw32.
    apply (zslice_mid _ (pre ++ concat (take i ws)) w (concat (drop (S i) ws) ++ post)); [|done|lia].
    rewrite E, <- app_assoc. f_equal. rewrite <- (take_drop_middle ws i w Hw) at 1. rewrite concat_app. cbn [concat].
    by rewrite <- !app_assoc.
  - rewrite lookup_seq_ge by lia. rewrite lookup_ge_None_2 by lia. done.
Qed.

(** An address in a 32-byte word. *)
Definition address_word_of (b : bytes) : bytes := replicate 12 0 ++ b.

Lemma drop_address_word b : drop 12 (address_word_of b) = b.
Proof. done. Qed.

Lemma word_address w : zlen w = 32 → any (take 12 w) = false → w = address_word_of (drop 12 w).
Proof.
  intros Hw H%existsb_nonzero. unfold address_word_of. rewrite <- (take_drop 12 w) at 1. rewrite H at 1.
  rewrite length_take. unfold zlen in Hw. by replace (12 `min` length w)%nat with 12%nat by lia.
Qed.

Lemma aw_bytes a b : address_bytes a b → aw a = Ok (address_word_of b).
Proof. apply address_word_bytes. Qed.

Lemma address_word_of_ok b : bytes_ok b → bytes_ok (address_word_of b).
Proof. intros H. apply bytes_ok_app. split; [|done]. apply Forall_replicate. lia. Qed.

Lemma mapM_aw ds bs : Forall2 address_bytes ds bs → mapM aw ds = Ok (address_word_of <$> bs).
Proof.
  intros H. apply mapM_Ok_Forall2. induction H as [|d b ds bs Hd _ IH]; constructor; [by apply aw_bytes|done].
Qed.

Lemma Forall_zlen_to_be ms : Forall (λ w, zlen w = 32) (to_be 32 <$> ms).
Proof. apply Forall_fmap, Forall_true. intros m. apply zlen_to_be. Qed.

Lemma Forall_zlen_address (bs : list bytes) : Forall (λ b, length b = 20%nat) bs → Forall (λ w, zlen w = 32) (address_word_of <$> bs).
Proof.
  intros H. apply Forall_fmap. eapply Forall_impl; [exact H|]. intros b Hb. unfold compose, address_word_of.
  rewrite zlen_app. unfold zlen. rewrite Hb, length_replicate. lia.
Qed.

Lemma mapM_checksum_words ds bs :
  Forall2 address_bytes ds bs →
  mapM (λ x : bytes, to_checksum ("0x"%string ++ hex (drop 12 x))) (address_word_of <$> bs) = Ok ds.
Proof.
  intros H. apply mapM_Ok_Forall2. induction H as [|d b ds bs (_ & _ & Hc) _ IH]; constructor; [|done].
  by rewrite drop_address_word.
Qed.

(** The call data of [depositBatch], for the words of the two lists. *)
Definition deposit_words (n : Z) (w1 w2 : list bytes) : bytes :=
  to_be 32 64 ++ to_be 32 (96 + 32 * n) ++ to_be 32 n ++ concat w1 ++ to_be 32 n ++ concat w2.

Lemma deposit_batch_bytes ms ds bs :
  Forall uint256 ms → Forall2 address_bytes ds bs → uint256 (96 + 32 * zlen ms) →
  deposit_batch_data ms ds = Ok (DEPOSIT_BATCH_SELECTOR ++ deposit_words (zlen ms) (to_be 32 <$> ms) (address_word_of <$> bs)).
Proof.
  intros Hm Hd Hu. unfold deposit_batch_data. pose proof (zlen_nonneg ms).
  rewrite (word_ok 64) by compute_decide. cbn [mbind result_bind]. change (0x40 + 32) with 96.
  rewrite (word_ok (96 + 32 * zlen ms)) by done. cbn [mbind result_bind].
  rewrite (word_ok (zlen ms)) by (unfold uint256 in *; lia). cbn [mbind result_bind].
  assert (mapM word ms = Ok (to_be 32 <$> ms)) as ->.
  { apply mapM_Ok_Forall2. clear -Hm. induction Hm; constructor; [by apply word_ok|done]. }
  cbn [mbind result_bind]. rewrite (mapM_aw ds bs Hd). cbn [mbind result_bind]. unfold deposit_words. by rewrite <- !app_assoc.
Qed.

(** What the decoder sees in such data. *)
Lemma deposit_words_slices n w1 w2 :
  Forall (λ w, zlen w = 32) w1 → Forall (λ w, zlen w = 32) w2 → zlen w1 = n → zlen w2 = n → uint256 (96 + 32 * n) →
  let a := deposit_words n w1 w2 in
  zlen a = 96 + 32 * n + 32 + 32 * n ∧ from_be (zslice a 0 (0 + 32)) = 64 ∧ from_be (zslice a 32 (32 + 32)) = 96 + 32 * n ∧
  from_be (zslice a 64 (64 + 32)) = n ∧ from_be (zslice a (96 + 32 * n) (96 + 32 * n + 32)) = n ∧
  (λ i, zslice a (96 + 32 * i) (96 + 32 * i + 32)) <$> (Z.of_nat <$> seq 0 (Z.to_nat n)) = w1 ∧
  (λ i, zslice a (128 + 32 * n + 32 * i) (160 + 32 * n + 32 * i)) <$> (Z.of_nat <$> seq 0 (Z.to_nat n)) = w2.
Proof.
  intros H1 H2 L1 L2 Hu a. pose proof (zlen_concat_words _ H1) as C1. pose proof (zlen_concat_words _ H2) as C2. rewrite L1 in C1. rewrite L2 in C2.
  assert (uint256 n) as Hn by (unfold uint256 in *; pose proof (zlen_nonneg w1); lia).
  set (h := to_be 32 64) in *. set (o := to_be 32 (96 + 32 * n)). set (c := to_be 32 n).
  assert (zlen h = 32) as Lh by apply zlen_to_be. assert (zlen o = 32) as Lo by apply zlen_to_be. assert (zlen c = 32) as Lc by apply zlen_to_be.
  change a with (h ++ o ++ c ++ concat w1 ++ c ++ concat w2).
  assert (zslice (h ++ o ++ c ++ concat w1 ++ c ++ concat w2) 0 (0 + 32) = h) as -> by zmid (@nil Z) h (o ++ c ++ concat w1 ++ c ++ concat w2).
  assert (zslice (h ++ o ++ c ++ concat w1 ++ c ++ concat w2) 32 (32 + 32) = o) as -> by zmid h o (c ++ concat w1 ++ c ++ concat w2).
  assert (zslice (h ++ o ++ c ++ concat w1 ++ c ++ concat w2) 64 (64 + 32) = c) as -> by zmid (h ++ o) c (concat w1 ++ c ++ concat w2).
  assert (zslice (h ++ o ++ c ++ concat w1 ++ c ++ concat w2) (96 + 32 * n) (96 + 32 * n + 32) = c) as ->
    by zmid (h ++ o ++ c ++ concat w1) c (concat w2).
  unfold h, o, c. rewrite !from_be_word by (done || compute_decide). split_and!; try done.
  - rewrite !zlen_app, !zlen_to_be. lia.
  - pose proof (nth_words (h ++ o ++ c ++ concat w1 ++ c ++ concat w2) (h ++ o ++ c) (c ++ concat w2) w1) as E.
    rewrite !zlen_app, Lh, Lo, Lc in E. replace (Z.to_nat n) with (length w1) by (unfold zlen in L1; lia).
    apply E; [by rewrite <- !app_assoc|done].
  - pose proof (nth_words (h ++ o ++ c ++ concat w1 ++ c ++ concat w2) (h ++ o ++ c ++ concat w1 ++ c) [] w2) as E.
    rewrite !zlen_app, Lh, Lo, Lc, C1 in E. replace (Z.to_nat n) with (length w2) by (unfold zlen in L2; lia).
    etransitivity; [|apply E; [by rewrite app_nil_r, <- !app_assoc|done]]. apply list_fmap_ext. intros i x _. f_equal; lia.
Qed.

Lemma body_after_selector (sel a : bytes) :
  zlen sel = 4 → zslice (sel ++ a) 0 4 = sel ∧ zslice (sel ++ a) 4 (zlen (sel ++ a)) = a.
Proof.
  intros Hs. split; [by zmid (@nil Z) sel a|]. apply (zslice_mid _ sel a []); [by rewrite app_nil_r|done|rewrite zlen_app; lia].
Qed.

(** The decoder on well-formed words. *)
Lemma decode_deposit_words n w1 w2 :
  Forall (λ w, zlen w = 32) w1 → Forall (λ w, zlen w = 32) w2 → zlen w1 = n → zlen w2 = n → uint256 (96 + 32 * n) →
  decode_deposit_batch (DEPOSIT_BATCH_SELECTOR ++ deposit_words n w1 w2) =
    if existsb (λ x, any (take 12 x)) w2 then Ok None else
    delegators ← mapM (λ x : bytes, to_checksum ("0x"%string ++ hex (drop 12 x))) w2; Ok (Some (from_be <$> w1, delegators)).
Proof.
  intros H1 H2 L1 L2 Hu. destruct (deposit_words_slices n w1 w2 H1 H2 L1 L2 Hu) as (Hz & E0 & E1 & E2 & E3 & E4 & E5).
  unfold decode_deposit_batch. destruct (body_after_selector DEPOSIT_BATCH_SELECTOR (deposit_words n w1 w2) eq_refl) as [-> ->].
  rewrite bool_decide_eq_true_2 by done. cbn [negb]. rewrite E0, E2, E1, E3, E5, Hz, !Z.eqb_refl.
  pose proof (zlen_nonneg w1). rewrite (proj2 (Z.ltb_ge _ _)) by lia.
  replace ((96 + 32 * n + 32 + 32 * n) mod 32) with 0.
  2: { symmetry. replace (96 + 32 * n + 32 + 32 * n) with ((4 + 2 * n) * 32) by lia. apply Z.mod_mul. lia. }
  cbn [Z.eqb negb orb]. destruct (existsb _ w2); [done|].
  replace ((λ i : Z, from_be (zslice (deposit_words n w1 w2) (96 + 32 * i) (96 + 32 * i + 32))) <$> (Z.of_nat <$> seq 0 (Z.to_nat n)))
    with (from_be <$> w1); [done|].
  rewrite <- E4 at 1. by rewrite <- !list_fmap_compose.
Qed.

Lemma from_be_words ms : Forall uint256 ms → from_be <$> (to_be 32 <$> ms) = ms.
Proof. induction 1 as [|m ms Hm _ IH]; [done|]. cbn [fmap list_fmap]. by rewrite from_be_word, IH. Qed.

Lemma existsb_address_words (bs : list bytes) : existsb (λ x, any (take 12 x)) (address_word_of <$> bs) = false.
Proof. induction bs as [|b bs IH]; [done|]. cbn [fmap list_fmap existsb]. by rewrite IH. Qed.

Lemma address_bytes_lengths ds bs : Forall2 address_bytes ds bs → Forall (λ b, length b = 20%nat) bs.
Proof. induction 1 as [|d b ds bs (Hb & _) _ IH]; by constructor. Qed.

Lemma zlen_eq {A B} (l : list A) (k : list B) : length l = length k → zlen l = zlen k.
Proof. unfold zlen. lia. Qed.

Lemma deposit_batch_roundtrip ms ds bs :
  Forall uint256 ms → Forall2 address_bytes ds bs → length ms = length ds → uint256 (96 + 32 * zlen ms) →
  ∃ body, deposit_batch_data ms ds = Ok body ∧ decode_deposit_batch body = Ok (Some (ms, ds)).
Proof.
  intros Hm Hd Hl Hu. eexists. split; [by apply deposit_batch_bytes|].
  rewrite decode_deposit_words; [|apply Forall_zlen_to_be|by eapply Forall_zlen_address, address_bytes_lengths|..|done].
  - rewrite existsb_address_words, mapM_checksum_words with (ds := ds) by done. cbn [mbind result_bind]. by rewrite from_be_words.
  - apply zlen_eq. by rewrite length_fmap.
  - apply zlen_eq. rewrite length_fmap, Hl. symmetry. by eapply Forall2_length.
Qed.

(** Bytes cut into words. *)
Lemma words_of_bytes (w : bytes) n : 0 ≤ n → zlen w = 32 * n → ∃ ws, w = concat ws ∧ Forall (λ x, zlen x = 32) ws ∧ zlen ws = n.
Proof.
  intros Hn Hw. destruct (parts_of_sizes w (times 32 n)) as (ws & -> & E).
  - apply Forall_times. lia.
  - rewrite zsum_times by lia. lia.
  - exists ws. split; [done|]. split.
    + rewrite <- (Forall_fmap zlen (λ s, s = 32)), <- E. by apply Forall_times.
    + apply (f_equal zlen) in E. rewrite zlen_times in E by lia. rewrite E. apply zlen_eq. by rewrite length_fmap.
Qed.

Lemma deposit_words_inv (a : bytes) n :
  bytes_ok a → n = from_be (zslice a 64 (64 + 32)) → zlen a = 96 + 32 * n + 32 + 32 * n →
  from_be (zslice a 0 (0 + 32)) = 64 → from_be (zslice a 32 (32 + 32)) = 96 + 32 * n →
  from_be (zslice a (96 + 32 * n) (96 + 32 * n + 32)) = n →
  ∃ w1 w2, a = deposit_words n w1 w2 ∧ Forall (λ w, zlen w = 32) w1 ∧ Forall (λ w, zlen w = 32) w2 ∧
    zlen w1 = n ∧ zlen w2 = n ∧ uint256 (96 + 32 * n) ∧ Forall bytes_ok w1 ∧ Forall bytes_ok w2.
Proof.
  intros Hok Hn Hl E0 E1 E3. assert (0 ≤ n) as Hn0 by (subst n; apply from_be_range, zslice_ok, Hok).
  destruct (zsplit a 32) as (h & p1 & -> & Lh); [lia|]. rewrite zlen_app in *.
  destruct (zsplit p1 32) as (o & p2 & -> & Lo); [lia|]. rewrite zlen_app in *.
  destruct (zsplit p2 32) as (c & p3 & -> & Lc); [lia|]. rewrite zlen_app in *.
  destruct (zsplit p3 (32 * n)) as (W1 & p4 & -> & L1); [lia|]. rewrite zlen_app in *.
  destruct (zsplit p4 32) as (c' & W2 & -> & Lc'); [lia|]. rewrite zlen_app in *.
  assert (zslice (h ++ o ++ c ++ W1 ++ c' ++ W2) 64 (64 + 32) = c) as Ec by zmid (h ++ o) c (W1 ++ c' ++ W2).
  assert (zslice (h ++ o ++ c ++ W1 ++ c' ++ W2) 0 (0 + 32) = h) as Eh by zmid (@nil Z) h (o ++ c ++ W1 ++ c' ++ W2).
  assert (zslice (h ++ o ++ c ++ W1 ++ c' ++ W2) 32 (32 + 32) = o) as Eo by zmid h o (c ++ W1 ++ c' ++ W2).
  assert (zslice (h ++ o ++ c ++ W1 ++ c' ++ W2) (96 + 32 * n) (96 + 32 * n + 32) = c') as Ec' by zmid (h ++ o ++ c ++ W1) c' W2.
  rewrite Ec, Eh, Eo, Ec' in *. rewrite !bytes_ok_app in Hok. destruct Hok as (Hh & Ho & Hc & HW1 & Hc' & HW2).
  assert (∀ w v, zlen w = 32 → bytes_ok w → from_be w = v → w = to_be 32 v ∧ uint256 v) as Hword.
  { intros w v Lw Hw <-. destruct (word_from_be w) as [-> ?]; [unfold zlen in Lw; lia|done|done]. }
  destruct (Hword h 64) as [-> _]; [done..|]. destruct (Hword o (96 + 32 * n)) as [-> Hu]; [done..|].
  destruct (Hword c n) as [-> _]; [done..|]. destruct (Hword c' n) as [-> _]; [done..|].
  destruct (words_of_bytes W1 n) as (w1 & -> & F1 & G1); [done..|]. destruct (words_of_bytes W2 n) as (w2 & -> & F2 & G2); [lia|lia|].
  exists w1, w2. split; [done|]. do 5 (split; [done|]). split; by apply parts_Forall.
Qed.

Lemma mapM_checksum_inv w2 ds :
  Forall (λ w, zlen w = 32) w2 → Forall bytes_ok w2 → existsb (λ x, any (take 12 x)) w2 = false →
  mapM (λ x : bytes, to_checksum ("0x"%string ++ hex (drop 12 x))) w2 = Ok ds →
  Forall2 address_bytes ds (drop 12 <$> w2) ∧ w2 = address_word_of <$> (drop 12 <$> w2).
Proof.
  intros Hl Hok He H%mapM_Ok_Forall2. revert Hl Hok He. induction H as [|w d w2 ds Hd _ IH]; intros Hl Hok He; [done|].
  inversion_clear Hl as [|?? Hw Hl']. inversion_clear Hok as [|?? Hwok Hok']. cbn [existsb] in He. apply orb_false_elim in He as [He1 He2].
  destruct (IH Hl' Hok' He2) as [Hf Ef]. cbn [fmap list_fmap]. split.
  - constructor; [|done]. split; [rewrite length_drop; unfold zlen in Hw; lia|]. split; [by apply Forall_drop|done].
  - f_equal; [by apply word_address|done].
Qed.

Lemma decode_deposit_batch_inv body ms ds :
  bytes_ok body → decode_deposit_batch body = Ok (Some (ms, ds)) →
  ∃ bs, Forall2 address_bytes ds bs ∧ length ms = length ds ∧ deposit_batch_data ms ds = Ok body.
Proof.
  intros Hok H. pose proof H as H'. unfold decode_deposit_batch in H'. destruct (negb _) eqn:Es; [done|]. zbool.
  destruct (_ || _) eqn:E1 in H'; [done|]. destruct (_ || negb (_ =? _)) eqn:E2 in H'; [done|]. clear H'. zbool.
  set (a := zslice body 4 (zlen body)) in *.
  assert (body = DEPOSIT_BATCH_SELECTOR ++ a) as Eb.
  { destruct (decide (4 ≤ zlen body)) as [Hl|Hl].
    - destruct (zsplit body 4) as (s & r & -> & Ls); [lia|]. destruct (body_after_selector s r Ls) as [E E']. unfold a. by rewrite E', <- E, Es.
    - assert (zlen a = 0); [|lia]. unfold a, zslice, slice. rewrite Z.min_r by lia. unfold zlen at 1.
      rewrite length_take, length_drop. unfold zlen in *. lia. }
  clearbody a. subst body. apply bytes_ok_app in Hok as [_ Hok].
  destruct (deposit_words_inv a _ Hok eq_refl) as (w1 & w2 & Ea & F1 & F2 & G1 & G2 & Hu & Hb1 & Hb2); [done..|].
  set (n := from_be (zslice a 64 (64 + 32))) in *. clearbody n. subst a.
  rewrite decode_deposit_words in H by done. destruct (existsb _ w2) eqn:Ex; [done|]. inv_ok. simplify_eq.
  match goal with E : mapM _ w2 = Ok _ |- _ => destruct (mapM_checksum_inv w2 ds F2 Hb2 Ex E) as [Hf Ef] end.
  exists (drop 12 <$> w2). split; [done|].
  assert (length w1 = length w2) as Hlen by (unfold zlen in *; lia).
  assert (length (from_be <$> w1) = length ds) as Hl by (rewrite (Forall2_length _ _ _ Hf), !length_fmap; done).
  assert (Forall (λ w, to_be 32 (from_be w) = w ∧ uint256 (from_be w)) w1) as Hw.
  { rewrite Forall_forall in *. intros w Hin. apply word_from_be; [|by apply Hb1]. specialize (F1 w Hin). unfold zlen in F1. lia. }
  assert (Forall uint256 (from_be <$> w1)) as Hms by (apply Forall_fmap; eapply Forall_impl; [exact Hw|]; by intros w [_ ?]).
  split; [done|]. rewrite (deposit_batch_bytes _ _ _ Hms Hf).
  - rewrite <- Ef. replace (to_be 32 <$> (from_be <$> w1)) with w1; [by rewrite (zlen_eq (from_be <$> w1) w1) by by rewrite length_fmap|].
    clear -Hw. induction Hw as [|w w1 [Hw _] _ IH]; [done|]. cbn [fmap list_fmap]. by rewrite Hw, <- IH.
  - by rewrite (zlen_eq (from_be <$> w1) w1) by by rewrite length_fmap.
Qed.

(** ** Vault deployments *)

Lemma initcode_bytes a token tb g gb :
  address_bytes token tb → address_bytes g gb → initcode a token g = Ok (creation a ++ address_word_of tb ++ address_word_of gb).
Proof. intros Ht Hg. unfold initcode. by rewrite (aw_bytes token tb), (aw_bytes g gb). Qed.

Lemma deploy_data_bytes a token tb v vb g gb :
  address_bytes token tb → address_bytes v vb → address_bytes g gb →
  deploy_data a token v g = Ok (address_word_of vb ++ creation a ++ address_word_of tb ++ address_word_of gb).
Proof.
  intros Ht Hv Hg. unfold deploy_data, salt_for. rewrite (aw_bytes v vb) by done. cbn [mbind result_bind].
  by rewrite (initcode_bytes a token tb g gb).
Qed.

(** Every validator and governor has a vault address. *)
Lemma vault_address_ok a token tb v vb g gb :
  address_bytes token tb → address_bytes v vb → address_bytes g gb →
  ∃ addr ab, vault_address a token v g = Ok addr ∧ address_bytes addr ab.
Proof.
  intros Ht Hv Hg. unfold vault_address, salt_for.
  assert (∃ f, Airdrop.unhex FACTORY = Ok f) as [f ->] by (eexists; by vm_compute). cbn [mbind result_bind].
  rewrite (aw_bytes v vb), (initcode_bytes a token tb g gb) by done. cbn [mbind result_bind].
  set (digest := keccak256 _). assert (length (drop 12 digest) = 20%nat) as Hl by (rewrite length_drop; unfold digest; by rewrite length_keccak256).
  rewrite to_checksum_0x by (rewrite length_hex; lia). eexists _, (drop 12 digest). split; [done|]. split; [done|].
  split; [apply Forall_drop, keccak256_ok|]. rewrite to_checksum_0x by (rewrite length_hex; lia). done.
Qed.

Lemma zlen_address_word b : length b = 20%nat → zlen (address_word_of b) = 32.
Proof. intros Hb. unfold address_word_of. rewrite zlen_app. unfold zlen. rewrite Hb, length_replicate. lia. Qed.

Lemma decode_deploy_bytes a token tb v vb g gb addr :
  address_bytes token tb → address_bytes v vb → address_bytes g gb → from_be gb ≠ 0 → vault_address a token v g = Ok addr →
  decode_deploy a token (address_word_of vb ++ creation a ++ address_word_of tb ++ address_word_of gb) = Ok (inl (v, g, addr)).
Proof.
  intros Ht Hv Hg Hnz Ha. unfold decode_deploy. set (n := zlen (creation a)). set (body := _ ++ _).
  pose proof (zlen_address_word vb ltac:(apply Hv)) as Lv. pose proof (zlen_address_word tb ltac:(apply Ht)) as Lt.
  pose proof (zlen_address_word gb ltac:(apply Hg)) as Lg. pose proof (zlen_nonneg (creation a)).
  assert (zlen body = 32 + n + 64) as Lb by (unfold body; rewrite !zlen_app; unfold n; lia). rewrite Lb, Z.eqb_refl.
  assert (zslice body 32 (32 + n) = creation a) as -> by (unfold n; zmid (address_word_of vb) (creation a) (address_word_of tb ++ address_word_of gb)).
  rewrite bool_decide_eq_true_2 by done. cbn [negb orb].
  assert (zslice body 0 32 = address_word_of vb) as -> by zmid (@nil Z) (address_word_of vb) (creation a ++ address_word_of tb ++ address_word_of gb).
  assert (zslice body (32 + n) (32 + n + 32) = address_word_of tb) as -> by (unfold n; zmid (address_word_of vb ++ creation a) (address_word_of tb) (address_word_of gb)).
  assert (zslice body (32 + n + 32) (32 + n + 64) = address_word_of gb) as ->.
  { apply (zslice_mid _ (address_word_of vb ++ creation a ++ address_word_of tb) _ []);
      [by rewrite app_nil_r, <- !app_assoc|rewrite !zlen_app; unfold n; lia|lia]. }
  change (any (take 12 (address_word_of vb))) with false. change (any (take 12 (address_word_of tb))) with false.
  change (any (take 12 (address_word_of gb))) with false. cbn [orb].
  destruct (address_bytes_forms _ _ Ht) as (-> & _). cbn [mbind result_bind]. rewrite !drop_address_word, bool_decide_eq_true_2 by done. cbn [negb].
  destruct Hv as (_ & _ & ->). cbn [mbind result_bind]. destruct (address_bytes_forms _ _ Hg) as (_ & Hgi & _).
  destruct Hg as (_ & _ & ->). cbn [mbind result_bind]. rewrite Hgi. cbn [mbind result_bind].
  rewrite (proj2 (Z.eqb_neq _ _)) by done. by rewrite Ha.
Qed.

Lemma decode_deploy_inv a token body v g addr :
  canonical token → bytes_ok body → decode_deploy a token body = Ok (inl (v, g, addr)) →
  ∃ vb gb, address_bytes v vb ∧ address_bytes g gb ∧ from_be gb ≠ 0 ∧ deploy_data a token v g = Ok body ∧ vault_address a token v g = Ok addr.
Proof.
  intros (tb & Ht & _)%canonical_bytes Hok H. unfold decode_deploy in H. set (n := zlen (creation a)) in *.
  destruct (_ || _) eqn:E1; [done|]. destruct (_ || any _) eqn:E2; [done|]. inv_ok. zbool.
  destruct (negb _) eqn:E3 in H; [done|]. inv_ok. destruct (_ =? 0) eqn:E4 in H; [done|]. inv_ok. zbool. simplify_eq.
  pose proof (zlen_nonneg (creation a)).
  destruct (zsplit body 32) as (s & p1 & -> & Ls); [lia|]. rewrite zlen_app in *.
  destruct (zsplit p1 n) as (c & p2 & -> & Lc); [lia|]. rewrite zlen_app in *.
  destruct (zsplit p2 32) as (t & gw & -> & Lt); [lia|]. rewrite zlen_app in *.
  assert (zslice (s ++ c ++ t ++ gw) 32 (32 + n) = c) as Ec by zmid s c (t ++ gw).
  assert (zslice (s ++ c ++ t ++ gw) 0 32 = s) as Es by zmid (@nil Z) s (c ++ t ++ gw).
  assert (zslice (s ++ c ++ t ++ gw) (32 + n) (32 + n + 32) = t) as Et by zmid (s ++ c) t gw.
  assert (zslice (s ++ c ++ t ++ gw) (32 + n + 32) (zlen s + (zlen c + (zlen t + zlen gw))) = gw) as Eg.
  { apply (zslice_mid _ (s ++ c ++ t) gw []); [by rewrite app_nil_r, <- !app_assoc|rewrite !zlen_app; lia|lia]. }
  rewrite Ec, Es, Et, Eg in *. assert (zlen gw = 32) as Lg by lia. rewrite !bytes_ok_app in Hok. destruct Hok as (Hs & _ & _ & Hg).
  destruct (address_bytes_forms _ _ Ht) as (Hu & _). simplify_eq.
  assert (∀ x w, zlen w = 32 → bytes_ok w → to_checksum ("0x"%string ++ hex (drop 12 w)) = Ok x → address_bytes x (drop 12 w)) as Hab.
  { intros x w Lw Hw Hx. split; [rewrite length_drop; unfold zlen in Lw; lia|]. split; [by apply Forall_drop|done]. }
  assert (address_bytes v (drop 12 s)) as Hv by (by apply Hab). assert (address_bytes g (drop 12 gw)) as Hgo by (by apply Hab).
  exists (drop 12 s), (drop 12 gw). split; [done|]. split; [done|].
  destruct (address_bytes_forms _ _ Hgo) as (_ & Hgi & _). split; [congruence|]. split; [|done].
  rewrite (deploy_data_bytes a token (drop 12 t) v (drop 12 s) g (drop 12 gw)) by (done || congruence).
  by rewrite <- !word_address.
Qed.

(** * Operations *)

(** What the calls of a transaction do: deploy the vault of a validator, or approve
    a vault for the total of a list of deposits and make them. *)
Inductive vault_op :=
  | OpDeploy (validator governor vault : str)
  | OpFund (vault : str) (amounts : list Z) (delegators : list str).

Definition op_calls (a : Artifact) (token : str) (op : vault_op) : result (list (str * bytes)) :=
  match op with
  | OpDeploy v g _ => d ← deploy_data a token v g; Ok [(FACTORY, d)]
  | OpFund vault ms ds =>
      x ← approve_data vault (zsum ms);
      y ← deposit_batch_data ms ds;
      Ok [(token, x); (vault, y)]
  end.

Definition op_deploys (op : vault_op) : list (str * str * str) :=
  match op with OpDeploy v g addr => [(v, g, addr)] | OpFund _ _ _ => [] end.
Definition op_deposits (op : vault_op) : list (str * str * Z) :=
  match op with OpDeploy _ _ _ => [] | OpFund vault ms ds => (λ md : Z * str, (vault, md.2, md.1)) <$> zip ms ds end.

Definition op_valid (a : Artifact) (token : str) (op : vault_op) : Prop :=
  match op with
  | OpDeploy v g addr => canonical v ∧ canonical g ∧ vault_address a token v g = Ok addr
  | OpFund vault ms ds =>
      readable vault ∧ lower vault ≠ lower FACTORY ∧ lower vault ≠ lower token ∧
      Forall uint256 ms ∧ uint256 (zsum ms) ∧ Forall canonical ds ∧ length ms = length ds ∧ zlen ms ≤ MAX_ROWS
  end.

(** A decoded deposit without the number of its call. *)
Definition unindexed (d : Z * str * str * Z) : str * str * Z := (d.1.1.2, d.1.2, d.2).

Definition as_call (c : str * bytes) : call := (CALL, c.1, 0, c.2).

Lemma canonical_list ds : Forall canonical ds → ∃ bs, Forall2 address_bytes ds bs.
Proof.
  induction 1 as [|d ds (b & Hb & _)%canonical_bytes _ [bs Hbs]]; [by exists []|]. exists (b :: bs). by constructor.
Qed.

Lemma zlen_pos_app {A} (x : A) l : 0 < zlen (x :: l).
Proof. unfold zlen. cbn [length]. lia. Qed.

Lemma rows_words ms : zlen ms ≤ MAX_ROWS → uint256 (96 + 32 * zlen (A:=Z) ms).
Proof. intros H. pose proof (zlen_nonneg ms). unfold uint256, MAX_ROWS in *. lia. Qed.

(** Calls that a batch can carry: a readable target and bytes that fit. *)
Definition carried (c : str * bytes) : Prop := readable c.1 ∧ bytes_ok c.2 ∧ uint256 (zlen c.2).

Lemma factory_bytes : readable FACTORY.
Proof.
  assert (canonical FACTORY) as (fb & Hfb & _)%canonical_bytes; [|by exists fb].
  apply (normalize_canonical FACTORY FACTORY). by vm_compute.
Qed.

Lemma deploy_carried a token tb v vb g gb :
  address_bytes token tb → address_bytes v vb → address_bytes g gb → bytes_ok (creation a) → uint256 (zlen (creation a) + 96) →
  carried (FACTORY, address_word_of vb ++ creation a ++ address_word_of tb ++ address_word_of gb).
Proof.
  intros Ht Hv Hg Hcr Hcl. split; [apply factory_bytes|]. cbn [snd]. split.
  - rewrite !bytes_ok_app. split_and!; try done; apply address_word_of_ok; [apply Hv|apply Ht|apply Hg].
  - rewrite !zlen_app, !zlen_address_word by (apply Hv || apply Ht || apply Hg).
    replace (32 + (zlen (creation a) + (32 + 32))) with (zlen (creation a) + 96) by lia. done.
Qed.

Lemma pair_carried t s b m : readable t → address_bytes s b → uint256 m →
  carried (t, APPROVE_SELECTOR ++ replicate 12 0 ++ b ++ to_be 32 m).
Proof.
  intros Ht (Hb20 & Hb & _) Hm. split; [done|]. cbn [snd]. split.
  - rewrite !bytes_ok_app. split_and!; auto with pylib; [compute_decide|apply Forall_replicate; lia].
  - rewrite !zlen_app, zlen_to_be. unfold uint256, zlen. rewrite Hb20, length_replicate. change (length APPROVE_SELECTOR) with 4%nat. lia.
Qed.

Lemma deposit_carried t ms ds bs :
  readable t → Forall2 address_bytes ds bs → length ms = length ds → zlen ms ≤ MAX_ROWS →
  carried (t, DEPOSIT_BATCH_SELECTOR ++ deposit_words (zlen ms) (to_be 32 <$> ms) (address_word_of <$> bs)).
Proof.
  intros Ht Hbs Hl Hn. split; [done|]. cbn [snd].
  assert (zlen (to_be 32 <$> ms) = zlen ms) as G1 by (apply zlen_eq; by rewrite length_fmap).
  assert (zlen (address_word_of <$> bs) = zlen ms) as G2.
  { apply zlen_eq. rewrite length_fmap, <- (Forall2_length _ _ _ Hbs). done. }
  split.
  - unfold deposit_words. rewrite !bytes_ok_app. split_and!; auto with pylib; [compute_decide|apply concat_words_ok|].
    apply Forall_concat, Forall_fmap. clear -Hbs. induction Hbs as [|d b ds bs (_ & Hok & _) _ IH]; constructor; [|done].
    by apply address_word_of_ok.
  - rewrite zlen_app. destruct (deposit_words_slices _ _ _ (Forall_zlen_to_be ms)
      (Forall_zlen_address _ (address_bytes_lengths _ _ Hbs)) G1 G2 (rows_words _ Hn)) as (-> & _).
    change (zlen DEPOSIT_BATCH_SELECTOR) with 4. pose proof (zlen_nonneg ms). unfold uint256, MAX_ROWS in *. lia.
Qed.

(** The data of a valid operation. *)
Lemma op_calls_ok a token op :
  canonical token → bytes_ok (creation a) → uint256 (zlen (creation a) + 96) → op_valid a token op →
  ∃ cs, op_calls a token op = Ok cs ∧ Forall carried cs.
Proof.
  intros (tb & Ht & _)%canonical_bytes Hcr Hcl Hv. destruct op as [v g addr|vault ms ds]; cbn [op_calls op_valid] in *.
  - destruct Hv as ((vb & Hvb & _)%canonical_bytes & (gb & Hgb & _)%canonical_bytes & _).
    rewrite (deploy_data_bytes a token tb v vb g gb) by done. cbn [mbind result_bind]. eexists. split; [done|].
    apply Forall_singleton. by apply (deploy_carried a token tb v vb g gb).
  - destruct Hv as ((b & Hb) & _ & _ & Hm & Hs & Hd & Hl & Hn). destruct (canonical_list ds Hd) as [bs Hbs].
    rewrite approve_data_pair, (encode_pair_bytes _ vault b) by done. cbn [mbind result_bind].
    rewrite (deposit_batch_bytes ms ds bs) by (done || by apply rows_words). cbn [mbind result_bind]. eexists. split; [done|].
    repeat apply Forall_cons_2; [apply (pair_carried _ vault b); [by exists tb|done..]|eapply deposit_carried; [by exists b|done..]|constructor].
Qed.

(** * Decoding what was planned *)

Lemma decode_call_deploy a token st i body g :
  decode_deploy a token body = Ok (inl g) →
  decode_call a token st (i, (CALL, FACTORY, 0, body)) =
    Ok (MkDState (MkDecoded (deploys (ds_decoded st) ++ [g]) (deposits (ds_decoded st)) (problems (ds_decoded st))) (ds_pending st)).
Proof. intros H. unfold decode_call. rewrite bool_decide_eq_true_2 by done. cbn [negb orb Z.eqb CALL]. by rewrite H. Qed.

Lemma decode_call_approve a token st i body s m :
  lower token ≠ lower FACTORY → decode_approve body = Ok (Some (s, m)) → ds_pending st = None →
  decode_call a token st (i, (CALL, token, 0, body)) = Ok (MkDState (ds_decoded st) (Some (i, s, m))).
Proof.
  intros Ht H Hp. unfold decode_call. rewrite bool_decide_eq_false_2, bool_decide_eq_true_2 by done. cbn [negb orb Z.eqb CALL].
  rewrite H. cbn [mbind result_bind]. by rewrite Hp.
Qed.

Lemma decode_call_deposit a token st i j vault body ms ds :
  lower vault ≠ lower FACTORY → lower vault ≠ lower token → to_checksum vault = Ok vault →
  decode_deposit_batch body = Ok (Some (ms, ds)) → ds_pending st = Some (j, vault, zsum ms) →
  decode_call a token st (i, (CALL, vault, 0, body)) =
    Ok (MkDState (MkDecoded (deploys (ds_decoded st))
          (deposits (ds_decoded st) ++ ((λ md : Z * str, (i, vault, md.2, md.1)) <$> zip ms ds)) (problems (ds_decoded st))) None).
Proof.
  intros Hf Ht Hc H Hp. unfold decode_call. rewrite !(bool_decide_eq_false_2 (lower vault = _)) by done. cbn [negb orb Z.eqb CALL].
  rewrite H. cbn [mbind result_bind]. rewrite Hp, bool_decide_eq_true_2, Z.eqb_refl by done. cbn [andb]. rewrite app_nil_r.
  destruct (zip ms ds); [done|]. by rewrite Hc.
Qed.

(** Running the decoder over the calls of one operation. *)
Lemma decode_op a token op cs st (f : nat → Z) :
  canonical token → lower token ≠ lower FACTORY → op_valid a token op → op_calls a token op = Ok cs → ds_pending st = None →
  ∃ st', foldM (decode_call a token) st (imap (λ i c, (f i, c)) (as_call <$> cs)) = Ok st' ∧ ds_pending st' = None ∧
    deploys (ds_decoded st') = deploys (ds_decoded st) ++ op_deploys op ∧
    unindexed <$> deposits (ds_decoded st') = (unindexed <$> deposits (ds_decoded st)) ++ op_deposits op ∧
    problems (ds_decoded st') = problems (ds_decoded st).
Proof.
  intros (tb & Ht & _)%canonical_bytes Htf Hv Hc Hp. destruct op as [v g addr|vault ms ds]; cbn [op_calls op_valid] in *.
  - destruct Hv as ((vb & Hvb & _)%canonical_bytes & (gb & Hgb & Hgp)%canonical_bytes & Ha).
    rewrite (deploy_data_bytes a token tb v vb g gb) in Hc by done. apply Ok_inj in Hc as <-.
    cbn [fmap list_fmap imap foldM]. unfold as_call, compose. cbn [fst snd].
    rewrite (decode_call_deploy _ _ _ _ _ (v, g, addr)) by (apply decode_deploy_bytes; done || lia). cbn [mbind result_bind].
    eexists. split; [reflexivity|]. cbn [ds_pending ds_decoded deploys deposits problems op_deploys op_deposits]. by rewrite app_nil_r.
  - destruct Hv as ((b & Hb) & Hvf & Hvt & Hm & Hs & Hd & Hl & Hn). destruct (canonical_list ds Hd) as [bs Hbs].
    rewrite approve_data_pair, (encode_pair_bytes _ vault b) in Hc by done. cbn [mbind result_bind] in Hc.
    destruct (deposit_batch_roundtrip ms ds bs) as (body & Hbody & Hdec); [done..|by apply rows_words|].
    rewrite Hbody in Hc. apply Ok_inj in Hc as <-. cbn [fmap list_fmap imap foldM]. unfold as_call, compose. cbn [fst snd].
    rewrite (decode_call_approve _ _ _ _ _ vault (zsum ms)) by (done || by apply (decode_pair_bytes APPROVE_SELECTOR)). cbn [mbind result_bind].
    assert (to_checksum vault = Ok vault) as Hck.
    { destruct (address_bytes_forms _ _ Hb) as (_ & _ & E). destruct Hb as (_ & Hok & Hc). rewrite <- Hc. apply to_checksum_lower.
      rewrite E, lower_app. by rewrite lower_hex. }
    erewrite decode_call_deposit by done. cbn [mbind result_bind]. eexists. split; [reflexivity|].
    cbn [ds_pending ds_decoded deploys deposits problems op_deploys op_deposits]. rewrite app_nil_r, fmap_app.
    by rewrite <- list_fmap_compose.
Qed.

(** Call data as it is: the calls of a plan are bytes already. *)
#[local] Program Instance raw_codec : Codec bytes := {
  encode b := Ok b;
  decode b := Ok (Some b);
  valid b := bytes_ok b ∧ uint256 (zlen b);
}.
Next Obligation. intros b [Hok Hl]. by exists b. Qed.

Lemma reads_as_calls (calls : list (str * bytes)) cs : Forall2 reads_as calls cs → cs = as_call <$> calls.
Proof.
  induction 1 as [|[t d] c calls cs (body & -> & Hb & _) _ IH]; [done|]. cbn [fmap list_fmap]. rewrite <- IH.
  unfold as_call. cbn [fst snd] in *. by apply Ok_inj in Hb as ->.
Qed.

Lemma multisend_calls_reads calls data :
  Forall carried calls → multisend_calls calls = Ok data → decode_multisend data = Ok (Some (as_call <$> calls)).
Proof.
  intros Hc H. unfold multisend_calls in H. inv_ok.
  match goal with E : mapM _ calls = Ok ?es |- _ => destruct (multisend_batch calls es) as (data' & cs & Hd & _ & Hdec & Hr) end.
  - exact Hc.
  - done.
  - unfold multisend_bytes in H. inv_ok. by match goal with E : word (zlen _) = Ok _ |- _ => apply word_Ok in E as [? _] end.
  - rewrite H in Hd. apply Ok_inj in Hd as <-. by rewrite <- (reads_as_calls calls cs).
Qed.

(** A transaction made of calls shows the decoder these calls. *)
Lemma safe_tx_reads a token calls multisend n tx :
  Forall carried calls → safe_tx calls multisend n = Ok tx → lower multisend ∈ OFFICIAL_MULTISEND_CALL_ONLY →
  decode_vault_tx tx a token = decode_vault_calls a token [] (as_call <$> calls).
Proof.
  intros Hc H Ho. destruct (decide (length calls = 1%nat)) as [Hl|Hl].
  - destruct calls as [|[t d] [|]]; try done. cbn [safe_tx] in H. apply Ok_inj in H as <-.
    unfold decode_vault_tx. rewrite pays_no_refund. by cbn [plain_tx operation to data value CALL Z.eqb mbind result_bind app fmap list_fmap as_call fst snd].
  - assert (safe_tx calls multisend n = (d ← multisend_calls calls; Ok (plain_tx multisend 0 d DELEGATECALL n))) as E.
    { by destruct calls as [|[? ?] [|? ?]]. }
    rewrite E in H. inv_ok. subst tx. unfold decode_vault_tx. rewrite pays_no_refund.
    cbn [plain_tx operation to data value CALL DELEGATECALL Z.eqb mbind result_bind app]. rewrite bool_decide_eq_true_2 by done.
    match goal with E : multisend_calls _ = Ok _ |- _ => apply multisend_calls_reads in E as ->; [|done] end. done.
Qed.

Lemma decode_ops a token ops css st (f : nat → Z) :
  canonical token → lower token ≠ lower FACTORY → Forall (op_valid a token) ops → mapM (op_calls a token) ops = Ok css →
  ds_pending st = None →
  ∃ st', foldM (decode_call a token) st (imap (λ i c, (f i, c)) (as_call <$> concat css)) = Ok st' ∧ ds_pending st' = None ∧
    deploys (ds_decoded st') = deploys (ds_decoded st) ++ concat (op_deploys <$> ops) ∧
    unindexed <$> deposits (ds_decoded st') = (unindexed <$> deposits (ds_decoded st)) ++ concat (op_deposits <$> ops) ∧
    problems (ds_decoded st') = problems (ds_decoded st).
Proof.
  intros Ht Htf Hv Hm%mapM_Ok_Forall2. revert st f. induction Hm as [|op cs ops css Hc _ IH]; intros st f Hp.
  { exists st. cbn [fmap list_fmap concat]. by rewrite !app_nil_r. }
  inversion_clear Hv as [|?? Hop Hv']. destruct (decode_op a token op cs st f Ht Htf Hop Hc Hp) as (st1 & H1 & P1 & D1 & E1 & Q1).
  destruct (IH Hv' st1 (λ i, f (length (as_call <$> cs) + i)%nat) P1) as (st2 & H2 & P2 & D2 & E2 & Q2).
  exists st2. cbn [concat fmap list_fmap]. rewrite fmap_app, imap_app, foldM_app, H1. cbn [mbind result_bind].
  split; [exact H2|]. split; [done|]. split; [by rewrite D2, D1, <- app_assoc|]. split; [by rewrite E2, E1, <- app_assoc|congruence].
Qed.

Lemma op_calls_carried a token ops css :
  canonical token → bytes_ok (creation a) → uint256 (zlen (creation a) + 96) → Forall (op_valid a token) ops →
  mapM (op_calls a token) ops = Ok css → Forall carried (concat css).
Proof.
  intros Ht Hcr Hcl Hv Hm%mapM_Ok_Forall2. apply Forall_concat. revert Hv.
  induction Hm as [|op cs ops css Hc _ IH]; intros Hv; constructor.
  - inversion_clear Hv as [|?? Hop _]. destruct (op_calls_ok a token op) as (cs' & Hc' & Hca); [done..|]. rewrite Hc in Hc'. by apply Ok_inj in Hc' as <-.
  - inversion_clear Hv. by apply IH.
Qed.

(** A transaction of valid operations decodes to them. *)
Lemma decode_ops_tx a token ops css multisend n tx :
  canonical token → lower token ≠ lower FACTORY → bytes_ok (creation a) → uint256 (zlen (creation a) + 96) →
  Forall (op_valid a token) ops → mapM (op_calls a token) ops = Ok css → safe_tx (concat css) multisend n = Ok tx →
  lower multisend ∈ OFFICIAL_MULTISEND_CALL_ONLY →
  ∃ d, decode_vault_tx tx a token = Ok d ∧ problems d = [] ∧ deploys d = concat (op_deploys <$> ops) ∧
    unindexed <$> deposits d = concat (op_deposits <$> ops).
Proof.
  intros Ht Htf Hcr Hcl Hv Hm Hs Ho. rewrite (safe_tx_reads a token (concat css) multisend n) by (done || by eapply op_calls_carried).
  unfold decode_vault_calls.
  destruct (decode_ops a token ops css (MkDState (MkDecoded [] [] []) None) (λ i, Z.of_nat i + 1)) as (st & -> & Hp & Hd & He & Hq); [done..|].
  cbn [mbind result_bind]. rewrite Hp, Hq. eexists. split; [reflexivity|]. done.
Qed.

(** * The plan as operations *)

Definition deposit_ok (d : Deposit) : Prop := canonical (d_delegator d) ∧ 0 < d_amount d.

(** A vault as [assemble_vaults] makes it, whose total fits in a word and whose
    address is not one of the other contracts of the plan. *)
Record vault_ok (a : Artifact) (token : str) (v : Vault) : Prop := {
  vo_validator : canonical (v_validator v); vo_governor : canonical (v_governor v);
  vo_address : vault_address a token (v_validator v) (v_governor v) = Ok (v_address v);
  vo_factory : lower (v_address v) ≠ lower FACTORY; vo_token : lower (v_address v) ≠ lower token;
  vo_deposits : Forall deposit_ok (v_deposits v); vo_total : v_total v < 2 ^ 256;
}.

Definition deploy_op (v : Vault) : vault_op := OpDeploy (v_validator v) (v_governor v) (v_address v).
Definition fund_op (v : Vault) (chunk : list Deposit) : vault_op := OpFund (v_address v) (d_amount <$> chunk) (d_delegator <$> chunk).

(** The operations of a planned transaction. *)
Definition tx_ops (t : PlannedTx) : list vault_op :=
  match p_kind t with KDeploy => deploy_op <$> p_vaults t | KFund => zip_with fund_op (p_vaults t) (p_deposits t) end.

Lemma vault_readable a token v : canonical token → vault_ok a token v → readable (v_address v).
Proof.
  intros (tb & Ht & _)%canonical_bytes Hv. destruct (canonical_bytes _ (vo_validator _ _ _ Hv)) as (vb & Hvb & _).
  destruct (canonical_bytes _ (vo_governor _ _ _ Hv)) as (gb & Hgb & _).
  destruct (vault_address_ok a token tb _ vb _ gb Ht Hvb Hgb) as (addr & ab & Ha & Hab). rewrite (vo_address _ _ _ Hv) in Ha.
  apply Ok_inj in Ha as ->. by exists ab.
Qed.

Lemma deploy_op_valid a token v : vault_ok a token v → op_valid a token (deploy_op v).
Proof. intros Hv. split; [|split]; apply Hv. Qed.

Lemma amounts_bounds (l : list Deposit) B :
  Forall deposit_ok l → zsum_with d_amount l < B → Forall (λ m, 0 ≤ m < B) (d_amount <$> l) ∧ 0 ≤ zsum_with d_amount l.
Proof.
  intros H Hb. assert (Forall (λ d, 0 ≤ d_amount d) l) as Hn by (eapply Forall_impl; [exact H|]; intros d [_ ?]; lia).
  split; [|by apply zsum_with_nonneg]. apply Forall_fmap, Forall_forall. intros d Hd. unfold compose.
  pose proof (zsum_with_elem_le d_amount l d Hn Hd). rewrite Forall_forall in Hn. specialize (Hn d Hd). lia.
Qed.

Lemma fund_op_valid a token v it :
  canonical token → vault_ok a token v → item_of v it → zlen (it_chunk it) ≤ MAX_ROWS → op_valid a token (fund_op v (it_chunk it)).
Proof.
  intros Ht Hv (_ & pre & post & Hd) Hn. pose proof (vo_deposits _ _ _ Hv) as Hg. pose proof (vo_total _ _ _ Hv) as Htot.
  unfold v_total in Htot. rewrite Hd in Hg, Htot. rewrite !Forall_app in Hg. destruct Hg as (Hg1 & Hg2 & Hg3).
  rewrite !zsum_with_app in Htot.
  assert (∀ l, Forall deposit_ok l → 0 ≤ zsum_with d_amount l) as Hnn.
  { intros l Hl. apply zsum_with_nonneg. eapply Forall_impl; [exact Hl|]. intros d [_ ?]. lia. }
  pose proof (Hnn _ Hg1). pose proof (Hnn _ Hg3).
  destruct (amounts_bounds (it_chunk it) (2 ^ 256) Hg2) as [Hb Hs]; [lia|].
  refine (conj (vault_readable a token v Ht Hv) (conj _ (conj _ (conj Hb (conj _ (conj _ (conj _ _))))))); try apply Hv.
  - change (zsum (d_amount <$> it_chunk it)) with (zsum_with d_amount (it_chunk it)). unfold uint256. lia.
  - apply Forall_fmap. eapply Forall_impl; [exact Hg2|]. by intros d [? _].
  - by rewrite !length_fmap.
  - by rewrite (zlen_eq _ (it_chunk it)) by by rewrite length_fmap.
Qed.

Lemma member_calls_op a token it : member_calls token it = op_calls a token (fund_op (it_vault it) (it_chunk it)).
Proof. done. Qed.

(** A funding transaction carries the operations of the members of its bin. *)
Lemma fund_tx_ops a token b t :
  fund_tx token b = Ok t →
  p_kind t = KFund ∧ p_gas t = FUND_BASE_GAS + b.1 ∧ funded t ≡ₚ concat (item_deposits <$> b.2) ∧
  (∃ css, mapM (op_calls a token) (tx_ops t) = Ok css ∧ concat css = p_calls t) ∧
  (∀ P : item → Prop, Forall P b.2 → ∃ its, tx_ops t = (λ it, fund_op (it_vault it) (it_chunk it)) <$> its ∧
     p_deposits t = it_chunk <$> its ∧ p_vaults t = it_vault <$> its ∧ Forall P its).
Proof.
  unfold fund_tx. intros H. inv_ok. subst t. unfold tx_ops, funded. cbn [p_kind p_vaults p_deposits p_gas p_calls].
  set (members := sort_by member_leb b.2). rewrite !zip_with_fmaps.
  assert (members ≡ₚ b.2) as Hp by apply sort_by_perm.
  split; [done|]. split; [done|]. split; [|split].
  - change (λ x, (λ d, (it_vault x, d)) <$> it_chunk x) with item_deposits.
    by apply concat_fmap_perm.
  - eexists. split; [|reflexivity]. rewrite mapM_fmap. done.
  - intros P HP. exists members. split_and!; try done. by rewrite Hp.
Qed.

Lemma zsum_with_bins (bs : list bin) : Forall (λ b, b.1 = zsum_with it_gas b.2) bs → zsum bs.*1 = zsum_with it_gas (concat bs.*2).
Proof. induction 1 as [|b bs Hb _ IH]; [done|]. cbn [fmap list_fmap zsum concat]. rewrite zsum_with_app. lia. Qed.

Lemma funded_bins token bs txs :
  mapM (fund_tx token) bs = Ok txs → concat (funded <$> txs) ≡ₚ concat (item_deposits <$> concat bs.*2).
Proof.
  intros H%mapM_Ok_Forall2. induction H as [|b t bs txs Ht _ IH]; [done|]. cbn [fmap list_fmap concat].
  destruct (fund_tx_ops (MkArtifact [] [] []) token b t Ht) as (_ & _ & Hf & _). rewrite fmap_app, concat_app. by rewrite Hf, IH.
Qed.

Lemma fund_tx_success a token b :
  Forall (λ it, op_valid a token (fund_op (it_vault it) (it_chunk it))) b.2 → canonical token → ∃ t, fund_tx token b = Ok t.
Proof.
  intros H Ht. unfold fund_tx. rewrite <- (sort_by_perm member_leb b.2) in H.
  destruct (mapM_success (member_calls token) (sort_by member_leb b.2)) as [cs ->]; [|by eexists].
  eapply Forall_impl; [exact H|]. intros it Hv.
  destruct (op_calls_ok (MkArtifact [] [] []) token (fund_op (it_vault it) (it_chunk it))) as (cs & Hc & _);
    [done|constructor|compute_decide|exact Hv|]. by exists cs.
Qed.

(** The settings [cmd_build] accepts: a part of the largest size fits in the target,
    which is below the cap of a transaction. *)
Record settings_ok (gas_target max_rows : Z) : Prop := {
  so_rows : 1 ≤ max_rows; so_fits : FUND_BASE_GAS + FUND_CALL_GAS + FUND_ROW_GAS * max_rows ≤ gas_target;
  so_cap : gas_target ≤ GAS_TX_CAP - 2000000;
}.

Lemma settings_rows gas_target max_rows n : settings_ok gas_target max_rows → n ≤ max_rows → n ≤ MAX_ROWS.
Proof. intros [? ? ?] ?. unfold FUND_BASE_GAS, FUND_CALL_GAS, FUND_ROW_GAS, GAS_TX_CAP, MAX_ROWS in *. lia. Qed.

(** What is known of the items in the bins. *)
Definition planned_item (a : Artifact) (token : str) (vaults : list Vault) (max_rows : Z) (it : item) : Prop :=
  item_ok max_rows it ∧ it_vault it ∈ vaults ∧ op_valid a token (fund_op (it_vault it) (it_chunk it)).

Lemma planned_bins a token vaults gas_target max_rows :
  canonical token → settings_ok gas_target max_rows → Forall (vault_ok a token) vaults →
  ∃ items, mapM (vault_items max_rows) vaults = Ok items ∧
    let bins := fund_bins (concat items) (gas_target - FUND_BASE_GAS) in
    concat (item_deposits <$> concat bins.*2) ≡ₚ concat (owed <$> vaults) ∧
    Forall (bin_ok (gas_target - FUND_BASE_GAS)) bins ∧ crowded (gas_target - FUND_BASE_GAS) bins ∧
    Forall (λ b, Forall (planned_item a token vaults max_rows) b.2) bins.
Proof.
  intros Ht Hs Hv. destruct (all_items_ok max_rows vaults (so_rows _ _ Hs)) as (items & -> & Ho & Hin & Hc).
  exists items. split; [done|]. intros bins.
  destruct (fund_bins_inv (concat items) (gas_target - FUND_BASE_GAS)) as (Hp & Hb & Hcr).
  { eapply Forall_impl; [exact Ho|]. intros it Hit. eapply item_gas_bounds; [exact Hit|]. pose proof (so_fits _ _ Hs). lia. }
  fold bins in Hp, Hb, Hcr. split_and!; [|done|done|].
  - rewrite <- Hc. by apply concat_fmap_perm.
  - rewrite <- (Forall_fmap snd (λ l, Forall (planned_item a token vaults max_rows) l)). apply parts_Forall. rewrite Hp.
    rewrite Forall_forall in *. intros it Hit. specialize (Ho it Hit). destruct (Hin it Hit) as [Hvi Hof].
    split; [done|]. split; [done|]. apply fund_op_valid; [done|by apply (proj1 (Forall_forall _ _) Hv)|done|].
    eapply settings_rows; [exact Hs|]. apply Ho.
Qed.

(** C24: The funding plan pays every deposit of every vault exactly once: planning
    succeeds, the transactions together hold each deposit with its vault once, no
    transaction is planned over the gas target and no call over the row limit, the
    planned gas is that of its calls, and there are at most about twice as many
    transactions as the gas of all the calls needs. *)
Theorem fund_plan_pays_once a token vaults gas_target max_rows :
  canonical token → settings_ok gas_target max_rows → Forall (vault_ok a token) vaults →
  ∃ txs, fund_txs token vaults gas_target max_rows = Ok txs ∧
    concat (funded <$> txs) ≡ₚ concat (owed <$> vaults) ∧
    Forall (λ t, p_gas t ≤ gas_target ∧
      p_gas t = FUND_BASE_GAS + zsum_with (λ c, FUND_CALL_GAS + FUND_ROW_GAS * zlen c) (p_deposits t) ∧
      Forall (λ c, 1 ≤ zlen c ≤ max_rows) (p_deposits t)) txs ∧
    (zlen txs / 2) * (gas_target - FUND_BASE_GAS) ≤ zsum_with (λ t, p_gas t - FUND_BASE_GAS) txs.
Proof.
  intros Ht Hs Hv. destruct (planned_bins a token vaults gas_target max_rows Ht Hs Hv) as (items & Hi & Hc & Hb & Hcr & Hpl).
  unfold fund_txs. rewrite Hi. cbn [mbind result_bind]. set (bins := fund_bins _ _) in *.
  destruct (mapM_success (fund_tx token) bins) as [txs Htx].
  { eapply Forall_impl; [exact Hpl|]. intros b Hbp. apply (fund_tx_success a); [|done]. eapply Forall_impl; [exact Hbp|]. by intros it (_ & _ & ?). }
  exists txs. split; [done|]. split; [by rewrite (funded_bins token bins txs)|]. apply mapM_Ok_Forall2 in Htx as Htx2.
  assert (∀ b t, fund_tx token b = Ok t → p_gas t = FUND_BASE_GAS + b.1) as Hgas by (intros b t Hbt; by apply (fund_tx_ops a) in Hbt as (_ & ? & _)).
  split.
  - apply Forall_forall. intros t (i & Hti)%list_elem_of_lookup_1. destruct (Forall2_lookup_r _ _ _ _ _ Htx2 Hti) as (b & Hbi & Hbt).
    destruct (Forall_lookup_1 _ _ _ _ Hb Hbi) as (Hsum & Hle & _). pose proof (Forall_lookup_1 _ _ _ _ Hpl Hbi) as Hbp.
    destruct (fund_tx_ops a token b t Hbt) as (_ & Hg & _ & _ & Hits).
    destruct (Hits (λ it, planned_item a token vaults max_rows it) Hbp) as (its & _ & Hd & _ & Hits').
    split; [lia|]. split; [|rewrite Hd; apply Forall_fmap; eapply Forall_impl; [exact Hits'|]; by intros it ([_ ?] & _)].
    rewrite Hg, Hsum. unfold fund_tx in Hbt. inv_ok. subst t. cbn [p_deposits] in *. f_equal.
    rewrite <- (sort_by_perm member_leb b.2) at 1. unfold zsum_with at 2. rewrite <- list_fmap_compose. apply zsum_with_ext.
    rewrite (sort_by_perm member_leb b.2). eapply Forall_impl; [exact Hbp|]. by intros it ([? _] & _).
  - replace (zlen txs) with (zlen bins) by (apply zlen_eq; by eapply Forall2_length).
    transitivity (zsum bins.*1); [apply crowded_count; [done|]|].
    + rewrite Forall_forall in *. intros b Hin. destruct (Hb b Hin) as (-> & _). apply zsum_with_nonneg.
      eapply Forall_impl; [by apply Hpl|]. intros it ([-> ?] & _). unfold FUND_CALL_GAS, FUND_ROW_GAS. lia.
    + clear -Htx2 Hgas. induction Htx2 as [|b t bs txs Hbt _ IH]; [done|]. cbn [fmap list_fmap zsum]. rewrite zsum_with_cons.
      rewrite (Hgas b t Hbt). lia.
Qed.

(** * Planned transactions decode to the plan *)

Lemma deploy_txs_ops a token vaults per_tx txs t :
  deploy_txs a token vaults per_tx = Ok txs → t ∈ txs →
  p_kind t = KDeploy ∧ p_deposits t = [] ∧ (∀ v, v ∈ p_vaults t → v ∈ vaults) ∧
  ∃ css, mapM (op_calls a token) (tx_ops t) = Ok css ∧ concat css = p_calls t.
Proof.
  unfold deploy_txs. intros H (i & Hti)%list_elem_of_lookup_1. set (todo := filter _ vaults) in *. inv_ok.
  match goal with E : mapM _ ?g = Ok txs |- _ => rename g into groups end.
  match goal with E : mapM _ groups = Ok txs |- _ => apply mapM_Ok_Forall2 in E; destruct (Forall2_lookup_r _ _ _ _ _ E Hti) as (group & Hgi & Hg) end.
  assert (∀ v, v ∈ group → v ∈ todo) as Hsub.
  { destruct (bool_decide (length todo = 0%nat)); inv_ok; [by subst groups|]. subst groups. clear -Hgi. unfold slices in Hgi.
    match type of Hgi with (foldl _ _ ?s).1 !! _ = _ => assert (∀ s' (st : list (list Vault) * Z),
      Forall (λ g, ∀ v, v ∈ g → v ∈ todo) st.1 → Forall (λ g, ∀ v, v ∈ g → v ∈ todo) (foldl (slices_step todo) st s').1) as Hall end.
    { induction s' as [|z s' IH]; intros st Hst; [done|]. cbn [foldl]. apply IH. cbn [slices_step fst]. apply Forall_app. split; [done|].
      apply Forall_singleton. intros v. unfold py_slice, zslice, slice. intros Hv%subseteq_take%subseteq_drop. done. }
    exact (Forall_lookup_1 _ _ _ _ (Hall _ ([], 0) ltac:(constructor)) Hgi). }
  inv_ok. subst t. unfold tx_ops. cbn [p_kind p_deposits p_vaults p_calls]. split; [done|]. split; [done|]. split.
  { intros v Hv%Hsub. unfold todo in Hv. by apply list_elem_of_filter in Hv as [_ ?]. }
  match goal with E : mapM (deploy_call a token) group = Ok ?cs |- _ => rename E into Hcs, cs into calls end.
  exists ((λ c, [c]) <$> calls). split.
  - rewrite mapM_fmap. apply mapM_Ok_Forall2. apply mapM_Ok_Forall2 in Hcs. apply Forall2_fmap_r.
    eapply Forall2_impl; [exact Hcs|]. intros v c Hc. unfold deploy_call in Hc. unfold deploy_op, op_calls. inv_ok. by subst c.
  - clear. induction calls as [|c calls IH]; [done|]. cbn [fmap list_fmap concat]. by rewrite IH.
Qed.

Lemma fund_txs_ops a token vaults gas_target max_rows txs t :
  canonical token → settings_ok gas_target max_rows → Forall (vault_ok a token) vaults →
  fund_txs token vaults gas_target max_rows = Ok txs → t ∈ txs →
  p_kind t = KFund ∧ Forall (op_valid a token) (tx_ops t) ∧ ∃ css, mapM (op_calls a token) (tx_ops t) = Ok css ∧ concat css = p_calls t.
Proof.
  intros Ht Hs Hv H (i & Hti)%list_elem_of_lookup_1.
  destruct (planned_bins a token vaults gas_target max_rows Ht Hs Hv) as (items & Hi & _ & _ & _ & Hpl).
  unfold fund_txs in H. rewrite Hi in H. cbn [mbind result_bind] in H. apply mapM_Ok_Forall2 in H.
  destruct (Forall2_lookup_r _ _ _ _ _ H Hti) as (b & Hbi & Hbt). pose proof (Forall_lookup_1 _ _ _ _ Hpl Hbi) as Hbp.
  destruct (fund_tx_ops a token b t Hbt) as (Hk & _ & _ & Hcalls & Hits). destruct (Hits _ Hbp) as (its & Eops & _ & _ & Hp).
  split; [done|]. split; [|done]. rewrite Eops. apply Forall_fmap. eapply Forall_impl; [exact Hp|]. by intros it (_ & _ & ?).
Qed.

Lemma plan_ops a token vaults ph per_tx gas_target max_rows txs t :
  canonical token → settings_ok gas_target max_rows → Forall (vault_ok a token) vaults →
  plan_transactions a token vaults ph per_tx gas_target max_rows = Ok txs → t ∈ txs →
  (p_kind t = KDeploy → p_deposits t = []) ∧ Forall (op_valid a token) (tx_ops t) ∧
  ∃ css, mapM (op_calls a token) (tx_ops t) = Ok css ∧ concat css = p_calls t.
Proof.
  intros Ht Hs Hv H Hin. unfold plan_transactions in H. inv_ok. subst txs. apply elem_of_app in Hin as [Hin|Hin].
  - match goal with E : _ = Ok ?l, Hin : t ∈ ?l |- _ => destruct ph; [| |inv_ok; subst; by apply not_elem_of_nil in Hin];
      destruct (deploy_txs_ops _ _ _ _ _ _ E Hin) as (Hk & Hd & Hsub & Hc) end;
      (split; [done|]); (split; [|done]); unfold tx_ops; rewrite Hk; apply Forall_fmap, Forall_forall; intros v Hvi%Hsub;
      apply deploy_op_valid; by apply (proj1 (Forall_forall _ _) Hv).
  - assert (Forall (vault_ok a token) (filter (λ v, v_deposits v ≠ []) vaults)) as Hv'.
    { apply Forall_forall. intros v [_ Hvi]%list_elem_of_filter. by apply (proj1 (Forall_forall _ _) Hv). }
    match goal with E : _ = Ok ?l, Hin : t ∈ ?l |- _ => destruct ph; [|inv_ok; subst; by apply not_elem_of_nil in Hin|];
      destruct (fund_txs_ops a _ _ _ _ _ _ Ht Hs Hv' E Hin) as (Hk & Hd & Hc) end; (split; [congruence|]); done.
Qed.

Definition planned_deploys (t : PlannedTx) : list (str * str * str) :=
  match p_kind t with KDeploy => (λ v, (v_validator v, v_governor v, v_address v)) <$> p_vaults t | KFund => [] end.
Definition planned_deposits (t : PlannedTx) : list (str * str * Z) :=
  (λ vd : Vault * Deposit, (v_address vd.1, d_delegator vd.2, d_amount vd.2)) <$> funded t.

Lemma tx_ops_planned t :
  (p_kind t = KDeploy → p_deposits t = []) →
  concat (op_deploys <$> tx_ops t) = planned_deploys t ∧ concat (op_deposits <$> tx_ops t) = planned_deposits t.
Proof.
  intros Hd. unfold tx_ops, planned_deploys, planned_deposits, funded. destruct (p_kind t).
  - rewrite (Hd eq_refl), <- !list_fmap_compose. clear. split.
    + induction (p_vaults t) as [|v l IH]; [done|]. cbn [fmap list_fmap concat]. by rewrite IH.
    + trans (@nil (str * str * Z)); [|by destruct (p_vaults t)].
      induction (p_vaults t) as [|v l IH]; [done|]. cbn [fmap list_fmap concat]. by rewrite IH.
  - clear Hd. generalize (p_deposits t) as cs. induction (p_vaults t) as [|v l IH]; intros [|c cs]; try done.
    cbn [zip_with fmap list_fmap concat]. destruct (IH cs) as [-> IH2]. split; [done|]. rewrite IH2, fmap_app. f_equal.
    unfold fund_op, op_deposits. rewrite zip_with_fmaps, <- !list_fmap_compose. done.
Qed.

(** What the tool plans it can show to a signer: the Safe transaction made from
    any planned transaction, sent through an official MultiSendCallOnly, decodes
    without a problem to exactly the planned vaults with their governors and to the
    planned deposits, in order. *)
Theorem planned_tx_decodes a token vaults ph per_tx gas_target max_rows txs t multisend n tx :
  canonical token → lower token ≠ lower FACTORY → bytes_ok (creation a) → uint256 (zlen (creation a) + 96) →
  settings_ok gas_target max_rows → Forall (vault_ok a token) vaults →
  plan_transactions a token vaults ph per_tx gas_target max_rows = Ok txs → t ∈ txs →
  safe_tx (p_calls t) multisend n = Ok tx → lower multisend ∈ OFFICIAL_MULTISEND_CALL_ONLY →
  ∃ d, decode_vault_tx tx a token = Ok d ∧ problems d = [] ∧ deploys d = planned_deploys t ∧
    unindexed <$> deposits d = planned_deposits t.
Proof.
  intros Ht Htf Hcr Hcl Hs Hv Hp Hin Htx Ho.
  destruct (plan_ops a token vaults ph per_tx gas_target max_rows txs t Ht Hs Hv Hp Hin) as (Hk & Hval & css & Hm & Hc).
  rewrite <- Hc in Htx. destruct (decode_ops_tx a token (tx_ops t) css multisend n tx) as (d & Hd & Hpr & H1 & H2); [done..|].
  destruct (tx_ops_planned t Hk) as [E1 E2]. exists d. by rewrite H1, H2, E1, E2.
Qed.

(** * A plan *)

Definition w_artifact : Artifact := MkArtifact [0x60; 0; 0xf3] (replicate 40 0) [4].
Definition w_validator : str := "0xfB6916095ca1df60bB79Ce92cE3Ea74c37c5d359"%string.
Definition w_governor : str := "0xdbF03B407c01E7cD3CBea99509d93f8DDDC8C6FB"%string.
Definition w_vault : Vault := Eval vm_compute in
  MkVault w_validator w_governor (from_ok [] (vault_address w_artifact w_token w_validator w_governor))
    [MkDeposit w_validator w_governor 5 []; MkDeposit w_validator w_token 7 []; MkDeposit w_validator w_validator 9 []] true.

Lemma w_vault_ok : vault_ok w_artifact w_token w_vault.
Proof.
  assert (∀ a, normalize_address a = Ok a → canonical a) as Hc by (intros a H; by apply (normalize_canonical a a)).
  split; try (apply Hc; by vm_compute); try by vm_compute.
  repeat apply Forall_cons_2; try constructor; cbn [d_delegator d_amount]; (lia || apply Hc; by vm_compute).
Qed.

Lemma fund_plan_pays_once_witness :
  ∃ txs, fund_txs w_token [w_vault] 200000 2 = Ok txs ∧
    concat (funded <$> txs) ≡ₚ concat (owed <$> [w_vault]) ∧
    Forall (λ t, p_gas t ≤ 200000 ∧
      p_gas t = FUND_BASE_GAS + zsum_with (λ c, FUND_CALL_GAS + FUND_ROW_GAS * zlen c) (p_deposits t) ∧
      Forall (λ c, 1 ≤ zlen c ≤ 2) (p_deposits t)) txs ∧
    (zlen txs / 2) * (200000 - FUND_BASE_GAS) ≤ zsum_with (λ t, p_gas t - FUND_BASE_GAS) txs.
Proof.
  apply (fund_plan_pays_once w_artifact w_token [w_vault] 200000 2).
  - exact (Forall_inv w_canonical).
  - split; vm_compute; discriminate.
  - apply Forall_singleton. exact w_vault_ok.
Defined.

Definition w_plan : list PlannedTx := Eval vm_compute in
  from_ok [] (plan_transactions w_artifact w_token [w_vault] PhaseAll 25 200000 2).
Definition w_fund : PlannedTx := Eval vm_compute in
  default (MkPlannedTx KDeploy [] [] [] 0) (w_plan !! 1%nat).
Definition w_fund_tx : SafeTx := Eval vm_compute in
  from_ok (plain_tx [] 0 [] CALL None) (safe_tx (p_calls w_fund) w_multisend (Some 7)).

Lemma planned_tx_decodes_witness :
  ∃ d, decode_vault_tx w_fund_tx w_artifact w_token = Ok d ∧ problems d = [] ∧ deploys d = planned_deploys w_fund ∧
    unindexed <$> deposits d = planned_deposits w_fund.
Proof.
  apply (planned_tx_decodes w_artifact w_token [w_vault] PhaseAll 25 200000 2 w_plan w_fund w_multisend (Some 7)).
  - exact (Forall_inv w_canonical).
  - vm_compute. discriminate.
  - compute_decide.
  - compute_decide.
  - split; vm_compute; discriminate.
  - apply Forall_singleton. exact w_vault_ok.
  - vm_compute. reflexivity.
  - apply list_elem_of_lookup. exists 1%nat. reflexivity.
  - vm_compute. reflexivity.
  - compute_decide.
Defined.

(** * What decodes without a problem *)

(** A call of the deployer that makes the vault of a validator. *)
Definition makes_vault (a : Artifact) (token : str) (c : call) (g : str * str * str) : Prop :=
  let '(validator, governor, vault) := g in
  ∃ target body, c = (CALL, target, 0, body) ∧ deploy_data a token validator governor = Ok body ∧
    vault_address a token validator governor = Ok vault ∧ py_int16 governor ≠ Ok 0.

(** Calls that come in pairs: approve a vault for exactly the sum of some amounts,
    then deposit these amounts into it. *)
Inductive funding (token : str) : list call → list (str * str * Z) → Prop :=
  | funding_nil : funding token [] []
  | funding_snoc calls out t spender vault ms ds x y name :
      funding token calls out →
      lower t = lower token → approve_data spender (zsum ms) = Ok x → lower spender = lower vault →
      deposit_batch_data ms ds = Ok y → length ms = length ds → ms = [] ∨ to_checksum vault = Ok name →
      funding token (calls ++ [(CALL, t, 0, x); (CALL, vault, 0, y)])
        (out ++ ((λ md : Z * str, (name, md.2, md.1)) <$> zip ms ds)).

(** The same with a last approval that is not used yet. *)
Definition funding_upto (token : str) (pending : option (Z * str * Z)) (calls : list call) (out : list (str * str * Z)) : Prop :=
  match pending with
  | None => funding token calls out
  | Some (_, s, m) => ∃ calls' t x, calls = calls' ++ [(CALL, t, 0, x)] ∧ lower t = lower token ∧ approve_data s m = Ok x ∧ funding token calls' out
  end.

Definition to_factory (c : call) : Prop := lower c.1.1.2 = lower FACTORY.
#[local] Instance to_factory_dec c : Decision (to_factory c).
Proof. unfold to_factory. apply _. Defined.

Definition sound_state (a : Artifact) (token : str) (calls : list call) (st : dstate) : Prop :=
  Forall2 (makes_vault a token) (filter to_factory calls) (deploys (ds_decoded st)) ∧
  funding_upto token (ds_pending st) (filter (λ c, ¬ to_factory c) calls) (unindexed <$> deposits (ds_decoded st)).

Lemma report_problem st p : problems (ds_decoded (report st p)) ≠ [].
Proof. unfold report. cbn [ds_decoded problems]. by destruct (problems (ds_decoded st)). Qed.

Lemma decode_call_sound a token calls st ic st' :
  canonical token → bytes_ok ic.2.2 → decode_call a token st ic = Ok st' → problems (ds_decoded st') = [] →
  problems (ds_decoded st) = [] ∧ (sound_state a token calls st → sound_state a token (calls ++ [ic.2]) st').
Proof.
  destruct ic as [i [[[op target] v] body]]. cbn [snd]. intros Ht Hok H Hp. unfold decode_call in H.
  destruct (_ || _) eqn:E1; [apply Ok_inj in H as <-; by apply report_problem in Hp|]. zbool. subst op v.
  unfold sound_state. rewrite !filter_app.
  case_bool_decide as Hf; [|case_bool_decide as Hto]; inv_ok.
  - rewrite (filter_cons_True to_factory), (filter_cons_False (λ c, ¬ to_factory c)) by (done || tauto). cbn [filter list_filter]. rewrite app_nil_r.
    match goal with E : decode_deploy _ _ _ = Ok ?r |- _ => destruct r as [[[vl g] addr]|] end; apply Ok_inj in H as <-; [|by apply report_problem in Hp].
    cbn [ds_decoded problems deploys deposits ds_pending] in *. split; [done|]. intros [H1 H2]. split; [|done].
    apply Forall2_app; [done|]. constructor; [|constructor].
    match goal with E : decode_deploy _ _ _ = Ok _ |- _ => apply decode_deploy_inv in E as (vb & gb & _ & Hg & Hnz & ? & ?); [|done..] end.
    exists target, body. do 3 (split; [done|]). destruct (address_bytes_forms _ _ Hg) as (_ & -> & _). congruence.
  - rewrite (filter_cons_False to_factory), (filter_cons_True (λ c, ¬ to_factory c)) by (done || tauto). cbn [filter list_filter]. rewrite app_nil_r.
    match goal with E : decode_approve _ = Ok ?r |- _ => destruct r as [[s m]|] end; [|apply Ok_inj in H as <-; by apply report_problem in Hp].
    destruct (ds_pending st) eqn:Ep; apply Ok_inj in H as <-; [by apply report_problem in Hp|].
    cbn [ds_decoded problems deploys deposits ds_pending] in *. split; [done|]. intros [H1 H2]. split; [done|].
    match goal with E : decode_approve _ = Ok _ |- _ => rewrite decode_approve_pair in E; apply decode_pair_inv in E as (b & _ & _ & ?); [|done] end.
    by exists (filter (λ c, ¬ to_factory c) calls), target, body.
  - rewrite (filter_cons_False to_factory), (filter_cons_True (λ c, ¬ to_factory c)) by (done || tauto). cbn [filter list_filter]. rewrite app_nil_r.
    match goal with E : decode_deposit_batch _ = Ok ?r |- _ => destruct r as [[ms ds]|] end; [|apply Ok_inj in H as <-; by apply report_problem in Hp].
    inv_ok. subst st'. cbn [ds_decoded problems deploys deposits ds_pending] in *. apply app_eq_nil in Hp as [Hp Ha]. split; [done|]. intros [H1 H2]. split; [done|].
    destruct (ds_pending st) as [[[j s] m]|]; [|done]. destruct (_ && _) eqn:EA; [|done]. zbool. subst m.
    destruct H2 as (calls' & t & x & Ec & Hlt & Hx & Hfund). rewrite Ec, <- app_assoc, fmap_app, <- list_fmap_compose. cbn [app].
    match goal with E : decode_deposit_batch _ = Ok _ |- _ => apply decode_deposit_batch_inv in E as (bs & _ & Hl & ?); [|done] end.
    apply (funding_snoc token calls' _ t s target ms ds x body a0); try done. destruct ms as [|m0 ms]; [by left|]. destruct ds as [|d0 ds]; [done|]. by right.
Qed.

Lemma decode_calls_sound a token calls d :
  canonical token → Forall (λ c : call, bytes_ok c.2) calls → decode_vault_calls a token [] calls = Ok d → problems d = [] →
  Forall2 (makes_vault a token) (filter to_factory calls) (deploys d) ∧
  funding token (filter (λ c, ¬ to_factory c) calls) (unindexed <$> deposits d).
Proof.
  intros Ht Hok H Hp. unfold decode_vault_calls in H. inv_ok. subst d. cbn [deploys deposits problems] in *.
  match goal with E : foldM _ _ _ = Ok ?st |- _ => rename E into Hf, st into st1 end. apply app_eq_nil in Hp as [Hp Hd].
  assert ((imap (λ i c, (Z.of_nat i + 1, c)) calls).*2 = calls) as El.
  { rewrite fmap_imap. unfold compose. cbn [snd]. clear. induction calls as [|c calls IH]; [done|]. cbn [imap]. by f_equal. }
  assert (sound_state a token calls st1) as [H1 H2].
  { rewrite <- El in Hok |- *. refine (foldM_inv (λ pre st, Forall (λ c : call, bytes_ok c.2) pre.*2 → problems (ds_decoded st) = [] → sound_state a token pre.*2 st)
      _ _ _ _ _ _ Hf Hok Hp); [intros _ _; split; constructor|].
    intros pre ic st st' IH Hs. rewrite fmap_app, Forall_app. intros [Hpre Hic%Forall_inv] Hp'.
    destruct (decode_call_sound a token pre.*2 st ic st' Ht Hic Hs Hp') as [Hp0 Hstep]. by apply Hstep, IH. }
  split; [done|]. by destruct (ds_pending st1) as [[[? ?] ?]|].
Qed.

Lemma decode_call_problems a token st ic st' :
  decode_call a token st ic = Ok st' → problems (ds_decoded st') = [] → problems (ds_decoded st) = [].
Proof.
  destruct ic as [i [[[op target] v] body]]. unfold decode_call. intros H Hp.
  destruct (_ || _); [apply Ok_inj in H as <-; by apply report_problem in Hp|].
  repeat case_bool_decide; inv_ok; repeat case_match; inv_ok; subst; try (by apply report_problem in Hp); try done.
  all: cbn [ds_decoded problems] in *; by apply app_eq_nil in Hp as [? _].
Qed.

Lemma decode_calls_problems a token ps calls d : decode_vault_calls a token ps calls = Ok d → problems d = [] → ps = [].
Proof.
  intros H Hp. unfold decode_vault_calls in H. inv_ok. subst d. cbn [problems] in Hp. apply app_eq_nil in Hp as [Hp _].
  match goal with E : foldM _ _ _ = Ok ?st |- _ =>
    refine (foldM_inv (λ _ st, problems (ds_decoded st) = [] → ps = []) _ _ _ _ _ _ E Hp); [done|] end.
  intros pre ic st st' IH Hs Hp'. apply IH. by eapply decode_call_problems.
Qed.


Definition w_decoded : Decoded := Eval vm_compute in
  from_ok (MkDecoded [] [] []) (decode_vault_tx w_fund_tx w_artifact w_token).


(** * From deposits to vaults *)

(** The rows of a validator. *)
Definition rows_of (k : str) (l : list Deposit) : list Deposit := filter (λ d, vkey d = k) l.
(** What the rows of a delegator add up to. *)
Definition owed_to (x : str) (l : list Deposit) : Z := zsum_with d_amount (filter (λ d, dkey d = x) l).

Lemma by_validator_spec l :
  NoDup (dkeys (by_validator l)) ∧ (∀ k, default [] (dget (by_validator l) k) = rows_of k l) ∧
  (∀ k, k ∈ dkeys (by_validator l) ↔ k ∈ vkey <$> l) ∧
  zsum_with (zsum_with d_amount) (dvalues (by_validator l)) = zsum_with d_amount l.
Proof.
  unfold by_validator. induction l as [|d l (IH1 & IH2 & IH3 & IH4)] using rev_ind; [split; [constructor|done]|].
  rewrite foldl_snoc. set (g := foldl group_step [] l) in *. unfold group_step. split_and!.
  - by apply NoDup_dset.
  - intros k. rewrite dget_dset. unfold rows_of. rewrite filter_app. destruct (decide (k = vkey d)) as [->|Hk]; cbn [from_option id].
    + rewrite IH2, (filter_cons_True _ d []) by done. done.
    + rewrite IH2, (filter_cons_False _ d []) by congruence. by rewrite app_nil_r.
  - intros k. rewrite elem_of_dkeys_dset, IH3, fmap_app. set_solver.
  - rewrite zsum_with_dset, IH4, !zsum_with_snoc. destruct (dget g (vkey d)); cbn [from_option id]; [lia|].
    change (zsum_with d_amount []) with 0. lia.
Qed.

Lemma by_validator_entry l kv : kv ∈ by_validator l → kv.2 = rows_of kv.1 l ∧ ∃ d rest, kv.2 = d :: rest.
Proof.
  destruct (by_validator_spec l) as (Hnd & Hg & Hk & _). destruct kv as [k rows]. intros Hin.
  assert (dget (by_validator l) k = Some rows) as E by (by apply dget_elem). specialize (Hg k). rewrite E in Hg. cbn [from_option id fst snd] in *.
  split; [done|]. destruct rows as [|d rest]; [|by exists d, rest]. exfalso.
  assert (k ∈ vkey <$> l) as (d & -> & Hd)%list_elem_of_fmap by (by apply Hk, (dget_Some_key _ _ _ E)).
  assert (d ∈ rows_of (vkey d) l) as Hr by (by apply list_elem_of_filter). rewrite <- Hg in Hr. by apply not_elem_of_nil in Hr.
Qed.

(** One entry per delegator, with what its rows add up to. *)
Record merged_ok (merge : bool) (rows : list Deposit) (m : dict str Deposit) : Prop := {
  mo_keys : NoDup (dkeys m);
  mo_own : ∀ x d, dget m x = Some d → dkey d = x ∧ d_amount d = owed_to x rows ∧ ∃ r, r ∈ rows ∧ d_delegator d = d_delegator r;
  mo_absent : ∀ x, dget m x = None → filter (λ d, dkey d = x) rows = [];
  mo_total : zsum_with d_amount (dvalues m) = zsum_with d_amount rows;
  mo_plain : merge = false → dvalues m = rows;
}.

Lemma owed_to_snoc x l d : owed_to x (l ++ [d]) = owed_to x l + if decide (dkey d = x) then d_amount d else 0.
Proof.
  unfold owed_to. rewrite filter_app, zsum_with_app. destruct (decide (dkey d = x)).
  - rewrite (filter_cons_True _ d []), zsum_with_cons by done. cbn. lia.
  - rewrite (filter_cons_False _ d []) by done. cbn. lia.
Qed.

Lemma merge_step_ok merge rows m d m' : merged_ok merge rows m → merge_step merge m d = Ok m' → merged_ok merge (rows ++ [d]) m'.
Proof.
  intros [H1 H2 H3 H4 H5] H. unfold merge_step in H. destruct (dget m (dkey d)) as [p|] eqn:E.
  - destruct merge; [|done]. apply Ok_inj in H as <-. destruct (H2 _ _ E) as (Hk & Ha & r & Hr & Hdel). split.
    + by apply NoDup_dset.
    + intros x e. rewrite dget_dset, owed_to_snoc. case_decide as Hx; [|rewrite decide_False by congruence].
      * intros [= <-]. subst x. unfold dkey at 1. cbn [d_delegator d_amount]. rewrite decide_True, Ha by done. split; [done|]. split; [done|].
        exists r. split; [set_solver|done].
      * intros (? & ? & r' & ? & ?)%H2. split; [done|]. split; [lia|]. exists r'. split; [set_solver|done].
    + intros x. rewrite dget_dset, filter_app. case_decide; [done|]. intros ->%H3. by rewrite filter_cons_False.
    + rewrite zsum_with_dset, E, H4, zsum_with_snoc. cbn [d_amount]. lia.
    + done.
  - apply Ok_inj in H as <-. pose proof (H3 _ E) as Hn. split.
    + by apply NoDup_dset.
    + intros x e. rewrite dget_dset, owed_to_snoc. case_decide as Hx; [|rewrite decide_False by congruence].
      * intros [= <-]. subst x. unfold owed_to. rewrite Hn, decide_True by done. split; [done|]. split; [cbn; lia|]. exists d. set_solver.
      * intros (? & ? & r' & ? & ?)%H2. split; [done|]. split; [lia|]. exists r'. split; [set_solver|done].
    + intros x. rewrite dget_dset, filter_app. case_decide; [done|]. intros ->%H3. by rewrite filter_cons_False.
    + rewrite zsum_with_dset, E, H4, zsum_with_snoc. lia.
    + intros Hm. rewrite dset_absent by by apply dget_None. unfold dvalues in *. rewrite fmap_app, (H5 Hm). done.
Qed.

Lemma merged_rows_ok merge rows m : foldM (merge_step merge) [] rows = Ok m → merged_ok merge rows m.
Proof.
  intros H. refine (foldM_inv (λ pre m, merged_ok merge pre m) _ _ _ _ _ _ H); [by split; constructor|].
  intros pre d m0 m1 Hm Hs. by eapply merge_step_ok.
Qed.

Lemma merged_values merge rows m :
  merged_ok merge rows m → Forall deposit_ok rows →
  NoDup (dkey <$> dvalues m) ∧ Forall deposit_ok (dvalues m) ∧ ∀ x, owed_to x (dvalues m) = owed_to x rows.
Proof.
  intros [H1 H2 H3 H4 H5] Hr.
  assert (∀ kd, kd ∈ m → dget m kd.1 = Some kd.2) as Hget by (intros [k d] Hin; by apply dget_elem).
  assert (dkey <$> dvalues m = dkeys m) as Ek.
  { unfold dvalues, dkeys. rewrite <- list_fmap_compose. apply list_fmap_ext. intros i kd Hi.
    by destruct (H2 _ _ (Hget kd (list_elem_of_lookup_2 _ _ _ Hi))) as (? & _). }
  split; [by rewrite Ek|]. split.
  - apply Forall_fmap, Forall_forall. intros kd Hin. destruct (H2 _ _ (Hget kd Hin)) as (Hk & Ha & r & Hin' & Hd). unfold compose.
    rewrite Forall_forall in Hr. destruct (Hr r Hin') as [Hc Hp]. split; [by rewrite Hd|]. rewrite Ha.
    assert (r ∈ filter (λ d, dkey d = kd.1) rows) as Hf by (apply list_elem_of_filter; split; [|done]; rewrite <- Hk; unfold dkey; by rewrite Hd).
    eapply Z.lt_le_trans; [exact Hp|]. apply zsum_with_elem_le; [|done]. apply Forall_forall. intros e [_ He]%list_elem_of_filter. destruct (Hr e He). lia.
  - intros x. destruct (dget m x) as [d|] eqn:E.
    + destruct (H2 _ _ E) as (Hk & <- & _). apply dget_Some_elem in E as Hin. unfold owed_to.
      assert (filter (λ d, dkey d = x) (dvalues m) = [d]) as ->; [|unfold zsum_with; cbn; lia].
      rewrite <- Ek in H1. assert (d ∈ dvalues m) as (l1 & l2 & Hl)%list_elem_of_split by (apply list_elem_of_fmap; by exists (x, d)).
      rewrite Hl in H1 |- *. rewrite fmap_app, fmap_cons in H1.
      apply NoDup_app in H1 as (_ & Hd1 & [Hd2 _]%NoDup_cons). rewrite filter_app, filter_cons_True by done.
      assert (∀ l, x ∉ dkey <$> l → filter (λ d, dkey d = x) l = []) as Hnil.
      { intros l Hl'. apply filter_none. intros e He Hx. apply Hl', list_elem_of_fmap. by exists e. }
      rewrite !Hnil by (rewrite <- Hk; done || (intros Hx; apply (Hd1 _ Hx); set_solver)). done.
    + assert (filter (λ d, dkey d = x) (dvalues m) = []) as En.
      { apply filter_none. intros e He Hx. apply dget_None in E. apply E. rewrite <- Ek, <- Hx. by apply list_elem_of_fmap_2. }
      unfold owed_to. by rewrite En, (H3 _ E).
Qed.

(** A vault made from a deposit list: where it is, whom it holds for and how much. *)
Definition holds_for (a : Artifact) (token : str) (governor_for : str → result str) (merge : bool) (deposits : list Deposit) (v : Vault) : Prop :=
  let rows := rows_of (lower (v_validator v)) deposits in
  governor_for (v_validator v) = Ok (v_governor v) ∧ vault_address a token (v_validator v) (v_governor v) = Ok (v_address v) ∧
  Forall deposit_ok (v_deposits v) ∧ NoDup (dkey <$> v_deposits v) ∧ (∀ x, owed_to x (v_deposits v) = owed_to x rows) ∧
  v_total v = zsum_with d_amount rows ∧ (merge = false → v_deposits v = rows).

Lemma assemble_vault_holds a token governor_for merge deposits k rows v :
  Forall deposit_ok deposits → (k, rows) ∈ by_validator deposits → assemble_vault a token governor_for merge rows = Ok v →
  holds_for a token governor_for merge deposits v ∧ lower (v_validator v) = k ∧ v_total v = zsum_with d_amount rows.
Proof.
  intros Hok Hin H. destruct (by_validator_entry _ _ Hin) as (Hr & d & rest & Hd). cbn [fst snd] in *. rewrite Hd in Hr, H |- *. clear Hd Hin.
  unfold assemble_vault in H. cbn [head fmap option_fmap option_map of_option] in H. inv_ok. subst v.
  match goal with E : foldM _ _ _ = Ok ?m |- _ => apply merged_rows_ok in E as Hm end. simplify_eq.
  assert (vkey d = k) as Hk. { assert (d ∈ d :: rest) as Hdr by left. rewrite Hr in Hdr. by apply list_elem_of_filter in Hdr as [? _]. }
  assert (Forall deposit_ok (d :: rest)) as Hrok by (rewrite Hr; apply Forall_forall; intros e [_ He]%list_elem_of_filter; by apply (proj1 (Forall_forall _ _) Hok)).
  destruct (merged_values _ _ _ Hm Hrok) as (H1 & H2 & H3). unfold holds_for, v_total. cbn [v_validator v_governor v_address v_deposits].
  change (lower (d_validator d)) with (vkey d). rewrite Hk, <- Hr. split; [|split; [done|apply Hm]].
  do 5 (split; [done|]). split; apply Hm.
Qed.

(** The vaults keep what the deposit list says: one vault per validator, in the
    order of their addresses, at the address its validator and governor give; a
    vault lists each delegator once, with exactly what the list holds for the pair,
    nothing is lost overall, and without merging the list is kept as it is. *)
Lemma assemble_vaults_keep a token deposits governor_for merge vaults :
  assemble_vaults a token deposits governor_for merge = Ok vaults → Forall deposit_ok deposits →
  StronglySorted str_le ((λ v, lower (v_validator v)) <$> vaults) ∧ NoDup ((λ v, lower (v_validator v)) <$> vaults) ∧
  (∀ k, k ∈ (λ v, lower (v_validator v)) <$> vaults ↔ k ∈ vkey <$> deposits) ∧
  Forall (holds_for a token governor_for merge deposits) vaults ∧ zsum_with v_total vaults = zsum_with d_amount deposits.
Proof.
  intros H Hok. unfold assemble_vaults in H. apply mapM_Ok_Forall2 in H. set (g := sort_str fst (by_validator deposits)) in *.
  assert (g ≡ₚ by_validator deposits) as Hp by apply sort_str_perm.
  assert (Forall2 (λ kv v, holds_for a token governor_for merge deposits v ∧ lower (v_validator v) = kv.1 ∧ v_total v = zsum_with d_amount kv.2) g vaults) as H2.
  { apply Forall2_same_length_lookup. split; [by eapply Forall2_length|]. intros i [k rows] v Hi Hv.
    assert ((k, rows) ∈ g) as Hin by (by eapply list_elem_of_lookup_2). rewrite Hp in Hin.
    apply (assemble_vault_holds a token governor_for merge deposits k rows v Hok Hin). exact (Forall2_lookup_lr _ _ _ _ _ _ H Hi Hv). }
  assert ((λ v, lower (v_validator v)) <$> vaults = g.*1) as ->.
  { clear -H2. induction H2 as [|kv v g vs (_ & Hk & _) _ IH]; [done|]. cbn [fmap list_fmap]. by rewrite Hk, <- IH. }
  destruct (by_validator_spec deposits) as (Hnd & _ & Hk & Ht). split; [|split; [|split; [|split]]].
  - pose proof (sort_str_sorted fst (by_validator deposits)) as Hs. fold g in Hs. clear -Hs.
    induction Hs as [|x l Hs IH Hf]; [constructor|]. cbn [fmap list_fmap]. constructor; [done|]. by apply Forall_fmap.
  - by rewrite Hp.
  - intros k. rewrite <- Hk. unfold dkeys. by rewrite Hp.
  - clear -H2. induction H2 as [|kv v g vs (? & _) _ IH]; by constructor.
  - rewrite <- Ht. unfold dvalues. rewrite <- Hp. clear -H2. induction H2 as [|kv v g vs (_ & _ & Hv) _ IH]; [done|].
    cbn [fmap list_fmap]. rewrite !zsum_with_cons. lia.
Qed.
