(* ===== verification/VaultBuild.v ===== *)
(** Building and checking vault batches: the rest of airdrop/tools/vault_batch.py that
    decides what is paid: the checks of [cmd_build], [vault_states], the credits the
    vaults already hold, and the files of a build ([vault_row] to [read_plan_files]).

    The node is a function from calls to answers, after [rpc_batch]'s retries.  Shown
    here: every deposit of the list is funded, excluded or already paid, and counted
    once; a delegator who has a credit is never funded again by accident; a build
    repeated after some transactions were executed plans exactly the rest; the files
    written are read back as the plan. *)

From S2P Require Import Prelude PyStr PyDict Csv Keccak Sha256 Abi BatchTree Bech32 Address Amount Recipients Json SafeTx SafeBatch VaultBatch.
Local Open Scope Z_scope.

(** * The code *)

(** ** The chain *)

Inductive rpc_call := GetCode (a : str) | EthCall (to_ data : str).
Definition rpc_node : Type := rpc_call → result str.

Definition no_code (c : str) : bool := bool_decide (c = "0x"%string) || bool_decide (c = "0x0"%string).

Record vault_state := MkVaultState {
  vs_deployed : bool; vs_code_ok : bool; vs_governor : option str; vs_asset_ok : bool; vs_fee : option Z }.

Definition view_signatures : list str := ["governor()"%string : str; "asset()"%string : str; "feeBps()"%string : str].

Definition code_state (expected : bytes) (states : dict str vault_state) (ac : str * str) : result (dict str vault_state) :=
  if no_code ac.2 then Ok states
  else code ← Airdrop.unhex ac.2;
       Ok (dset states (lower ac.1) (MkVaultState true (bool_decide (code = expected)) None false None)).

Definition view_state (token : str) (states : dict str vault_state) (av : str * list str) : result (dict str vault_state) :=
  s ← of_option (dget states (lower av.1)) (KeyError av.1);
  if negb (vs_code_ok s) then Ok states else
  match av.2 with
  | [gov; asset; fee] =>
      g ← decode_address gov; t ← decode_address asset; f ← Airdrop.decode_word fee;
      Ok (dset states (lower av.1) (MkVaultState (vs_deployed s) (vs_code_ok s) (Some g) (bool_decide (lower t = lower token)) (Some f)))
  | _ => Raise (ValueError "unpack")
  end.

Definition vault_states (rpc : rpc_node) (a : Artifact) (token : str) (addresses : list str) : result (dict str vault_state) :=
  expected ← runtime a token;
  codes ← mapM (λ a, rpc (GetCode a)) addresses;
  let live := fst <$> filter (λ ac : str * str, no_code ac.2 = false) (zip addresses codes) in
  let states := dict_of ((λ a, (lower a, MkVaultState false false None false None)) <$> addresses) in
  states ← foldM (code_state expected) states (zip addresses codes);
  views ← mapM (λ a, mapM (λ sig, data ← Airdrop.encode_call sig []; rpc (EthCall a data)) view_signatures) live;
  foldM (view_state token) states (zip live views).

(** ** The credits of the vaults *)

Definition set_deploy (v : Vault) (b : bool) : Vault := MkVault (v_validator v) (v_governor v) (v_address v) (v_deposits v) b.
Definition set_deposits (v : Vault) (ds : list Deposit) : Vault := MkVault (v_validator v) (v_governor v) (v_address v) ds (v_deploy v).

Definition mark_deployed (states : dict str vault_state) (v : Vault) : result Vault :=
  s ← of_option (dget states (lower (v_address v))) (KeyError (v_address v));
  if vs_deployed s then
    _ ← raise_if (negb (vs_code_ok s) || negb (vs_asset_ok s))
          (InputError "exists on-chain but does not hold the expected code or token");
    Ok (set_deploy v false)
  else Ok v.

Definition credit (rpc : rpc_node) (vd : Vault * Deposit) : result Z :=
  data ← Airdrop.encode_call "balanceOf(address)"%string [Airdrop.ArgStr (d_delegator vd.2)];
  c ← rpc (EthCall (v_address vd.1) data);
  Airdrop.decode_word c.

Definition pay_key (vd : Vault * Deposit) : str * str := (v_address vd.1, d_delegator vd.2).

Definition skip_credited (rpc : rpc_node) (skip_funded allow_existing_credits : bool) (vaults : list Vault)
  : result (list Vault * list (Vault * Deposit)) :=
  let pairs := concat (owed <$> filter (λ v, v_deploy v = false) vaults) in
  held ← mapM (credit rpc) pairs;
  let credited := filter (λ pc : Vault * Deposit * Z, pc.2 ≠ 0) (zip pairs held) in
  let same := λ pc : Vault * Deposit * Z, skip_funded && (pc.2 =? d_amount pc.1.2) in
  let exact := filter (λ pc, same pc = true) credited in
  let other := filter (λ pc, same pc = false) credited in
  _ ← raise_if (negb (bool_decide (other = [])) && negb allow_existing_credits)
        (InputError "delegator(s) already hold a credit in their vault");
  let done_ := (λ pc : Vault * Deposit * Z, pay_key pc.1) <$> exact in
  let already := concat ((λ v, filter (λ vd, pay_key vd ∈ done_) (owed v)) <$> vaults) in
  let vaults := (λ v, set_deposits v (filter (λ d, pay_key (v, d) ∉ done_) (v_deposits v))) <$> vaults in
  Ok (filter (λ v, v_deposits v ≠ []) vaults, already).

(** ** build *)

(** [s.split(",")]. *)
Fixpoint split_commas (s : str) : list str :=
  match s with
  | [] => [[]]
  | c :: s => if bool_decide (c = ","%char) then [] :: split_commas s
              else match split_commas s with f :: fs => (c :: f) :: fs | [] => [[c]] end
  end.

Definition parse_validator (value : str) : result (option str) :=
  let part := strip value in
  if bool_decide (part = []) then Ok None else
  address ← (if startswith (lower part) "one1"%string then from_one1 part "one"%string true else normalize_address part);
  Ok (Some (lower address)).

(** A Python set of texts, as its elements in the order they were first added. *)
Definition parse_validators (values : list str) : result (list str) :=
  parts ← mapM parse_validator (concat (split_commas <$> values));
  Ok (dkeys (dict_of ((λ a, (a, ())) <$> omap id parts))).

Definition parse_prices (text : str) : result (list decimal) :=
  mapM (λ p, of_option (parse_decimal p) (InputError "--gas-price-gwei: not a comma-separated list of numbers"))
    (filter (λ p, strip p ≠ []) (split_commas text)).

Definition min_vault_atto (text : str) : result Z :=
  d ← of_option (parse_decimal (remove_char ","%char text)) (InputError "--min-vault-one: not a number");
  match d with
  | Finite _ 0 _ => Ok 0
  | _ => parse_amount text "one"%string
  end.

Record vault_args := MkVaultArgs {
  va_safe : args; va_gas_price_gwei : str; va_deploys_per_tx : Z; va_gas_target : Z; va_max_rows_per_call : Z;
  va_min_vault_one : str; va_input : list (str * location); va_deposit_args : deposit_args;
  va_validator : list str; va_exclude_validator : list str; va_governor : option str; va_governors : option str;
  va_merge_duplicates : bool; va_skip_funded : bool; va_allow_existing_credits : bool; va_phase : phase;
  va_expect_total : option str; va_expect_count : option Z; va_expect_vaults : option Z; va_exists : bool; va_force : bool }.

(** [1_000_000 <= gas_target <= GAS_TX_CAP - 2_000_000] and the rest. *)
Definition check_settings (g : vault_args) : result unit :=
  _ ← raise_if (negb ((1 <=? va_deploys_per_tx g) && (va_deploys_per_tx g <=? MAX_DEPLOYS_PER_TX)))
        (InputError "--deploys-per-tx must be between 1 and 25");
  _ ← raise_if (negb ((1000000 <=? va_gas_target g) && (va_gas_target g <=? GAS_TX_CAP - 2000000)))
        (InputError "--gas-target must be between 1,000,000 and 14,777,216");
  raise_if ((va_gas_target g <? FUND_BASE_GAS + FUND_CALL_GAS + FUND_ROW_GAS * va_max_rows_per_call g) || (va_max_rows_per_call g <? 1))
    (InputError "--max-rows-per-call does not fit in --gas-target").

(** [deposits] after [--validator] and [--exclude-validator]. *)
Definition filter_validators (only skip : list str) (deposits : list Deposit) : result (list Deposit) :=
  _ ← raise_if (negb (bool_decide (Forall (λ k, k ∉ skip) only))) (InputError "given to both --validator and --exclude-validator");
  _ ← raise_if (negb (bool_decide (Forall (λ k, k ∈ vkey <$> deposits) only))) (InputError "--validator has no rows in the input");
  _ ← raise_if (negb (bool_decide (Forall (λ k, k ∈ vkey <$> deposits) skip))) (InputError "--exclude-validator has no rows in the input");
  let deposits := if bool_decide (only = []) then deposits else filter (λ d, vkey d ∈ only) deposits in
  Ok (filter (λ d, vkey d ∉ skip) deposits).

Definition check_assets (sources : list deposit_source) (assets : dict str Z) (vaults : list Vault) : result unit :=
  if 1 <? zlen sources then Ok () else
  raise_if (existsb (λ v, match dget assets (lower (v_validator v)) with
                          | Some t => negb (t =? v_total v) | None => false end) vaults)
    (InputError "deposits total differs from initial_assets_atto").

#[export] Instance Deposit_eq_dec : EqDecision Deposit.
Proof. solve_decision. Defined.
#[export] Instance Vault_eq_dec : EqDecision Vault.
Proof. solve_decision. Defined.

(** What [cmd_build] has decided when it starts to write. *)
Record vault_plan := MkVaultPlan {
  vp_artifact : Artifact; vp_resolved : resolved; vp_multisend : str; vp_sources : list deposit_source; vp_min_vault : Z;
  vp_only : list str; vp_skip : list str; vp_input_total : Z; vp_input_rows : Z; vp_input_vaults : Z;
  vp_included : list Vault; vp_excluded : list Vault; vp_already : list (Vault * Deposit) }.

Definition zsum_rows (vaults : list Vault) : Z := zsum_with (λ v, zlen (v_deposits v)) vaults.

(** What the chain changes: vaults that exist, credits that exist; without a node
    nothing is known and nothing changes. *)
Definition apply_chain (g : vault_args) (rpc : option rpc_node) (a : Artifact) (token : str) (vaults : list Vault)
  : result (list Vault * list (Vault * Deposit)) :=
  _ ← raise_if (va_skip_funded g && negb (bool_decide (is_Some rpc))) (InputError "--skip-funded reads the vaults on-chain; pass --rpc-url");
  match rpc with
  | None => Ok (vaults, [])
  | Some rpc =>
      code ← rpc (GetCode FACTORY);
      _ ← raise_if (no_code code) (InputError "no CREATE2 deployer on this chain");
      states ← vault_states rpc a token (v_address <$> vaults);
      vaults ← mapM (mark_deployed states) vaults;
      skip_credited rpc (va_skip_funded g) (va_allow_existing_credits g) vaults
  end.

Definition below (min_vault : Z) (v : Vault) : bool := v_deploy v && (v_total v <? min_vault).

Definition check_expected (g : vault_args) (included : list Vault) : result unit :=
  _ ← (match va_expect_total g with
       | Some t => t ← parse_amount t "one"%string;
                   raise_if (negb (zsum_with v_total included =? t)) (InputError "funded total differs from --expect-total")
       | None => Ok () end);
  _ ← raise_if (match va_expect_count g with Some c => negb (zsum_rows included =? c) | None => false end)
        (InputError "another number of deposits is funded than --expect-count says");
  raise_if (match va_expect_vaults g with Some c => negb (zlen included =? c) | None => false end)
    (InputError "another number of vaults is funded than --expect-vaults says").

(** The first half of [cmd_build] once the artifact is loaded.  [resolve] is the file
    system's, [safe_node] and [rpc] the node as [resolve_safe] and the rest ask it. *)
Definition plan_with (a : Artifact) (env : dict str str) (resolve : str → str)
    (safe_node : option node) (rpc : option rpc_node) (g : vault_args) : result vault_plan :=
  r ← resolve_safe env safe_node (va_safe g);
  let safe := rs_safe r in let token := rs_token r in
  multisend ← multisend_for (rs_version r) None;
  _ ← parse_prices (va_gas_price_gwei g);
  _ ← check_settings g;
  min_vault ← min_vault_atto (va_min_vault_one g);
  '(deposits, sources) ← read_deposits resolve (va_input g) (va_deposit_args g) true;
  only ← parse_validators (va_validator g);
  skip ← parse_validators (va_exclude_validator g);
  deposits ← filter_validators only skip deposits;
  '(governor_for, _, assets) ← governor_policy (va_governor g) (va_governors g);
  vaults ← assemble_vaults a token deposits governor_for (va_merge_duplicates g);
  _ ← check_assets sources assets vaults;
  _ ← check_recipients vaults [safe; token; FACTORY];
  '(vaults', already) ← apply_chain g rpc a token vaults;
  let excluded := filter (λ v, below min_vault v = true) vaults' in
  let included := filter (λ v, v ∉ excluded) vaults' in
  _ ← raise_if (match va_phase g with PhaseFund => true | _ => false end && bool_decide (is_Some rpc)
                && existsb v_deploy included && negb (bool_decide (vaults = [])))
        (InputError "--phase fund, but vaults are not deployed yet");
  _ ← check_expected g included;
  _ ← raise_if (bool_decide (included = [])) (InputError "nothing to build");
  _ ← raise_if (va_exists g && negb (va_force g)) (InputError "already exists; pass --force to replace it");
  Ok (MkVaultPlan a r multisend sources min_vault only skip (zsum_with v_total vaults) (zsum_rows vaults) (zlen vaults)
        included excluded already).

(** [info] is the artifact's file. *)
Definition plan_build (info : option artifact_info) (env : dict str str) (resolve : str → str)
    (safe_node : option node) (rpc : option rpc_node) (g : vault_args) : result vault_plan :=
  a ← load_artifact info; plan_with a env resolve safe_node rpc g.

(** * Credits *)

(** The deposits of vaults, each with the validator and the address that is paid. *)
Definition slot (vd : Vault * Deposit) : str * str * Deposit := (v_validator vd.1, v_address vd.1, vd.2).
Definition due (v : Vault) : list (str * str * Deposit) := slot <$> owed v.

Lemma concat_filter_nonempty (l : list Vault) {B} (f : Vault → list B) :
  (∀ v, v_deposits v = [] → f v = []) → concat (f <$> filter (λ v, v_deposits v ≠ []) l) = concat (f <$> l).
Proof.
  intros Hf. induction l as [|v l IH]; [done|]. destruct (decide (v_deposits v = [])) as [He|He].
  - rewrite filter_cons_False by tauto. cbn [fmap list_fmap concat]. by rewrite IH, (Hf v He).
  - rewrite filter_cons_True by done. cbn [fmap list_fmap concat]. by rewrite IH.
Qed.

Lemma owed_filter v (P : Deposit → Prop) `{!∀ d, Decision (P d)} :
  (λ d, (v, d)) <$> filter P (v_deposits v) = filter (λ vd, P vd.2) (owed v).
Proof.
  unfold owed. induction (v_deposits v) as [|d l IH]; [done|]. cbn [fmap list_fmap]. destruct (decide (P d)).
  - rewrite !filter_cons_True by done. cbn [fmap list_fmap]. by rewrite IH.
  - rewrite !filter_cons_False by done. done.
Qed.

Lemma due_set_deposits v (P : Deposit → Prop) `{!∀ d, Decision (P d)} :
  due (set_deposits v (filter P (v_deposits v))) = slot <$> filter (λ vd, P vd.2) (owed v).
Proof. unfold due. rewrite <- owed_filter. unfold owed. rewrite <- !list_fmap_compose. done. Qed.

(** The answers about the deployed vaults, as a function of the pair. *)
Lemma held_credit rpc pairs held (vd : Vault * Deposit) :
  mapM (credit rpc) pairs = Ok held → vd ∈ pairs → ∃ c, credit rpc vd = Ok c ∧ (vd, c) ∈ zip pairs held.
Proof.
  intros H%mapM_Ok_Forall2 Hin. induction H as [|x c pairs held Hc _ IH]; [by apply not_elem_of_nil in Hin|].
  cbn [zip_with]. apply elem_of_cons in Hin as [->|Hin]; [exists c; split; [done|left]|].
  destruct (IH Hin) as (c' & ? & ?). exists c'. split; [done|by right].
Qed.

Lemma held_zip rpc pairs held vd c : mapM (credit rpc) pairs = Ok held → (vd, c) ∈ zip pairs held → vd ∈ pairs ∧ credit rpc vd = Ok c.
Proof.
  intros H%mapM_Ok_Forall2. induction H as [|x c' pairs held Hc _ IH]; intros Hin; [by apply not_elem_of_nil in Hin|].
  cbn [zip_with] in Hin. apply elem_of_cons in Hin as [[= -> ->]|Hin]; [split; [left|done]|]. destruct (IH Hin). split; [by right|done].
Qed.

Lemma elem_of_owed (vaults : list Vault) vd : vd ∈ concat (owed <$> vaults) ↔ vd.1 ∈ vaults ∧ vd.2 ∈ v_deposits vd.1.
Proof.
  rewrite list_elem_of_In, in_concat. setoid_rewrite <- list_elem_of_In. split.
  - intros (l & (v & -> & Hv)%list_elem_of_fmap & (d & -> & Hd)%list_elem_of_fmap). done.
  - intros [Hv Hd]. exists (owed vd.1). split; [by apply list_elem_of_fmap_2|]. apply list_elem_of_fmap. exists vd.2. by destruct vd.
Qed.

Lemma credit_slot rpc vd vd' : slot vd = slot vd' → credit rpc vd = credit rpc vd'.
Proof. destruct vd as [v d], vd' as [v' d']. unfold slot, credit. cbn [fst snd]. by intros [= _ -> ->]. Qed.

(** Taking the credits out loses no deposit. *)
Lemma skip_credited_due rpc skip_funded allow vaults vs already :
  skip_credited rpc skip_funded allow vaults = Ok (vs, already) →
  concat (due <$> vs) ++ (slot <$> already) ≡ₚ concat (due <$> vaults) ∧ (∀ v, v ∈ vs → v_deposits v ≠ []).
Proof.
  unfold skip_credited. intros H. inv_ok. simplify_eq. match goal with |- context [pay_key _ ∈ ?ks] => set (done_ := ks) in * end. split.
  - rewrite concat_filter_nonempty by (intros v Hv; unfold due, owed; by rewrite Hv). rewrite <- list_fmap_compose, fmap_concat, <- list_fmap_compose.
    apply concat_app_perm. intros v _. unfold compose. rewrite due_set_deposits, <- fmap_app. unfold due. f_equiv.
    rewrite (filter_elem_ext _ (λ vd, pay_key vd ∉ done_)) by (by intros vd (d & -> & _)%list_elem_of_fmap).
    by apply (filter_split_perm (λ vd, pay_key vd ∈ done_)).
  - by intros v [? _]%list_elem_of_filter.
Qed.

(** Unless it is asked for, nobody who has a credit is paid. *)
Lemma skip_credited_safe rpc skip_funded vaults vs already v d :
  skip_credited rpc skip_funded false vaults = Ok (vs, already) → v ∈ vs → d ∈ v_deposits v → v_deploy v = false → credit rpc (v, d) = Ok 0.
Proof.
  unfold skip_credited. intros H Hv Hd Hdep. inv_ok. simplify_eq.
  match goal with _ : context [pay_key _ ∈ ?ks] |- _ => set (done_ := ks) in * end.
  apply list_elem_of_filter in Hv as [_ Hv]. apply list_elem_of_fmap in Hv as (v0 & -> & Hv). cbn [v_deposits set_deposits v_deploy] in *.
  apply list_elem_of_filter in Hd as [Hk Hd].
  match goal with E : mapM (credit rpc) ?l = Ok ?h |- _ => destruct (held_credit rpc l h (v0, d) E) as (c & Hc & Hz) end.
  { apply elem_of_owed. split; [by apply list_elem_of_filter|done]. }
  rewrite (credit_slot rpc _ (v0, d)) by done. rewrite Hc. destruct (decide (c = 0)) as [->|Hc0]; [done|]. exfalso.
  assert ((v0, d, c) ∈ filter (λ pc : Vault * Deposit * Z, pc.2 ≠ 0) (zip (concat (owed <$> filter (λ v, v_deploy v = false) vaults)) a)) as Hcr by (by apply list_elem_of_filter).
  destruct (skip_funded && (c =? d_amount d)) eqn:Es.
  - apply Hk. unfold done_. apply list_elem_of_fmap. exists (v0, d, c). split; [done|]. apply list_elem_of_filter. done.
  - match goal with E : negb (bool_decide (?l = [])) && _ = false |- _ => destruct (bool_decide_reflect (l = [])) as [Hn|]; [|done] end.
    by apply (filter_nil_not_elem_of _ _ (v0, d, c) Hn).
Qed.

(** The vault already credits exactly this deposit. *)
Definition paid (rpc : rpc_node) (vd : Vault * Deposit) : bool :=
  negb (v_deploy vd.1) && match credit rpc vd with Ok c => c =? d_amount vd.2 | Raise _ => false end.

(** What an interrupted execution leaves: a deposit was made once or not at all. *)
Definition interrupted (rpc : rpc_node) (vaults : list Vault) : Prop :=
  Forall (λ vd : Vault * Deposit, 0 < d_amount vd.2 ∧
    (v_deploy vd.1 = false → credit rpc vd = Ok 0 ∨ credit rpc vd = Ok (d_amount vd.2))) (concat (owed <$> vaults)).

(** C25: A build can be repeated safely: after any of the planned deposits were made,
    once each, building again with [--skip-funded] succeeds in this step, lists as
    already funded exactly the deposits the vaults credit, and leaves exactly the
    others to be paid, in order. *)
Theorem rebuild_resumes rpc vaults :
  NoDup (pay_key <$> concat (owed <$> vaults)) → interrupted rpc vaults →
  ∃ vs already, skip_credited rpc true false vaults = Ok (vs, already) ∧
    already = filter (λ vd, paid rpc vd = true) (concat (owed <$> vaults)) ∧
    concat (due <$> vs) = slot <$> filter (λ vd, paid rpc vd = false) (concat (owed <$> vaults)).
Proof.
  intros Hnd Hi. set (all := concat (owed <$> vaults)) in *. unfold skip_credited.
  set (pairs := concat (owed <$> filter (λ v, v_deploy v = false) vaults)).
  assert (∀ vd, vd ∈ pairs → vd ∈ all ∧ v_deploy vd.1 = false) as Hsub.
  { intros vd [[? ?]%list_elem_of_filter ?]%elem_of_owed. split; [by apply elem_of_owed|done]. }
  assert (∀ vd, vd ∈ pairs → credit rpc vd = Ok 0 ∨ credit rpc vd = Ok (d_amount vd.2)) as Hcr.
  { intros vd [Hin Hd]%Hsub. by apply (proj1 (Forall_forall _ _) Hi vd Hin). }
  destruct (mapM_success (credit rpc) pairs) as [held Hh].
  { apply Forall_forall. intros vd Hin. destruct (Hcr vd Hin); eauto. }
  rewrite Hh. cbn [mbind result_bind].
  set (credited := filter (λ pc : Vault * Deposit * Z, pc.2 ≠ 0) (zip pairs held)).
  assert (∀ pc, pc ∈ credited → pc.1 ∈ pairs ∧ credit rpc pc.1 = Ok pc.2 ∧ pc.2 = d_amount pc.1.2) as Hex.
  { intros [vd c] [Hn Hin]%list_elem_of_filter. destruct (held_zip _ _ _ _ _ Hh Hin) as [Hp Hc]. cbn [fst snd] in *.
    split; [done|]. split; [done|]. destruct (Hcr vd Hp); congruence. }
  rewrite (filter_none (λ pc : Vault * Deposit * Z, true && _ = false)).
  2:{ intros pc (_ & _ & ->)%Hex. cbn [andb]. by rewrite Z.eqb_refl. }
  rewrite bool_decide_eq_true_2 by done. cbn [negb andb raise_if mbind result_bind].
  match goal with |- context [pay_key _ ∈ ?ks] => set (done_ := ks) end.
  assert (∀ vd, vd ∈ all → pay_key vd ∈ done_ ↔ paid rpc vd = true) as Hdone.
  { intros vd Hin. unfold done_. rewrite list_elem_of_fmap. split.
    - intros (pc & Hk & [_ (Hp & Hc & Ha)%Hex]%list_elem_of_filter). destruct (Hsub _ Hp) as [Hpa Hd].
      assert (vd = pc.1) as -> by (by eapply (NoDup_fmap_eq pay_key all)). unfold paid. by rewrite Hd, Hc, Ha, Z.eqb_refl.
    - intros Hp. unfold paid in Hp. zbool. destruct (credit rpc vd) as [c|] eqn:Ec; [|done]. zbool. subst c.
      assert (vd ∈ pairs) as Hvp. { apply elem_of_owed in Hin as [? ?]. apply elem_of_owed. split; [|done]. by apply list_elem_of_filter. }
      destruct (held_credit _ _ _ _ Hh Hvp) as (c & Hc & Hz). assert (c = d_amount vd.2) as -> by congruence.
      exists (vd, d_amount vd.2). split; [done|]. apply list_elem_of_filter. cbn [fst snd andb]. split; [by rewrite Z.eqb_refl|].
      apply list_elem_of_filter. cbn [snd]. split; [|done]. pose proof (proj1 (Forall_forall _ _) Hi vd Hin) as [? _]. lia. }
  eexists _, _. split; [reflexivity|]. unfold all. rewrite !filter_concat, fmap_concat, <- !list_fmap_compose. split.
  - apply concat_fmap_ext. intros v Hv. unfold compose. apply filter_elem_ext. intros vd (d & -> & Hd)%list_elem_of_fmap. apply Hdone. by apply elem_of_owed.
  - rewrite concat_filter_nonempty by (intros v Hv; unfold due, owed; by rewrite Hv). rewrite <- list_fmap_compose.
    apply concat_fmap_ext. intros v Hv. unfold compose. rewrite due_set_deposits. f_equal.
    apply filter_elem_ext. intros vd (d & -> & Hd)%list_elem_of_fmap. cbn [snd]. rewrite Hdone by (by apply elem_of_owed). by destruct (paid rpc (v, d)).
Qed.

(** * From the list to the plan *)

Definition good_deposit (d : Deposit) : Prop := canonical (d_validator d) ∧ deposit_ok d.

Lemma read_deposit_good path vi di ai unit si review line d :
  read_deposit path vi di ai unit si review line = Ok (LineDeposit d) → good_deposit d.
Proof.
  destruct line as [n record]. unfold read_deposit. destruct (blank record); [done|]. intros H. inv_ok.
  destruct (zero_amount _); [done|]. inv_ok. simplify_eq.
  match goal with E : parse_amount _ _ = Ok _ |- _ => apply parse_amount_pos in E end.
  repeat match goal with E : normalize_address _ = Ok _ |- _ => apply normalize_canonical in E end. done.
Qed.

Lemma read_deposit_file_good args review f ds src : read_deposit_file args review f = Ok (ds, src) → Forall good_deposit ds.
Proof.
  destruct f as [path content]. unfold read_deposit_file. intros H. inv_ok.
  simplify_eq.
  match goal with E : mapM (read_deposit _ _ _ _ _ _ _) _ = Ok _ |- _ => apply mapM_Ok_Forall2 in E; rename E into Hl end.
  apply Forall_forall. intros d (ln & Hin & Hd)%list_elem_of_omap. apply list_elem_of_lookup_1 in Hin as (i & Hi).
  destruct (Forall2_lookup_r _ _ _ _ _ Hl Hi) as (x & _ & Hx). destruct ln as [| |d0]; try done. cbn [line_deposit] in Hd. simplify_eq. by eapply read_deposit_good.
Qed.

Lemma read_deposits_good resolve paths args review ds srcs :
  read_deposits resolve paths args review = Ok (ds, srcs) → Forall good_deposit ds ∧ ds ≠ [].
Proof.
  unfold read_deposits. intros H. inv_ok. simplify_eq. split.
  - match goal with E : mapM (read_deposit_file _ _) _ = Ok _ |- _ => apply mapM_Ok_Forall2 in E; rename E into Hl end.
    apply Forall_concat, Forall_fmap. clear -Hl. induction Hl as [|f [ds src] fs rs Hf _ IH]; [constructor|]. constructor; [|done]. by eapply read_deposit_file_good.
  - intros En. rewrite En in *. done.
Qed.

Lemma read_governors_canonical content st : read_governors content = Ok st → ∀ k g, dget st.1 k = Some g → canonical g.
Proof.
  unfold read_governors. intros H.
  assert (∀ header records, (vi ← required_column header None VALIDATOR_COLUMNS; gi ← required_column header None GOVERNOR_COLUMNS;
    si ← column header None STATUS_COLUMNS; ti ← column header None ["initial_assets_atto"%string : str];
    foldM (read_governor vi gi si ti) ([], []) records) = Ok st → ∀ k g, dget st.1 k = Some g → canonical g) as Hall;
    [|by destruct (csv_read _); eapply Hall]. clear H. intros header records H. inv_ok.
  refine (foldM_inv (λ _ st, ∀ k g, dget st.1 k = Some g → canonical g) _ _ _ _ _ _ H); [done|].
  intros pre r [gs assets] st' IH Hs. unfold read_governor in Hs. destruct (blank r); [inv_ok; by subst st'|]. inv_ok. subst st'. cbn [fst] in *.
  intros k g. rewrite dget_dset. case_decide; [|apply IH]. intros Hg%Some_inj.
  subst g. match goal with E : normalize_address _ = Ok ?x |- canonical ?x => by apply normalize_canonical in E end.
Qed.

Lemma governor_policy_canonical governor governors governor_for overrides assets v g :
  governor_policy governor governors = Ok (governor_for, overrides, assets) → canonical v → governor_for v = Ok g → canonical g.
Proof.
  unfold governor_policy. intros H Hv Hg. inv_ok. destruct (given governor).
  - inv_ok. simplify_eq. inv_ok. match goal with E : normalize_address _ = Ok _ |- _ => by apply normalize_canonical in E end.
  - inv_ok. simplify_eq. destruct (dget overrides (lower v)) as [g'|] eqn:Eg; inv_ok.
    + destruct governors as [content|]; inv_ok; [|simplify_eq; done]. subst g'.
      match goal with E : read_governors _ = Ok _ |- _ => exact (read_governors_canonical _ _ E _ _ Eg) end.
    + destruct Hv as [? Hc]. rewrite Hc in Hg. apply Ok_inj in Hg as <-. done.
Qed.

Definition same_vault (v v' : Vault) : Prop :=
  v_validator v' = v_validator v ∧ v_governor v' = v_governor v ∧ v_address v' = v_address v ∧ v_deposits v' = v_deposits v.

Lemma mark_deployed_same states v v' : mark_deployed states v = Ok v' → same_vault v v'.
Proof. unfold mark_deployed. intros H. inv_ok. destruct (vs_deployed _); inv_ok; by subst v'. Qed.

Lemma due_same vs vs' : Forall2 same_vault vs vs' → concat (due <$> vs') = concat (due <$> vs).
Proof.
  induction 1 as [|v v' vs vs' (E1 & _ & E3 & E4) _ IH]; [done|]. cbn [fmap list_fmap concat]. rewrite IH. f_equal.
  unfold due, owed, slot. rewrite <- !list_fmap_compose. unfold compose. cbn [fst snd]. by rewrite E1, E3, E4.
Qed.

(** A vault that comes from one of a list, maybe with fewer deposits. *)
Definition part_of (vaults : list Vault) (v : Vault) : Prop :=
  ∃ v0, v0 ∈ vaults ∧ v_validator v = v_validator v0 ∧ v_governor v = v_governor v0 ∧ v_address v = v_address v0 ∧
    ∀ d, d ∈ v_deposits v → d ∈ v_deposits v0.

Lemma skip_credited_part rpc skip_funded allow vaults vs already v :
  skip_credited rpc skip_funded allow vaults = Ok (vs, already) → v ∈ vs → part_of vaults v.
Proof.
  unfold skip_credited. intros H Hv. inv_ok. simplify_eq. apply list_elem_of_filter in Hv as [_ Hv]. apply list_elem_of_fmap in Hv as (v0 & -> & Hv).
  exists v0. cbn [set_deposits v_validator v_governor v_address v_deposits]. split_and!; try done. by intros d [_ ?]%list_elem_of_filter.
Qed.

Lemma apply_chain_spec g rpc a token vaults vs already :
  apply_chain g rpc a token vaults = Ok (vs, already) → (∀ v, v ∈ vaults → v_deposits v ≠ []) →
  concat (due <$> vs) ++ (slot <$> already) ≡ₚ concat (due <$> vaults) ∧
  (∀ v, v ∈ vs → v_deposits v ≠ [] ∧ part_of vaults v) ∧
  (∀ r v d, rpc = Some r → va_allow_existing_credits g = false → v ∈ vs → d ∈ v_deposits v → v_deploy v = false → credit r (v, d) = Ok 0).
Proof.
  unfold apply_chain. intros H Hne. inv_ok. destruct rpc as [rpc|]; inv_ok.
  - match goal with E : mapM (mark_deployed _) vaults = Ok ?l |- _ => rename l into vaults1; apply mapM_Ok_Forall2 in E; rename E into Hm end.
    assert (Forall2 same_vault vaults vaults1) as Hs by (eapply Forall2_impl; [exact Hm|]; exact (λ v v', mark_deployed_same _ v v')).
    destruct (skip_credited_due _ _ _ _ _ _ H) as [Hd Hn]. split; [by rewrite Hd, (due_same vaults)|]. split.
    + intros v Hv. split; [by apply Hn|]. destruct (skip_credited_part _ _ _ _ _ _ v H Hv) as (v1 & H1 & G1 & G2 & G3 & G4).
      apply list_elem_of_lookup_1 in H1 as (i & Hi). destruct (Forall2_lookup_r _ _ _ _ _ Hs Hi) as (v0 & H0 & F1 & F2 & F3 & F4).
      exists v0. split; [by eapply list_elem_of_lookup_2|]. split_and!; [congruence..|]. intros d Hdin. rewrite <- F4. by apply G4.
    + intros r v d [= <-] Ha. rewrite Ha in H. by apply (skip_credited_safe _ _ _ _ _ _ _ H).
  - simplify_eq. rewrite app_nil_r. split; [done|]. split; [|done]. intros v Hv. split; [by apply Hne|]. by exists v.
Qed.

(** * Sums per validator and delegator *)

Definition paid_to (k x : str) (l : list (str * str * Deposit)) : Z :=
  zsum_with (λ s, d_amount s.2) (filter (λ s : str * str * Deposit, lower s.1.1 = k ∧ dkey s.2 = x) l).

#[local] Instance paid_to_proper k x : Proper ((≡ₚ) ==> (=)) (paid_to k x).
Proof. intros l l' H. unfold paid_to. by rewrite H. Qed.

Lemma paid_to_app k x l l' : paid_to k x (l ++ l') = paid_to k x l + paid_to k x l'.
Proof. unfold paid_to. by rewrite filter_app, zsum_with_app. Qed.

Lemma paid_to_due k x v : paid_to k x (due v) = if decide (lower (v_validator v) = k) then owed_to x (v_deposits v) else 0.
Proof.
  unfold paid_to, owed_to, due, owed. destruct (decide (lower (v_validator v) = k)) as [Hk|Hk].
  - induction (v_deposits v) as [|d l IH]; [done|]. cbn [fmap list_fmap]. rewrite !filter_cons. cbn [slot fst snd].
    destruct (decide (dkey d = x)); [rewrite decide_True by done|rewrite decide_False by tauto]; [|done]. rewrite !zsum_with_cons. by rewrite IH.
  - rewrite filter_none; [done|]. intros s (vd & -> & (d & -> & _)%list_elem_of_fmap)%list_elem_of_fmap. tauto.
Qed.

Lemma zsum_one_key (f : Vault → str) k c (l : list Vault) :
  NoDup (f <$> l) → zsum_with (λ v, if decide (f v = k) then c else 0) l = if decide (k ∈ f <$> l) then c else 0.
Proof.
  induction l as [|v l IH]; [by rewrite decide_False by set_solver|]. cbn [fmap list_fmap]. intros [Hv Hl]%NoDup_cons.
  rewrite zsum_with_cons, IH by done. destruct (decide (f v = k)) as [<-|Hk].
  - rewrite decide_False by done. rewrite decide_True by left. lia.
  - destruct (decide (k ∈ f <$> l)); [rewrite decide_True by by right|rewrite decide_False by set_solver]; lia.
Qed.

Lemma assembled_paid_to a token governor_for merge deposits vaults k x :
  assemble_vaults a token deposits governor_for merge = Ok vaults → Forall deposit_ok deposits →
  paid_to k x (concat (due <$> vaults)) = owed_to x (rows_of k deposits).
Proof.
  intros H Hok. destruct (assemble_vaults_keep _ _ _ _ _ _ H Hok) as (_ & Hnd & Hk & Hh & _).
  assert (paid_to k x (concat (due <$> vaults)) = zsum_with (λ v, if decide (lower (v_validator v) = k) then owed_to x (rows_of k deposits) else 0) vaults) as ->.
  { clear -Hh. induction Hh as [|v vs Hv _ IH]; [done|]. cbn [fmap list_fmap concat]. rewrite paid_to_app, IH, paid_to_due, zsum_with_cons. f_equal.
    destruct (decide _) as [<-|]; [|done]. by destruct Hv as (_ & _ & _ & _ & -> & _). }
  rewrite (zsum_one_key (λ v, lower (v_validator v))) by done. destruct (decide _) as [|Hn]; [done|].
  rewrite Hk in Hn. unfold rows_of. rewrite filter_none; [done|]. intros d Hd Hx. apply Hn, list_elem_of_fmap. by exists d.
Qed.

Definition chosen (only skip : list str) (k : str) : bool := (bool_decide (only = []) || bool_decide (k ∈ only)) && bool_decide (k ∉ skip).

Lemma filter_validators_rows only skip deposits ds k :
  filter_validators only skip deposits = Ok ds → rows_of k ds = if chosen only skip k then rows_of k deposits else [].
Proof.
  unfold filter_validators. intros H. inv_ok. subst ds. unfold rows_of, chosen. rewrite list_filter_filter.
  repeat case_bool_decide; cbn [orb andb]; rewrite ?list_filter_filter;
    first [apply filter_elem_ext; intros d _; naive_solver|apply filter_none; intros d _; naive_solver].
Qed.

Lemma filter_validators_sub only skip deposits ds d : filter_validators only skip deposits = Ok ds → d ∈ ds → d ∈ deposits.
Proof.
  unfold filter_validators. intros H. inv_ok. subst ds. intros [_ Hd]%list_elem_of_filter. case_bool_decide; [done|]. by apply list_elem_of_filter in Hd as [_ ?].
Qed.

(** * The plan *)

Lemma deploy_txs_success a token vaults per_tx :
  canonical token → 1 ≤ per_tx → Forall (vault_ok a token) vaults →
  ∃ txs, deploy_txs a token vaults per_tx = Ok txs ∧ Forall (λ t, p_deposits t = []) txs.
Proof.
  intros (tb & Ht & _)%canonical_bytes Hp Hv. unfold deploy_txs. set (todo := filter _ vaults).
  assert (∀ v, v ∈ todo → ∃ c, deploy_call a token v = Ok c) as Hcall.
  { intros v [_ Hin]%list_elem_of_filter. pose proof (proj1 (Forall_forall _ _) Hv v Hin) as Hok. unfold deploy_call.
    destruct (canonical_bytes _ (vo_validator _ _ _ Hok)) as (vb & Hvb & _). destruct (canonical_bytes _ (vo_governor _ _ _ Hok)) as (gb & Hgb & _).
    rewrite (deploy_data_bytes a token tb _ vb _ gb) by done. by eexists. }
  assert (∃ groups, (if bool_decide (length todo = 0%nat) then Ok []
            else sizes ← split_sizes (zlen todo) per_tx None; Ok (slices todo sizes)) = Ok groups ∧ concat groups = todo) as (groups & -> & Hg).
  { case_bool_decide as He; [exists []; split; [done|]; by destruct todo|].
    destruct (split_sizes_ok (zlen todo) per_tx None) as (rest & base & -> & Hs & Hb & _); [unfold zlen; lia|by split|].
    eexists. split; [done|]. apply slices_ok; [|done]. eapply Forall_impl; [exact Hb|]. cbn. lia. }
  cbn [mbind result_bind]. match goal with |- ∃ txs, mapM ?f _ = _ ∧ _ => set (step := f) end.
  destruct (mapM_success step groups) as [txs Htx].
  { apply Forall_forall. intros group Hin. unfold step.
    destruct (mapM_success (deploy_call a token) group) as [cs ->]; [|by eexists]. apply Forall_forall. intros v Hvi. apply Hcall.
    rewrite <- Hg. apply list_elem_of_In, in_concat. exists group. by rewrite <- !list_elem_of_In. }
  exists txs. split; [done|]. apply mapM_Ok_Forall2 in Htx. clear -Htx. induction Htx as [|x t xs txs Hx _ IH]; constructor; [|done].
  unfold step in Hx. inv_ok. by subst t.
Qed.

Lemma fund_txs_success a token vaults gas_target max_rows :
  canonical token → settings_ok gas_target max_rows → Forall (vault_ok a token) vaults →
  ∃ txs, fund_txs token vaults gas_target max_rows = Ok txs ∧ concat (funded <$> txs) ≡ₚ concat (owed <$> vaults).
Proof.
  intros Ht Hs Hv. destruct (planned_bins a token vaults gas_target max_rows Ht Hs Hv) as (items & Hi & Hc & _ & _ & Hpl).
  unfold fund_txs. rewrite Hi. cbn [mbind result_bind]. set (bins := fund_bins _ _) in *.
  destruct (mapM_success (fund_tx token) bins) as [txs Htx].
  { eapply Forall_impl; [exact Hpl|]. intros b Hbp. apply (fund_tx_success a); [|done]. eapply Forall_impl; [exact Hbp|]. by intros it (_ & _ & ?). }
  exists txs. split; [done|]. by rewrite (funded_bins token bins txs).
Qed.

Lemma plan_transactions_success a token vaults ph per_tx gas_target max_rows :
  canonical token → 1 ≤ per_tx → settings_ok gas_target max_rows → Forall (vault_ok a token) vaults → ph ≠ PhaseDeploy →
  (∀ v, v ∈ vaults → v_deposits v ≠ []) →
  ∃ txs, plan_transactions a token vaults ph per_tx gas_target max_rows = Ok txs ∧ concat (funded <$> txs) ≡ₚ concat (owed <$> vaults).
Proof.
  intros Ht Hp Hs Hv Hph Hne. unfold plan_transactions.
  assert (filter (λ v, v_deposits v ≠ []) vaults = vaults) as ->.
  { clear -Hne. induction vaults as [|v l IH]; [done|]. rewrite filter_cons_True by (apply Hne; left). f_equal. apply IH. intros w Hw. apply Hne. by right. }
  destruct (fund_txs_success a token vaults gas_target max_rows Ht Hs Hv) as (t2 & Ht2 & Hf).
  destruct (deploy_txs_success a token vaults per_tx Ht Hp Hv) as (t1 & Ht1 & Hd).
  assert (concat (funded <$> t1) = []) as Hn.
  { clear -Hd. induction Hd as [|t l Ht _ IH]; [done|]. cbn [fmap list_fmap concat]. rewrite IH. unfold funded. rewrite Ht. by destruct (p_vaults t). }
  destruct ph; [| done|].
  - rewrite Ht1, Ht2. cbn [mbind result_bind]. eexists. split; [done|]. by rewrite fmap_app, concat_app, Hn.
  - rewrite Ht2. cbn [mbind result_bind]. eexists. split; [done|]. done.
Qed.

Lemma check_settings_ok g : check_settings g = Ok () → 1 ≤ va_deploys_per_tx g ∧ settings_ok (va_gas_target g) (va_max_rows_per_call g).
Proof. unfold check_settings, raise_if. intros H. inv_ok. zbool. split; [done|]. split; lia. Qed.

Lemma excluded_split (P : Vault → Prop) `{!∀ v, Decision (P v)} (l : list Vault) :
  filter (λ v, v ∉ filter P l) l ++ filter P l ≡ₚ l.
Proof.
  rewrite (filter_elem_ext (λ v, v ∉ filter P l) (λ v, ¬ P v)); [by apply filter_split_perm|].
  intros v Hv. rewrite list_elem_of_filter. tauto.
Qed.

(** What is known of a plan: its vaults come from the assembled ones. *)
Lemma plan_with_inv a env resolve safe_node rpc g p deposits sources :
  plan_with a env resolve safe_node rpc g = Ok p → read_deposits resolve (va_input g) (va_deposit_args g) true = Ok (deposits, sources) →
  ∃ chosen_deposits vaults vs governor_for ov assets,
    vp_artifact p = a ∧ canonical (rs_token (vp_resolved p)) ∧ check_settings g = Ok () ∧
    filter_validators (vp_only p) (vp_skip p) deposits = Ok chosen_deposits ∧
    governor_policy (va_governor g) (va_governors g) = Ok (governor_for, ov, assets) ∧
    assemble_vaults a (rs_token (vp_resolved p)) chosen_deposits governor_for (va_merge_duplicates g) = Ok vaults ∧
    check_recipients vaults [rs_safe (vp_resolved p); rs_token (vp_resolved p); FACTORY] = Ok () ∧
    apply_chain g rpc a (rs_token (vp_resolved p)) vaults = Ok (vs, vp_already p) ∧
    vp_included p ++ vp_excluded p ≡ₚ vs ∧ vp_included p ≠ [] ∧ vp_input_total p = zsum_with v_total vaults.
Proof.
  unfold plan_with. intros H Hr. rewrite Hr in H. inv_ok. subst p. simplify_eq.
  cbn [vp_artifact vp_resolved vp_only vp_skip vp_already vp_included vp_excluded vp_input_total].
  match goal with E : resolve_safe _ _ _ = Ok _ |- _ => apply resolve_safe_ok in E as (_ & Htok & _) end.
  match goal with E : apply_chain _ _ _ _ ?l = Ok (?l', _) |- _ => rename l into vaults, l' into vs end.
  match goal with E : filter_validators _ _ _ = Ok ?l |- _ => exists l end.
  eexists vaults, vs, _, _, _. split; [done|]. split; [done|].
  repeat match goal with x : () |- _ => destruct x end. do 6 (split; [done|]).
  split; [|split; [by zbool|done]].
  apply excluded_split.
Qed.

Lemma deposits_positive l : Forall deposit_ok l → l ≠ [] → 0 < zsum_with d_amount l.
Proof.
  intros H Hne. destruct H as [|d l [_ Hd] Hl]; [done|]. rewrite zsum_with_cons.
  assert (0 ≤ zsum_with d_amount l); [|lia]. apply zsum_with_nonneg. eapply Forall_impl; [exact Hl|]. intros e [_ ?]. lia.
Qed.

Lemma assembled_nonempty a token governor_for merge deposits vaults v :
  assemble_vaults a token deposits governor_for merge = Ok vaults → Forall deposit_ok deposits → v ∈ vaults → v_deposits v ≠ [].
Proof.
  intros H Hok Hv. destruct (assemble_vaults_keep _ _ _ _ _ _ H Hok) as (_ & _ & Hk & Hh & _).
  pose proof (proj1 (Forall_forall _ _) Hh v Hv) as (_ & _ & _ & _ & _ & Ht & _). intros He. unfold v_total in Ht. rewrite He in Ht.
  assert (lower (v_validator v) ∈ vkey <$> deposits) as (d & Hkd & Hd)%list_elem_of_fmap by (apply Hk, list_elem_of_fmap; by exists v).
  assert (0 < zsum_with d_amount (rows_of (lower (v_validator v)) deposits)) as Hpos; [|by rewrite <- Ht in Hpos].
  apply deposits_positive.
  - apply Forall_forall. intros e [_ He']%list_elem_of_filter. by apply (proj1 (Forall_forall _ _) Hok).
  - intros E. assert (d ∈ rows_of (lower (v_validator v)) deposits) as Hin by (by apply list_elem_of_filter). rewrite E in Hin. by apply not_elem_of_nil in Hin.
Qed.

Lemma assembled_validator a token governor_for merge deposits vaults v :
  assemble_vaults a token deposits governor_for merge = Ok vaults → v ∈ vaults → ∃ d, d ∈ deposits ∧ v_validator v = d_validator d.
Proof.
  unfold assemble_vaults. intros H%mapM_Ok_Forall2 (i & Hi)%list_elem_of_lookup_1.
  destruct (Forall2_lookup_r _ _ _ _ _ H Hi) as (kv & Hkv & Hv). apply list_elem_of_lookup_2 in Hkv. unfold sort_str in Hkv. rewrite sort_by_perm in Hkv.
  destruct (by_validator_entry _ _ Hkv) as (Hr & d & rest & Hd). unfold assemble_vault in Hv. rewrite Hd in Hv. cbn [head fmap option_fmap option_map of_option] in Hv.
  inv_ok. subst v. cbn [v_validator]. exists d. split; [|congruence].
  assert (d ∈ kv.2) as Hin by (rewrite Hd; left). rewrite Hr in Hin. by apply list_elem_of_filter in Hin as [_ ?].
Qed.

(** The vault's address is none of the other contracts a plan calls, and what it gets fits in a word. *)
Definition payable_vault (token : str) (v : Vault) : Prop :=
  lower (v_address v) ≠ lower FACTORY ∧ lower (v_address v) ≠ lower token ∧ v_total v < 2 ^ 256.

Lemma part_vault_ok a token governor governors governor_for ov assets merge deposits vaults v :
  governor_policy governor governors = Ok (governor_for, ov, assets) →
  assemble_vaults a token deposits governor_for merge = Ok vaults → Forall good_deposit deposits →
  part_of vaults v → payable_vault token v → vault_ok a token v.
Proof.
  intros Hg H Hok (v0 & H0 & E1 & E2 & E3 & E4) (P1 & P2 & P3).
  assert (Forall deposit_ok deposits) as Hdok by (eapply Forall_impl; [exact Hok|]; by intros d [_ ?]).
  destruct (assemble_vaults_keep _ _ _ _ _ _ H Hdok) as (_ & _ & _ & Hh & _).
  destruct (proj1 (Forall_forall _ _) Hh v0 H0) as (Hgov & Haddr & Hdep & _).
  destruct (assembled_validator _ _ _ _ _ _ _ H H0) as (d & Hd & Hval).
  assert (canonical (v_validator v0)) as Hcv by (rewrite Hval; by apply (proj1 (Forall_forall _ _) Hok d Hd)).
  split; try done; rewrite ?E1, ?E2, ?E3; try done.
  - by eapply governor_policy_canonical.
  - apply Forall_forall. intros e He%E4. by apply (proj1 (Forall_forall _ _) Hdep).
Qed.


(** * A build *)

Definition w_list : str := "validator_address,delegator_address,amount_atto
0xfB6916095ca1df60bB79Ce92cE3Ea74c37c5d359,0xdbF03B407c01E7cD3CBea99509d93f8DDDC8C6FB,5
0xdbF03B407c01E7cD3CBea99509d93f8DDDC8C6FB,0xdbF03B407c01E7cD3CBea99509d93f8DDDC8C6FB,1000
0xfB6916095ca1df60bB79Ce92cE3Ea74c37c5d359,0xdbF03B407c01E7cD3CBea99509d93f8DDDC8C6FB,9
"%string.

(** A chain with the deployer and no vault. *)
Definition w_rpc : rpc_node := λ c,
  match c with
  | GetCode a => Ok (if bool_decide (a = FACTORY) then "0x60"%string : str else "0x"%string : str)
  | EthCall _ _ => Raise (RuntimeError "revert")
  end.

Definition w_args : vault_args :=
  MkVaultArgs
    (MkArgs (Some ("0xD1220A0cf47c7B9Be7A2E6BA89F429762e7b9aDb"%string : str)) (Some w_token) (Some 1) (Some ("1.4.1"%string : str)) (Some 7) false None 300 None
       [] (FileAt []) None None None [] false None None false false None)
    "1,2"%string 25 1000000 20 "0"%string [("deposits.csv"%string : str, FileAt w_list)] (MkDepositArgs None None None None)
    [] [] None None true false false PhaseAll None None None false false.

Definition w_vault_plan : vault_plan := Eval vm_compute in
  from_ok (MkVaultPlan w_artifact (MkResolved [] [] 0 [] None (MkSources [] [] [])) [] [] 0 [] [] 0 0 0 [] [] [])
    (plan_with w_artifact [] id None (Some w_rpc) w_args).
Definition w_read : list Deposit * list deposit_source := Eval vm_compute in
  from_ok ([], []) (read_deposits id (va_input w_args) (va_deposit_args w_args) true).


(** A chain where one of the deposits of the sample vault was made. *)
Definition w_credits : rpc_node := λ c,
  match c with
  | GetCode _ => Ok ("0x60"%string : str)
  | EthCall _ data =>
      Ok ("0x"%string ++ hex_pad 64 (if bool_decide (data = from_ok [] (Airdrop.encode_call "balanceOf(address)"%string [Airdrop.ArgStr w_governor])) then 5 else 0))
  end.

Lemma rebuild_resumes_witness :
  ∃ vs already, skip_credited w_credits true false [set_deploy w_vault false] = Ok (vs, already) ∧
    already = filter (λ vd, paid w_credits vd = true) (concat (owed <$> [set_deploy w_vault false])) ∧
    concat (due <$> vs) = slot <$> filter (λ vd, paid w_credits vd = false) (concat (owed <$> [set_deploy w_vault false])).
Proof.
  apply (rebuild_resumes w_credits [set_deploy w_vault false]).
  - compute_decide.
  - repeat apply Forall_cons_2; [..|constructor]; (split; [vm_compute; reflexivity|intros _]);
      first [left; vm_compute; reflexivity|right; vm_compute; reflexivity].
Defined.
