(* ===== verification/Status.v ===== *)
(** The state of a deployed airdrop: [read_state] and [ranges] of
    airdrop/tools/status.py, [main] of reconcile.py, and what [verify_contract]
    concludes from the chain.

    The node is a function from the target, the call data and the block to the
    text it answers.  Shown here: [read_state] splits the batches into executed
    and pending ones by the bitmap's bits; [ranges] prints a list from which it
    can be rebuilt; [reconcile] reports no problem exactly when every recipient
    holds its amount and the contract is done. *)

From S2P Require Import Prelude PyStr PyDict Abi Bech32 Address Amount Recipients RunDir.
Local Open Scope Z_scope.

(** * The code *)

(** [range(n)]. *)
Definition range (n : Z) : list Z := Z.of_nat <$> seq 0 (Z.to_nat n).

Record state := MkState {
  token : str; reserve : str; admin : str; executor : str; st_root : str; listHash : str;
  batchCount : Z; totalAmount : Z; executedBatches : Z; distributedAmount : Z; paused : bool;
  executed : list Z; pending : list Z; reserveBalance : Z; allowance : Z }.

(** The batches whose bit is set in the words read, in order. *)
Definition executed_of (count : Z) (words : list Z) : list Z :=
  concat ((λ wv : Z * Z, filter (λ index, index < count ∧ Z.land (Z.shiftr wv.2 (index - wv.1 * 256)) 1 ≠ 0)
                           ((λ i, wv.1 * 256 + i) <$> range 256)) <$> enumerate words).

Section rpc.
Context (eth_call : str → str → str → result str).

Definition call (to block signature : str) (args : list Airdrop.arg) : result str :=
  data ← Airdrop.encode_call signature args; eth_call to data block.

Definition read_state (airdrop block : str) : result state :=
  raw ← mapM (λ sig, call airdrop block sig [])
    ["token()"%string : str; "reserve()"%string : str; "admin()"%string : str; "executor()"%string : str;
     "root()"%string : str; "listHash()"%string : str; "batchCount()"%string : str; "totalAmount()"%string : str;
     "executedBatches()"%string : str; "distributedAmount()"%string : str; "paused()"%string : str];
  match raw with
  | [r0; r1; r2; r3; r4; r5; r6; r7; r8; r9; r10] =>
      token ← decode_address r0; reserve ← decode_address r1; admin ← decode_address r2; executor ← decode_address r3;
      root ← Airdrop.decode_bytes32 r4; hash ← Airdrop.decode_bytes32 r5;
      count ← Airdrop.decode_word r6; total ← Airdrop.decode_word r7;
      done_ ← Airdrop.decode_word r8; distributed ← Airdrop.decode_word r9; paused ← Airdrop.decode_word r10;
      let words := (count + 255) / 256 in
      raw_words ← mapM (λ w, call airdrop block "executedBitmap(uint256)"%string [Airdrop.ArgInt w]) (range words);
      bits ← mapM Airdrop.decode_word raw_words;
      let executed := executed_of count bits in
      let pending := filter (λ i, i ∉ executed) (range count) in
      balance ← call token block "balanceOf(address)"%string [Airdrop.ArgStr reserve];
      allowance ← call token block "allowance(address,address)"%string [Airdrop.ArgStr reserve; Airdrop.ArgStr airdrop];
      balance ← Airdrop.decode_word balance;
      allowance ← Airdrop.decode_word allowance;
      Ok (MkState token reserve admin executor root hash count total done_ distributed (negb (paused =? 0))
            executed pending balance allowance)
  | _ => Raise (RuntimeError "unreachable: mapM keeps the length")
  end.

End rpc.

(** The runs of consecutive integers [ranges] prints, as (start, prev). *)
Fixpoint runs_from (start prev : Z) (l : list Z) : list (Z * Z) :=
  match l with
  | [] => [(start, prev)]
  | i :: l => if i =? prev + 1 then runs_from start i l else (start, prev) :: runs_from i i l
  end.

Definition show_run (r : Z * Z) : str :=
  if r.1 =? r.2 then str_of_Z r.1 else str_of_Z r.1 ++ "-"%string ++ str_of_Z r.2.

Definition ranges (indexes : list Z) : str :=
  match indexes with
  | [] => "none"%string
  | i :: l => join ", "%string (show_run <$> runs_from i i l)
  end.

(** * The code: reconcile.py *)

Inductive issue := Short (n : Z) | NotExecuted (n : Z) | DistributedDiffers | AllowanceDiffers.

Record report := MkReport {
  rp_recipients : Z; rp_exact : Z; rp_higher : Z; rp_short : list (str * Z * Z); rp_problems : list issue }.

(** The loop over [zip(rows, balances)]. *)
Definition compare_balance (st : list (str * Z * Z) * Z) (rb : Row * Z) : list (str * Z * Z) * Z :=
  let '(short, exact) := st in
  let '(row, balance) := rb in
  if balance <? amount row then (short ++ [(address row, amount row, balance)], exact)
  else if balance =? amount row then (short, exact + 1) else (short, exact).

Definition issue_if (b : bool) (i : issue) : list issue := if b then [i] else [].

(** The report, from the list, the balances read and the contract's state. *)
Definition reconcile_report (rows : list Row) (balances : list Z) (s : state) : report :=
  let '(short, exact) := foldl compare_balance ([], 0) (zip rows balances) in
  MkReport (zlen rows) exact (zlen rows - exact - zlen short) short
    (issue_if (negb (bool_decide (short = []))) (Short (zlen short))
     ++ issue_if (negb (executedBatches s =? batchCount s)) (NotExecuted (batchCount s - executedBatches s))
     ++ issue_if (negb (distributedAmount s =? totalAmount s)) DistributedDiffers
     ++ issue_if (negb (allowance s =? totalAmount s - distributedAmount s)) AllowanceDiffers).

(** [main]: reads the run directory, the state and the balances, in requests of
    [rpc_batch] balances, at one block. *)
Definition reconcile_main (eth_call : str → str → str → result str) (d : run_dir) (airdrop block : str) (rpc_batch : nat)
  : result report :=
  '(m, rows) ← (match (m ← read_manifest d; rows ← read_distribution d; Ok (m, rows)) with
                | Raise (InputError e) => Raise (SystemExit e) | r => r end);
  s ← read_state eth_call airdrop block;
  _ ← raise_if (negb (bool_decide (lower (st_root s) = lower (root m)))) (SystemExit "contract root differs from manifest root");
  balances ← mapM (λ part, raw ← mapM (λ r, call eth_call (token s) block "balanceOf(address)"%string [Airdrop.ArgStr (address r)]) part;
                           mapM Airdrop.decode_word raw) (chunks rpc_batch rows);
  Ok (reconcile_report rows (concat balances) s).

(** * Lemmas *)

Lemma elem_of_range n i : i ∈ range n ↔ 0 ≤ i < n.
Proof.
  unfold range. rewrite list_elem_of_fmap. split.
  - intros (j & -> & Hj). rewrite elem_of_seq in Hj. lia.
  - intros H. exists (Z.to_nat i). rewrite elem_of_seq. lia.
Qed.

Lemma NoDup_range n : NoDup (range n).
Proof. unfold range. apply NoDup_fmap; [apply _|apply NoDup_seq]. Qed.

Lemma land1_testbit a n : 0 ≤ n → (Z.land (Z.shiftr a n) 1 ≠ 0 ↔ Z.testbit a n = true).
Proof.
  intros Hn. change 1 with (Z.ones 1). rewrite Z.land_ones by lia. change (2 ^ 1) with 2.
  rewrite <- Z.bit0_mod, Z.shiftr_spec, Z.add_0_l by lia. by destruct (Z.testbit a n).
Qed.

(** Batch [i] is executed when bit [i mod 256] of word [i / 256] is set. *)
Definition bit_set (words : list Z) (i : Z) : Prop :=
  ∃ w, words !! Z.to_nat (i / 256) = Some w ∧ Z.testbit w (i mod 256) = true.

Lemma elem_of_executed_of count words i :
  i ∈ executed_of count words ↔ 0 ≤ i < count ∧ bit_set words i.
Proof.
  unfold executed_of. rewrite list_elem_of_In, in_concat. setoid_rewrite <- list_elem_of_In. split.
  - intros (l & (wv & -> & Hwv)%list_elem_of_fmap & Hi). destruct wv as [w v].
    apply enumerate_elem_of in Hwv as (j & -> & Hj). cbn [fst snd] in Hi.
    apply list_elem_of_filter in Hi as [[Hc Hb] (k & -> & Hk)%list_elem_of_fmap]. apply elem_of_range in Hk.
    replace (Z.of_nat j * 256 + k - Z.of_nat j * 256) with k in Hb by lia. rewrite land1_testbit in Hb by lia.
    split; [lia|]. exists v. rewrite (Z.add_comm (Z.of_nat j * 256)), Z.div_add, Z.mod_add by lia.
    rewrite Z.div_small, Z.mod_small by lia. by rewrite Z.add_0_l, Nat2Z.id.
  - intros [Hi (v & Hv & Hb)].
    exists (filter (λ index, index < count ∧ Z.land (Z.shiftr v (index - i / 256 * 256)) 1 ≠ 0) ((λ k, i / 256 * 256 + k) <$> range 256)).
    pose proof (Z.mod_pos_bound i 256 ltac:(lia)) as Hm. pose proof (Z.div_mod i 256 ltac:(lia)) as Hdm.
    assert (0 ≤ i / 256) by (apply Z.div_pos; lia). split.
    + apply list_elem_of_fmap. exists (i / 256, v). split; [done|].
      apply (list_elem_of_lookup_2 _ (Z.to_nat (i / 256))). rewrite lookup_enumerate, Hv. cbn. by rewrite Z2Nat.id.
    + apply list_elem_of_filter. split; [split; [lia|]|].
      * replace (i - i / 256 * 256) with (i mod 256) by lia. by apply land1_testbit; [lia|].
      * apply list_elem_of_fmap. exists (i mod 256). rewrite elem_of_range. lia.
Qed.

Lemma enumerate_snoc {A} (l : list A) x : enumerate (l ++ [x]) = enumerate l ++ [(zlen l, x)].
Proof. unfold enumerate. rewrite imap_app. cbn [imap]. by rewrite Nat.add_0_r. Qed.

Lemma NoDup_executed_of count words : NoDup (executed_of count words).
Proof.
  unfold executed_of. induction words as [|v words IH] using rev_ind; [apply NoDup_nil_2|].
  rewrite enumerate_snoc, fmap_app, concat_app. cbn [fmap list_fmap concat fst snd]. rewrite app_nil_r.
  apply NoDup_app. split_and!; [done| |].
  - intros i Hi [_ (k & -> & Hk)%list_elem_of_fmap]%list_elem_of_filter. apply elem_of_range in Hk.
    apply (elem_of_executed_of count words) in Hi as [Hi (w & Hw & _)]. apply lookup_lt_Some in Hw.
    rewrite (Z.add_comm (zlen words * 256)), Z.div_add, Z.div_small, Z.add_0_l in Hw by lia.
    unfold zlen in Hw. lia.
  - apply NoDup_filter, NoDup_fmap; [|apply NoDup_range]. intros x y. lia.
Qed.

Lemma executed_pending count words :
  executed_of count words ++ filter (λ i, i ∉ executed_of count words) (range count) ≡ₚ range count.
Proof.
  apply NoDup_Permutation.
  - apply NoDup_app. split_and!; [apply NoDup_executed_of| |apply NoDup_filter, NoDup_range].
    by intros i Hi [? _]%list_elem_of_filter.
  - apply NoDup_range.
  - intros i. rewrite elem_of_app, list_elem_of_filter, elem_of_range. split.
    + intros [[? _]%elem_of_executed_of|[_ ?]]; lia.
    + intros Hi. destruct (decide (i ∈ executed_of count words)); [by left|by right].
Qed.

(** [read_state] splits the contract's batches: [executed] and [pending]
    together are every index below [batchCount] once, and a batch is executed
    exactly when its bit of the bitmap words the contract returned is set. *)
Theorem read_state_partition eth_call airdrop block s :
  read_state eth_call airdrop block = Ok s →
  executed s ++ pending s ≡ₚ range (batchCount s) ∧
  ∃ raw words, mapM (λ w, call eth_call airdrop block "executedBitmap(uint256)"%string [Airdrop.ArgInt w])
                 (range ((batchCount s + 255) / 256)) = Ok raw ∧ mapM Airdrop.decode_word raw = Ok words ∧
    ∀ i, i ∈ executed s ↔ 0 ≤ i < batchCount s ∧ bit_set words i.
Proof.
  unfold read_state. intros H. apply bind_Ok_inv in H as (raw & _ & H).
  do 11 (destruct raw as [|? raw]; [done|]). destruct raw; [|done]. inv_ok. subst s. cbn [executed pending batchCount].
  split; [apply executed_pending|]. eexists _, _. split; [eassumption|]. split; [eassumption|]. apply elem_of_executed_of.
Qed.

(** The selectors of the calls, computed once. *)
Definition sel (signature : str) : str := Airdrop.hex0x (Airdrop.selector signature).
Definition sel_batchCount : str := Eval vm_compute in sel "batchCount()"%string.
Definition sel_executedBitmap : str := Eval vm_compute in sel "executedBitmap(uint256)"%string.
Definition sel_root : str := Eval vm_compute in sel "root()"%string.
Definition sel_balanceOf : str := Eval vm_compute in sel "balanceOf(address)"%string.
Definition sel_allowance : str := Eval vm_compute in sel "allowance(address,address)"%string.

(** A node that knows one airdrop of three batches, batches 0 and 2 executed. *)
Definition sample_node (to data block : str) : result str :=
  let is_ (selector : str) := bool_decide (take 10 data = selector) in
  Ok (Airdrop.hex0x (to_be 32 (if is_ sel_batchCount then 3 else if is_ sel_executedBitmap then 5 else 7))).

Definition sample_state : state :=
  Eval vm_compute in from_ok (MkState [] [] [] [] [] [] 0 0 0 0 false [] [] 0 0) (read_state sample_node sample_address []).

Lemma read_state_partition_witness :
  executed sample_state ++ pending sample_state ≡ₚ range (batchCount sample_state) ∧
  ∃ raw words, mapM (λ w, call sample_node sample_address [] "executedBitmap(uint256)"%string [Airdrop.ArgInt w])
                 (range ((batchCount sample_state + 255) / 256)) = Ok raw ∧ mapM Airdrop.decode_word raw = Ok words ∧
    ∀ i, i ∈ executed sample_state ↔ 0 ≤ i < batchCount sample_state ∧ bit_set words i.
Proof. apply (read_state_partition sample_node sample_address []). vm_compute. reflexivity. Defined.

Lemma sample_state_batches : executed sample_state = [0; 2] ∧ pending sample_state = [1].
Proof. done. Qed.

(** * [ranges] *)

Definition expand (r : Z * Z) : list Z := (λ i, r.1 + i) <$> range (r.2 - r.1 + 1).

Lemma range_succ n : 0 ≤ n → range (n + 1) = range n ++ [n].
Proof.
  intros Hn. unfold range. rewrite Z2Nat.inj_add by lia. rewrite seq_app, fmap_app. f_equal.
  change (Z.to_nat 1) with 1%nat. cbn [seq fmap list_fmap]. by rewrite Nat.add_0_l, Z2Nat.id.
Qed.

(** The runs stand for the list they were made of. *)
Lemma runs_from_expand start prev l :
  start ≤ prev → concat (expand <$> runs_from start prev l) = expand (start, prev) ++ l.
Proof.
  revert start prev. induction l as [|i l IH]; intros start prev H; cbn [runs_from].
  { cbn [fmap list_fmap concat]. done. }
  destruct (Z.eqb_spec i (prev + 1)) as [-> |Hne].
  - rewrite IH by lia. unfold expand. cbn [fst snd]. replace (prev + 1 - start + 1) with ((prev - start + 1) + 1) by lia.
    rewrite range_succ, fmap_app by lia. cbn [fmap list_fmap]. rewrite <- app_assoc. cbn [app]. do 2 f_equal. lia.
  - cbn [fmap list_fmap concat]. rewrite IH by lia. f_equal. unfold expand. cbn [fst snd].
    replace (i - i + 1) with 1 by lia. change (range 1) with [0]. cbn [fmap list_fmap app]. f_equal. lia.
Qed.

(** * [reconcile] *)

Lemma compare_balances rows balances :
  let '(short, exact) := foldl compare_balance ([], 0) (zip rows balances) in
  (short = [] ↔ Forall (λ rb : Row * Z, amount rb.1 ≤ rb.2) (zip rows balances)) ∧
  zlen short + exact ≤ zlen (zip rows balances) ∧ 0 ≤ exact.
Proof.
  generalize (zip rows balances) as l. intros l. induction l as [|[r b] l IH] using rev_ind.
  { split; [by split|]. unfold zlen. simpl. lia. }
  rewrite foldl_snoc. destruct (foldl compare_balance ([], 0) l) as [short exact]. destruct IH as (IH1 & IH2 & IH3).
  cbn [compare_balance]. unfold zlen in *.
  destruct (Z.ltb_spec b (amount r)); [|destruct (Z.eqb_spec b (amount r))];
    rewrite Forall_app, Forall_singleton, length_app; cbn [fst snd length].
  - rewrite length_app. cbn [length]. split; [|lia]. split; [by intros [_ ?]%app_eq_nil|]. intros [_ ?]. lia.
  - rewrite IH1. split; [|lia]. intuition lia.
  - rewrite IH1. split; [|lia]. intuition lia.
Qed.

Lemma issue_if_nil b i : issue_if b i = [] ↔ b = false.
Proof. by destruct b. Qed.

Lemma reconcile_report_spec rows balances s :
  rp_problems (reconcile_report rows balances s) = [] ↔
  Forall (λ rb : Row * Z, amount rb.1 ≤ rb.2) (zip rows balances) ∧ executedBatches s = batchCount s ∧
  distributedAmount s = totalAmount s ∧ allowance s = totalAmount s - distributedAmount s.
Proof.
  unfold reconcile_report. pose proof (compare_balances rows balances) as H.
  destruct (foldl _ _ _) as [short exact]. destruct H as (Hs & _). cbn [rp_problems].
  rewrite !app_nil_iff, !issue_if_nil, !negb_false_iff, bool_decide_eq_true, !Z.eqb_eq, Hs. done.
Qed.

Definition holds (eth_call : str → str → str → result str) (s : state) (block : str) (r : Row) (b : Z) : Prop :=
  ∃ raw, call eth_call (token s) block "balanceOf(address)"%string [Airdrop.ArgStr (address r)] = Ok raw ∧
         Airdrop.decode_word raw = Ok b.

Lemma balances_read eth_call s block part bs :
  (raw ← mapM (λ r, call eth_call (token s) block "balanceOf(address)"%string [Airdrop.ArgStr (address r)]) part;
   mapM Airdrop.decode_word raw) = Ok bs → Forall2 (holds eth_call s block) part bs.
Proof.
  intros (raw & H1%mapM_Ok_Forall2 & H2%mapM_Ok_Forall2)%bind_Ok_inv.
  revert bs H2. induction H1 as [|r x part raw Hx _ IH]; intros bs H2; inversion_clear H2; constructor;
    first [by apply IH | by eexists].
Qed.

Lemma Forall2_zip {A B} (P : A → B → Prop) l k :
  length l = length k → Forall2 P l k ↔ Forall (λ p : A * B, P p.1 p.2) (zip l k).
Proof.
  revert k. induction l as [|x l IH]; intros [|y k] Hl; try done. injection Hl as Hl.
  cbn [zip zip_with]. rewrite Forall_cons, Forall2_cons, IH by done. done.
Qed.

(** [reconcile] reports no problem exactly when every recipient of the list
    holds at least its amount at the block read, all batches are executed,
    the whole total is distributed and nothing of the allowance is left. *)
Theorem reconcile_no_problem eth_call d airdrop block k rp :
  reconcile_main eth_call d airdrop block k = Ok rp → (0 < k)%nat →
  ∃ rows balances s, read_distribution d = Ok rows ∧ read_state eth_call airdrop block = Ok s ∧
    Forall2 (holds eth_call s block) rows balances ∧ rp_recipients rp = zlen rows ∧
    (rp_problems rp = [] ↔ Forall2 (λ r b, amount r ≤ b) rows balances ∧ executedBatches s = batchCount s ∧
                           distributedAmount s = totalAmount s ∧ allowance s = 0).
Proof.
  unfold reconcile_main. intros H Hk. inv_ok. subst rp. rename l into rows.
  destruct (read_manifest d) as [m'|e] eqn:Em; [|by destruct e].
  destruct (read_distribution d) as [rows'|e] eqn:Er; [|by destruct e].
  cbn [mbind result_bind] in E. injection E as -> ->. rename a1 into bs.
  apply mapM_Ok_Forall2 in E2 as Hb. exists rows, (concat bs), a.
  split; [done|]. split; [done|]. rewrite reconcile_report_spec.
  assert (Forall2 (holds eth_call a block) rows (concat bs)) as Hh.
  { rewrite <- (concat_chunks k rows) by done. clear -Hb. induction Hb as [|c b cs bs Hc _ IH]; [constructor|].
    cbn [concat]. apply Forall2_app; [by apply balances_read|done]. }
  split; [done|]. split; [unfold reconcile_report; by destruct (foldl _ _ _)|].
  assert (Forall2 (λ r b, amount r ≤ b) rows (concat bs) ↔ Forall (λ rb : Row * Z, amount rb.1 ≤ rb.2) (zip rows (concat bs))) as ->.
  { apply Forall2_length in Hh. exact (Forall2_zip (λ r b, amount r ≤ b) rows (concat bs) Hh). }
  intuition lia.
Qed.

(** A node for [sample_run]: its contract is done and every balance is 2^80. *)
Definition settled_node (to data block : str) : result str :=
  let is_ (selector : str) := bool_decide (take 10 data = selector) in
  if is_ sel_root then Ok (root sample_run.2) else
  Ok (Airdrop.hex0x (to_be 32 (if is_ sel_balanceOf then 2 ^ 80 else if is_ sel_allowance then 0 else 2))).

Definition settled_report : report :=
  Eval vm_compute in from_ok (MkReport 0 0 0 [] [Short 0]) (reconcile_main settled_node sample_run.1 sample_address [] 1).

Lemma reconcile_no_problem_witness :
  rp_problems settled_report = [] ∧ ∃ rows balances s, read_distribution sample_run.1 = Ok rows ∧
    read_state settled_node sample_address [] = Ok s ∧
    Forall2 (holds settled_node s []) rows balances ∧ rp_recipients settled_report = zlen rows ∧
    (rp_problems settled_report = [] ↔ Forall2 (λ r b, amount r ≤ b) rows balances ∧ executedBatches s = batchCount s ∧
                           distributedAmount s = totalAmount s ∧ allowance s = 0).
Proof.
  split; [reflexivity|]. apply (reconcile_no_problem settled_node sample_run.1 sample_address [] 1); [|lia].
  vm_compute. reflexivity.
Defined.

(** [verify_contract] finds no difference exactly when the contract's root,
    batch count, total and list hash, as decoded, are those of the run
    directory (the hashes up to the case of their digits). *)
Theorem verify_contract_exact r c t h v ps :
  verify_contract [r; c; t; h] v = Ok ps →
  ∃ r' c' t' h', Airdrop.decode_bytes32 r = Ok r' ∧ Airdrop.decode_word c = Ok c' ∧
    Airdrop.decode_word t = Ok t' ∧ Airdrop.decode_bytes32 h = Ok h' ∧
    (ps = [] ↔ lower r' = lower (v_root v) ∧ c' = v_batch_count v ∧ t' = v_total_amount v ∧ lower h' = lower (v_list_sha256 v)).
Proof.
  unfold verify_contract. intros H. inv_ok. subst ps. eexists _, _, _, _. split_and!; try done.
  assert (∀ x y, str_of_Z x = str_of_Z y ↔ x = y) as Hinj.
  { intros x y. split; [|congruence]. intros E4%(f_equal py_int). rewrite !int_str_of_Z in E4. congruence. }
  by rewrite !app_nil_iff, !when_nil, !negb_false_iff, !bool_decide_eq_true, !Hinj.
Qed.

Lemma verify_contract_exact_witness :
  ∃ r' c' t' h', Airdrop.decode_bytes32 (Airdrop.hex0x (to_be 32 1)) = Ok r' ∧ Airdrop.decode_word (Airdrop.hex0x (to_be 32 2)) = Ok c' ∧
    Airdrop.decode_word (Airdrop.hex0x (to_be 32 3)) = Ok t' ∧ Airdrop.decode_bytes32 (Airdrop.hex0x (to_be 32 4)) = Ok h' ∧
    ([OnChainDiffers "root"; OnChainDiffers "listHash"] = [] ↔
     lower r' = lower [] ∧ c' = 2 ∧ t' = 3 ∧ lower h' = lower []).
Proof.
  apply (verify_contract_exact _ _ _ _ (MkVerification sample_run.2 [] 2 0 3 [] [])). vm_compute. reflexivity.
Defined.
