(* ===== verification/SelectBatch.v ===== *)
(** airdrop/tools/select_batch.py: which recipients go into the next payment.

    The options are the fields of [options], a file option the location it
    names.  Shown here: the selected, the remaining and the already paid
    recipients are the input list, each recipient in one of them; a selection
    holds every required recipient, nobody on hold or already paid, and stays
    within the budget and the number of recipients; [smallest-first] pays as
    many recipients as any selection within the budget; the random draw ends
    and is a function of its seed. *)

From S2P Require Import Prelude PyStr PyDict Csv Sha256 Abi Bech32 Address Amount Recipients.
Local Open Scope Z_scope.

(** * The code: the random draw *)

(** [ADDRESS_RE.match(text)], the text having no line feed at its end. *)
Definition ADDRESS_RE (text : str) : bool :=
  (startswith text "0x"%string || startswith text "0X"%string) && (length text =? 42)%nat && forallb is_hex_char (drop 2 text).

Inductive tier := large | medium | small.
#[export] Instance tier_eq_dec : EqDecision tier.
Proof. solve_decision. Defined.
Definition TIERS : list tier := [large; medium; small].
Definition tier_name (t : tier) : str :=
  match t with large => "large"%string | medium => "medium"%string | small => "small"%string end.

Definition WEIGHT_SCALE : Z := 10 ^ 80.

Definition SMALL_WEIGHTS (name : str) : option (Z → Z) :=
  if bool_decide (name = "uniform"%string) then Some (λ _, 1)
  else if bool_decide (name = "inverse-sqrt"%string) then Some Z.sqrt
  else if bool_decide (name = "inverse"%string) then Some (λ amount, amount)
  else if bool_decide (name = "inverse-square"%string) then Some (λ amount, amount * amount)
  else None.

Definition tier_of (amount medium_from large_from : Z) (large_to : option Z) : option tier :=
  if (match large_to with Some lt => lt <=? amount | None => false end) then None
  else if large_from <=? amount then Some large
  else if medium_from <=? amount then Some medium else Some small.

Definition draw_value (seed : str) (t : tier) (k : Z) : Z :=
  from_be (sha256 (ords (seed ++ "|"%string ++ tier_name t ++ "|"%string ++ str_of_Z k))).

Inductive outcome := Selected | SkippedOverBudget.
#[export] Instance outcome_eq_dec : EqDecision outcome.
Proof. solve_decision. Defined.
Record draw := MkDraw { d_tier : tier; d_draw : Z; d_row : Row; d_outcome : outcome }.

(** The first index whose running weight exceeds [r], or the last one. *)
Fixpoint pick_index (weights : list Z) (running r : Z) : nat :=
  match weights with
  | [] | [_] => 0%nat
  | w :: weights => if r <? running + w then 0%nat else S (pick_index weights (running + w) r)
  end.

(** [max(1, WEIGHT_SCALE // f(amount))]. *)
Definition small_weight_of (f : Z → Z) (r : Row) : result Z :=
  if f (amount r) =? 0 then Raise ZeroDivisionError else Ok (Z.max 1 (WEIGHT_SCALE / f (amount r))).

Definition fits (left : option Z) (n : Z) : bool := match left with Some l => n <=? l | None => true end.
Definition more (left : option Z) : bool := match left with Some l => 0 <? l | None => true end.

(** The variables of the [while] loop. *)
Record draw_state := MkDrawState {
  pool : list (Row * Z); taken : Z; next_k : Z; budget_left : option Z; slots_left : option Z;
  chosen : list Row; log : list draw }.

Definition draw_step (seed : str) (t : tier) (s : draw_state) : draw_state :=
  let total := zsum_with snd (pool s) in
  let r := draw_value seed t (next_k s) mod total in
  let index := pick_index (snd <$> pool s) 0 r in
  match pool s !! index with
  | None => s
  | Some (row, _) =>
      let pool' := delete index (pool s) in
      let ok := fits (budget_left s) (amount row) in
      let log' := log s ++ [MkDraw t (next_k s) row (if ok then Selected else SkippedOverBudget)] in
      if ok
      then MkDrawState pool' (taken s + 1) (next_k s + 1) ((λ b, b - amount row) <$> budget_left s)
             ((λ n, n - 1) <$> slots_left s) (chosen s ++ [row]) log'
      else MkDrawState pool' (taken s) (next_k s + 1) (budget_left s) (slots_left s) (chosen s) log'
  end.

Definition drawing (wanted : option Z) (s : draw_state) : bool :=
  negb (bool_decide (length (pool s) = 0%nat)) &&
  (match wanted with Some n => taken s <? n | None => true end) && more (slots_left s).

(** Every turn takes one row out of the pool, so [length pool] turns are enough. *)
Fixpoint draw_loop (fuel : nat) (seed : str) (t : tier) (wanted : option Z) (s : draw_state) : draw_state :=
  match fuel with
  | O => s
  | S fuel => if drawing wanted s then draw_loop fuel seed t wanted (draw_step seed t s) else s
  end.

Definition draw_tier (candidates : list Row) (seed : str) (medium_from large_from : Z) (counts : tier → option Z)
    (small_weight : str) (large_to : option Z) (st : option Z * option Z * list Row * list draw) (t : tier)
  : result (option Z * option Z * list Row * list draw) :=
  let '(budget, slots, chosen_, log_) := st in
  let rows := sort_str key (filter (λ r, tier_of (amount r) medium_from large_from large_to = Some t) candidates) in
  weights ← (if bool_decide (t = small)
             then f ← of_option (SMALL_WEIGHTS small_weight) (KeyError small_weight); mapM (small_weight_of f) rows
             else Ok (replicate (length rows) 1));
  let s := draw_loop (length rows) seed t (counts t)
             (MkDrawState (zip rows weights) 0 0 budget slots chosen_ log_) in
  Ok (budget_left s, slots_left s, chosen s, log s).

Definition random_select (candidates : list Row) (seed : str) (medium_from large_from : Z) (counts : tier → option Z)
    (small_weight : str) (budget slots large_to : option Z) : result (list Row * list draw) :=
  '(_, _, chosen, log) ←
    foldM (draw_tier candidates seed medium_from large_from counts small_weight large_to) (budget, slots, [], []) TIERS;
  Ok (chosen, log).

(** * The code: the address lists *)

(** [text.splitlines()]. *)
Definition line_end (c : ascii) : bool := in_range 10 13 (ord c) || in_range 28 30 (ord c).
Fixpoint splitlines_from (s : str) (line : str) : list str :=
  match s with
  | [] => if bool_decide (line = []) then [] else [line]
  | c :: s' =>
      if line_end c
      then line :: splitlines_from (if bool_decide (c = CR) then match s' with
                                      | d :: s'' => if bool_decide (d = LF) then s'' else s' | [] => s' end
                                    else s') []
      else splitlines_from s' (line ++ [c])
  end.
Definition splitlines (s : str) : list str := splitlines_from s [].

Definition before_char (c : ascii) (s : str) : str := (partition c s).1.1.

(** [re.split(r"[\s,]+", line)[0]]. *)
Fixpoint first_token (s : str) : str :=
  match s with
  | [] => []
  | c :: s => if is_space c || bool_decide (c = ","%char) then [] else c :: first_token s
  end.

Definition address_line (raw : str) : result (option str) :=
  let line := strip (before_char "#"%char raw) in
  if bool_decide (line = []) then Ok None else
  let token := first_token line in
  if negb (ADDRESS_RE token) then Raise (InputError "expected an address at the start of the line") else
  a ← normalize_address token; Ok (Some a).

Definition address_record (index : nat) (record : list str) : result (option str) :=
  if blank record then Ok None else
  c ← of_option (record !! index) IndexError;
  a ← normalize_address c; Ok (Some a).

(** [Path(path).name]. *)
Definition basename (path : str) : str := reverse (partition "/"%char (reverse path)).1.1.

Definition read_address_file (path : str) (loc : location) : result (list str) :=
  match loc with
  | FileAt content =>
      if bool_decide (lower (suffix (basename path)) = ".csv"%string) then
        match csv_read (decode_sig content) with
        | [] => Raise (InputError "empty file")
        | header :: records =>
            column ← pick_column header None ADDRESS_COLUMNS;
            index ← of_option (index_of column header) (ValueError "not in list");
            out ← mapM (address_record index) records;
            Ok (omap id out)
        end
      else
        out ← mapM address_line (splitlines content);
        Ok (omap id out)
  | _ => Raise (InputError "address list not found")
  end.

(** A value of --include is an address or names a file. *)
Definition include_values (v : str * location) : result (list str) :=
  if ADDRESS_RE (strip v.1) then a ← normalize_address v.1; Ok [a] else read_address_file v.1 v.2.

Definition unique_step (st : list str * list str) (address : str) : list str * list str :=
  let '(seen, unique) := st in
  if bool_decide (lower address ∈ seen) then st else (seen ++ [lower address], unique ++ [address]).

Definition resolve_includes (values : list (str * location)) : result (list str) :=
  outs ← mapM include_values values;
  Ok (foldl unique_step ([], []) (concat outs)).2.

Definition write_list (rows : list Row) : str :=
  csv_write (["address"%string : str; "amount_atto"%string : str] :: ((λ r, [address r; str_of_Z (amount r)]) <$> rows)).

Record summary_ := MkSummary_ { n_recipients : Z; sum_amount : str; sum_display : str }.
Definition summarize (rows : list Row) : summary_ :=
  let total := zsum_with amount rows in MkSummary_ (zlen rows) (str_of_Z total) (format_one total).

(** * The code: main *)

Record options := MkOptions {
  o_input : str; o_location : location; o_address_column : option str; o_amount_column : option str;
  o_amount_unit : option str; o_budget : option str; o_max_recipients : option Z; o_include : list (str * location);
  o_hold : list (str * location); o_paid : list (str * location); o_strategy : str; o_seed : option str;
  o_large_from : str; o_large_to : option str; o_medium_from : str; o_large_count : Z; o_medium_count : Z;
  o_small_count : option Z; o_small_weight : str; o_existing : bool; o_force : bool }.

(** One row of a --paid file. *)
Definition paid_step (by_address paid : dict str Row) (row : Row) : result (dict str Row) :=
  match dget by_address (key row) with
  | None => Raise (InputError "was paid but is not in the input list")
  | Some listed =>
      if negb (amount listed =? amount row) then Raise (InputError "was paid another amount than the list says") else
      if dmem paid (key row) then Raise (InputError "appears in more than one paid file") else
      Ok (dset paid (key row) listed)
  end.

Definition read_paid (by_address : dict str Row) (files : list (str * location))
  : result (dict str Row * list source_info) :=
  foldM (λ st f, '(rows, info) ← read_rows f.1 f.2 None None None false;
                 paid ← foldM (paid_step by_address) st.1 rows;
                 Ok (paid, st.2 ++ sources info)) ([], []) files.

(** One address of a hold list; the second part collects those not listed. *)
Definition hold_step (by_address paid : dict str Row) (path : str) (st : dict str str * list str) (address : str)
  : dict str str * list str :=
  let '(held, missing) := st in
  if negb (dmem by_address (lower address)) then (held, missing ++ [address])
  else if negb (dmem paid (lower address)) then (dset held (lower address) path, missing) else st.

Definition read_holds (by_address paid : dict str Row) (files : list (str * location))
  : result (dict str str * list str) :=
  foldM (λ st f, addresses ← read_address_file f.1 f.2;
                 Ok (foldl (hold_step by_address paid f.1) st addresses)) ([], []) files.

Definition check_include (by_address paid : dict str Row) (held : dict str str) (address : str) : result unit :=
  _ ← raise_if (negb (dmem by_address (lower address))) (InputError "--include is not in the input list");
  _ ← raise_if (dmem paid (lower address)) (InputError "--include is already paid");
  raise_if (dmem held (lower address)) (InputError "--include is also on a hold list").

(** The options of the random strategy: the tier bounds and counts. *)
Record random_options := MkRandom { r_seed : str; r_medium : Z; r_large : Z; r_large_to : option Z; r_counts : tier → option Z }.

Definition optional_amount (o : option str) : result (option Z) :=
  match given o with Some v => n ← parse_amount v "one"%string; Ok (Some n) | None => Ok None end.

Definition random_of (o : options) (budget : option Z) : result (option random_options) :=
  if bool_decide (o_strategy o = "random"%string) then
    seed ← of_option (given (o_seed o)) (InputError "--strategy random needs --seed");
    medium_from ← parse_amount (o_medium_from o) "one"%string;
    large_from ← parse_amount (o_large_from o) "one"%string;
    _ ← raise_if (large_from <=? medium_from) (InputError "--medium-from must be smaller than --large-from");
    large_to ← optional_amount (o_large_to o);
    _ ← raise_if (match large_to with Some lt => lt <=? large_from | None => false end)
          (InputError "--large-to must be larger than --large-from");
    let counts := λ t, match t with large => Some (o_large_count o) | medium => Some (o_medium_count o)
                       | small => o_small_count o end in
    _ ← raise_if (existsb (λ t, match counts t with Some c => c <? 0 | None => false end) TIERS)
          (InputError "tier counts cannot be negative");
    _ ← raise_if (negb (bool_decide (is_Some budget)) && negb (bool_decide (is_Some (o_small_count o))) &&
                  negb (bool_decide (is_Some (o_max_recipients o))))
          (InputError "--strategy random needs --budget, --small-count or --max-recipients");
    Ok (Some (MkRandom seed medium_from large_from large_to counts))
  else
    _ ← raise_if (bool_decide (is_Some (given (o_seed o)))) (InputError "--seed is only used with --strategy random");
    Ok None.

(** The loop that fills the budget in the candidates' order. *)
Fixpoint fill (strategy : str) (budget max_recipients : option Z) (forced spent : Z) (chosen candidates : list Row) : list Row :=
  match candidates with
  | [] => chosen
  | row :: candidates =>
      if (match max_recipients with Some n => n <=? forced + zlen chosen | None => false end) then chosen
      else if (match budget with Some b => b <? spent + amount row | None => false end)
      then if bool_decide (strategy = "smallest-first"%string) then chosen
           else fill strategy budget max_recipients forced spent chosen candidates
      else fill strategy budget max_recipients forced (spent + amount row) (chosen ++ [row]) candidates
  end.

Record selection := MkSelection {
  sel_rows : list Row; sel_info : read_info; sel_budget : option Z; sel_paid : dict str Row; sel_held : dict str str;
  sel_not_listed : list str; sel_forced : list Row; sel_candidates : list Row; sel_chosen : list Row;
  sel_selected : list Row; sel_remaining : list Row; sel_draws : list draw; sel_random : option random_options }.

Definition strategy_order (strategy : str) (candidates : list Row) : list Row :=
  if bool_decide (strategy = "smallest-first"%string) then sort_pair (λ r, (amount r, key r)) candidates
  else if bool_decide (strategy = "largest-first"%string) then sort_pair (λ r, (- amount r, key r)) candidates
  else candidates.

(** The candidates: not paid, not held and not forced. *)
Definition open_rows (rows : list Row) (paid : dict str Row) (held : dict str str) (forced : list Row) : list Row :=
  filter (λ r, dmem paid (key r) = false ∧ dmem held (key r) = false ∧ key r ∉ key <$> forced) rows.

Definition select_body (o : options) : result selection :=
  '(rows, info) ← read_rows (o_input o) (o_location o) (o_address_column o) (o_amount_column o) (o_amount_unit o) true;
  rows ← consolidate rows "input"%string false;
  let by_address := dict_of ((λ r, (key r, r)) <$> rows) in
  '(paid, _) ← read_paid by_address (o_paid o);
  '(held, not_listed) ← read_holds by_address paid (o_hold o);
  includes ← resolve_includes (o_include o);
  _ ← mapM (check_include by_address paid held) includes;
  budget ← optional_amount (o_budget o);
  _ ← raise_if (match o_max_recipients o with Some n => n <? 1 | None => false end)
        (InputError "--max-recipients must be at least 1");
  random ← random_of o budget;
  forced ← mapM (λ a, of_option (dget by_address (lower a)) (KeyError (lower a))) includes;
  let forced_total := zsum_with amount forced in
  _ ← raise_if (match budget with Some b => b <? forced_total | None => false end)
        (InputError "the --include addresses need more than the budget");
  _ ← raise_if (match o_max_recipients o with Some n => n <? zlen forced | None => false end)
        (InputError "--include addresses exceed --max-recipients");
  let candidates := strategy_order (o_strategy o) (open_rows rows paid held forced) in
  '(chosen, draws) ← (match random with
     | Some rnd => random_select candidates (r_seed rnd) (r_medium rnd) (r_large rnd) (r_counts rnd) (o_small_weight o)
                     ((λ b, b - forced_total) <$> budget) ((λ n, n - zlen forced) <$> o_max_recipients o) (r_large_to rnd)
     | None => Ok (fill (o_strategy o) budget (o_max_recipients o) (zlen forced) forced_total [] candidates, [])
     end);
  let chosen := sort_str key chosen in
  let selected := forced ++ chosen in
  let selected_keys := key <$> selected in
  let remaining := sort_str key (filter (λ r, dmem paid (key r) = false ∧ key r ∉ selected_keys) rows) in
  _ ← raise_if (o_existing o && negb (o_force o)) (InputError "already exist; pass --force to overwrite");
  Ok (MkSelection rows info budget paid held not_listed forced candidates chosen selected remaining draws random).

(** The files [main] writes: selected.csv, remaining.csv and, for the random
    strategy, draws.csv. *)
Definition draws_csv (draws : list draw) : str :=
  csv_write (["tier"%string : str; "draw"%string : str; "address"%string : str; "amount_atto"%string : str; "outcome"%string : str]
    :: ((λ d, [tier_name (d_tier d); str_of_Z (d_draw d); address (d_row d); str_of_Z (amount (d_row d));
               match d_outcome d with Selected => "selected"%string : str | SkippedOverBudget => "skipped_over_budget"%string end]) <$> draws)).

(** The per-tier part of selection.json. *)
Record tier_report := MkTierReport { requested : option Z; eligible : summary_; tier_selected : summary_; skipped_over_budget : Z }.

Definition report_tier (s : selection) (rnd : random_options) (t : tier) : tier_report :=
  let of_tier := filter (λ r, tier_of (amount r) (r_medium rnd) (r_large rnd) (r_large_to rnd) = Some t) in
  MkTierReport (r_counts rnd t) (summarize (of_tier (sel_candidates s))) (summarize (of_tier (sel_chosen s)))
    (zlen (filter (λ d, d_tier d = t ∧ d_outcome d ≠ Selected) (sel_draws s))).

Record selection_report := MkSelectionReport {
  rep_input : summary_; rep_paid : summary_; rep_held : summary_; rep_selected : summary_; rep_included : summary_;
  rep_filled : summary_; rep_largest_filled : Z; rep_remaining : summary_; rep_not_selected_excluding_held : summary_;
  rep_smallest_not_selected : Z; rep_tiers : list (tier * tier_report) }.

(** [max(values, default=0)] and [min(values, default=0)]. *)
Definition max_or_0 (l : list Z) : Z := match l with [] => 0 | x :: l => foldl Z.max x l end.
Definition min_or_0 (l : list Z) : Z := match l with [] => 0 | x :: l => foldl Z.min x l end.

Definition make_report (s : selection) : selection_report :=
  let by_address := dict_of ((λ r, (key r, r)) <$> sel_rows s) in
  let unselected := filter (λ r, dmem (sel_held s) (key r) = false) (sel_remaining s) in
  MkSelectionReport (summarize (sel_rows s)) (summarize (dvalues (sel_paid s)))
    (summarize (omap (dget by_address) (dkeys (sel_held s))))
    (summarize (sel_selected s)) (summarize (sel_forced s)) (summarize (sel_chosen s))
    (max_or_0 (amount <$> sel_chosen s)) (summarize (sel_remaining s)) (summarize unselected)
    (min_or_0 (amount <$> unselected))
    (match sel_random s with Some rnd => (λ t, (t, report_tier s rnd t)) <$> TIERS | None => [] end).

Definition select_main (o : options) : result (str * str * option str * selection_report) :=
  match select_body o with
  | Ok s => Ok (write_list (sel_selected s), write_list (sel_remaining s),
                (match sel_random s with Some _ => Some (draws_csv (sel_draws s)) | None => None end), make_report s)
  | Raise (InputError m) => Raise (SystemExit m)
  | Raise e => Raise e
  end.

(** * Filling in order *)

(** [spent] more than the first argument allows. *)
Definition within (limit : option Z) (n : Z) : Prop := match limit with Some l => n ≤ l | None => True end.

Lemma fill_spec strategy budget max forced spent chosen candidates :
  within budget spent → within max (forced + zlen chosen) →
  ∃ new, fill strategy budget max forced spent chosen candidates = chosen ++ new ∧ new `sublist_of` candidates ∧
    within budget (spent + zsum_with amount new) ∧ within max (forced + zlen chosen + zlen new).
Proof.
  revert spent chosen. induction candidates as [|row cs IH]; intros spent chosen Hb Hm; cbn [fill].
  { exists []. rewrite app_nil_r. unfold zlen, zsum_with. cbn. rewrite !Z.add_0_r. done. }
  assert (∃ new, chosen = chosen ++ new ∧ new `sublist_of` (row :: cs) ∧
    within budget (spent + zsum_with amount new) ∧ within max (forced + zlen chosen + zlen new)) as Hstop.
  { exists []. rewrite app_nil_r. unfold zlen, zsum_with. cbn. rewrite !Z.add_0_r. split_and!; [done|apply sublist_nil_l|done|done]. }
  destruct (match max with Some n => _ | None => _ end) eqn:Em; [done|].
  destruct (match budget with Some b => _ | None => _ end) eqn:Eb.
  - destruct (bool_decide _); [done|]. destruct (IH spent chosen Hb Hm) as (new & -> & Hs & Hb' & Hm').
    exists new. split_and!; try done. by constructor.
  - destruct (IH (spent + amount row) (chosen ++ [row])) as (new & -> & Hs & Hb' & Hm').
    + destruct budget; [|done]. apply Z.ltb_ge in Eb. unfold within. lia.
    + destruct max; [|done]. apply Z.leb_gt in Em. unfold within, zlen in *. rewrite length_app. cbn [length]. lia.
    + exists (row :: new). rewrite <- app_assoc, zsum_with_cons, Z.add_assoc. split_and!; [done|by constructor|done|].
      unfold zlen in *. rewrite length_app in Hm'. cbn [length] in *. destruct max; [|done]. unfold within in *. lia.
Qed.

(** * The smallest amounts *)

Lemma take_S_sum l x n :
  Forall (λ y, x ≤ y) l → (n < length l)%nat → x + zsum (take n l) ≤ zsum (take (S n) l).
Proof.
  intros H Hn. destruct (lookup_lt_is_Some_2 l n Hn) as [y Hy]. rewrite (take_S_r l n y) by done. rewrite zsum_app. cbn.
  rewrite Forall_forall in H. specialize (H y (list_elem_of_lookup_2 _ _ _ Hy)). lia.
Qed.

(** No [k] elements of a sorted list have a smaller sum than its first [k]. *)
Lemma sorted_prefix_min l k :
  StronglySorted Z.le l → k ⊆+ l → zsum (take (length k) l) ≤ zsum k.
Proof.
  intros Hs. revert k. induction Hs as [|x l Hs IH Hx]; intros k Hk.
  { apply submseteq_nil_r in Hk as ->. done. }
  apply submseteq_cons_r in Hk as [Hk|(k' & Hp & Hk)].
  - specialize (IH k Hk). pose proof (submseteq_length _ _ Hk) as Hl. destruct k as [|y k]; [done|].
    cbn [length] in *. rewrite firstn_cons. cbn [zsum] in *. pose proof (take_S_sum l x (length k) Hx ltac:(lia)). lia.
  - rewrite Hp at 2. apply Permutation_length in Hp as ->. cbn [length take zsum]. specialize (IH k' Hk). lia.
Qed.

Lemma fill_smallest budget max forced spent chosen candidates :
  Forall (λ r, 0 < amount r) candidates → within budget spent →
  let out := fill "smallest-first"%string budget max forced spent chosen candidates in
  ∃ n, out = chosen ++ take n candidates ∧ (n ≤ length candidates)%nat ∧
    (n = length candidates ∨ (∃ m, max = Some m ∧ m ≤ forced + zlen out) ∨
     ∃ b, budget = Some b ∧ b < spent + zsum (take (S n) (amount <$> candidates))).
Proof.
  intros Hpos. revert spent chosen. induction Hpos as [|row cs Hr Hpos IH]; intros spent chosen Hb; cbn [fill].
  { exists 0%nat. rewrite app_nil_r. auto. }
  destruct (match max with Some n => _ | None => _ end) eqn:Em.
  { exists 0%nat. rewrite app_nil_r. destruct max as [m|]; [|done]. apply Z.leb_le in Em.
    split_and!; [done|lia|]. right. left. eauto. }
  destruct (match budget with Some b => _ | None => _ end) eqn:Eb.
  - exists 0%nat. rewrite bool_decide_eq_true_2 by done. rewrite app_nil_r. destruct budget as [b|]; [|done].
    apply Z.ltb_lt in Eb. split_and!; [done|lia|]. right. right. exists b. split; [done|].
    rewrite fmap_cons, firstn_cons, take_0. cbn [zsum]. lia.
  - destruct (IH (spent + amount row) (chosen ++ [row])) as (n & -> & Hn & Hend).
    { destruct budget; [|done]. apply Z.ltb_ge in Eb. unfold within. lia. }
    exists (S n). rewrite <- app_assoc in Hend |- *. cbn [app length] in Hend |- *.
    rewrite fmap_cons, !firstn_cons. cbn [zsum]. split_and!; [done|lia|].
    destruct Hend as [-> |[?|(b & Hbb & Hlt)]]; [by left|right; by left|]. right. right. exists b. split; [done|].
    lia.
Qed.

Lemma zsum_take_mono l n m : Forall (λ x, 0 < x) l → (n ≤ m)%nat → zsum (take n l) ≤ zsum (take m l).
Proof.
  intros H. revert n m. induction H as [|x l Hx H IH]; intros [|n] [|m] Hnm; cbn; try lia.
  - assert (0 ≤ zsum (take m l)); [|lia]. rewrite <- (IH 0%nat m) by lia. done.
  - specialize (IH n m ltac:(lia)). lia.
Qed.

Lemma fill_smallest_most budget max forced spent candidates l :
  Forall (λ r, 0 < amount r) candidates → StronglySorted Z.le (amount <$> candidates) →
  within budget spent →
  l ⊆+ candidates → within budget (spent + zsum_with amount l) → within max (forced + zlen l) →
  zlen l ≤ zlen (fill "smallest-first"%string budget max forced spent [] candidates).
Proof.
  intros Hpos Hs Hb Hl Hbl Hml.
  destruct (fill_smallest budget max forced spent [] candidates Hpos Hb) as (n & E & Hn & Hend).
  rewrite E in *. cbn [app] in *. assert (zlen (take n candidates) = Z.of_nat n) as Hlen
    by (unfold zlen; rewrite length_take; lia). rewrite Hlen in *. clear E.
  destruct Hend as [-> |[(m & -> & Hm)|(b & -> & Hlt)]].
  - apply submseteq_length in Hl. unfold zlen. lia.
  - unfold within in Hml. lia.
  - destruct (Z.le_gt_cases (zlen l) (Z.of_nat n)) as [|Hgt]; [done|exfalso].
    assert (amount <$> l ⊆+ amount <$> candidates) as Hla by by apply fmap_submseteq.
    pose proof (sorted_prefix_min _ _ Hs Hla) as Hmin. rewrite length_fmap in Hmin. unfold within, zsum_with, zlen in *.
    assert (Forall (λ x, 0 < x) (amount <$> candidates)) as Hpa by by apply Forall_fmap.
    pose proof (zsum_take_mono _ (S n) (length l) Hpa ltac:(lia)). lia.
Qed.

(** * The random draw *)

Lemma pick_index_lt weights running r : weights ≠ [] → (pick_index weights running r < length weights)%nat.
Proof.
  revert running. induction weights as [|w [|w' weights] IH]; intros running Hn; [done|simpl; lia|].
  change (pick_index (w :: w' :: weights) running r)
    with (if r <? running + w then 0%nat else S (pick_index (w' :: weights) (running + w) r)).
  destruct (r <? running + w); [simpl; lia|]. specialize (IH (running + w) ltac:(done)). cbn [length] in *. lia.
Qed.

(** Where a tier's draw stands: the rows split into drawn, skipped and left. *)
Record drawn (rows chosen0 : list Row) (b0 s0 : option Z) (st : draw_state) (new skipped : list Row) : Prop := {
  dr_chosen : chosen st = chosen0 ++ new;
  dr_split : new ++ skipped ++ (pool st).*1 ≡ₚ rows;
  dr_budget : budget_left st = (λ b, b - zsum_with amount new) <$> b0;
  dr_within : within b0 (zsum_with amount new);
  dr_slots : slots_left st = (λ n, n - zlen new) <$> s0;
  dr_slots_within : within s0 (zlen new);
  dr_taken : taken st = zlen new;
}.

Lemma draw_step_drawn rows chosen0 b0 s0 seed t wanted st new skipped :
  drawn rows chosen0 b0 s0 st new skipped → drawing wanted st = true →
  length (pool (draw_step seed t st)) = (length (pool st) - 1)%nat ∧
  ∃ new' skipped', drawn rows chosen0 b0 s0 (draw_step seed t st) new' skipped'.
Proof.
  intros [Hc Hs Hb Hbw Hsl Hslw Ht] Hd. unfold drawing in Hd. apply andb_prop in Hd as [Hd Hmore].
  apply andb_prop in Hd as [Hd _]. zbool. unfold draw_step.
  assert (pool st ≠ []) as Hne by (intros E; by rewrite E in Hd).
  set (index := pick_index _ _ _). assert (index < length (pool st))%nat as Hlt.
  { rewrite <- (length_fmap snd). apply pick_index_lt. by destruct (pool st). }
  destruct (lookup_lt_is_Some_2 _ _ Hlt) as [[row w] Hrow]. rewrite Hrow.
  pose proof (delete_Permutation _ _ _ Hrow) as Hp.
  assert ((pool st).*1 ≡ₚ row :: (delete index (pool st)).*1) as Hp1 by (rewrite Hp at 1; done).
  assert (length (delete index (pool st)) = (length (pool st) - 1)%nat) as Hl by (apply Permutation_length in Hp; simpl in Hp; lia).
  destruct (fits (budget_left st) (amount row)) eqn:Ef.
  - split; [done|]. exists (new ++ [row]), skipped.
    split; cbn [chosen pool budget_left slots_left taken].
    + by rewrite Hc, app_assoc.
    + rewrite <- Hs, Hp1. solve_Permutation.
    + rewrite Hb, zsum_with_snoc. destruct b0; [|done]. cbn. f_equal. lia.
    + rewrite zsum_with_snoc. rewrite Hb in Ef. destruct b0; [|done]. cbn in *. lia.
    + rewrite Hsl. unfold zlen. rewrite length_app. destruct s0; [|done]. cbn. f_equal. lia.
    + rewrite Hsl in Hmore. unfold zlen in *. rewrite length_app. destruct s0; [|done]. cbn in *. lia.
    + rewrite Ht. unfold zlen. rewrite length_app. cbn. lia.
  - split; [done|]. exists new, (skipped ++ [row]).
    split; cbn [chosen pool budget_left slots_left taken]; try done. rewrite <- Hs, Hp1. solve_Permutation.
Qed.

Lemma draw_loop_drawn fuel rows chosen0 b0 s0 seed t wanted st new skipped :
  drawn rows chosen0 b0 s0 st new skipped → (length (pool st) ≤ fuel)%nat →
  drawing wanted (draw_loop fuel seed t wanted st) = false ∧
  ∃ new' skipped', drawn rows chosen0 b0 s0 (draw_loop fuel seed t wanted st) new' skipped'.
Proof.
  revert st new skipped. induction fuel as [|fuel IH]; intros st new skipped Hd Hl; cbn [draw_loop].
  - split; [|eauto]. unfold drawing. rewrite bool_decide_eq_true_2 by lia. done.
  - destruct (drawing wanted st) eqn:E; [|eauto].
    destruct (draw_step_drawn rows chosen0 b0 s0 seed t wanted st new skipped Hd E) as (Hlen & new' & skipped' & Hd').
    eapply IH; [exact Hd'|lia].
Qed.

Lemma zip_fst {A B} (l : list A) (k : list B) : length l = length k → (zip l k).*1 = l.
Proof. intros H. apply fst_zip. lia. Qed.

(** One tier: its picks come from its own rows and fit what is left. *)
Lemma draw_tier_inv candidates seed mf lf counts sw lt b s ch lg t st' :
  draw_tier candidates seed mf lf counts sw lt (b, s, ch, lg) t = Ok st' → within b 0 → within s 0 →
  ∃ new lg', st' = ((λ x, x - zsum_with amount new) <$> b, (λ n, n - zlen new) <$> s, ch ++ new, lg') ∧
    new ⊆+ filter (λ r, tier_of (amount r) mf lf lt = Some t) candidates ∧
    within b (zsum_with amount new) ∧ within s (zlen new).
Proof.
  intros H Hb Hs. cbn [draw_tier] in H. set (rows := sort_str key _) in H. apply bind_Ok_inv in H as (weights & Hw & H).
  injection H as <-. assert (length rows = length weights) as Hlen.
  { destruct (bool_decide _); [|injection Hw as <-; by rewrite length_replicate].
    apply bind_Ok_inv in Hw as (f & _ & Hw%mapM_Ok_Forall2). by eapply Forall2_length. }
  set (st := MkDrawState (zip rows weights) 0 0 b s ch lg).
  assert (drawn rows ch b s st [] []) as Hd.
  { split; cbn [st chosen pool budget_left slots_left taken]; unfold zlen, zsum_with; cbn [length fmap list_fmap zsum app].
    - by rewrite app_nil_r.
    - by rewrite zip_fst.
    - destruct b; [|done]. cbn. f_equal. lia.
    - done.
    - destruct s; [|done]. cbn. f_equal. lia.
    - done.
    - done. }
  destruct (draw_loop_drawn (length rows) rows ch b s seed t (counts t) st [] [] Hd) as [_ (new & skipped & [Hc Hp Hbl Hbw Hsl Hsw Ht])].
  { cbn [pool st]. rewrite length_zip_with, Hlen. lia. }
  exists new. eexists. rewrite Hc, Hbl, Hsl. split; [reflexivity|]. split_and!; [|done|done].
  assert (new ⊆+ rows) as Hsub by (rewrite <- Hp; apply submseteq_inserts_r; done).
  unfold rows in Hsub. by rewrite sort_str_perm in Hsub.
Qed.

Lemma NoDup_submseteq_elem {A} (l k : list A) : NoDup k → l ⊆+ k → NoDup l ∧ ∀ x, x ∈ l → x ∈ k.
Proof.
  intros Hk (k' & Hp)%submseteq_Permutation. rewrite Hp in Hk. apply NoDup_app in Hk as (Hl & _ & _).
  split; [done|]. intros x Hx. rewrite Hp. apply elem_of_app. by left.
Qed.

Lemma random_select_inv candidates seed mf lf counts sw b s lt ch lg :
  random_select candidates seed mf lf counts sw b s lt = Ok (ch, lg) → within b 0 → within s 0 → NoDup candidates →
  NoDup ch ∧ (∀ r, r ∈ ch → r ∈ candidates) ∧ within b (zsum_with amount ch) ∧ within s (zlen ch).
Proof.
  unfold random_select. intros H Hb Hs Hn. inv_ok. simplify_eq.
  match goal with H : foldM _ _ _ = Ok _ |- _ => rename H into Hf end.
  apply (foldM_inv (λ ts st, let '(b', s', ch, _) := (st : option Z * option Z * list Row * list draw) in
     NoDup ts → (b' = (λ x, x - zsum_with amount ch) <$> b) ∧ (s' = (λ n, n - zlen ch) <$> s) ∧
     NoDup ch ∧ (∀ r, r ∈ ch → r ∈ candidates ∧ ∃ t, t ∈ ts ∧ tier_of (amount r) mf lf lt = Some t) ∧
     within b (zsum_with amount ch) ∧ within s (zlen ch))) in Hf.
  - destruct Hf as (_ & _ & Hnd & Hin & Hw & Hsw); [compute_decide|]. split_and!; try done. intros r Hr. by apply Hin.
  - intros _. unfold zlen, zsum_with. cbn [length fmap list_fmap zsum]. split_and!; try done.
    + destruct b; [|done]. cbn. f_equal. lia.
    + destruct s; [|done]. cbn. f_equal. lia.
    + apply NoDup_nil_2.
    + by intros r ?%not_elem_of_nil.
  - intros pre t [[[b' s'] ch'] lg'] [[[b2 s2] ch2] lg2] IH Hstep Hnd. apply NoDup_app in Hnd as (Hpre & Hdisj & _).
    destruct (IH Hpre) as (-> & -> & Hch & Hin & Hw & Hsw). clear IH.
    apply draw_tier_inv in Hstep as (new & lg'' & [= -> -> -> ->] & Hsub & Hwn & Hsn);
      [|by destruct b; [unfold within in *; cbn; lia|done]|by destruct s; [unfold within in *; cbn; lia|done]].
    apply NoDup_submseteq_elem in Hsub as [Hnew Hnin]; [|by apply NoDup_filter].
    rewrite zsum_with_app. assert (zlen (ch' ++ new) = zlen ch' + zlen new) as Hzl by (unfold zlen; rewrite length_app; lia).
    rewrite Hzl. split_and!.
    + destruct b; [|done]. cbn. f_equal. lia.
    + destruct s; [|done]. cbn. f_equal. lia.
    + apply NoDup_app. split_and!; [done| |done]. intros r Hr [Ht _]%Hnin%list_elem_of_filter.
      apply Hin in Hr as (_ & t' & Ht' & Et). apply (Hdisj t' Ht'). rewrite Et in Ht. injection Ht as ->. by left.
    + intros r [[Hc (t' & Ht' & Et)]%Hin|[Ht Hc]%Hnin%list_elem_of_filter]%elem_of_app; (split; [done|]).
      * exists t'. split; [|done]. apply elem_of_app. by left.
      * exists t. split; [|done]. apply elem_of_app. right. by left.
    + destruct b; [|done]. unfold within in *. cbn in *. lia.
    + destruct s; [|done]. unfold within in *. cbn in *. lia.
Qed.

(** * The lists around the selection *)

Lemma by_address_get rows : NoDup (key <$> rows) →
  ∀ k r, dget (dict_of ((λ r, (key r, r)) <$> rows)) k = Some r ↔ r ∈ rows ∧ key r = k.
Proof.
  intros Hn k r. assert (NoDup (((λ r, (key r, r)) <$> rows).*1)) as Hk by by rewrite <- list_fmap_compose.
  rewrite dict_of_nodup by done. rewrite dget_elem by done. rewrite list_elem_of_fmap. split.
  - by intros (x & [= -> ->] & Hx).
  - intros [Hr <-]. by exists r.
Qed.

Lemma by_address_mem rows k : NoDup (key <$> rows) →
  dmem (dict_of ((λ r, (key r, r)) <$> rows)) k = true ↔ k ∈ key <$> rows.
Proof.
  intros Hn. rewrite dmem_true, elem_of_dkeys_dict_of, <- list_fmap_compose. done.
Qed.

(** [paid] holds rows of the list under their own keys. *)
Definition paid_of (rows : list Row) (paid : dict str Row) : Prop :=
  NoDup (dkeys paid) ∧ ∀ k r, dget paid k = Some r → r ∈ rows ∧ key r = k.

Lemma paid_step_of rows paid row paid' :
  NoDup (key <$> rows) → paid_of rows paid →
  paid_step (dict_of ((λ r, (key r, r)) <$> rows)) paid row = Ok paid' → paid_of rows paid'.
Proof.
  intros Hn [Hd Hp] H. unfold paid_step in H. destruct (dget (dict_of _) (key row)) as [listed|] eqn:E; [|done].
  inv_ok. subst. apply by_address_get in E as [Hl Hk]; [|done]. split; [by apply NoDup_dset|].
  intros k r. rewrite dget_dset. destruct (decide (k = key row)) as [-> |]; [|apply Hp]. by intros [= <-].
Qed.

Lemma read_paid_of rows files paid srcs :
  NoDup (key <$> rows) → read_paid (dict_of ((λ r, (key r, r)) <$> rows)) files = Ok (paid, srcs) → paid_of rows paid.
Proof.
  intros Hn H. unfold read_paid in H.
  apply (foldM_inv (λ _ st, paid_of rows (st : dict str Row * list source_info).1)) in H; [done| |].
  - split; [apply NoDup_nil_2|done].
  - intros _ f st st' Hst Hs. inv_ok. subst st'.
    match goal with H : foldM _ _ _ = Ok _ |- _ => apply (foldM_inv (λ _ p, paid_of rows p)) in H; [done|done|] end.
    intros _ x p p' Hp Hx. by eapply paid_step_of.
Qed.

(** [held] holds keys of listed, unpaid rows. *)
Definition held_of (rows : list Row) (paid : dict str Row) (held : dict str str) : Prop :=
  ∀ k, k ∈ dkeys held → k ∈ key <$> rows ∧ k ∉ dkeys paid.

Lemma read_holds_of rows paid files held missing :
  NoDup (key <$> rows) → read_holds (dict_of ((λ r, (key r, r)) <$> rows)) paid files = Ok (held, missing) →
  held_of rows paid held.
Proof.
  intros Hn H. unfold read_holds in H.
  apply (foldM_inv (λ _ st, held_of rows paid (st : dict str str * list str).1)) in H; [done| |].
  { intros k Hk. by apply not_elem_of_nil in Hk. }
  intros _ f st st' Hst Hs. inv_ok. subst st'. match goal with |- held_of _ _ (foldl _ _ ?l).1 => generalize l end.
  intros l. revert st Hst. induction l as [|x l IH]; intros [held0 miss] Hst; [done|]. cbn [foldl]. apply IH. unfold hold_step.
  destruct (dmem (dict_of _) _) eqn:E1; cbn [negb]; [|done]. destruct (dmem paid _) eqn:E2; cbn [negb fst]; [done|].
  intros k [-> |Hk]%elem_of_dkeys_dset; [|by apply Hst]. apply by_address_mem in E1; [|done]. by apply dmem_false in E2.
Qed.

Lemma unique_spec l seen unique :
  seen = lower <$> unique → NoDup seen →
  let '(seen', unique') := foldl unique_step (seen, unique) l in
  seen' = lower <$> unique' ∧ NoDup seen' ∧ (∀ a, a ∈ unique' → a ∈ unique ++ l) ∧
  (∀ a, a ∈ unique ++ l → lower a ∈ seen') ∧ ∃ new, unique' = unique ++ new.
Proof.
  revert seen unique. induction l as [|a l IH]; intros seen unique Hs Hn; cbn [foldl].
  - rewrite app_nil_r. split_and!; try done; [|by exists []; rewrite app_nil_r].
    intros a Ha. rewrite Hs. by apply list_elem_of_fmap_2.
  - unfold unique_step at 2. destruct (bool_decide_reflect (lower a ∈ seen)) as [Hin|Hnin].
    + specialize (IH seen unique Hs Hn). destruct (foldl _ _ l) as [s' u']. destruct IH as (H1 & H2 & H3 & H4 & (new & H5)).
      split_and!; try done; [| |by exists new].
      * intros x Hx%H3. rewrite elem_of_app in *. rewrite elem_of_cons. tauto.
      * intros x. rewrite elem_of_app, elem_of_cons. intros [Hx|[-> |Hx]]; [apply H4; rewrite elem_of_app; by left| |apply H4; rewrite elem_of_app; by right].
        rewrite Hs in Hin. apply list_elem_of_fmap in Hin as (y & -> & Hy). apply H4. rewrite elem_of_app. by left.
    + specialize (IH (seen ++ [lower a]) (unique ++ [a])). destruct (foldl _ _ l) as [s' u'].
      destruct IH as (H1 & H2 & H3 & H4 & (new & H5)).
      * rewrite Hs, fmap_app. done.
      * apply NoDup_app. split_and!; [done| |apply NoDup_singleton]. by intros x Hx ->%list_elem_of_singleton.
      * rewrite <- app_assoc in H3, H4, H5. split_and!; try done. by exists (a :: new).
Qed.

Lemma resolve_includes_nodup values includes :
  resolve_includes values = Ok includes → NoDup (lower <$> includes).
Proof.
  unfold resolve_includes. intros H. inv_ok. subst. match goal with |- context [foldl _ _ ?l] => pose proof (unique_spec l [] []) as Hu end.
  destruct (foldl _ _ _) as [seen unique]. destruct Hu as (-> & Hn & _); [done|apply NoDup_nil_2|done].
Qed.

Lemma strategy_order_perm strategy l : strategy_order strategy l ≡ₚ l.
Proof. unfold strategy_order. repeat case_bool_decide; [apply sort_pair_perm|apply sort_pair_perm|done]. Qed.

(** What a successful selection is made of. *)
Record selecting (o : options) (s : selection) (picks : list Row) : Prop := {
  se_rows : NoDup (key <$> sel_rows s);
  se_good : Forall good_row (sel_rows s);
  se_paid : paid_of (sel_rows s) (sel_paid s);
  se_held : held_of (sel_rows s) (sel_paid s) (sel_held s);
  se_forced_nodup : NoDup (key <$> sel_forced s);
  se_forced : ∀ r, r ∈ sel_forced s → r ∈ sel_rows s ∧ (key r ∉ dkeys (sel_paid s)) ∧ key r ∉ dkeys (sel_held s);
  se_includes : ∃ includes, resolve_includes (o_include o) = Ok includes ∧ key <$> sel_forced s = lower <$> includes;
  se_candidates : sel_candidates s
    = strategy_order (o_strategy o) (open_rows (sel_rows s) (sel_paid s) (sel_held s) (sel_forced s));
  se_chosen : sel_chosen s = sort_str key picks;
  se_picks_nodup : NoDup picks;
  se_picks : ∀ r, r ∈ picks → r ∈ sel_candidates s;
  se_budget : within (sel_budget s) (zsum_with amount (sel_forced s) + zsum_with amount picks);
  se_max : within (o_max_recipients o) (zlen (sel_forced s) + zlen picks);
  se_fill : o_strategy o ≠ "random"%string → picks = fill (o_strategy o) (sel_budget s) (o_max_recipients o)
              (zlen (sel_forced s)) (zsum_with amount (sel_forced s)) [] (sel_candidates s);
  se_forced_budget : within (sel_budget s) (zsum_with amount (sel_forced s));
  se_selected : sel_selected s = sel_forced s ++ sel_chosen s;
  se_remaining : sel_remaining s = sort_str key
    (filter (λ r, dmem (sel_paid s) (key r) = false ∧ key r ∉ key <$> sel_selected s) (sel_rows s));
}.

Lemma forced_inv rows includes forced :
  NoDup (key <$> rows) →
  mapM (λ a, of_option (dget (dict_of ((λ r, (key r, r)) <$> rows)) (lower a)) (KeyError (lower a))) includes = Ok forced →
  key <$> forced = lower <$> includes ∧ ∀ r, r ∈ forced → r ∈ rows.
Proof.
  intros Hn H%mapM_Ok_Forall2. induction H as [|a r includes forced Ha _ [IH1 IH2]]; [split; [done|by intros r ?%not_elem_of_nil]|].
  inv_ok. subst. match goal with H : dget _ _ = Some _ |- _ => apply by_address_get in H as [Hr Hk]; [|done] end.
  split; [cbn [fmap list_fmap]; by rewrite Hk, IH1|]. intros x [-> |Hx]%elem_of_cons; [done|by apply IH2].
Qed.

Lemma check_includes_inv rows paid held includes us :
  mapM (check_include (dict_of ((λ r, (key r, r)) <$> rows)) paid held) includes = Ok us →
  Forall (λ a, (lower a ∉ dkeys paid) ∧ lower a ∉ dkeys held) includes.
Proof.
  intros H%mapM_Ok_Forall2. induction H as [|a u includes us Ha _ IH]; [constructor|]. constructor; [|done].
  unfold check_include in Ha. inv_ok. repeat match goal with H : dmem _ _ = false |- _ => apply dmem_false in H end. done.
Qed.

Lemma NoDup_key_NoDup (rows : list Row) : NoDup (key <$> rows) → NoDup rows.
Proof. apply NoDup_fmap_1. Qed.

Lemma within_of limit n e u :
  raise_if (match limit with Some b => b <? n | None => false end) e = Ok u → within limit n.
Proof. intros H. inv_ok. destruct limit; [|done]. zbool. done. Qed.

Lemma select_body_inv o s : select_body o = Ok s → ∃ picks, selecting o s picks.
Proof.
  unfold select_body. intros H.
  apply bind_Ok_inv in H as ([rows0 info] & Hread & H). apply bind_Ok_inv in H as (rows & Hcons & H).
  apply bind_Ok_inv in H as ([paid srcs] & Hpaid & H). apply bind_Ok_inv in H as ([held missing] & Hheld & H).
  apply bind_Ok_inv in H as (includes & Hinc & H). apply bind_Ok_inv in H as (us & Hchk & H).
  apply bind_Ok_inv in H as (budget & Hbudget & H). apply bind_Ok_inv in H as (u1 & Hmax1 & H).
  apply bind_Ok_inv in H as (random & Hrandom & H). apply bind_Ok_inv in H as (forced & Hforced & H).
  apply bind_Ok_inv in H as (u2 & Hb%within_of & H). apply bind_Ok_inv in H as (u3 & Hm%within_of & H).
  apply bind_Ok_inv in H as ([picks draws] & Hpicks & H). apply bind_Ok_inv in H as (u4 & _ & H). injection H as <-.
  destruct (consolidate_good _ _ _ _ Hcons (read_rows_good _ _ _ _ _ _ _ _ Hread)) as [Hn Hg].
  pose proof (read_paid_of _ _ _ _ Hn Hpaid) as Hp. pose proof (read_holds_of _ _ _ _ _ Hn Hheld) as Hh.
  apply check_includes_inv in Hchk. destruct (forced_inv _ _ _ Hn Hforced) as [Hfk Hfr].
  assert (NoDup (strategy_order (o_strategy o) (open_rows rows paid held forced))) as Hcn.
  { rewrite strategy_order_perm. by apply NoDup_filter, NoDup_key_NoDup. }
  assert (NoDup picks ∧ (∀ r, r ∈ picks → r ∈ strategy_order (o_strategy o) (open_rows rows paid held forced)) ∧
          within budget (zsum_with amount forced + zsum_with amount picks) ∧
          within (o_max_recipients o) (zlen forced + zlen picks) ∧
          (o_strategy o ≠ "random"%string → picks = fill (o_strategy o) budget (o_max_recipients o) (zlen forced)
             (zsum_with amount forced) [] (strategy_order (o_strategy o) (open_rows rows paid held forced)))) as (Hp1 & Hp2 & Hp3 & Hp4 & Hp5).
  { unfold random_of in Hrandom. destruct random as [rnd|].
    - apply random_select_inv in Hpicks as (H1 & H2 & H3 & H4); [| | |done].
      + split_and!; [done|done|destruct budget; [unfold within in *; cbn in *; lia|done]
          |destruct (o_max_recipients o); [unfold within in *; cbn in *; lia|done]|].
        intros Hne. rewrite bool_decide_eq_false_2 in Hrandom by done. inv_ok.
      + destruct budget; [|done]. unfold within in *. cbn. lia.
      + destruct (o_max_recipients o); [|done]. unfold within in *. cbn. lia.
    - injection Hpicks as <- <-.
      destruct (fill_spec (o_strategy o) budget (o_max_recipients o) (zlen forced) (zsum_with amount forced) []
        (strategy_order (o_strategy o) (open_rows rows paid held forced))) as (new & E & Hsub & H1 & H2);
        [done|unfold zlen at 2; cbn; by rewrite Z.add_0_r|].
      rewrite E. cbn [app] in *. unfold zlen at 2 in H2. cbn [length] in H2. rewrite Z.add_0_r in H2.
      split_and!; try done; [exact (sublist_NoDup _ _ Hcn Hsub)|intros r Hr; exact (elem_of_sublist _ _ _ Hr Hsub)]. }
  exists picks. split; cbn; try done.
  - rewrite Hfk. by eapply resolve_includes_nodup.
  - intros r Hr. split; [by apply Hfr|]. assert (key r ∈ lower <$> includes) as Hk by (rewrite <- Hfk; by apply list_elem_of_fmap_2).
    apply list_elem_of_fmap in Hk as (a & -> & Ha). rewrite Forall_forall in Hchk. by apply Hchk.
  - by exists includes.
Qed.

Lemma selecting_open o s picks r :
  selecting o s picks → r ∈ sel_candidates s →
  r ∈ sel_rows s ∧ (key r ∉ dkeys (sel_paid s)) ∧ (key r ∉ dkeys (sel_held s)) ∧ key r ∉ key <$> sel_forced s.
Proof.
  intros Hs Hr. rewrite (se_candidates _ _ _ Hs), strategy_order_perm in Hr. unfold open_rows in Hr.
  apply list_elem_of_filter in Hr as [(H1%dmem_false & H2%dmem_false & H3) Hr]. done.
Qed.

Lemma key_inj_on rows a b : NoDup (key <$> rows) → a ∈ rows → b ∈ rows → key a = key b → a = b.
Proof.
  intros Hn (i & Hi)%list_elem_of_lookup_1 (j & Hj)%list_elem_of_lookup_1 E.
  assert (i = j) as ->; [|congruence].
  eapply (NoDup_lookup (key <$> rows)); [done|by rewrite list_lookup_fmap, Hi|by rewrite list_lookup_fmap, Hj, E].
Qed.

Lemma selecting_selected o s picks :
  selecting o s picks → NoDup (key <$> sel_selected s) ∧
  ∀ r, r ∈ sel_selected s → r ∈ sel_rows s ∧ (key r ∉ dkeys (sel_paid s)) ∧ key r ∉ dkeys (sel_held s).
Proof.
  intros Hs. rewrite (se_selected _ _ _ Hs), (se_chosen _ _ _ Hs), fmap_app.
  assert (∀ r, r ∈ sort_str key picks → r ∈ picks) as Hsp by (intros r; by rewrite sort_str_perm).
  split.
  - apply NoDup_app. split_and!; [apply Hs| |].
    + intros k Hk (r & -> & Hr)%list_elem_of_fmap. apply Hsp, (se_picks _ _ _ Hs) in Hr.
      by apply (selecting_open _ _ _ _ Hs) in Hr as (_ & _ & _ & ?).
    + rewrite sort_str_perm. apply NoDup_fmap_2_strong; [|apply Hs]. intros x y Hx Hy E.
      apply (se_picks _ _ _ Hs), (selecting_open _ _ _ _ Hs) in Hx as [Hx _].
      apply (se_picks _ _ _ Hs), (selecting_open _ _ _ _ Hs) in Hy as [Hy _].
      eapply key_inj_on; [apply (se_rows _ _ _ Hs)|done..].
  - intros r [Hr|Hr%Hsp]%elem_of_app; [by apply (se_forced _ _ _ Hs)|].
    apply (se_picks _ _ _ Hs), (selecting_open _ _ _ _ Hs) in Hr as (? & ? & ? & _). done.
Qed.

(** a selection loses nobody: the selected, the remaining and the already
    paid recipients together are the input list, every recipient with its
    full amount in exactly one of the three. *)
Theorem select_partition o s :
  select_body o = Ok s →
  sel_selected s ++ sel_remaining s ++ dvalues (sel_paid s) ≡ₚ sel_rows s ∧
  zsum_with amount (sel_selected s) + zsum_with amount (sel_remaining s) + zsum_with amount (dvalues (sel_paid s))
  = zsum_with amount (sel_rows s).
Proof.
  intros (picks & Hs)%select_body_inv. destruct (selecting_selected _ _ _ Hs) as [Hsn Hsel].
  destruct (se_paid _ _ _ Hs) as [Hpn Hp]. pose proof (se_rows _ _ _ Hs) as Hn.
  assert (∀ r, r ∈ dvalues (sel_paid s) ↔ r ∈ sel_rows s ∧ key r ∈ dkeys (sel_paid s)) as Hpv.
  { intros r. unfold dvalues. rewrite list_elem_of_fmap. split.
    - intros ([k x] & -> & Hx). cbn [snd]. apply dget_elem in Hx; [|done]. destruct (Hp _ _ Hx) as [? <-].
      split; [done|by eapply dget_Some_key].
    - intros [Hr (x & Hx)%dget_key]. destruct (Hp _ _ Hx) as [Hx1 Hx2]. exists (key r, x).
      rewrite (key_inj_on _ _ _ Hn Hr Hx1) by done. split; [done|]. cbn. apply dget_Some_elem.
      by rewrite (key_inj_on _ _ _ Hn Hx1 Hr) at 1 by done. }
  assert (∀ r, r ∈ sel_remaining s ↔ r ∈ sel_rows s ∧ (key r ∉ dkeys (sel_paid s)) ∧ key r ∉ key <$> sel_selected s) as Hrem.
  { intros r. rewrite (se_remaining _ _ _ Hs), sort_str_perm, list_elem_of_filter, dmem_false. tauto. }
  assert (sel_selected s ++ sel_remaining s ++ dvalues (sel_paid s) ≡ₚ sel_rows s) as Hperm.
  { apply NoDup_Permutation.
    - rewrite !NoDup_app. split_and!.
      + by apply NoDup_key_NoDup.
      + intros r Hr. rewrite elem_of_app, Hrem, Hpv. destruct (Hsel r Hr) as (_ & Hnp & _).
        intros [(_ & _ & Hns)|[_ ?]]; [|done]. apply Hns. by apply list_elem_of_fmap_2.
      + rewrite (se_remaining _ _ _ Hs), sort_str_perm. by apply NoDup_filter, NoDup_key_NoDup.
      + intros r Hr. rewrite Hpv. apply Hrem in Hr as (_ & ? & _). by intros [_ ?].
      + apply NoDup_key_NoDup. rewrite own_keys; [done|]. apply Forall_forall. intros [k x] Hx. apply dget_elem in Hx; [|done].
        by apply Hp in Hx as [_ ?].
    - by apply NoDup_key_NoDup.
    - intros r. rewrite !elem_of_app, Hrem, Hpv. split.
      + intros [Hr|[[? _]|[? _]]]; [by apply Hsel|done|done].
      + intros Hr. destruct (decide (key r ∈ dkeys (sel_paid s))) as [|Hnp]; [by right; right|].
        destruct (decide (key r ∈ key <$> sel_selected s)) as [Hk|Hk]; [|by right; left].
        left. apply list_elem_of_fmap in Hk as (x & Ex & Hx). rewrite (key_inj_on _ r x Hn) by (done || by apply Hsel). done. }
  split; [done|]. rewrite <- Hperm, !zsum_with_app. lia.
Qed.


(** with [smallest-first] no other choice of open recipients that fits what
    the budget and --max-recipients leave pays more of them. *)
Theorem smallest_first_pays_most o s l :
  select_body o = Ok s → o_strategy o = "smallest-first"%string →
  l ⊆+ open_rows (sel_rows s) (sel_paid s) (sel_held s) (sel_forced s) →
  within (sel_budget s) (zsum_with amount (sel_forced s) + zsum_with amount l) →
  within (o_max_recipients o) (zlen (sel_forced s) + zlen l) →
  zlen l ≤ zlen (sel_chosen s).
Proof.
  intros (picks & Hs)%select_body_inv Hst Hl Hb Hm. rewrite (se_chosen _ _ _ Hs). unfold zlen at 2. rewrite sort_str_perm.
  rewrite (se_fill _ _ _ Hs) by by rewrite Hst. rewrite Hst in *. pose proof (se_candidates _ _ _ Hs) as Hc. rewrite Hst in Hc.
  apply fill_smallest_most; try done; [| |apply Hs|by rewrite Hc, strategy_order_perm].
  - rewrite Hc, strategy_order_perm. unfold open_rows. apply Forall_forall. intros r [_ Hr]%list_elem_of_filter.
    pose proof (se_good _ _ _ Hs) as Hg. rewrite Forall_forall in Hg. by apply Hg.
  - rewrite Hc. unfold strategy_order. rewrite bool_decide_eq_true_2 by done.
    pose proof (sort_pair_sorted (λ r, (amount r, key r)) (open_rows (sel_rows s) (sel_paid s) (sel_held s) (sel_forced s))) as Hsort.
    induction Hsort as [|x l' _ IH Hx]; [constructor|]. cbn [fmap list_fmap]. constructor; [done|].
    apply Forall_fmap. eapply Forall_impl; [exact Hx|]. intros y Hy. unfold pair_leb in Hy. cbn in Hy. unfold compose.
    apply orb_true_elim in Hy as [Hy|Hy]; lia.
Qed.

Definition sample_list : str :=
  csv_write [["address"%string : str; "amount_one"%string : str];
             ["0x0000000000000000000000000000000000000011"%string : str; "5"%string : str];
             ["0x0000000000000000000000000000000000000022"%string : str; "3"%string : str];
             ["0x0000000000000000000000000000000000000033"%string : str; "1"%string : str];
             ["0x0000000000000000000000000000000000000044"%string : str; "2"%string : str];
             ["0x0000000000000000000000000000000000000055"%string : str; "1"%string : str]].

Definition sample_paid : str :=
  csv_write [["address"%string : str; "amount_one"%string : str];
             ["0x0000000000000000000000000000000000000055"%string : str; "1"%string : str]].

(** Budget 6: the first recipient is required, the third fits, the fourth is
    held and the fifth is paid. *)
Definition sample_options (strategy : str) (seed : option str) : options :=
  MkOptions "list.csv"%string (FileAt sample_list) None None None (Some ("6"%string : str)) (Some 3)
    [("0x0000000000000000000000000000000000000011"%string : str, Missing)]
    [("hold.txt"%string : str, FileAt ("0x0000000000000000000000000000000000000044 # later"%string))]
    [("paid.csv"%string : str, FileAt sample_paid)] strategy seed
    "10000000"%string None "100000"%string 1 5 None "inverse"%string false false.

Definition no_selection : selection := MkSelection [] (MkInfo [] [] [] []) None [] [] [] [] [] [] [] [] [] None.
Definition sample_selection : selection :=
  Eval vm_compute in from_ok no_selection (select_body (sample_options "smallest-first"%string None)).

Lemma select_partition_witness :
  sel_selected sample_selection ++ sel_remaining sample_selection ++ dvalues (sel_paid sample_selection) ≡ₚ sel_rows sample_selection ∧
  zsum_with amount (sel_selected sample_selection) + zsum_with amount (sel_remaining sample_selection)
    + zsum_with amount (dvalues (sel_paid sample_selection)) = zsum_with amount (sel_rows sample_selection).
Proof. apply (select_partition (sample_options "smallest-first"%string None)). vm_compute. reflexivity. Defined.


Lemma smallest_first_pays_most_witness :
  zlen (drop 1 (open_rows (sel_rows sample_selection) (sel_paid sample_selection) (sel_held sample_selection) (sel_forced sample_selection)))
  ≤ zlen (sel_chosen sample_selection).
Proof.
  apply (smallest_first_pays_most (sample_options "smallest-first"%string None)).
  - vm_compute. reflexivity.
  - reflexivity.
  - apply submseteq_drop.
  - vm_compute. discriminate.
  - vm_compute. discriminate.
Defined.
