(* ===== verification/Eligibility.v ===== *)
(** The threshold: toolkit/scripts/claims/filter-claims-by-one.py and
    apply-eligibility-policy.py.

    Inputs are the texts of the CSV files; outputs are the rows written and the
    figures of the summary.  Shown here: the filter keeps exactly the rows at
    or above the threshold and reports their totals; the policy puts every row
    above the threshold into one of three categories, by the rules it states,
    and the categories' totals are the sums of their rows. *)

From S2P Require Import Prelude PyStr PyDict Csv Sha256 Keccak Abi Bech32.
Local Open Scope Z_scope.

(** * Shared *)

Definition ATTO : Z := 10 ^ 18.

(** Exact ONE to atto from decimal text. *)
Definition parse_one (value : str) : result Z :=
  let text := strip value in
  let '(whole, dot, fraction) := partition "."%char text in
  if negb (isdigit whole) || (dot && negb (isdigit fraction)) || (18 <? zlen fraction)
  then Raise (ArgumentTypeError "invalid exact ONE value") else
  w ← py_int whole;
  f ← py_int (ljust 18 "0"%char fraction);
  Ok (w * ATTO + f).

Definition file_sha256 (content : str) : str := hex (sha256 (ords content)).

Inductive comparison := ge | gt.
(** [value >= minimum if comparison == "ge" else value > minimum]. *)
Definition reaches (c : comparison) (minimum value : Z) : bool :=
  match c with ge => minimum <=? value | gt => minimum <? value end.

(** * The code: filter-claims-by-one.py *)

Module FilterClaims.

(** One exchange of the normalization summary, with the file it names. *)
Record exchange := MkExchange {
  delivery_policy : str; output_text : str; output_sha256 : str; normalized_rows : Z }.

Definition valid_address (address : str) : bool :=
  (length address =? 42)%nat && startswith address "0x"%string &&
  forallb (λ c, bool_decide (c ∈ ("0123456789abcdef"%string : str))) (drop 2 address).

Definition exchange_row (exchange_id : str) (addresses : gset str) (r : row) : result (gset str) :=
  id ← cell r "exchange_id"%string;
  _ ← raise_if (negb (bool_decide (id = exchange_id))) (ValueError "exchange id mismatch");
  a ← cell r "address_hex"%string;
  let address := lower (strip a) in
  _ ← raise_if (negb (valid_address address)) (ValueError "invalid address");
  _ ← raise_if (bool_decide (address ∈ addresses)) (ValueError "duplicate exchange address");
  Ok ({[address]} ∪ addresses).

Definition exchange_step (addresses : gset str) (e : str * exchange) : result (gset str) :=
  let '(exchange_id, ex) := e in
  if negb (bool_decide (delivery_policy ex = "manual_from_reserve"%string)) then Ok addresses else
  _ ← raise_if (negb (bool_decide (file_sha256 (output_text ex) = output_sha256 ex)))
        (ValueError "normalized exchange source hash mismatch");
  let '(fieldnames, rows) := dict_read (output_text ex) in
  _ ← raise_if (negb (has_fields ["exchange_id"%string : str; "address_hex"%string : str] fieldnames))
        (ValueError "missing normalized exchange fields");
  addresses ← foldM (exchange_row exchange_id) addresses rows;
  _ ← raise_if (negb (zlen rows =? normalized_rows ex)) (ValueError "normalized exchange row count mismatch");
  Ok addresses.

(** The summary is its schema version and its exchanges. *)
Definition load_aggregate_delivery_addresses (summary : option (Z * dict str exchange)) : result (gset str) :=
  match summary with
  | None => Ok ∅
  | Some (schema_version, exchanges) =>
      _ ← raise_if (negb (schema_version =? 2)) (ValueError "unsupported exchange normalization summary");
      foldM exchange_step ∅ (sort_str fst exchanges)
  end.

Definition required : list str :=
  ["total_claim_atto"%string : str; "wallet_airdrop_atto"%string : str; "staked_to_vault_atto"%string : str].
Definition wone_fields : list str :=
  ["native_total_claim_atto"%string : str; "wone_balance_atto"%string : str; "wone_airdrop_atto"%string : str;
   "qualification_total_atto"%string : str].

Record state := MkState {
  previous_key : option str; input_rows : Z; output : list row; exact_threshold_rows : Z;
  total_claim : Z; wallet_airdrop : Z; staked_to_vault : Z; wone_airdrop : Z }.
Definition init : state := MkState None 0 [] 0 0 0 0 0.

(** The amounts of a row: what it qualifies with and the WONE paid on top. *)
Definition row_values (have_wone : bool) (minimum_one : Z) (aggregate_delivery : gset str) (r : row) (value : Z) : result (Z * Z) :=
  if negb have_wone then Ok (value, 0) else
  native_value ← int_cell r "native_total_claim_atto"%string;
  wone_balance ← int_cell r "wone_balance_atto"%string;
  wone_value ← int_cell r "wone_airdrop_atto"%string;
  qualification_value ← int_cell r "qualification_total_atto"%string;
  _ ← raise_if (Z.min (Z.min native_value wone_balance) wone_value <? 0) (ValueError "negative WONE overlay value");
  _ ← raise_if (negb (qualification_value =? native_value + wone_balance)) (ValueError "qualification total mismatch");
  let address := lower (strip (cell_or r "address"%string [])) in
  let expected_wone := if (minimum_one <=? qualification_value) || bool_decide (address ∈ aggregate_delivery)
                       then wone_balance else 0 in
  _ ← raise_if (negb (wone_value =? expected_wone) || negb (value =? native_value + wone_value))
        (ValueError "WONE airdrop mismatch");
  Ok (qualification_value, wone_value).

Definition step (have_wone : bool) (minimum_one : Z) (c : comparison) (aggregate_delivery : gset str) (s : state) (r : row)
  : result state :=
  key ← cell r "secure_key"%string;
  let key := lower key in
  _ ← raise_if (not_increasing (previous_key s) key) (ValueError "secure keys are not increasing");
  value ← int_cell r "total_claim_atto"%string;
  _ ← raise_if (value <? 0) (ValueError "negative total claim");
  wallet_value ← int_cell r "wallet_airdrop_atto"%string;
  vault_value ← int_cell r "staked_to_vault_atto"%string;
  _ ← raise_if ((wallet_value <? 0) || (vault_value <? 0) || negb (wallet_value + vault_value =? value))
        (ValueError "allocation component mismatch");
  '(qualification_value, wone_value) ← row_values have_wone minimum_one aggregate_delivery r value;
  let input_rows := input_rows s + 1 in
  let exact := exact_threshold_rows s + (if qualification_value =? minimum_one then 1 else 0) in
  if reaches c minimum_one qualification_value
  then Ok (MkState (Some key) input_rows (output s ++ [r]) exact (total_claim s + value) (wallet_airdrop s + wallet_value)
             (staked_to_vault s + vault_value) (wone_airdrop s + wone_value))
  else Ok (MkState (Some key) input_rows (output s) exact (total_claim s) (wallet_airdrop s) (staked_to_vault s) (wone_airdrop s)).

(** [bool(wone_fields & set(reader.fieldnames))]. *)
Definition have_wone_of (fieldnames : list str) : bool := existsb (λ f, bool_decide (f ∈ fieldnames)) wone_fields.

Definition main (exists_ : bool) (input : str) (aggregate_summary : option (Z * dict str exchange)) (minimum_one : Z)
    (c : comparison) : result state :=
  _ ← raise_if exists_ FileExistsError;
  aggregate_delivery ← load_aggregate_delivery_addresses aggregate_summary;
  let '(fieldnames, rows) := dict_read input in
  _ ← raise_if (negb (has_fields ["secure_key"%string : str] fieldnames)) (ValueError "input is missing secure_key");
  _ ← raise_if (negb (has_fields required fieldnames)) (ValueError "input is missing fields");
  let have_wone := have_wone_of (default [] fieldnames) in
  _ ← raise_if (have_wone && negb (has_fields wone_fields fieldnames)) (ValueError "input has an incomplete WONE overlay");
  foldM (step have_wone minimum_one c aggregate_delivery) init rows.

End FilterClaims.

(** * The code: apply-eligibility-policy.py *)

Module Policy.

Definition EMPTY_CODE_HASH : str := "0xc5d2460186f7233c927e7db2dcc703c0e500b653ca82273b7bfad8045d85a470"%string.
Definition COMPONENTS : list str :=
  ["liquid_shard0"%string : str; "liquid_shard1"%string : str; "liquid_total"%string : str;
   "active_staked_or_delegated"%string : str; "pending_undelegation"%string : str;
   "unclaimed_staking_reward"%string : str; "pending_cross_shard"%string : str; "native_wallet_airdrop"%string : str;
   "wone_balance"%string : str; "wone_airdrop"%string : str; "wallet_airdrop"%string : str; "staked_to_vault"%string : str;
   "qualification_total"%string : str; "native_total_claim"%string : str; "total_claim"%string : str].
Definition OPTIONAL_COMPONENTS : list str :=
  ["native_wallet_airdrop"%string : str; "wone_balance"%string : str; "wone_airdrop"%string : str;
   "qualification_total"%string : str; "native_total_claim"%string : str].
Definition column (component : str) : str := component ++ "_atto"%string.

(** A file of addresses, refused when an address is listed in it twice. *)
Definition source_step (parse : row → result str) (source_addresses : gset str) (r : row) : result (gset str) :=
  address ← parse r;
  _ ← raise_if (bool_decide (address ∈ source_addresses)) (ValueError "duplicate address");
  Ok ({[address]} ∪ source_addresses).

Definition read_source (parse : row → result str) (text : str) : result (gset str) :=
  let '(fieldnames, rows) := dict_read text in
  _ ← raise_if (negb (has_fields ["address"%string : str] fieldnames)) (ValueError "missing address column");
  foldM (source_step parse) ∅ rows.

Definition code_address (r : row) : result str :=
  a ← cell r "address"%string;
  let address := lower a in
  if negb (length address =? 42)%nat || negb (startswith address "0x"%string)
  then Raise (ValueError "invalid address") else Ok address.

Definition load_automatic_code_addresses (texts : list str) : result (gset str) :=
  foldM (λ addresses text, source ← read_source code_address text; Ok (addresses ∪ source)) ∅ texts.

Definition normalize_address (value : str) : result str :=
  address ← of_option (any_to_hex (Some (strip value))) (ValueError "invalid address");
  raw ← of_option (fromhex (drop 2 address)) (ValueError "invalid address");
  if negb (length raw =? 20)%nat then Raise (ValueError "invalid address") else Ok address.

Definition excluded_step (addresses : gset str) (text : str) : result (gset str) :=
  source ← read_source (λ r, a ← cell r "address"%string; normalize_address a) text;
  _ ← raise_if (negb (bool_decide (addresses ∩ source = ∅))) (ValueError "duplicate exclusions across inputs");
  Ok (addresses ∪ source).

Definition load_excluded_addresses (values texts : list str) : result (gset str) :=
  given ← mapM normalize_address values;
  foldM excluded_step (list_to_set given) texts.

Definition new_totals : dict str Z := (λ c, (c, 0)) <$> COMPONENTS.

Definition add_component (r : row) (totals : dict str Z) (component : str) : result (dict str Z) :=
  value ← int_cell_or_0 r (column component);
  _ ← raise_if (value <? 0) (ValueError "negative component");
  total ← of_option (dget totals component) (KeyError component);
  Ok (dset totals component (total + value)).

Definition add_totals (totals : dict str Z) (r : row) : result (dict str Z) := foldM (add_component r) totals COMPONENTS.

(** Whether the account has code on a shard; [None] when the row does not say. *)
Definition code_bearing (r : row) : option bool :=
  if bool_decide (strip (cell_or r "code_hash_shard0"%string []) = []) then None else
  let hashes := lower <$> filter (λ v, v ≠ [])
    ((λ field, strip (cell_or r field [])) <$> ["code_hash_shard0"%string : str; "code_hash_shard1"%string : str]) in
  if bool_decide (hashes = []) then None else Some (existsb (λ v, negb (bool_decide (v = EMPTY_CODE_HASH))) hashes).

Inductive label := automatic | contract_review | excluded_address.
#[global] Instance label_eq_dec : EqDecision label.
Proof. solve_decision. Defined.

(** One output file and its figures. *)
Record category := MkCategory { written : list row; rows : Z; components_atto : dict str Z }.
Definition new_category : category := MkCategory [] 0 new_totals.
Definition write_row (c : category) (r : row) : result category :=
  totals ← add_totals (components_atto c) r; Ok (MkCategory (written c ++ [r]) (rows c + 1) totals).

Record state := MkState {
  previous : option str; input_rows : Z; threshold_rows : Z; below_threshold_rows : Z; exact_threshold_rows : Z;
  seen_excluded : gset str; seen_automatic_code : gset str; stats : label → category }.
Definition init : state := MkState None 0 0 0 0 ∅ ∅ (λ _, new_category).
Definition set_stats (st : label → category) (l : label) (c : category) : label → category :=
  λ l', if decide (l' = l) then c else st l'.

(** What the row qualifies with, after the checks on it. *)
Definition row_value (r : row) : result Z :=
  qualification_value ← match r !! ("qualification_total_atto"%string : str) with
                        | Some v => _ ← cell r "total_claim_atto"%string; py_int v
                        | None => int_cell r "total_claim_atto"%string end;
  total_claim ← int_cell r "total_claim_atto"%string;
  wallet ← int_cell r "wallet_airdrop_atto"%string;
  vault ← int_cell r "staked_to_vault_atto"%string;
  _ ← raise_if ((wallet <? 0) || (vault <? 0) || (total_claim <? 0) || negb (wallet + vault =? total_claim))
        (ValueError "allocation component mismatch");
  Ok qualification_value.

(** The category of a row above the threshold. *)
Definition label_of (excluded active_automatic_code : gset str) (address : str) (has_code : bool) : result label :=
  if bool_decide (address ∈ excluded) then Ok excluded_address
  else if bool_decide (address ∈ active_automatic_code) then
    if negb has_code then Raise (ValueError "automatic code-address override has empty code") else Ok automatic
  else if has_code then Ok contract_review else Ok automatic.

Definition step (excluded active_automatic_code : gset str) (minimum_one : Z) (c : comparison) (s : state) (r : row)
  : result state :=
  key ← cell r "secure_key"%string;
  let key := lower key in
  _ ← raise_if (not_increasing (previous s) key) (ValueError "secure keys are not increasing");
  a ← cell r "address"%string;
  _ ← raise_if (bool_decide (a = [])) (ValueError "unresolved address");
  _ ← require_address_secure_key a key;
  has_code ← of_option (code_bearing r) (ValueError "unresolved code metadata");
  qualification_value ← row_value r;
  let input_rows := input_rows s + 1 in
  let exact := exact_threshold_rows s + (if qualification_value =? minimum_one then 1 else 0) in
  if negb (reaches c minimum_one qualification_value)
  then Ok (MkState (Some key) input_rows (threshold_rows s) (below_threshold_rows s + 1) exact
             (seen_excluded s) (seen_automatic_code s) (stats s)) else
  let address := lower a in
  l ← label_of excluded active_automatic_code address has_code;
  cat ← write_row (stats s l) r;
  Ok (MkState (Some key) input_rows (threshold_rows s + 1) (below_threshold_rows s) exact
        (if decide (l = excluded_address) then {[address]} ∪ seen_excluded s else seen_excluded s)
        (if decide (l = automatic) then
           (if bool_decide (address ∈ active_automatic_code) then {[address]} ∪ seen_automatic_code s else seen_automatic_code s)
         else seen_automatic_code s)
        (set_stats (stats s) l cat)).

Definition required : list str :=
  ["secure_key"%string : str; "address"%string : str; "code_hash_shard0"%string : str; "code_hash_shard1"%string : str]
  ++ (column <$> filter (λ c, c ∉ OPTIONAL_COMPONENTS) COMPONENTS).

Record options := MkOptions {
  input : str; exclude_address : list str; exclude_addresses_file : list str; automatic_code_addresses : list str;
  minimum_one : Z; how : comparison }.

Record outcome := MkOutcome { excluded : gset str; automatic_code : gset str; final : state }.

Definition main (exists_ : bool) (args : options) : result outcome :=
  _ ← raise_if exists_ FileExistsError;
  excluded ← load_excluded_addresses (exclude_address args) (exclude_addresses_file args);
  automatic_code ← load_automatic_code_addresses (automatic_code_addresses args);
  let active_automatic_code := automatic_code ∖ excluded in
  let '(fieldnames, rows) := dict_read (input args) in
  _ ← raise_if (negb (has_fields required fieldnames)) (ValueError "input is missing fields");
  s ← foldM (step excluded active_automatic_code (minimum_one args) (how args)) init rows;
  _ ← raise_if (negb (bool_decide (seen_excluded s = excluded)))
        (ValueError "not every requested excluded address was present above threshold");
  _ ← raise_if (negb (bool_decide (seen_automatic_code s = active_automatic_code)))
        (ValueError "not every automatic code-address override was present above threshold");
  Ok (MkOutcome excluded automatic_code s).

End Policy.

(** * The filter *)

Module FilterClaimsFacts.
Import FilterClaims.

(** What a row qualifies with. *)
Definition qualifies_with (have_wone : bool) (r : row) : Z :=
  if have_wone then num r "qualification_total_atto"%string else num r "total_claim_atto"%string.
Definition key_of (r : row) : str := lower (cell_or r "secure_key"%string []).

(** The facts the loop has established after the rows [pre]. *)
Record good (have_wone : bool) (minimum_one : Z) (c : comparison) (pre : list row) (s : state) : Prop := {
  g_keys : increasing (key_of <$> pre);
  g_prev : previous_key s = last (key_of <$> pre);
  g_rows : input_rows s = zlen pre;
  g_out : output s = filter (λ r, reaches c minimum_one (qualifies_with have_wone r) = true) pre;
  g_exact : exact_threshold_rows s = zlen (filter (λ r, qualifies_with have_wone r = minimum_one) pre);
  g_total : total_claim s = zsum_with (λ r, num r "total_claim_atto"%string) (output s);
  g_wallet : wallet_airdrop s = zsum_with (λ r, num r "wallet_airdrop_atto"%string) (output s);
  g_vault : staked_to_vault s = zsum_with (λ r, num r "staked_to_vault_atto"%string) (output s);
  g_wone : wone_airdrop s = if have_wone then zsum_with (λ r, num r "wone_airdrop_atto"%string) (output s) else 0;
  g_full : Forall (λ r, num r "total_claim_atto"%string = qualifies_with have_wone r) (output s);
  g_sums : total_claim s = wallet_airdrop s + staked_to_vault s }.

Definition passes (c : comparison) (m v : Z) : Prop := match c with ge => m ≤ v | gt => m < v end.
#[global] Instance passes_dec c m v : Decision (passes c m v).
Proof. destruct c; unfold passes; apply _. Defined.

Lemma reaches_ge c m v : reaches c m v = true → m ≤ v.
Proof. destruct c; cbn; intros; zbool; lia. Qed.

Lemma row_values_ok have_wone m agg r value q w :
  row_values have_wone m agg r value = Ok (q, w) → num r "total_claim_atto"%string = value →
  qualifies_with have_wone r = q ∧ (m ≤ q → value = q) ∧ (if have_wone then num r "wone_airdrop_atto"%string = w else w = 0).
Proof.
  unfold row_values, qualifies_with. intros H Hv. destruct have_wone; cbn [negb] in H; inv_ok; simplify_eq; [|done].
  cells. zbool. split; [congruence|]. split; [|congruence]. intros Hm.
  assert ((m <=? q) = true) as Hq by by apply Z.leb_le. rewrite Hq in *. cbn [orb] in *. lia.
Qed.

Lemma step_good have_wone m c agg pre r s s' :
  good have_wone m c pre s → step have_wone m c agg s r = Ok s' → good have_wone m c (pre ++ [r]) s'.
Proof.
  intros [] H. unfold step in H. inv_ok. 
  match goal with H : row_values _ _ _ _ _ = Ok _ |- _ => rename H into Hr end. cells. zbool.
  apply row_values_ok in Hr as (Hq & Hfull & Hw); [|done].
  match goal with H : cell r _ = Ok ?k |- _ => apply (cell_cell_or _ _ []) in H; assert (key_of r = lower k) as Hk by by (unfold key_of; rewrite H) end.
  assert (increasing (key_of <$> pre ++ [r]) ∧ Some (lower a) = last (key_of <$> pre ++ [r])) as [Hi Hl].
  { rewrite fmap_app. cbn [fmap list_fmap]. rewrite last_snoc, Hk. split; [|done]. apply increasing_snoc; [done|congruence]. }
  assert (exact_threshold_rows s + (if z =? m then 1 else 0) = zlen (filter (λ r, qualifies_with have_wone r = m) (pre ++ [r]))) as Hex.
  { rewrite filter_snoc, Hq, g_exact0. destruct (Z.eqb_spec z m), (decide (z = m)); try done; [by rewrite zlen_snoc|by rewrite app_nil_r, Z.add_0_r]. }
  assert (filter (λ r, reaches c m (qualifies_with have_wone r) = true) (pre ++ [r])
          = output s ++ (if reaches c m z then [r] else [])) as Ho.
  { rewrite filter_snoc, Hq, g_out0. by destruct (reaches c m z). }
  destruct (reaches c m z) eqn:Er; inv_ok; subst s'.
  - apply reaches_ge in Er. constructor; cbn [previous_key input_rows output exact_threshold_rows total_claim wallet_airdrop
      staked_to_vault wone_airdrop]; rewrite ?zsum_with_snoc, ?zlen_snoc; try done; try lia.
    + destruct have_wone; rewrite ?zsum_with_snoc; lia.
    + apply Forall_app. split; [done|]. repeat constructor. lia.
  - rewrite app_nil_r in Ho. constructor; cbn [previous_key input_rows output exact_threshold_rows total_claim wallet_airdrop
      staked_to_vault wone_airdrop]; rewrite ?zlen_snoc; try done; try lia.
Qed.

Lemma init_good have_wone m c : good have_wone m c [] init.
Proof. constructor; try done; [constructor|by destruct have_wone]. Qed.

(** The overlay columns of the header. *)
Definition overlay (input : str) : bool := have_wone_of (default [] (dict_read input).1).

Lemma main_good exists_ input agg m c s :
  main exists_ input agg m c = Ok s → good (overlay input) m c (dict_read input).2 s.
Proof.
  unfold main, overlay. intros H. inv_ok. cbn [fst snd].
  eapply (foldM_inv (good _ m c)); [apply init_good| |exact H]. intros. by eapply step_good.
Qed.

End FilterClaimsFacts.

(** * The policy *)

Module PolicyFacts.
Import Policy.

Definition address_of (r : row) : str := lower (cell_or r "address"%string []).
(** The account a row is about, however its address is spelled. *)
Definition account_of (r : row) : option str := any_to_hex (Some (cell_or r "address"%string [])).
Definition has_code (r : row) : bool := default false (code_bearing r).
Definition qualification (r : row) : Z :=
  match r !! ("qualification_total_atto"%string : str) with
  | Some v => from_ok 0 (py_int v) | None => num r "total_claim_atto"%string end.

(** The policy: what puts a row above the threshold into a category. *)
Definition policy (excluded automatic_code : gset str) (l : label) (r : row) : Prop :=
  match l with
  | excluded_address => address_of r ∈ excluded
  | automatic => address_of r ∉ excluded ∧ ((has_code r) = false ∨ address_of r ∈ automatic_code)
  | contract_review => address_of r ∉ excluded ∧ (has_code r) = true ∧ address_of r ∉ automatic_code
  end.
#[global] Instance policy_dec ex au l r : Decision (policy ex au l r).
Proof. destruct l; unfold policy; apply _. Defined.

Definition above (c : comparison) (m : Z) (r : row) : Prop := reaches c m (qualification r) = true.
#[global] Instance above_dec c m r : Decision (above c m r).
Proof. unfold above. apply _. Defined.

Lemma policy_unique ex au l l' r : policy ex au l r → policy ex au l' r → l = l'.
Proof. destruct l, l'; cbn; try done; destruct (has_code r); intuition congruence. Qed.

Lemma policy_total ex au r : ∃ l, policy ex au l r.
Proof.
  destruct (decide (address_of r ∈ ex)); [by exists excluded_address|]. destruct (has_code r) eqn:Ec.
  - destruct (decide (address_of r ∈ au)); [exists automatic; cbn; auto|exists contract_review; cbn; auto].
  - exists automatic. cbn. auto.
Qed.

Lemma label_of_policy ex au r l :
  label_of ex (au ∖ ex) (address_of r) (has_code r) = Ok l →
  policy ex au l r ∧ (address_of r ∈ au ∖ ex → l = automatic ∧ has_code r = true).
Proof.
  unfold label_of. intros H. repeat case_bool_decide; destruct (has_code r) eqn:Ec; cbn in H; inv_ok; subst l; cbn; set_solver.
Qed.

(** Adding a row's components. *)
Lemma add_components r cs t t' :
  NoDup cs → foldM (add_component r) t cs = Ok t' →
  ∀ c x, dget t c = Some x → dget t' c = Some (if decide (c ∈ cs) then x + num0 r (column c) else x).
Proof.
  intros Hnd. revert t. induction Hnd as [|c0 cs Hc0 _ IH]; intros t H c x Hx; cbn [foldM] in H.
  - inv_ok. subst. by rewrite decide_False by set_solver.
  - inv_ok. unfold add_component in E. inv_ok. subst a. cells. rewrite (IH _ H c (if decide (c = c0) then x + num0 r (column c) else x)).
    + f_equal. destruct (decide (c = c0)) as [-> |Hne]; repeat case_decide; set_solver.
    + rewrite dget_dset. destruct (decide (c = c0)) as [-> |]; [|done]. f_equal. rewrite Hx in *. simplify_eq. lia.
Qed.

Definition totals_of (l : list row) (t : dict str Z) : Prop :=
  ∀ c, c ∈ COMPONENTS → dget t c = Some (zsum_with (λ r, num0 r (column c)) l).

Lemma new_totals_of : totals_of [] new_totals.
Proof. unfold totals_of. apply Forall_forall. repeat (constructor; [done|]). constructor. Qed.

Lemma add_totals_of l t r t' : totals_of l t → add_totals t r = Ok t' → totals_of (l ++ [r]) t'.
Proof.
  intros Ht H c Hc. eapply add_components in H; [|compute_decide|by apply Ht].
  by rewrite H, decide_True, zsum_with_snoc.
Qed.

(** What the three outputs hold after the rows [pre]. *)
Record outputs_ok (ex au : gset str) (m : Z) (c : comparison) (pre : list row) (st : label → category) (sx sa : gset str) : Prop := {
  o_out : ∀ l, written (st l) = filter (λ r, above c m r ∧ policy ex au l r) pre;
  o_count : ∀ l, rows (st l) = zlen (written (st l));
  o_totals : ∀ l, totals_of (written (st l)) (components_atto (st l));
  o_ex : sx = list_to_set (address_of <$> written (st excluded_address));
  o_au : ∀ a, a ∈ sa ↔ a ∈ au ∖ ex ∧ ∃ r, r ∈ written (st automatic) ∧ address_of r = a ∧ has_code r = true }.

Definition keyed (r : row) : Prop :=
  ∃ a, account_of r = Some a ∧
       FilterClaimsFacts.key_of r = "0x"%string ++ hex (keccak256 (default [] (fromhex (drop 2 a)))).

(** The facts the loop has established after the rows [pre]. *)
Record good (ex au : gset str) (m : Z) (c : comparison) (pre : list row) (s : state) : Prop := {
  g_keys : increasing (FilterClaimsFacts.key_of <$> pre);
  g_prev : previous s = last (FilterClaimsFacts.key_of <$> pre);
  g_accounts : Forall keyed pre;
  g_rows : input_rows s = zlen pre;
  g_split : threshold_rows s + below_threshold_rows s = zlen pre;
  g_above : threshold_rows s = zlen (filter (above c m) pre);
  g_out : outputs_ok ex au m c pre (stats s) (seen_excluded s) (seen_automatic_code s) }.

Lemma outputs_below ex au m c pre st sx sa r :
  outputs_ok ex au m c pre st sx sa → ¬ above c m r → outputs_ok ex au m c (pre ++ [r]) st sx sa.
Proof.
  intros [] Hb. constructor; try done. intros l. rewrite filter_snoc, decide_False by (by intros [? _]). by rewrite app_nil_r.
Qed.

Lemma written_set_stats st l c l' : written (set_stats st l c l') = if decide (l' = l) then written c else written (st l').
Proof. unfold set_stats. by case_decide. Qed.

Lemma outputs_above ex au m c pre st sx sa r l cat :
  outputs_ok ex au m c pre st sx sa → above c m r →
  label_of ex (au ∖ ex) (address_of r) (has_code r) = Ok l → write_row (st l) r = Ok cat →
  outputs_ok ex au m c (pre ++ [r]) (set_stats st l cat)
    (if decide (l = excluded_address) then {[address_of r]} ∪ sx else sx)
    (if decide (l = automatic) then (if bool_decide (address_of r ∈ au ∖ ex) then {[address_of r]} ∪ sa else sa) else sa).
Proof.
  intros [] Ha Hl Hw. apply label_of_policy in Hl as [Hp Hau]. unfold write_row in Hw. inv_ok. subst cat. constructor.
  - intros l'. rewrite written_set_stats, filter_snoc. destruct (decide (l' = l)) as [-> |Hne].
    + rewrite decide_True by done. cbn [written]. by rewrite o_out0.
    + rewrite decide_False, app_nil_r by (intros [_ Hp']; apply Hne; by eapply policy_unique). apply o_out0.
  - intros l'. unfold set_stats. case_decide; [|done]. cbn [rows written]. by rewrite zlen_snoc, o_count0.
  - intros l'. unfold set_stats. case_decide; [|done]. cbn [components_atto written]. by eapply add_totals_of.
  - rewrite written_set_stats. destruct (decide (l = excluded_address)) as [-> |Hne].
    + rewrite decide_True by done. cbn [written]. rewrite fmap_app, list_to_set_app_L. set_solver.
    + by rewrite decide_False by congruence.
  - intros x. rewrite written_set_stats. destruct (decide (l = automatic)) as [-> |Hne].
    + rewrite decide_True by done. cbn [written]. setoid_rewrite elem_of_app. setoid_rewrite list_elem_of_singleton.
      case_bool_decide as Hin; [rewrite elem_of_union, elem_of_singleton|]; rewrite o_au0.
      * destruct (Hau Hin) as [_ Hc]. split.
        -- intros [-> |(? & r' & ? & ?)]; [split; [done|exists r; auto]|split; [done|exists r'; tauto]].
        -- intros (? & r' & [? | ->] & <- & ?); [right; split; [done|by exists r']|by left].
      * split; [intros (? & r' & ? & ?); split; [done|exists r'; tauto]|].
        intros (? & r' & [? | ->] & <- & ?); [split; [done|by exists r']|done].
    + rewrite decide_False by congruence. apply o_au0.
Qed.

Lemma row_value_ok r q : row_value r = Ok q → qualification r = q.
Proof.
  unfold row_value, qualification. intros H.
  destruct (r !! _) as [v|]; inv_ok; subst; cells; [|done].
  match goal with H : py_int v = Ok _ |- _ => by rewrite H end.
Qed.

Lemma require_key a k n : require_address_secure_key a k = Ok n →
  any_to_hex (Some a) = Some n ∧ lower k = "0x"%string ++ hex (keccak256 (default [] (fromhex (drop 2 n)))).
Proof.
  unfold require_address_secure_key. intros H. inv_ok. subst.
  match goal with H : fromhex _ = Some _ |- _ => rewrite H end. zbool. done.
Qed.

Lemma policy_step_good ex au m c pre r s s' :
  good ex au m c pre s → step ex (au ∖ ex) m c s r = Ok s' → good ex au m c (pre ++ [r]) s'.
Proof.
  intros [] H. unfold step in H. inv_ok.
  match goal with H : row_value r = Ok _ |- _ => apply row_value_ok in H as Hq end.
  match goal with H : require_address_secure_key _ _ = Ok _ |- _ => apply require_key in H as [Hany Hkey] end.
  rewrite lower_idemp in Hkey. apply (cell_cell_or _ _ []) in E, E1.
  assert (FilterClaimsFacts.key_of r = lower a) as Hk by by (unfold FilterClaimsFacts.key_of; rewrite E).
  assert (lower a1 = address_of r) as Hr by by (unfold address_of; rewrite E1).
  assert (a4 = has_code r) as -> by (unfold has_code; by rewrite E0).
  assert (increasing (FilterClaimsFacts.key_of <$> pre ++ [r]) ∧ Some (lower a) = last (FilterClaimsFacts.key_of <$> pre ++ [r])) as [Hi Hl].
  { rewrite fmap_app. cbn [fmap list_fmap]. rewrite last_snoc, Hk. split; [|done]. apply increasing_snoc; [done|congruence]. }
  assert (Forall keyed (pre ++ [r])) as Hkd.
  { apply Forall_app. split; [done|]. constructor; [|constructor]. exists a3. unfold account_of. by rewrite E1, Hk. }
  destruct (reaches c m a5) eqn:Er; cbn [negb] in H; inv_ok; subst s'.
  - assert (above c m r) as Ha by (unfold above; congruence). rewrite Hr in *. constructor; try done; cbn;
      rewrite ?zlen_snoc; try lia; [rewrite filter_snoc, decide_True, zlen_snoc by done; lia|by eapply outputs_above].
  - assert (¬ above c m r) as Ha by (unfold above; congruence). constructor; try done; cbn;
      rewrite ?zlen_snoc; try lia; [by rewrite filter_snoc, decide_False, app_nil_r by done|by apply outputs_below].
Qed.

Lemma policy_init_good ex au m c : good ex au m c [] init.
Proof.
  constructor; try done; [constructor|]. constructor; try done.
  - intros l. apply new_totals_of.
  - intros a. cbn. set_solver.
Qed.

(** Two rows of one account would have the same key. *)
Lemma accounts_distinct l :
  increasing (FilterClaimsFacts.key_of <$> l) → Forall keyed l → NoDup (account_of <$> l).
Proof.
  intros Hi Hk. apply increasing_NoDup in Hi. induction Hk as [|r l (a & Ha & Hr) Hl IH]; [constructor|].
  cbn [fmap list_fmap] in *. apply NoDup_cons in Hi as [Hn Hi]. constructor; [|by apply IH].
  intros (r' & Hr' & Hin)%list_elem_of_fmap. apply Hn. apply list_elem_of_fmap. exists r'. split; [|done].
  rewrite Forall_forall in Hl. destruct (Hl r' Hin) as (a' & Ha' & ->). rewrite Hr. congruence.
Qed.

Lemma policy_main_good exists_ args o :
  main exists_ args = Ok o →
  good (excluded o) (automatic_code o) (minimum_one args) (how args) (dict_read (input args)).2 (final o) ∧
  seen_excluded (final o) = excluded o ∧ seen_automatic_code (final o) = automatic_code o ∖ excluded o.
Proof.
  unfold main. intros H. inv_ok. subst o. cbn [excluded automatic_code final snd]. zbool. split; [|done].
  eapply (foldM_inv (good _ _ _ _)); [apply policy_init_good| |eassumption]. intros. by eapply policy_step_good.
Qed.

End PolicyFacts.

(** * Theorems *)

(** The filter keeps, in the order of the input, exactly the rows whose
    qualification total reaches the threshold; it reports their number and the
    sums of their amounts, the wallet and vault parts adding up to the claims.
    An input it accepts has strictly increasing secure keys, and with the WONE
    overlay every row kept is paid all it qualified with. *)
Theorem filter_exact exists_ input agg m c s :
  FilterClaims.main exists_ input agg m c = Ok s →
  let rows := (dict_read input).2 in
  let q := FilterClaimsFacts.qualifies_with (FilterClaimsFacts.overlay input) in
  let total key := zsum_with (λ r, num r key) (FilterClaims.output s) in
  FilterClaims.output s = filter (λ r, FilterClaimsFacts.passes c m (q r)) rows ∧
  FilterClaims.input_rows s = zlen rows ∧
  FilterClaims.exact_threshold_rows s = zlen (filter (λ r, q r = m) rows) ∧
  FilterClaims.total_claim s = total "total_claim_atto"%string ∧
  FilterClaims.wallet_airdrop s = total "wallet_airdrop_atto"%string ∧
  FilterClaims.staked_to_vault s = total "staked_to_vault_atto"%string ∧
  FilterClaims.total_claim s = FilterClaims.wallet_airdrop s + FilterClaims.staked_to_vault s ∧
  FilterClaims.total_claim s = zsum_with q (FilterClaims.output s) ∧
  increasing (FilterClaimsFacts.key_of <$> rows).
Proof.
  intros H. apply FilterClaimsFacts.main_good in H as []. cbv zeta. repeat split; try done.
  - rewrite g_out. apply list_filter_iff. intros r. by destruct c; cbn; rewrite ?Z.leb_le, ?Z.ltb_lt.
  - rewrite g_total. by apply zsum_with_ext.
Qed.

Definition claims_header : list str :=
  ["secure_key"%string : str; "address"%string : str; "total_claim_atto"%string : str; "wallet_airdrop_atto"%string : str;
   "staked_to_vault_atto"%string : str].
Definition sample_claims : str :=
  csv_write [claims_header; ["0x01"%string : str; [] : str; "100"%string : str; "60"%string : str; "40"%string : str];
             ["0x02"%string : str; [] : str; "99"%string : str; "99"%string : str; "0"%string : str];
             ["0x0A"%string : str; [] : str; "500"%string : str; "0"%string : str; "500"%string : str]].
Definition sample_filtered : FilterClaims.state :=
  Eval vm_compute in from_ok FilterClaims.init (FilterClaims.main false sample_claims None 100 ge).

Lemma filter_exact_witness :
  FilterClaims.main false sample_claims None 100 ge = Ok sample_filtered ∧ FilterClaims.total_claim sample_filtered = 600 ∧
  FilterClaims.total_claim sample_filtered = FilterClaims.wallet_airdrop sample_filtered + FilterClaims.staked_to_vault sample_filtered.
Proof.
  assert (FilterClaims.main false sample_claims None 100 ge = Ok sample_filtered) as E by (vm_compute; reflexivity).
  split; [exact E|]. split; [reflexivity|]. apply (filter_exact _ _ _ _ _ _ E).
Defined.


Definition policy_row (a : str) (total code : str) : row :=
  row_of Policy.required ([("0x"%string ++ hex (keccak256 (default [] (fromhex (drop 2 a))))); a; code; [] : str]
    ++ replicate 7 ("0"%string : str) ++ [total; "0"%string : str; total]).
Definition policy_file (l : list row) : str :=
  csv_write (Policy.required :: (dict_record Policy.required <$> sort_str FilterClaimsFacts.key_of l)).
Definition sample_code : str := "0x"%string ++ replicate 64 "1"%char.
Definition sample_policy : Policy.options := Eval vm_compute in
  Policy.MkOptions
    (policy_file [policy_row "0x00000000219ab540356cbb839cbe05303d7705fa"%string "700"%string sample_code;
                  policy_row "0x1111111111111111111111111111111111111111"%string "300"%string Policy.EMPTY_CODE_HASH;
                  policy_row "0x2222222222222222222222222222222222222222"%string "200"%string Policy.EMPTY_CODE_HASH])
    ["0x2222222222222222222222222222222222222222"%string : str] [] [] 100 ge.
Definition sample_policy_outcome : Policy.outcome :=
  from_ok (Policy.MkOutcome ∅ ∅ Policy.init) (Policy.main false sample_policy).

