(* ===== verification/VaultShares.v ===== *)
(** Validator vaults: toolkit/scripts/claims/build-vault-share-allocation.py.

    [load_all_claims] and [load_category] read the claim ledger and the three
    eligibility files, [delegate] is the loop over the delegations and
    [allocate] the tables written.  Shown here: the vault deposits are worth
    exactly the staked part of every claim, delegation by delegation and vault
    by vault, the share tables split the delegations along the threshold, and
    the checks made after the first file is on disk cannot fail. *)

From S2P Require Import Prelude PyStr PyDict Csv Keccak Bech32.
Local Open Scope Z_scope.

(** * The code *)

Record claim := MkClaim {
  address : str; total_claim : Z; wallet : Z; wone : Z; qualification_total : Z; staked : Z }.

Definition require_allocation_fields (r : row) : result (Z * Z * Z) :=
  total_claim ← int_cell r "total_claim_atto"%string;
  wallet ← int_cell r "wallet_airdrop_atto"%string;
  staked ← int_cell r "staked_to_vault_atto"%string;
  if (Z.min (Z.min total_claim wallet) staked <? 0) || negb (wallet + staked =? total_claim)
  then Raise (ValueError "allocation component mismatch") else Ok (total_claim, wallet, staked).

Definition claims_required : list str :=
  ["secure_key"%string : str; "address"%string : str; "total_claim_atto"%string : str;
   "wallet_airdrop_atto"%string : str; "staked_to_vault_atto"%string : str].

Definition claim_step (st : option str * dict str claim) (r : row) : result (option str * dict str claim) :=
  let '(previous, claims) := st in
  key ← cell r "secure_key"%string;
  let key := lower key in
  _ ← raise_if (not_increasing previous key) (ValueError "secure keys are not increasing");
  _ ← raise_if (dmem claims key) (ValueError "duplicate secure key");
  '(total_claim, wallet, staked) ← require_allocation_fields r;
  wone ← int_cell_or_0 r "wone_airdrop_atto"%string;
  qualification_total ← match r !! ("qualification_total_atto"%string : str) with
                        | Some v => py_int v | None => Ok total_claim end;
  _ ← raise_if ((wone <? 0) || (wallet <? wone) || (qualification_total <? total_claim)) (ValueError "invalid WONE overlay");
  address ← cell r "address"%string;
  Ok (Some key, dset claims key (MkClaim (lower address) total_claim wallet wone qualification_total staked)).

Definition load_all_claims (text : str) : result (dict str claim) :=
  let '(fieldnames, rows) := dict_read text in
  _ ← raise_if (negb (has_fields claims_required fieldnames)) (ValueError "missing fields");
  snd <$> foldM claim_step (None, []) rows.

Inductive category := automatic | contract_review | excluded.
#[export] Instance category_eq_dec : EqDecision category.
Proof. solve_decision. Defined.

Record totals := MkTotals { t_rows : Z; t_wallet : Z; t_wone : Z; t_staked : Z; t_total_claim : Z }.

Definition category_step (cat : category) (claims : dict str claim) (st : dict str category * totals) (r : row)
  : result (dict str category * totals) :=
  let '(assignments, t) := st in
  key ← cell r "secure_key"%string;
  let key := lower key in
  _ ← raise_if (negb (dmem claims key)) (ValueError "unknown secure key");
  _ ← raise_if (dmem assignments key) (ValueError "category overlap");
  a ← cell r "address"%string;
  addr ← require_address_secure_key a key;
  '(total, wal, stk) ← require_allocation_fields r;
  expected ← of_option (dget claims key) (KeyError key);
  _ ← raise_if (negb (total =? total_claim expected) || negb (wal =? wallet expected) || negb (stk =? staked expected)
                || negb (bool_decide (addr = address expected))) (ValueError "claim mismatch");
  w ← int_cell_or_0 r "wone_airdrop_atto"%string;
  _ ← raise_if (negb (w =? wone expected)) (ValueError "claim mismatch");
  Ok (dset assignments key cat,
      MkTotals (t_rows t + 1) (t_wallet t + wal) (t_wone t + wone expected) (t_staked t + stk) (t_total_claim t + total)).

Definition load_category (text : str) (cat : category) (claims : dict str claim) (assignments : dict str category)
  : result (dict str category * totals) :=
  foldM (category_step cat claims) (assignments, MkTotals 0 0 0 0 0) (dict_read text).2.

(** A delegation, the columns of DETAIL_FIELDS. *)
Record detail := MkDetail {
  validator_address : str; validator_secure_key : str; delegator_address : str; delegator_secure_key : str;
  staked_to_vault_atto : str; is_self_delegation : str }.
Definition DETAIL_FIELDS : list str :=
  ["validator_address"%string : str; "validator_secure_key"%string : str; "delegator_address"%string : str;
   "delegator_secure_key"%string : str; "staked_to_vault_atto"%string : str; "is_self_delegation"%string : str].
Definition detail_of (r : row) : result detail :=
  va ← cell r "validator_address"%string; vk ← cell r "validator_secure_key"%string;
  da ← cell r "delegator_address"%string; dk ← cell r "delegator_secure_key"%string;
  s ← cell r "staked_to_vault_atto"%string; i ← cell r "is_self_delegation"%string;
  Ok (MkDetail va vk da dk s i).

Record vault := MkVault {
  v_address : str; v_key : str; vault_assets_atto : Z; priority_staked_to_vault_atto : Z;
  deferred_staked_to_vault_atto : Z; delegation_rows : Z }.

Record priority_row := MkPriority {
  base : detail; allocation_category : category; share_destination_address : str; destination_status : str }.

Definition status_of (c : category) : str :=
  match c with
  | automatic => "same-address"%string | contract_review => "manual-contract-recovery"%string
  | excluded => "policy-routed"%string end.

Record ledger := MkLedger {
  by_delegator : dict str Z; by_validator : dict str vault; priority_rows : list priority_row;
  deferred_rows : list detail; seen_pairs : gset (str * str); total_detail : Z }.
Definition empty_ledger : ledger := MkLedger [] [] [] [] ∅ 0.

(** One delegation: the vault it pays into and the table its share goes to. *)
Definition delegate (claims : dict str claim) (assignments : dict str category) (l : ledger) (r : row) : result ledger :=
  vk ← cell r "validator_secure_key"%string; let validator_key := lower vk in
  dk ← cell r "delegator_secure_key"%string; let delegator_key := lower dk in
  va ← cell r "validator_address"%string;
  _ ← require_address_secure_key va validator_key;
  da ← cell r "delegator_address"%string;
  _ ← require_address_secure_key da delegator_key;
  _ ← raise_if (bool_decide ((validator_key, delegator_key) ∈ seen_pairs l)) (ValueError "duplicate delegation");
  amount ← int_cell r "staked_to_vault_atto"%string;
  _ ← raise_if (amount <=? 0) (ValueError "non-positive delegation");
  c ← of_option (dget claims delegator_key) (ValueError "unknown delegator");
  _ ← raise_if (negb (bool_decide (address c = lower da))) (ValueError "delegator address mismatch");
  let v := default (MkVault va validator_key 0 0 0 0) (dget (by_validator l) validator_key) in
  _ ← raise_if (negb (bool_decide (lower (v_address v) = lower va))) (ValueError "validator address mismatch");
  base ← detail_of r;
  let cat := dget assignments delegator_key in
  let p := if decide (cat = None) then 0 else amount in
  Ok (MkLedger
        (dupdate (by_delegator l) delegator_key (λ x, default 0 x + amount))
        (dset (by_validator l) validator_key
           (MkVault (v_address v) (v_key v) (vault_assets_atto v + amount) (priority_staked_to_vault_atto v + p)
              (deferred_staked_to_vault_atto v + (amount - p)) (delegation_rows v + 1)))
        (match cat with
         | None => priority_rows l
         | Some k => priority_rows l ++ [MkPriority base k (if decide (k = automatic) then da else []) (status_of k)] end)
        (match cat with None => deferred_rows l ++ [base] | Some _ => deferred_rows l end)
        ({[(validator_key, delegator_key)]} ∪ seen_pairs l)
        (total_detail l + amount)).

Definition pair_key (d : detail) : str * str := (validator_secure_key d, delegator_secure_key d).
(** The order of pairs of texts. *)
Definition pair_str_leb (a b : str * str) : bool :=
  str_ltb a.1 b.1 || (bool_decide (a.1 = b.1) && str_leb a.2 b.2).
Definition sort_details {A} (key : A → str * str) (l : list A) : list A := sort_by (λ x y, pair_str_leb (key x) (key y)) l.

Record wallet_row := MkWalletRow {
  w_secure_key : str; w_source_address : str; w_native_wallet_airdrop_atto : str; w_wone_airdrop_atto : str;
  w_wallet_airdrop_atto : str; w_staked_to_vault_atto : str; w_total_claim_atto : str;
  w_category : category; w_destination_address : str; w_destination_status : str }.

Definition wallet_rows_step (claims : dict str claim) (rows : list wallet_row) (kc : str * category) : result (list wallet_row) :=
  let '(key, cat) := kc in
  c ← of_option (dget claims key) (KeyError key);
  if wallet c =? 0 then Ok rows else
  Ok (rows ++ [MkWalletRow key (address c) (str_of_Z (wallet c - wone c)) (str_of_Z (wone c)) (str_of_Z (wallet c))
                 (str_of_Z (staked c)) (str_of_Z (total_claim c)) cat
                 (if decide (cat = automatic) then address c else []) (status_of cat)]).

(** [wallet_rows[category]]. *)
Definition wallets_of (rows : list wallet_row) (cat : category) : list wallet_row := filter (λ w, w_category w = cat) rows.

Definition CATEGORIES : list category := [automatic; contract_review; excluded].

Record inputs := MkInputs {
  all_claims : str; delegations : str; automatic_claims : str; contract_review_claims : str; excluded_claims : str;
  minimum_one : Z }.

(** Everything up to the first file written. *)
Record prepared := MkPrepared {
  claims : dict str claim; assignments : dict str category; category_totals : category → totals; led : ledger }.

Definition check_delegator (l : ledger) (kc : str * claim) : result unit :=
  raise_if (negb (default 0 (dget (by_delegator l) kc.1) =? staked kc.2)) (ValueError "vault-share detail mismatch").

(** [{key for key, claim in claims.items() if ... >= minimum_one}]. *)
Definition expected_priority (m : Z) (claims : dict str claim) : gset str :=
  list_to_set (fst <$> filter (λ kc : str * claim, m ≤ qualification_total kc.2) claims).

Definition prepare (exists_ : bool) (args : inputs) : result prepared :=
  _ ← raise_if exists_ FileExistsError;
  claims ← load_all_claims (all_claims args);
  '(as1, t1) ← load_category (automatic_claims args) automatic claims [];
  '(as2, t2) ← load_category (contract_review_claims args) contract_review claims as1;
  '(assignments, t3) ← load_category (excluded_claims args) excluded claims as2;
  _ ← raise_if (negb (bool_decide (list_to_set (dkeys assignments) = expected_priority (minimum_one args) claims)))
        (ValueError "eligibility category union does not match total-claim threshold");
  let '(fieldnames, rows) := dict_read (delegations args) in
  _ ← raise_if (negb (has_fields DETAIL_FIELDS fieldnames)) (ValueError "missing fields");
  l ← foldM (delegate claims assignments) empty_ledger rows;
  _ ← mapM (check_delegator l) claims;
  Ok (MkPrepared claims assignments (λ c, match c with automatic => t1 | contract_review => t2 | excluded => t3 end) l).

(** The tables and figures of the summary. *)
Record allocation := MkAllocation {
  vault_rows : list vault; priority_shares : list priority_row; deferred_shares : list detail;
  wallet_rows : list wallet_row; vaults : Z; delegation_count : Z; assets_total : Z; priority_total : Z; deferred_total : Z;
  totals_by_category : category → totals }.

Definition sum_ints (l : list str) : result Z := zsum <$> mapM py_int l.

Definition finish (p : prepared) : result allocation :=
  let l := led p in
  let vault_rows := sort_str v_key (dvalues (by_validator l)) in
  let priority := sort_details (pair_key ∘ base) (priority_rows l) in
  let deferred := sort_details pair_key (deferred_rows l) in
  wallet_rows ← foldM (wallet_rows_step (claims p)) [] (sort_str fst (assignments p));
  let total_vault_principal := zsum_with staked (dvalues (claims p)) in
  _ ← raise_if (negb (total_detail l =? total_vault_principal)) (ValueError "global vault-share detail mismatch");
  _ ← mapM (λ cat, t ← sum_ints (w_wallet_airdrop_atto <$> wallets_of wallet_rows cat);
                   raise_if (negb (t =? t_wallet (category_totals p cat))) (ValueError "direct wallet-airdrop total mismatch"))
        CATEGORIES;
  pt ← sum_ints (staked_to_vault_atto ∘ base <$> priority);
  dt ← sum_ints (staked_to_vault_atto <$> deferred);
  Ok (MkAllocation vault_rows priority deferred wallet_rows (zlen vault_rows) (Z.of_nat (size (seen_pairs l)))
        (total_detail l) pt dt (category_totals p)).

Definition main (exists_ : bool) (args : inputs) : result allocation := p ← prepare exists_ args; finish p.

(** * The claims *)

Definition claim_ok (c : claim) : Prop :=
  0 ≤ wallet c ∧ 0 ≤ staked c ∧ total_claim c = wallet c + staked c ∧ 0 ≤ wone c ≤ wallet c ∧ total_claim c ≤ qualification_total c.

Lemma require_allocation_ok r t w s :
  require_allocation_fields r = Ok (t, w, s) → 0 ≤ w ∧ 0 ≤ s ∧ t = w + s.
Proof. unfold require_allocation_fields. intros H. inv_ok. simplify_eq. zbool. lia. Qed.

Lemma load_all_claims_ok text cs :
  load_all_claims text = Ok cs → NoDup (dkeys cs) ∧ Forall (λ kc, claim_ok kc.2) cs.
Proof.
  unfold load_all_claims. intros H. inv_ok. subst cs.
  match goal with H : foldM _ _ _ = Ok _ |- _ => revert H end.
  apply (foldM_inv (λ _ st, NoDup (dkeys st.2) ∧ Forall (λ kc, claim_ok kc.2) st.2)); [split; constructor|].
  intros _ r [pv cs] s' [Hnd Hok] H. unfold claim_step in H. inv_ok. subst s'. cbn [snd] in *.
  match goal with H : require_allocation_fields _ = Ok _ |- _ => apply require_allocation_ok in H end. zbool.
  split; [by apply NoDup_dset|]. rewrite dset_absent by by apply dmem_false. apply Forall_app. split; [done|]. repeat constructor; cbn; lia.
Qed.

Definition wallet_at (cs : dict str claim) (k : str) : Z := match dget cs k with Some c => wallet c | None => 0 end.

(** * The categories *)

Lemma category_ok cat cs as0 t0 rows as1 t1 :
  NoDup (dkeys as0) → foldM (category_step cat cs) (as0, t0) rows = Ok (as1, t1) →
  ∃ ks, as1 = as0 ++ ((λ k, (k, cat)) <$> ks) ∧ NoDup (dkeys as1) ∧ Forall (λ k, k ∈ dkeys cs) ks ∧
        t_rows t1 = t_rows t0 + zlen ks ∧ t_wallet t1 = t_wallet t0 + zsum_with (wallet_at cs) ks.
Proof.
  intros Hnd.
  apply (foldM_inv (λ _ st, ∃ ks, st.1 = as0 ++ ((λ k, (k, cat)) <$> ks) ∧ NoDup (dkeys st.1) ∧ Forall (λ k, k ∈ dkeys cs) ks ∧
        t_rows st.2 = t_rows t0 + zlen ks ∧ t_wallet st.2 = t_wallet t0 + zsum_with (wallet_at cs) ks)).
  - exists []. cbn [fst snd fmap list_fmap]. rewrite app_nil_r. split; [done|]. split; [done|]. split; [by apply Forall_nil_2|]. unfold zlen, zsum_with. cbn. lia.
  - intros _ r [as' t'] [as2 t2] (ks & Has & Hn & Hks & Hr & Hw) H. unfold category_step in H. inv_ok. cbn [fst snd] in *.
    simplify_eq. zbool. exists (ks ++ [lower a]).
    match goal with H : dget cs _ = Some ?c |- _ => assert (wallet_at cs (lower a) = wallet c) as Hwal by by (unfold wallet_at; rewrite H) end.
    rewrite zlen_snoc, zsum_with_snoc, fmap_app. cbn [t_rows t_wallet].
    split; [by rewrite dset_absent, <- app_assoc by by apply dmem_false|]. split; [by apply NoDup_dset|]. split; [|lia].
    apply Forall_app. split; [done|]. constructor; [|constructor]. by apply dmem_true.
Qed.

(** * The delegations *)

Definition amount (r : row) : Z := num r "staked_to_vault_atto"%string.
Definition vkey (r : row) : str := lower (cell_or r "validator_secure_key"%string []).
Definition dkey (r : row) : str := lower (cell_or r "delegator_secure_key"%string []).
Definition no_detail : detail := MkDetail [] [] [] [] [] [].
Definition det (r : row) : detail := from_ok no_detail (detail_of r).

Section ledger.
Context (cs : dict str claim) (asg : dict str category).

Definition assigned (r : row) : Prop := dget asg (dkey r) ≠ None.
#[global] Instance assigned_dec r : Decision (assigned r).
Proof. unfold assigned. apply _. Defined.

Definition share (r : row) : priority_row :=
  let k := default automatic (dget asg (dkey r)) in
  MkPriority (det r) k (if decide (k = automatic) then delegator_address (det r) else []) (status_of k).

(** A vault holds the delegations made to its validator. *)
Record vault_ok (pre : list row) (k : str) (v : vault) : Prop := {
  vo_key : v_key v = k;
  vo_assets : vault_assets_atto v = zsum_with amount (filter (λ r, vkey r = k) pre);
  vo_priority : priority_staked_to_vault_atto v = zsum_with amount (filter (λ r, vkey r = k ∧ assigned r) pre);
  vo_deferred : deferred_staked_to_vault_atto v = zsum_with amount (filter (λ r, vkey r = k ∧ ¬ assigned r) pre);
  vo_rows : delegation_rows v = zlen (filter (λ r, vkey r = k) pre) }.

Definition row_ok (r : row) : Prop :=
  0 < amount r ∧ dkey r ∈ dkeys cs ∧ detail_of r = Ok (det r) ∧ py_int (staked_to_vault_atto (det r)) = Ok (amount r).

Record good (pre : list row) (l : ledger) : Prop := {
  g_rows : Forall row_ok pre;
  g_delegators : ∀ k, default 0 (dget (by_delegator l) k) = zsum_with amount (filter (λ r, dkey r = k) pre);
  g_nodup : NoDup (dkeys (by_validator l));
  g_vaults : ∀ x k, vault_ok pre k (default (MkVault x k 0 0 0 0) (dget (by_validator l) k));
  g_priority : priority_rows l = share <$> filter assigned pre;
  g_deferred : deferred_rows l = det <$> filter (λ r, ¬ assigned r) pre;
  g_pairs : seen_pairs l = list_to_set ((λ r, (vkey r, dkey r)) <$> pre);
  g_distinct : NoDup ((λ r, (vkey r, dkey r)) <$> pre);
  g_total : total_detail l = zsum_with amount pre;
  g_assets : zsum_with vault_assets_atto (dvalues (by_validator l)) = total_detail l }.

Lemma vault_step pre r k k' v v' p :
  vault_ok pre k v → vkey r = k' → p = (if decide (dget asg (dkey r) = None) then 0 else amount r) →
  (k = k' → v' = MkVault (v_address v') k (vault_assets_atto v + amount r) (priority_staked_to_vault_atto v + p)
              (deferred_staked_to_vault_atto v + (amount r - p)) (delegation_rows v + 1)) → (k ≠ k' → v' = v) →
  vault_ok (pre ++ [r]) k v'.
Proof.
  intros [] <- -> He Hne. assert (assigned r ↔ dget asg (dkey r) ≠ None) as Has by done. destruct (decide (k = vkey r)) as [-> |Hn]; [rewrite He by done|rewrite Hne by done];
    constructor; cbn; rewrite ?zsum_with_filter_snoc, ?zlen_filter_snoc; try done;
    repeat case_decide; try (exfalso; naive_solver); lia.
Qed.

Lemma detail_of_cells r d : detail_of r = Ok d →
  cell r "validator_address"%string = Ok (validator_address d) ∧ cell r "delegator_address"%string = Ok (delegator_address d) ∧
  cell r "staked_to_vault_atto"%string = Ok (staked_to_vault_atto d).
Proof. unfold detail_of. intros H. inv_ok. by subst d. Qed.

Lemma delegate_good pre r l l' : good pre l → delegate cs asg l r = Ok l' → good (pre ++ [r]) l'.
Proof.
  intros [] H. unfold delegate in H. inv_ok. zbool. subst l'.
  assert (det r = a11) as Hdet by by (unfold det; rewrite E11).
  apply detail_of_cells in E11 as Hcells. destruct Hcells as (_ & Hda & Hst).
  assert (vkey r = lower a) as Hv by (unfold vkey; by rewrite (cell_cell_or _ _ _ _ E)).
  assert (dkey r = lower a0) as Hd by (unfold dkey; by rewrite (cell_cell_or _ _ _ _ E0)).
  assert (amount r = a6) as Ha by by apply int_cell_num.
  assert (delegator_address a11 = a3) as Hda' by congruence. rewrite <- Hv, <- Hd, <- Ha, <- Hdet, <- Hda' in *.
  pose proof (g_vaults0 a1 (vkey r)) as Hvault. set (v := default _ _) in *. clear Hda'.
  constructor; cbn [by_delegator by_validator priority_rows deferred_rows seen_pairs total_detail].
  - apply Forall_app. split; [done|]. constructor; [|constructor]. split; [lia|]. split; [by eapply dget_Some_key|].
    split; [congruence|]. unfold int_cell in E6. rewrite Hst in E6. cbn in E6. congruence.
  - intros k. unfold dupdate. rewrite dget_dset, zsum_with_filter_snoc. destruct (decide (k = dkey r)) as [-> |].
    + rewrite decide_True by done. cbn. by rewrite g_delegators0.
    + rewrite decide_False by done. by rewrite g_delegators0, Z.add_0_r.
  - by apply NoDup_dset.
  - intros x k. rewrite dget_dset. destruct (decide (k = vkey r)) as [-> |Hne].
    + eapply vault_step; [exact Hvault|done| |intros _; cbn [default v_address]; by rewrite (vo_key _ _ _ Hvault)|done].
      done.
    + eapply vault_step; [apply (g_vaults0 x)|done|done|by intros ->|done].
  - rewrite filter_snoc, fmap_app, <- g_priority0. destruct (decide (assigned r)) as [Has|Hun]; unfold assigned, share in *; cbn.
    + by destruct (dget asg (dkey r)).
    + destruct (dget asg (dkey r)); [by contradict Hun|by rewrite app_nil_r].
  - rewrite filter_snoc, fmap_app, <- g_deferred0. destruct (decide (¬ assigned r)) as [Hun|Has]; unfold assigned in *; cbn.
    + destruct (dget asg (dkey r)); [by contradict Hun|done].
    + destruct (dget asg (dkey r)); [by rewrite app_nil_r|exfalso; apply Has; intros Hn; by apply Hn].
  - rewrite fmap_app, list_to_set_app_L, g_pairs0. set_solver.
  - rewrite fmap_app. apply NoDup_app. split; [done|]. split; [|apply NoDup_singleton].
    intros x Hx ->%list_elem_of_singleton. apply E7. rewrite g_pairs0. by apply elem_of_list_to_set.
  - by rewrite zsum_with_snoc, g_total0.
  - rewrite zsum_with_dset, g_assets0. subst v. destruct (dget (by_validator l) (vkey r)); cbn; lia.
Qed.

Lemma empty_good : good [] empty_ledger.
Proof. constructor; try done; try constructor; try done. Qed.

End ledger.

(** * The tables *)

Definition in_category {A} (cat : category) (f : str → A) (zero : A) (kc : str * category) : A :=
  if decide (kc.2 = cat) then f kc.1 else zero.

Lemma tagged_sum cat cat' (f : str → Z) ks :
  zsum_with (in_category cat' f 0) ((λ k, (k, cat)) <$> ks) = if decide (cat = cat') then zsum_with f ks else 0.
Proof.
  unfold in_category. induction ks as [|k ks IH]; [by case_decide|]. rewrite fmap_cons, !zsum_with_cons, IH. cbn.
  case_decide; lia.
Qed.

(** What [prepare] has established. *)
Record prepared_ok (args : inputs) (p : prepared) : Prop := {
  p_claims : load_all_claims (all_claims args) = Ok (claims p);
  p_nodup : NoDup (dkeys (claims p));
  p_ok : Forall (λ kc, claim_ok kc.2) (claims p);
  p_asg : NoDup (dkeys (assignments p));
  p_keys : ∀ k, k ∈ dkeys (assignments p) ↔ ∃ c, dget (claims p) k = Some c ∧ minimum_one args ≤ qualification_total c;
  p_totals : ∀ cat, t_wallet (category_totals p cat)
               = zsum_with (in_category cat (wallet_at (claims p)) 0) (assignments p);
  p_ledger : good (claims p) (assignments p) (dict_read (delegations args)).2 (led p);
  p_staked : ∀ k c, dget (claims p) k = Some c → staked c = zsum_with amount (filter (λ r, dkey r = k) (dict_read (delegations args)).2) }.

Lemma expected_priority_spec m cs k :
  NoDup (dkeys cs) → k ∈ expected_priority m cs ↔ ∃ c, dget cs k = Some c ∧ m ≤ qualification_total c.
Proof.
  intros Hnd. unfold expected_priority. rewrite elem_of_list_to_set, list_elem_of_fmap. split.
  - intros ([k' c] & -> & Hin). apply list_elem_of_filter in Hin as [Hm Hin]. exists c. split; [by apply dget_elem|done].
  - intros (c & Hc & Hm). exists (k, c). split; [done|]. apply list_elem_of_filter. split; [done|by apply dget_elem].
Qed.

Lemma categories_ok cs x1 x2 x3 as1 as2 as3 t1 t2 t3 :
  load_category x1 automatic cs [] = Ok (as1, t1) → load_category x2 contract_review cs as1 = Ok (as2, t2) →
  load_category x3 excluded cs as2 = Ok (as3, t3) →
  NoDup (dkeys as3) ∧
  ∀ cat, t_wallet (match cat with automatic => t1 | contract_review => t2 | excluded => t3 end)
         = zsum_with (in_category cat (wallet_at cs) 0) as3.
Proof.
  unfold load_category. intros H1 H2 H3.
  apply category_ok in H1 as (k1 & -> & Hn1 & _ & _ & Hw1); [|constructor].
  apply category_ok in H2 as (k2 & -> & Hn2 & _ & _ & Hw2); [|done].
  apply category_ok in H3 as (k3 & -> & Hn3 & _ & _ & Hw3); [|done].
  split; [done|]. intros cat. rewrite !zsum_with_app, !tagged_sum. change (zsum_with (in_category cat (wallet_at cs) 0) []) with 0.
  cbn in Hw1, Hw2, Hw3. destruct cat; repeat case_decide; try done; lia.
Qed.

Lemma prepare_ok exists_ args p : prepare exists_ args = Ok p → prepared_ok args p.
Proof.
  unfold prepare. intros H. destruct (dict_read (delegations args)) as [fn rows] eqn:Hread. inv_ok. zbool. subst p.
  match goal with H : load_all_claims _ = Ok _ |- _ => apply load_all_claims_ok in H as Hok; destruct Hok as [Hnd Hok] end.
  match goal with H1 : load_category _ _ _ [] = _, H2 : load_category _ contract_review _ _ = _, H3 : load_category _ excluded _ _ = _ |- _ =>
    destruct (categories_ok _ _ _ _ _ _ _ _ _ _ H1 H2 H3) as [Hasg Ht] end.
  match goal with H : foldM (delegate ?cs ?asg) _ ?rows = Ok ?l |- _ =>
    assert (good cs asg rows l) as Hg by (revert H; apply foldM_inv; [apply empty_good|intros *; apply delegate_good]) end.
  match goal with H : mapM _ _ = Ok _ |- _ => apply mapM_Ok_all in H as Hst end.
  match goal with H : list_to_set _ = expected_priority _ _ |- _ => rename H into Hset end.
  constructor; cbn [claims assignments category_totals led]; rewrite ?Hread; cbn [snd]; try done.
  - intros k. rewrite <- expected_priority_spec, <- Hset by done. by rewrite elem_of_list_to_set.
  - intros k c Hc. apply dget_Some_elem in Hc. rewrite Forall_forall in Hst. destruct (Hst _ Hc) as [y Hy].
    unfold check_delegator in Hy. inv_ok. zbool. cbn in *. by rewrite <- (g_delegators _ _ _ _ Hg).
Qed.

(** The row a claim of the threshold set gets in the wallet tables. *)
Definition wrow (cs : dict str claim) (kc : str * category) : option wallet_row :=
  c ← dget cs kc.1;
  if wallet c =? 0 then None else
  Some (MkWalletRow kc.1 (address c) (str_of_Z (wallet c - wone c)) (str_of_Z (wone c)) (str_of_Z (wallet c))
          (str_of_Z (staked c)) (str_of_Z (total_claim c)) kc.2
          (if decide (kc.2 = automatic) then address c else []) (status_of kc.2)).

Lemma wallet_rows_fold cs l rows :
  Forall (λ kc : str * category, kc.1 ∈ dkeys cs) l → foldM (wallet_rows_step cs) rows l = Ok (rows ++ omap (wrow cs) l).
Proof.
  intros H. revert rows. induction H as [|[k cat] l Hk _ IH]; intros rows; [by rewrite app_nil_r|].
  cbn [foldM wallet_rows_step]. destruct (dget_key _ _ Hk) as [c Hc]. cbn [fst] in Hc. rewrite Hc. cbn [of_option mbind result_bind omap list_omap].
  unfold wrow at 1. cbn [fst snd]. rewrite Hc. cbn [mbind option_bind]. destruct (wallet c =? 0); cbn [mbind result_bind]; rewrite IH; [done|].
  by rewrite <- app_assoc.
Qed.

Definition wallet_amount (w : wallet_row) : Z := from_ok 0 (py_int (w_wallet_airdrop_atto w)).

Lemma wrow_sum cs cat l :
  zsum_with wallet_amount (wallets_of (omap (wrow cs) l) cat) = zsum_with (in_category cat (wallet_at cs) 0) l.
Proof.
  unfold wallets_of. rewrite zsum_with_filter. induction l as [|[k c'] l IH]; [done|].
  cbn [omap list_omap]. rewrite zsum_with_cons, <- IH. unfold wrow at 1, in_category, wallet_at. cbn [fst snd].
  destruct (dget cs k) as [c|]; cbn [mbind option_bind]; [|by case_decide].
  destruct (Z.eqb_spec (wallet c) 0) as [Hz|Hz]; [case_decide; lia|]. rewrite zsum_with_cons. unfold wallet_amount at 1. cbn.
  by rewrite int_str_of_Z.
Qed.

Lemma sum_ints_ok {A} (f : A → str) (g : A → Z) l :
  Forall (λ x, py_int (f x) = Ok (g x)) l → sum_ints (f <$> l) = Ok (zsum_with g l).
Proof.
  unfold sum_ints. induction 1 as [|x l Hx _ IH]; [done|]. rewrite fmap_cons, zsum_with_cons. cbn [mapM]. rewrite Hx.
  cbn [mbind result_bind]. destruct (mapM py_int (f <$> l)); cbn in *; [|done]. by injection IH as ->.
Qed.

Lemma wrow_texts cs l : Forall (λ w, py_int (w_wallet_airdrop_atto w) = Ok (wallet_amount w)) (omap (wrow cs) l).
Proof.
  apply Forall_forall. intros w ([k c'] & _ & Hw)%list_elem_of_omap. unfold wrow in Hw. cbn in Hw.
  destruct (dget cs k); cbn in Hw; [|done]. case_match; [done|]. injection Hw as <-. unfold wallet_amount. cbn.
  by rewrite int_str_of_Z.
Qed.

Definition tables (args : inputs) (p : prepared) : allocation :=
  let l := led p in
  let rows := (dict_read (delegations args)).2 in
  let vault_rows := sort_str v_key (dvalues (by_validator l)) in
  MkAllocation vault_rows (sort_details (pair_key ∘ base) (priority_rows l)) (sort_details pair_key (deferred_rows l))
    (omap (wrow (claims p)) (sort_str fst (assignments p))) (zlen vault_rows) (Z.of_nat (size (seen_pairs l))) (total_detail l)
    (zsum_with amount (filter (assigned (assignments p)) rows))
    (zsum_with amount (filter (λ r, ¬ assigned (assignments p) r) rows)) (category_totals p).

Lemma sort_details_perm {A} (key : A → str * str) l : sort_details key l ≡ₚ l.
Proof. apply sort_by_perm. Qed.

Lemma sum_ints_perm l l' z : l ≡ₚ l' → sum_ints l' = Ok z → sum_ints l = Ok z.
Proof.
  unfold sum_ints. intros Hp H. inv_ok. apply mapM_Ok_all in E as Hall.
  rewrite (mapM_from_ok 0) in E by done. inv_ok. rewrite (mapM_from_ok 0) by by rewrite Hp. cbn. f_equal. subst. by rewrite Hp.
Qed.

Lemma detail_sum cs asg rows l P `{!∀ r, Decision (P r)} :
  good cs asg rows l → sum_ints (staked_to_vault_atto <$> (det <$> filter P rows)) = Ok (zsum_with amount (filter P rows)).
Proof.
  intros Hg. rewrite <- list_fmap_compose. apply sum_ints_ok. apply Forall_forall. intros r [_ Hr]%list_elem_of_filter.
  pose proof (g_rows _ _ _ _ Hg) as Hall. rewrite Forall_forall in Hall. by destruct (Hall r Hr) as (_ & _ & _ & Hs).
Qed.

Lemma total_principal args p : prepared_ok args p → total_detail (led p) = zsum_with staked (dvalues (claims p)).
Proof.
  intros []. rewrite (g_total _ _ _ _ p_ledger0).
  rewrite <- (zsum_with_by_key amount dkey (dkeys (claims p))); [|done|].
  - unfold dkeys, dvalues, zsum_with at 1 3. rewrite <- !list_fmap_compose. f_equal. apply list_fmap_ext. intros i [k c] Hi. cbn.
    symmetry. apply p_staked0. apply dget_elem; [done|]. by eapply list_elem_of_lookup_2.
  - eapply Forall_impl; [exact (g_rows _ _ _ _ p_ledger0)|]. by intros r (_ & H & _).
Qed.

(** Every step of [finish] returns. *)
Lemma finish_ok args p : prepared_ok args p → finish p = Ok (tables args p).
Proof.
  intros Hp. pose proof Hp as []. unfold finish. cbv zeta.
  assert (sort_str fst (assignments p) ≡ₚ assignments p) as Hperm by apply sort_str_perm.
  rewrite wallet_rows_fold, app_nil_l; cycle 1.
  { rewrite Hperm. apply Forall_forall. intros [k cat] Hin. cbn.
    destruct (proj1 (p_keys0 k)) as (c & Hc & _); [apply list_elem_of_fmap; by exists (k, cat)|]. by eapply dget_Some_key. }
  cbn [mbind result_bind]. rewrite <- (total_principal args p Hp), Z.eqb_refl. cbn [negb raise_if mbind result_bind].
  rewrite (mapM_from_ok ()); cycle 1.
  { apply Forall_forall. intros cat _. exists (). rewrite (sum_ints_ok _ wallet_amount); cycle 1.
    - apply Forall_forall. intros w [_ Hw]%list_elem_of_filter. pose proof (wrow_texts (claims p) (sort_str fst (assignments p))) as Hall.
      rewrite Forall_forall in Hall. by apply Hall.
    - cbn [mbind result_bind]. by rewrite wrow_sum, p_totals0, Hperm, Z.eqb_refl. }
  cbn [mbind result_bind].
  assert (sum_ints (staked_to_vault_atto ∘ base <$> sort_details (pair_key ∘ base) (priority_rows (led p)))
          = Ok (zsum_with amount (filter (assigned (assignments p)) (dict_read (delegations args)).2))) as ->.
  { eapply sum_ints_perm; [|by eapply detail_sum]. by rewrite sort_details_perm, (g_priority _ _ _ _ p_ledger0), <- !list_fmap_compose. }
  assert (sum_ints (staked_to_vault_atto <$> sort_details pair_key (deferred_rows (led p)))
          = Ok (zsum_with amount (filter (λ r, ¬ assigned (assignments p) r) (dict_read (delegations args)).2))) as ->; [|done].
  eapply sum_ints_perm; [|by eapply detail_sum]. by rewrite sort_details_perm, (g_deferred _ _ _ _ p_ledger0).
Qed.

Definition qualifies (m : Z) (cs : dict str claim) (r : row) : Prop :=
  match dget cs (dkey r) with Some c => m ≤ qualification_total c | None => False end.
#[export] Instance qualifies_dec m cs r : Decision (qualifies m cs r).
Proof. unfold qualifies. destruct (dget cs (dkey r)); apply _. Defined.

Lemma assigned_qualifies args p r : prepared_ok args p → assigned (assignments p) r ↔ qualifies (minimum_one args) (claims p) r.
Proof.
  intros []. unfold assigned, qualifies. rewrite dget_None, p_keys0. destruct (dget (claims p) (dkey r)) as [c|].
  - split; [intros H; apply dec_stable; intros Hn; apply H; intros (c' & [= <-] & ?); done|intros H Hn; apply Hn; eauto].
  - split; [intros H; apply H; by intros (? & ? & _)|done].
Qed.

Lemma main_ok exists_ args o : main exists_ args = Ok o → ∃ p, prepared_ok args p ∧ o = tables args p.
Proof.
  unfold main. intros H. apply bind_Ok_inv in H as (p & Hp & Hf). apply prepare_ok in Hp. exists p. split; [done|].
  rewrite (finish_ok args) in Hf by done. by inv_ok.
Qed.

Lemma ledger_vaults cs asg rows l : good cs asg rows l →
  Forall (λ kv, vault_ok asg rows kv.1 kv.2) (by_validator l) ∧ v_key <$> dvalues (by_validator l) = dkeys (by_validator l).
Proof.
  intros []. assert (Forall (λ kv, vault_ok asg rows kv.1 kv.2) (by_validator l)) as Hv.
  { apply Forall_forall. intros [k v] Hin. apply dget_elem in Hin; [|done]. specialize (g_vaults0 [] k). by rewrite Hin in g_vaults0. }
  split; [done|]. unfold dvalues, dkeys. rewrite <- list_fmap_compose. apply list_fmap_ext. intros i [k v] Hi%list_elem_of_lookup_2.
  rewrite Forall_forall in Hv. by destruct (Hv _ Hi).
Qed.

(** C36: The vault deposits conserve every staked claim.  When the script
    succeeds, the vaults' assets add up to the staked part of all claims; each
    claim's staked part is the sum of its delegations; each validator has one
    vault, whose assets, priority part, deferred part and row count are those
    of the delegations made to it; and the two share tables hold each
    delegation exactly once, in the priority table exactly when its delegator's
    claim qualifies. *)
Theorem vault_shares_conserve exists_ args o :
  main exists_ args = Ok o →
  let rows := (dict_read (delegations args)).2 in
  ∃ cs, load_all_claims (all_claims args) = Ok cs ∧
    let q := qualifies (minimum_one args) cs in
    assets_total o = zsum_with staked (dvalues cs) ∧
    zsum_with vault_assets_atto (vault_rows o) = assets_total o ∧
    priority_total o + deferred_total o = assets_total o ∧
    (∀ k c, dget cs k = Some c → staked c = zsum_with amount (filter (λ r, dkey r = k) rows)) ∧
    NoDup (v_key <$> vault_rows o) ∧
    Forall (λ v,
      vault_assets_atto v = zsum_with amount (filter (λ r, vkey r = v_key v) rows) ∧
      priority_staked_to_vault_atto v = zsum_with amount (filter (λ r, vkey r = v_key v ∧ q r) rows) ∧
      deferred_staked_to_vault_atto v = zsum_with amount (filter (λ r, vkey r = v_key v ∧ ¬ q r) rows) ∧
      delegation_rows v = zlen (filter (λ r, vkey r = v_key v) rows)) (vault_rows o) ∧
    base <$> priority_shares o ≡ₚ det <$> filter q rows ∧
    deferred_shares o ≡ₚ det <$> filter (λ r, ¬ q r) rows.
Proof.
  intros H. apply main_ok in H as (p & Hp & ->). pose proof Hp as []. cbv zeta. exists (claims p). split; [done|].
  assert (∀ r, assigned (assignments p) r ↔ qualifies (minimum_one args) (claims p) r) as Hq by (intros; by apply assigned_qualifies).
  destruct (ledger_vaults _ _ _ _ p_ledger0) as [Hv Hk]. cbn [tables assets_total vault_rows priority_total deferred_total priority_shares deferred_shares].
  split; [by apply (total_principal args)|]. split; [by rewrite sort_str_perm, (g_assets _ _ _ _ p_ledger0)|].
  split; [by rewrite (g_total _ _ _ _ p_ledger0), zsum_with_split|]. split; [done|].
  split; [rewrite sort_str_perm, Hk; apply p_ledger0|]. split; [|split].
  - apply Forall_forall. intros v Hin. rewrite sort_str_perm in Hin. apply list_elem_of_fmap in Hin as ([k v'] & -> & Hin).
    rewrite Forall_forall in Hv. destruct (Hv _ Hin). cbn in *. rewrite vo_key0. split; [done|].
    split; [rewrite vo_priority0|split; [rewrite vo_deferred0|done]]; f_equal; apply list_filter_iff; intros r; by rewrite Hq.
  - rewrite sort_details_perm, (g_priority _ _ _ _ p_ledger0), <- list_fmap_compose. by rewrite (list_filter_iff _ _ _ Hq).
  - rewrite sort_details_perm, (g_deferred _ _ _ _ p_ledger0). by rewrite (list_filter_iff _ (λ r, ¬ qualifies (minimum_one args) (claims p) r) _ (λ r, not_iff_compat (Hq r))).
Qed.

(** Once every check before the first output file has passed, the rest of
    the script returns: the global vault total and the per-category wallet
    totals, compared after tables are already on disk, can no longer disagree. *)
Theorem late_checks_pass exists_ args p : prepare exists_ args = Ok p → ∃ o, finish p = Ok o.
Proof. intros H. apply prepare_ok in H. exists (tables args p). by apply finish_ok. Qed.

Lemma wrow_Some cs kc w : wrow cs kc = Some w →
  w_secure_key w = kc.1 ∧ w_category w = kc.2 ∧ ∃ c, dget cs kc.1 = Some c ∧ wallet c ≠ 0 ∧
  w_wallet_airdrop_atto w = str_of_Z (wallet c) ∧ w_native_wallet_airdrop_atto w = str_of_Z (wallet c - wone c) ∧
  w_wone_airdrop_atto w = str_of_Z (wone c) ∧ w_destination_address w = if decide (kc.2 = automatic) then address c else [].
Proof.
  unfold wrow. destruct (dget cs kc.1) as [c|]; cbn; [|done]. destruct (Z.eqb_spec (wallet c) 0); [done|]. intros [= <-]. cbn. eauto 10.
Qed.

Lemma omap_wrow_keys cs l : NoDup (fst <$> l) → NoDup (w_secure_key <$> omap (wrow cs) l).
Proof.
  induction l as [|kc l IH]; intros Hnd; [constructor|]. rewrite fmap_cons in Hnd. apply NoDup_cons in Hnd as [Hk Hnd].
  cbn [omap list_omap]. destruct (wrow cs kc) as [w|] eqn:Ew; [|by apply IH]. rewrite fmap_cons. constructor; [|by apply IH].
  apply wrow_Some in Ew as (-> & _). intros (w' & Hw' & (kc' & Hin & Hk')%list_elem_of_omap)%list_elem_of_fmap.
  apply wrow_Some in Hk' as (Hk' & _). apply Hk. apply list_elem_of_fmap. exists kc'. split; congruence.
Qed.

(** The wallet tables pay every qualifying claim its wallet part once: a
    claim has a row exactly when it qualifies and its wallet part is not zero,
    with its wallet amount split into native and WONE parts, addressed to the
    claim's own address in the automatic table and to nobody in the others,
    and each table adds up to the wallet total of its category. *)
Theorem wallet_tables_complete exists_ args o :
  main exists_ args = Ok o →
  ∃ cs, load_all_claims (all_claims args) = Ok cs ∧
    NoDup (w_secure_key <$> wallet_rows o) ∧
    (∀ k, k ∈ w_secure_key <$> wallet_rows o ↔
          ∃ c, dget cs k = Some c ∧ minimum_one args ≤ qualification_total c ∧ wallet c ≠ 0) ∧
    Forall (λ w, ∃ c, dget cs (w_secure_key w) = Some c ∧
              w_wallet_airdrop_atto w = str_of_Z (wallet c) ∧
              w_native_wallet_airdrop_atto w = str_of_Z (wallet c - wone c) ∧ w_wone_airdrop_atto w = str_of_Z (wone c) ∧
              0 ≤ wone c ≤ wallet c ∧
              w_destination_address w = (if decide (w_category w = automatic) then address c else [])) (wallet_rows o) ∧
    (∀ cat, zsum_with wallet_amount (wallets_of (wallet_rows o) cat) = t_wallet (totals_by_category o cat)).
Proof.
  intros H. apply main_ok in H as (p & Hp & ->). destruct Hp. exists (claims p). cbn [tables wallet_rows totals_by_category].
  split; [done|]. assert (sort_str fst (assignments p) ≡ₚ assignments p) as Hs by apply sort_str_perm.
  split; [apply omap_wrow_keys; by rewrite Hs|]. split; [|split].
  - intros k. rewrite list_elem_of_fmap. setoid_rewrite list_elem_of_omap. setoid_rewrite Hs. split.
    + intros (w & -> & [k' cat] & Hin & Hw). apply wrow_Some in Hw as (-> & _ & c & Hc & Hz & _). cbn in *. exists c. split; [done|].
      split; [|done]. destruct (proj1 (p_keys0 k')) as (c' & Hc' & Hm); [apply list_elem_of_fmap; by exists (k', cat)|congruence].
    + intros (c & Hc & Hm & Hz). assert (k ∈ dkeys (assignments p)) as (kc & -> & Hin)%list_elem_of_fmap by (apply p_keys0; eauto).
      destruct (wrow (claims p) kc) as [w|] eqn:Ew; [|unfold wrow in Ew; rewrite Hc in Ew; cbn in Ew; by destruct (Z.eqb_spec (wallet c) 0)].
      exists w. apply wrow_Some in Ew as Hw. destruct Hw as (-> & _). eauto.
  - apply Forall_forall. intros w (kc & Hin & Hw)%list_elem_of_omap. apply wrow_Some in Hw as (-> & -> & c & Hc & _ & ? & ? & ? & ?).
    exists c. rewrite Forall_forall in p_ok0. destruct (p_ok0 _ (dget_Some_elem _ _ _ Hc)) as (? & ? & ? & ? & ?). done.
  - intros cat. by rewrite wrow_sum, Hs.
Qed.

(** * Witnesses *)

Definition key_text (a : str) : str := "0x"%string ++ hex (keccak256 (default [] (fromhex (drop 2 a)))).
Definition addr1 : str := "0x1111111111111111111111111111111111111111"%string.
Definition addr2 : str := "0x2222222222222222222222222222222222222222"%string.
Definition key1 : str := Eval vm_compute in key_text addr1.
Definition key2 : str := Eval vm_compute in key_text addr2.
Definition claim_record (k a t w s : str) : list str := [k; a; t; w; s].
Definition claim1 : list str := claim_record key1 addr1 "900"%string "400"%string "500"%string.
Definition claim2 : list str := claim_record key2 addr2 "50"%string "20"%string "30"%string.

(** One claim above the threshold and one below, both staked with the first. *)
Definition sample_inputs : inputs := Eval vm_compute in
  MkInputs (csv_write (claims_required :: (if str_ltb key1 key2 then [claim1; claim2] else [claim2; claim1])))
    (csv_write [DETAIL_FIELDS; [addr1; key1; addr1; key1; "500"%string : str; "true"%string : str];
                [addr1; key1; addr2; key2; "30"%string : str; "false"%string : str]])
    (csv_write [claims_required; claim1]) (csv_write [claims_required]) (csv_write [claims_required]) 100.

Definition no_totals : totals := MkTotals 0 0 0 0 0.
Definition no_allocation : allocation := MkAllocation [] [] [] [] 0 0 0 0 0 (λ _, no_totals).
Definition sample_prepared : prepared :=
  from_ok (MkPrepared [] [] (λ _, no_totals) empty_ledger) (prepare false sample_inputs).
Definition sample_allocation : allocation := from_ok no_allocation (main false sample_inputs).

Lemma late_checks_pass_witness : prepare false sample_inputs = Ok sample_prepared ∧ ∃ o, finish sample_prepared = Ok o.
Proof.
  assert (prepare false sample_inputs = Ok sample_prepared) as E by (apply from_ok_is_ok; vm_compute; reflexivity).
  split; [exact E|]. apply (late_checks_pass _ _ _ E).
Defined.

Lemma sample_main : main false sample_inputs = Ok sample_allocation.
Proof. apply from_ok_is_ok. vm_compute. reflexivity. Qed.

Lemma vault_shares_conserve_witness :
  main false sample_inputs = Ok sample_allocation ∧
  ∃ cs, load_all_claims (all_claims sample_inputs) = Ok cs ∧ assets_total sample_allocation = zsum_with staked (dvalues cs).
Proof.
  split; [exact sample_main|]. destruct (vault_shares_conserve _ _ _ sample_main) as (cs & H1 & H2 & _). exists cs. split; assumption.
Defined.

Lemma wallet_tables_complete_witness :
  main false sample_inputs = Ok sample_allocation ∧
  ∃ cs, load_all_claims (all_claims sample_inputs) = Ok cs ∧ NoDup (w_secure_key <$> wallet_rows sample_allocation).
Proof.
  split; [exact sample_main|]. destruct (wallet_tables_complete _ _ _ sample_main) as (cs & H1 & H2 & _). exists cs. split; assumption.
Defined.
