(* ===== verification/ClaimLedger.v ===== *)
(** The claim ledger: toolkit/scripts/claims/migration-claim-csvs.py.

    The script walks two files sorted by secure key, the actual supply ledger
    and the accounts that qualified originally, side by side.  Shown here: the
    walk is a join of the two files on the key, each row is written exactly
    once, and the totals are the sums of the rows; amounts are printed exactly. *)

From S2P Require Import Prelude PyStr PyDict Csv.
Local Open Scope Z_scope.

(** * The code *)

Definition PRICE_NUMERATOR : Z := 74801.
Definition PRICE_SCALE : Z := 8.
Definition ATTO_SCALE : Z := 18.
Definition USD_SCALE : Z := ATTO_SCALE + PRICE_SCALE.
Definition ONE_USD_SCALED : Z := 10 ^ USD_SCALE.

(** The components and the ledger columns they come from. *)
Definition ACTUAL_FIELDS : list (str * str) :=
  [("liquid_shard0"%string : str, "liquid_shard0_atto"%string : str);
   ("liquid_shard1"%string : str, "liquid_shard1_atto"%string : str);
   ("liquid_total"%string : str, "liquid_total_atto"%string : str);
   ("active_staked_or_delegated"%string : str, "active_delegation_atto"%string : str);
   ("pending_undelegation"%string : str, "pending_undelegation_atto"%string : str);
   ("unclaimed_staking_reward"%string : str, "unclaimed_reward_atto"%string : str);
   ("pending_cross_shard"%string : str, "pending_cross_shard_atto"%string : str);
   ("wallet_airdrop"%string : str, "wallet_airdrop_atto"%string : str);
   ("staked_to_vault"%string : str, "staked_to_vault_atto"%string : str);
   ("total_claim"%string : str, "total_claim_atto"%string : str)].
Definition COMPONENTS : list str := fst <$> ACTUAL_FIELDS.

Definition decimal_string (value scale : Z) : result str :=
  if value <? 0 then Raise (ValueError "negative decimal value") else
  let whole := value / 10 ^ scale in
  let fraction := value mod 10 ^ scale in
  Ok (str_of_Z whole ++ "."%string ++ dec_pad (Z.to_nat scale) fraction).
Definition one_string (atto : Z) : result str := decimal_string atto ATTO_SCALE.
Definition usd_string (atto : Z) : result str := decimal_string (atto * PRICE_NUMERATOR) USD_SCALE.
Definition strict_over_one_usd (atto : Z) : bool := ONE_USD_SCALED <? atto * PRICE_NUMERATOR.

(** [sorted_rows] as an iterator: the last key and the rows not yet read. *)
Definition iterator : Type := option str * list row.
Definition next_or_none (it : iterator) : result (option row * iterator) :=
  match it with
  | (previous, []) => Ok (None, (previous, []))
  | (previous, r :: rows) =>
      key ← cell r "secure_key"%string;
      let key := lower key in
      _ ← raise_if (not_increasing previous key) (ValueError "secure keys are not strictly increasing");
      Ok (Some (<["secure_key"%string : str := key]> r), (Some key, rows))
  end.

Abbreviation values := (gmap str Z).

(** [{component: int(row[field]) ... if field in row and row[field] != ""}]. *)
Definition read_field (r : row) (v : values) (cf : str * str) : result values :=
  match r !! cf.2 with
  | None | Some [] => Ok v
  | Some text => z ← py_int text; Ok (<[cf.1 := z]> v)
  end.
Definition value (v : values) (component : str) : result Z := of_option (v !! component) (KeyError component).

(** A component given in the ledger must be what the others make it. *)
Definition expect (v : values) (ca : str * Z) : result values :=
  match v !! ca.1 with
  | Some x => if negb (x =? ca.2) then Raise (ValueError "component mismatch") else Ok (<[ca.1 := ca.2]> v)
  | None => Ok (<[ca.1 := ca.2]> v)
  end.

Definition WALLET_PARTS : list str :=
  ["liquid_shard0"%string : str; "liquid_shard1"%string : str; "pending_undelegation"%string : str;
   "unclaimed_staking_reward"%string : str; "pending_cross_shard"%string : str].

Definition actual_values (r : option row) : result values :=
  match r with
  | None => Ok (list_to_map ((λ c, (c, 0)) <$> COMPONENTS))
  | Some r =>
      v ← foldM (read_field r) ∅ ACTUAL_FIELDS;
      _ ← raise_if (existsb (λ kv : str * Z, kv.2 <? 0) (map_to_list v)) (ValueError "negative claim component");
      lt ← value v "liquid_total"%string; l0 ← value v "liquid_shard0"%string; l1 ← value v "liquid_shard1"%string;
      _ ← raise_if (negb (lt =? l0 + l1)) (ValueError "liquid total mismatch");
      parts ← mapM (value v) WALLET_PARTS;
      let wallet := zsum parts in
      staked_to_vault ← value v "active_staked_or_delegated"%string;
      let total_claim := wallet + staked_to_vault in
      v ← foldM expect v [("wallet_airdrop"%string : str, wallet); ("staked_to_vault"%string : str, staked_to_vault);
                          ("total_claim"%string : str, total_claim)];
      _ ← match r !! ("total_claim_atto"%string : str) with
          | None | Some [] => Ok ()
          | Some text => z ← py_int text; raise_if (negb (z =? total_claim)) (ValueError "legacy total claim mismatch")
          end;
      Ok v
  end.

Record args_t := MkArgs {
  actual_ledger : str; original_qualifying : str; over_one_usd : bool;
  claims_shard0_block : Z; claims_shard1_block : Z; price_reference_shard0_block : Z }.

Definition component_fields (v : values) (c : str) : result (list (str * str)) :=
  x ← value v c; o ← one_string x;
  Ok [(c ++ "_atto"%string, str_of_Z x); (c ++ "_one"%string, o)].

(** The output row; the four columns copied from the ledger are read first. *)
Definition make_claim_row (args : args_t) (r : row) (v : values) : result row :=
  address ← cell r "address"%string;
  key ← cell r "secure_key"%string;
  wallet ← value v "wallet_airdrop"%string; wallet_usd ← usd_string wallet;
  total ← value v "total_claim"%string; total_usd ← usd_string total;
  n0 ← cell r "nonce_shard0"%string; n1 ← cell r "nonce_shard1"%string;
  h0 ← cell r "code_hash_shard0"%string; h1 ← cell r "code_hash_shard1"%string;
  comps ← mapM (component_fields v) COMPONENTS;
  Ok (list_to_map (
    [("secure_key"%string : str, key); ("address"%string : str, address);
     ("address_or_secure_key"%string : str, if bool_decide (address = []) then key else address);
     ("address_resolved"%string : str, if bool_decide (address = []) then "false"%string : str else "true"%string : str);
     ("claims_shard0_block"%string : str, str_of_Z (claims_shard0_block args));
     ("claims_shard1_block"%string : str, str_of_Z (claims_shard1_block args));
     ("valuation_price_reference_shard0_block"%string : str, str_of_Z (price_reference_shard0_block args));
     ("valuation_price_usd_per_one"%string : str, "0.00074801"%string : str);
     ("wallet_airdrop_usd"%string : str, wallet_usd); ("total_usd"%string : str, total_usd);
     ("nonce_shard0"%string : str, n0); ("nonce_shard1"%string : str, n1);
     ("code_hash_shard0"%string : str, h0); ("code_hash_shard1"%string : str, h1)] ++ concat comps)).

Record stats := MkStats {
  rows : Z; rows_with_address : Z; rows_without_address : Z; components_atto : dict str Z }.
Definition new_stats : stats := MkStats 0 0 0 ((λ c, (c, 0)) <$> COMPONENTS).
Definition add_stats (s : stats) (v : values) (has_address : bool) : result stats :=
  t ← add_keys (value v) (components_atto s) COMPONENTS;
  Ok (MkStats (rows s + 1) (rows_with_address s + (if has_address then 1 else 0))
        (rows_without_address s + (if has_address then 0 else 1)) t).

(** One output file and its figures. *)
Record output := MkOutput { written : list row; figures : stats }.
Definition emit (o : output) (r : row) (v : values) (has_address : bool) : result output :=
  s ← add_stats (figures o) v has_address; Ok (MkOutput (written o ++ [r]) s).

Record state := MkState {
  all : output; over : output; original_out : output; original_liquid_total : Z; original_liquid_usd_scaled : Z }.
Definition no_output : output := MkOutput [] new_stats.
Definition init : state := MkState no_output no_output no_output 0 0.

Definition address_text (o : option row) : result (list str) :=
  match o with None => Ok [] | Some r => a ← cell r "address"%string; Ok (if bool_decide (a = []) then [] else [a]) end.

(** The row of the supply ledger, with the address of the other file when it has none. *)
Definition resolve (actual original : option row) : result (option row) :=
  a ← address_text actual; o ← address_text original;
  let addresses := a ++ o in
  match addresses with
  | x :: rest =>
      if existsb (λ y, negb (bool_decide (lower y = lower x))) rest then Raise (ValueError "address mismatch") else
      Ok (match actual, a with
          | Some r, [] => Some (<["address"%string : str := x]> r)
          | _, _ => actual end)
  | [] => Ok actual
  end.

Definition write_all (args : args_t) (s : state) (actual : option row) : result state :=
  match actual with
  | None => Ok s
  | Some r =>
      v ← actual_values (Some r);
      claim_row ← make_claim_row args r v;
      address ← cell r "address"%string;
      let has_address := negb (bool_decide (address = [])) in
      a ← emit (all s) claim_row v has_address;
      total ← value v "total_claim"%string;
      o ← if over_one_usd args && strict_over_one_usd total then emit (over s) claim_row v has_address else Ok (over s);
      Ok (MkState a o (original_out s) (original_liquid_total s) (original_liquid_usd_scaled s))
  end.

Definition base_row (key : str) (actual : option row) (original : row) : result row :=
  oa ← cell original "address"%string;
  let base := match actual with
              | Some r => r
              | None => list_to_map [("secure_key"%string : str, key); ("address"%string : str, oa); ("nonce_shard0"%string : str, []);
                          ("nonce_shard1"%string : str, []); ("code_hash_shard0"%string : str, []); ("code_hash_shard1"%string : str, [])]
              end in
  ba ← cell base "address"%string;
  Ok (if bool_decide (ba = []) && negb (bool_decide (oa = [])) then <["address"%string : str := oa]> base else base).

Definition write_original (args : args_t) (s : state) (key : str) (actual original : option row) : result state :=
  match original with
  | None => Ok s
  | Some o =>
      v ← actual_values actual;
      base ← base_row key actual o;
      original_row ← make_claim_row args base v;
      original0 ← int_cell o "balance_shard_0_atto"%string;
      original1 ← int_cell o "balance_shard_1_atto"%string;
      original_total ← int_cell o "balance_total_atto"%string;
      _ ← raise_if (negb (original_total =? original0 + original1)) (ValueError "original liquid mismatch");
      s0 ← one_string original0; s1 ← one_string original1; st ← one_string original_total; u ← usd_string original_total;
      address ← cell base "address"%string;
      out ← emit (original_out s)
              (list_to_map [("original_liquid_shard0_atto"%string : str, str_of_Z original0);
                 ("original_liquid_shard1_atto"%string : str, str_of_Z original1);
                 ("original_liquid_total_atto"%string : str, str_of_Z original_total);
                 ("original_liquid_shard0_one"%string : str, s0); ("original_liquid_shard1_one"%string : str, s1);
                 ("original_liquid_total_one"%string : str, st); ("original_liquid_usd"%string : str, u)] ∪ original_row)
              v (negb (bool_decide (address = [])));
      Ok (MkState (all s) (over s) out (original_liquid_total s + original_total)
            (original_liquid_usd_scaled s + original_total * PRICE_NUMERATOR))
  end.

(** One secure key: what both files say of it. *)
Definition process (args : args_t) (s : state) (key : str) (actual original : option row) : result state :=
  actual ← resolve actual original;
  s ← write_all args s actual;
  write_original args s key actual original.

Definition key_of (r : row) : str := cell_or r "secure_key"%string [].
Definition at_key (key : str) (o : option row) : option row :=
  match o with Some r => if bool_decide (key_of r = key) then Some r else None | None => None end.
Definition min_key (a o : option row) : str :=
  match a, o with
  | Some x, Some y => if str_leb (key_of x) (key_of y) then key_of x else key_of y
  | Some x, None => key_of x | None, Some y => key_of y | None, None => [] end.
Definition advance (current next : option row) (it : iterator) : result (option row * iterator) :=
  match current with Some _ => next_or_none it | None => Ok (next, it) end.

(** [while actual is not None or original is not None]. *)
Fixpoint merge_loop (fuel : nat) (args : args_t) (actual : option row) (ita : iterator) (original : option row) (ito : iterator)
    (s : state) : result state :=
  match actual, original with
  | None, None => Ok s
  | _, _ =>
      match fuel with
      | O => Raise (RuntimeError "out of fuel")
      | S fuel =>
          let key := min_key actual original in
          let current_actual := at_key key actual in
          let current_original := at_key key original in
          '(actual, ita) ← advance current_actual actual ita;
          '(original, ito) ← advance current_original original ito;
          s ← process args s key current_actual current_original;
          merge_loop fuel args actual ita original ito s
      end
  end.

(** Each turn of the loop reads a row, so a turn per row is enough. *)
Definition build (args : args_t) : result state :=
  let actual_rows := (dict_read (actual_ledger args)).2 in
  let original_rows := (dict_read (original_qualifying args)).2 in
  '(actual, ita) ← next_or_none (None, actual_rows);
  '(original, ito) ← next_or_none (None, original_rows);
  s ← merge_loop (length actual_rows + length original_rows) args actual ita original ito init;
  _ ← decimal_string (original_liquid_usd_scaled s) USD_SCALE;
  Ok s.

(** * The walk is a join *)

(** The keys of two sorted files, each once, in order. *)
Fixpoint union (a : list str) : list str → list str :=
  match a with
  | [] => λ b, b
  | x :: a' => fix go (b : list str) : list str :=
      match b with
      | [] => x :: a'
      | y :: b' => if str_ltb x y then x :: union a' (y :: b') else if str_ltb y x then y :: go b' else x :: union a' b'
      end
  end.

Lemma union_cons x a y b :
  union (x :: a) (y :: b) =
  if str_ltb x y then x :: union a (y :: b) else if str_ltb y x then y :: union (x :: a) b else x :: union a b.
Proof. done. Qed.
Lemma union_nil_r a : union a [] = a.
Proof. by destruct a. Qed.

Lemma elem_of_union a b k : k ∈ union a b ↔ k ∈ a ∨ k ∈ b.
Proof.
  revert b. induction a as [|x a IH]; intros b; [set_solver|]. induction b as [|y b IHb]; [rewrite union_nil_r; set_solver|].
  rewrite union_cons. destruct (str_ltb x y) eqn:E1; [rewrite elem_of_cons, IH; set_solver|].
  destruct (str_ltb y x) eqn:E2; [rewrite elem_of_cons, IHb; set_solver|].
  assert (x = y) as -> by by apply str_eq_of_ltb. rewrite elem_of_cons, IH. set_solver.
Qed.

Lemma increasing_inv k ks : increasing (k :: ks) → increasing ks ∧ ∀ k', k' ∈ ks → str_ltb k k' = true.
Proof. intros H. inversion_clear H as [|?? Hs Hall]. by rewrite Forall_forall in Hall. Qed.

Lemma increasing_cons k ks : increasing ks → (∀ k', k' ∈ ks → str_ltb k k' = true) → increasing (k :: ks).
Proof. intros H1 H2. constructor; [done|]. by apply Forall_forall. Qed.

Lemma increasing_union a b : increasing a → increasing b → increasing (union a b).
Proof.
  revert b. induction a as [|x a IH]; intros b Ha Hb; [done|]. induction b as [|y b IHb]; [by rewrite union_nil_r|].
  apply increasing_inv in Ha as Ha'. destruct Ha' as [Ha1 Ha2]. apply increasing_inv in Hb as Hb'. destruct Hb' as [Hb1 Hb2].
  rewrite union_cons. destruct (str_ltb x y) eqn:E1; [|destruct (str_ltb y x) eqn:E2].
  - apply increasing_cons; [by apply IH|]. intros k [Hk|[-> |Hk]%elem_of_cons]%elem_of_union; eauto using str_ltb_trans.
  - apply increasing_cons; [by apply IHb|]. intros k [[-> |Hk]%elem_of_cons|Hk]%elem_of_union; eauto using str_ltb_trans.
  - assert (x = y) as -> by by apply str_eq_of_ltb. apply increasing_cons; [by apply IH|].
    intros k [Hk|Hk]%elem_of_union; eauto.
Qed.

Definition fix_key (r : row) : row := <["secure_key"%string : str := lower (cell_or r "secure_key"%string [])]> r.
Definition find_key (k : str) (l : list row) : option row := head (filter (λ r, key_of r = k) l).

Lemma find_key_cons k r l : find_key k (r :: l) = if decide (key_of r = k) then Some r else find_key k l.
Proof. unfold find_key. by destruct (decide (key_of r = k)); [rewrite filter_cons_True|rewrite filter_cons_False]. Qed.

Definition has_key (r : row) : Prop := is_Some (r !! ("secure_key"%string : str)).
Definition keys (raw : list row) : list str := key_of <$> (fix_key <$> raw).

(** A file [sorted_rows] accepts, after the key [previous]. *)
Definition sorted_file (previous : option str) (raw : list row) : Prop :=
  Forall has_key raw ∧ increasing (keys raw) ∧
  match previous, raw with Some p, r :: _ => str_ltb p (key_of (fix_key r)) = true | _, _ => True end.

Definition seen (previous : option str) (raw : list row) : iterator :=
  match raw with [] => (previous, []) | r :: t => (Some (key_of (fix_key r)), t) end.

Lemma key_of_fix r : key_of (fix_key r) = lower (cell_or r "secure_key"%string []).
Proof. unfold key_of, fix_key, cell_or at 1. by rewrite lookup_insert_eq. Qed.

Lemma next_sorted previous raw :
  sorted_file previous raw → next_or_none (previous, raw) = Ok (head (fix_key <$> raw), seen previous raw).
Proof.
  intros (Hk & Hi & Hp). destruct raw as [|r t]; [done|]. inversion_clear Hk as [|?? [x Hx] _]. cbn [next_or_none].
  assert (cell r "secure_key"%string = Ok x) as E by (unfold cell; by rewrite Hx). rewrite E. cbn [mbind result_bind].
  rewrite key_of_fix in Hp. rewrite (cell_cell_or _ _ [] _ E) in Hp.
  assert (not_increasing previous (lower x) = false) as ->.
  { destruct previous as [p|]; [|done]. cbn. unfold str_ltb in Hp. rewrite bytes_ltb_negb_leb in Hp. unfold str_leb. by destruct (bytes_leb _ _). }
  cbn [raise_if mbind result_bind head fmap list_fmap seen]. rewrite key_of_fix. unfold fix_key. by rewrite (cell_cell_or _ _ [] _ E).
Qed.

Lemma sorted_tail previous r t : sorted_file previous (r :: t) → sorted_file (Some (key_of (fix_key r))) t.
Proof.
  intros (Hk & Hi & _). inversion_clear Hk as [|?? _ Hk']. apply increasing_inv in Hi as [Hi Hlt]. split; [done|]. split; [done|].
  destruct t as [|r' t]; [done|]. apply Hlt. unfold keys. cbn. set_solver.
Qed.

(** The join: every key of either file, with its rows. *)
Definition join (args : args_t) (a o : list row) (s : state) (k : str) : result state :=
  process args s k (find_key k a) (find_key k o).

Lemma join_eq args a o s k : join args a o s k = process args s k (find_key k a) (find_key k o).
Proof. done. Qed.

Lemma join_tail args r a o s ks :
  (∀ k, k ∈ ks → k ≠ key_of r) → foldM (join args (r :: a) o) s ks = foldM (join args a o) s ks.
Proof. intros H. apply foldM_ext. intros s' k Hk. unfold join. by rewrite find_key_cons, decide_False by (intros E; by apply (H k)). Qed.

Lemma join_tail_r args r a o s ks :
  (∀ k, k ∈ ks → k ≠ key_of r) → foldM (join args a (r :: o)) s ks = foldM (join args a o) s ks.
Proof. intros H. apply foldM_ext. intros s' k Hk. unfold join. by rewrite find_key_cons, decide_False by (intros E; by apply (H k)). Qed.

Lemma find_key_head r l : find_key (key_of r) (r :: l) = Some r.
Proof. by rewrite find_key_cons, decide_True. Qed.
Lemma find_key_absent k l : k ∉ key_of <$> l → find_key k l = None.
Proof.
  induction l as [|r l IH]; intros H; [done|]. rewrite find_key_cons. rewrite fmap_cons in H. apply not_elem_of_cons in H as [H1 H2].
  rewrite decide_False by congruence. by apply IH.
Qed.


Lemma advance_read previous r t x y :
  sorted_file previous (r :: t) →
  advance (Some x) y (Some (key_of (fix_key r)), t) = Ok (head (fix_key <$> t), seen (Some (key_of (fix_key r))) t).
Proof. intros H. apply next_sorted. by eapply sorted_tail. Qed.

Lemma advance_none y it : advance None y it = Ok (y, it).
Proof. done. Qed.

Lemma sorted_later previous r t k : sorted_file previous (r :: t) → k ∈ keys t → str_ltb (key_of (fix_key r)) k = true.
Proof. intros (_ & Hi & _) Hk. by apply (increasing_inv _ _ Hi). Qed.

Lemma keys_head r t : key_of (fix_key r) ∈ keys (r :: t).
Proof. apply list_elem_of_here. Qed.

Lemma at_key_eq k r : key_of r = k → at_key k (Some r) = Some r.
Proof. intros <-. cbn. by rewrite bool_decide_eq_true_2. Qed.
Lemma at_key_ne k r : key_of r ≠ k → at_key k (Some r) = None.
Proof. intros H. cbn. by rewrite bool_decide_eq_false_2. Qed.

Lemma merge_loop_original n args a ita o ito s :
  merge_loop (S n) args a ita (Some o) ito s =
  (let key := min_key a (Some o) in
   '(a', ita) ← advance (at_key key a) a ita;
   '(o', ito) ← advance (at_key key (Some o)) (Some o) ito;
   s ← process args s key (at_key key a) (at_key key (Some o)); merge_loop n args a' ita o' ito s).
Proof. by destruct a. Qed.

Section turns.
Context (n : nat) (args : args_t).

(** What the loop does from two files, and what is shown of it. *)
Definition from_files pa raw_a po raw_o s m : result state :=
  merge_loop m args (head (fix_key <$> raw_a)) (seen pa raw_a) (head (fix_key <$> raw_o)) (seen po raw_o) s.
Definition joined raw_a raw_o s : result state :=
  foldM (join args (fix_key <$> raw_a) (fix_key <$> raw_o)) s (union (keys raw_a) (keys raw_o)).
Hypothesis IH : ∀ pa raw_a po raw_o s, sorted_file pa raw_a → sorted_file po raw_o →
  (length raw_a + length raw_o ≤ n)%nat → from_files pa raw_a po raw_o s n = joined raw_a raw_o s.

(** The next key is in the first file only. *)
Lemma turn_actual pa a ta po raw_o s :
  sorted_file pa (a :: ta) → sorted_file po raw_o → (length (a :: ta) + length raw_o ≤ S n)%nat →
  (∀ k, k ∈ keys raw_o → str_ltb (key_of (fix_key a)) k = true) →
  from_files pa (a :: ta) po raw_o s (S n) = joined (a :: ta) raw_o s.
Proof.
  intros Ha Ho Hn Hlt. unfold from_files, joined.
  assert (min_key (Some (fix_key a)) (head (fix_key <$> raw_o)) = key_of (fix_key a)) as Hmin.
  { destruct raw_o as [|o to]; [done|]. cbn. rewrite str_ltb_leb. rewrite str_ltb_antisym; [done|]. apply Hlt, keys_head. }
  assert (at_key (key_of (fix_key a)) (head (fix_key <$> raw_o)) = None) as Hat.
  { destruct raw_o as [|o to]; [done|]. apply at_key_ne. apply not_eq_sym, str_ltb_ne, Hlt, keys_head. }
  assert (union (keys (a :: ta)) (keys raw_o) = key_of (fix_key a) :: union (keys ta) (keys raw_o)) as ->.
  { destruct raw_o as [|o to]; [by rewrite !union_nil_r|]. unfold keys at 1 2. cbn [fmap list_fmap]. rewrite union_cons, Hlt; [done|apply keys_head]. }
  cbn [foldM]. rewrite join_eq, fmap_cons, find_key_head.
  rewrite find_key_absent by (intros Hin; specialize (Hlt _ Hin); by rewrite str_ltb_irrefl in Hlt).
  cbn [merge_loop head seen]. rewrite Hmin, Hat, at_key_eq, (advance_read pa) by done. cbn [mbind result_bind advance].
  destruct (process args s _ _ _) as [s'|]; [|done]. cbn [mbind result_bind].
  rewrite join_tail; [apply (IH (Some (key_of (fix_key a)))); [by eapply sorted_tail|done|simpl in *; lia]|].
  intros k [Hk|Hk]%elem_of_union; apply not_eq_sym, str_ltb_ne; [by eapply sorted_later|by apply Hlt].
Qed.

(** The next key is in the second file only. *)
Lemma turn_original pa raw_a po o to s :
  sorted_file pa raw_a → sorted_file po (o :: to) → (length raw_a + length (o :: to) ≤ S n)%nat →
  (∀ k, k ∈ keys raw_a → str_ltb (key_of (fix_key o)) k = true) →
  from_files pa raw_a po (o :: to) s (S n) = joined raw_a (o :: to) s.
Proof.
  intros Ha Ho Hn Hlt. unfold from_files, joined.
  assert (min_key (head (fix_key <$> raw_a)) (Some (fix_key o)) = key_of (fix_key o)) as Hmin.
  { destruct raw_a as [|a ta]; [done|]. cbn. by rewrite str_ltb_leb, Hlt by apply keys_head. }
  assert (at_key (key_of (fix_key o)) (head (fix_key <$> raw_a)) = None) as Hat.
  { destruct raw_a as [|a ta]; [done|]. apply at_key_ne. apply not_eq_sym, str_ltb_ne, Hlt, keys_head. }
  assert (union (keys raw_a) (keys (o :: to)) = key_of (fix_key o) :: union (keys raw_a) (keys to)) as ->.
  { destruct raw_a as [|a ta]; [done|]. unfold keys at 1 2. cbn [fmap list_fmap].
    rewrite union_cons, str_ltb_antisym, Hlt; [done|apply keys_head|apply Hlt, keys_head]. }
  cbn [foldM]. rewrite join_eq, fmap_cons, find_key_head.
  rewrite find_key_absent by (intros Hin; specialize (Hlt _ Hin); by rewrite str_ltb_irrefl in Hlt).
  assert (∀ s', from_files pa raw_a (Some (key_of (fix_key o))) to s' n = joined raw_a to s') as Hrest.
  { intros s'. apply IH; [done|by eapply sorted_tail|simpl in *; lia]. }
  unfold from_files, joined in Hrest. set (A := head (fix_key <$> raw_a)) in *. set (B := seen pa raw_a) in *.
  assert (merge_loop (S n) args A B (head (fix_key o :: (fix_key <$> to))) (seen po (o :: to)) s
          = (s' ← process args s (key_of (fix_key o)) None (Some (fix_key o));
             merge_loop n args A B (head (fix_key <$> to)) (seen (Some (key_of (fix_key o))) to) s')) as ->.
  { cbn [head seen]. rewrite merge_loop_original. cbv zeta. rewrite Hmin, Hat, at_key_eq, advance_none by done. cbn [mbind result_bind].
    by rewrite (advance_read po). }
  destruct (process args s _ _ _) as [s'|]; [|done]. cbn [mbind result_bind]. rewrite Hrest, join_tail_r; [done|].
  intros k [Hk|Hk]%elem_of_union; apply not_eq_sym, str_ltb_ne; [by apply Hlt|by eapply sorted_later].
Qed.

(** The next key is in both. *)
Lemma turn_both pa a ta po o to s :
  sorted_file pa (a :: ta) → sorted_file po (o :: to) → (length (a :: ta) + length (o :: to) ≤ S n)%nat →
  key_of (fix_key a) = key_of (fix_key o) →
  from_files pa (a :: ta) po (o :: to) s (S n) = joined (a :: ta) (o :: to) s.
Proof.
  intros Ha Ho Hn He. unfold from_files, joined.
  assert (union (keys (a :: ta)) (keys (o :: to)) = key_of (fix_key a) :: union (keys ta) (keys to)) as ->.
  { unfold keys. cbn [fmap list_fmap]. by rewrite union_cons, He, !str_ltb_irrefl. }
  cbn [foldM]. rewrite join_eq, !fmap_cons, find_key_head. rewrite He at 2. rewrite find_key_head.
  cbn [merge_loop head min_key seen]. rewrite He, str_ltb_leb, str_ltb_irrefl. cbn [negb].
  rewrite !at_key_eq by done. pose proof (advance_read pa a ta (fix_key a) (Some (fix_key a)) Ha) as Hadv. rewrite He in Hadv.
  rewrite Hadv. cbn [mbind result_bind].
  rewrite (advance_read po) by done. cbn [mbind result_bind].
  destruct (process args s _ _ _) as [s'|]; [|done]. cbn [mbind result_bind].
  rewrite join_tail, join_tail_r.
  - apply (IH (Some (key_of (fix_key o))) _ (Some (key_of (fix_key o)))); [rewrite <- He; by eapply sorted_tail|by eapply sorted_tail|simpl in *; lia].
  - intros k [Hk|Hk]%elem_of_union; apply not_eq_sym, str_ltb_ne; [rewrite <- He|]; by eapply sorted_later.
  - intros k [Hk|Hk]%elem_of_union; apply not_eq_sym, str_ltb_ne; [|rewrite He]; by eapply sorted_later.
Qed.

End turns.

Lemma merge_loop_join n args pa raw_a po raw_o s :
  sorted_file pa raw_a → sorted_file po raw_o → (length raw_a + length raw_o ≤ n)%nat →
  from_files args pa raw_a po raw_o s n = joined args raw_a raw_o s.
Proof.
  revert pa raw_a po raw_o s. induction n as [|n IH]; intros pa raw_a po raw_o s Ha Ho Hn.
  { destruct raw_a, raw_o; [done|simpl in Hn; lia..]. }
  destruct raw_a as [|a ta], raw_o as [|o to]; 
    [done|by apply turn_original; try done; intros k Hk%not_elem_of_nil|by apply turn_actual; try done; intros k Hk%not_elem_of_nil|].
  destruct (str_ltb (key_of (fix_key a)) (key_of (fix_key o))) eqn:E1; [|destruct (str_ltb (key_of (fix_key o)) (key_of (fix_key a))) eqn:E2].
  - apply turn_actual; try done. intros k [-> |Hk]%elem_of_cons; [done|]. eapply str_ltb_trans; [done|by eapply sorted_later].
  - apply turn_original; try done. intros k [-> |Hk]%elem_of_cons; [done|]. eapply str_ltb_trans; [done|by eapply sorted_later].
  - apply turn_both; try done. by apply str_eq_of_ltb.
Qed.

(** * A walk that ends has read sorted files *)

Lemma next_sorted_inv it a it' :
  next_or_none it = Ok (a, it') → sorted_file it'.1 it'.2 → (a = None → it'.2 = []) ∧ sorted_file it.1 it.2.
Proof.
  destruct it as [previous [|r t]]; cbn [next_or_none]; intros H (Hk & Hi & Hlt).
  - inv_ok. injection H as <- <-. done.
  - inv_ok. injection H as <- <-. cbn [fst snd] in *. split; [done|].
    match goal with H : cell r _ = Ok _ |- _ => rename H into E end.
    assert (key_of (fix_key r) = lower a0) as Hkey by (rewrite key_of_fix; by rewrite (cell_cell_or _ _ [] _ E)).
    split; [constructor; [|done]; unfold has_key; unfold cell in E; by destruct (r !! _)|].
    unfold keys in *. cbn [fmap list_fmap]. rewrite Hkey. split.
    + destruct t as [|r' t]; [repeat constructor|]. apply increasing_cons; [done|]. cbn [fmap list_fmap] in *.
      apply increasing_inv in Hi as [_ Hi]. intros k [-> |Hk']%elem_of_cons; [done|]. eapply str_ltb_trans; [done|by apply Hi].
    + destruct previous as [p|]; [|done]. match goal with H : not_increasing _ _ = false |- _ => cbn in H; by apply str_leb_false in H end.
Qed.

Lemma advance_sorted_inv c a it a' it' :
  advance c a it = Ok (a', it') → (a = None → it.2 = []) →
  (a' = None → it'.2 = []) ∧ (sorted_file it'.1 it'.2 → sorted_file it.1 it.2).
Proof.
  destruct c as [x|]; cbn [advance]; intros H Hn.
  - split; [|intros Hs; by apply (next_sorted_inv _ _ _ H)].
    destruct it as [p [|r t]]; cbn [next_or_none] in H; inv_ok; by injection H as <- <-.
  - inv_ok. by injection H as <- <-.
Qed.

Lemma merge_loop_sorted n args a ita o ito s s' :
  merge_loop n args a ita o ito s = Ok s' → (a = None → ita.2 = []) → (o = None → ito.2 = []) →
  sorted_file ita.1 ita.2 ∧ sorted_file ito.1 ito.2.
Proof.
  revert a ita o ito s. induction n as [|n IH]; intros a ita o ito s H Ha Ho.
  all: assert (∀ p, sorted_file p []) as Hnil by (intros p; split; [constructor|]; split; [constructor|by destruct p]).
  - destruct a, o; cbn in H; try discriminate. rewrite Ha, Ho by done. auto.
  - assert ((a = None ∧ o = None) ∨ ∃ a' ita' o' ito' ca co s1, advance ca a ita = Ok (a', ita') ∧ advance co o ito = Ok (o', ito') ∧
              merge_loop n args a' ita' o' ito' s1 = Ok s') as [[-> ->]|(a' & ita' & o' & ito' & ca & co & s1 & H1 & H2 & H3)].
    { destruct a, o; [right..|by left]; cbn [merge_loop] in H; inv_ok; eauto 20. }
    + rewrite Ha, Ho by done. auto.
    + apply advance_sorted_inv in H1 as [Ha' Hsa]; [|done]. apply advance_sorted_inv in H2 as [Ho' Hso]; [|done].
      destruct (IH _ _ _ _ _ H3 Ha' Ho') as [? ?]. auto.
Qed.

Lemma build_join args s :
  build args = Ok s ↔
  let a := (dict_read (actual_ledger args)).2 in
  let o := (dict_read (original_qualifying args)).2 in
  sorted_file None a ∧ sorted_file None o ∧ joined args a o init = Ok s ∧ is_ok (decimal_string (original_liquid_usd_scaled s) USD_SCALE) = true.
Proof.
  unfold build. cbv zeta. set (a := (dict_read _).2). set (o := (dict_read _).2). clearbody a o. split.
  - intros H. destruct (next_or_none (None, a)) as [[x ita]|] eqn:Ea; [|discriminate]. cbn [mbind result_bind] in H.
    destruct (next_or_none (None, o)) as [[y ito]|] eqn:Eo; [|discriminate]. cbn [mbind result_bind] in H.
    apply bind_Ok_inv in H as (s' & Hl & H). apply bind_Ok_inv in H as (t & Ht & H). inv_ok. subst s'.
    assert (∀ raw x it, next_or_none (None, raw) = Ok (x, it) → x = None → it.2 = []) as Hn.
    { intros [|r t'] ? ? E; cbn [next_or_none] in E; inv_ok; by injection E as <- <-. }
    destruct (merge_loop_sorted _ _ _ _ _ _ _ _ Hl) as [Hsa Hso]; [by eapply Hn|by eapply Hn|].
    apply (next_sorted_inv _ _ _ Ea) in Hsa as [_ Hsa]. apply (next_sorted_inv _ _ _ Eo) in Hso as [_ Hso]. cbn [fst snd] in *.
    split; [done|]. split; [done|]. rewrite next_sorted in Ea, Eo by done. inv_ok. injection Ea as <- <-. injection Eo as <- <-.
    rewrite <- (merge_loop_join (length a + length o)) with (pa := None) (po := None) by done. split; [exact Hl|by rewrite Ht].
  - intros (Ha & Ho & Hj & Hd). rewrite !next_sorted by done. cbn [mbind result_bind].
    rewrite <- (merge_loop_join (length a + length o)) with (pa := None) (po := None) in Hj by done. unfold from_files in Hj. rewrite Hj.
    cbn [mbind result_bind]. by destruct (decimal_string _ _).
Qed.

(** * The amounts *)

(** What a row of the supply ledger is owed. *)
Definition wallet_part (r : row) : Z :=
  num r "liquid_shard0_atto"%string + num r "liquid_shard1_atto"%string + num r "pending_undelegation_atto"%string
  + num r "unclaimed_reward_atto"%string + num r "pending_cross_shard_atto"%string.
Definition staked_part (r : row) : Z := num r "active_delegation_atto"%string.
Definition claim_total (r : row) : Z := wallet_part r + staked_part r.

Lemma read_fields_ok r v c z f :
  foldM (read_field r) ∅ ACTUAL_FIELDS = Ok v → dget ACTUAL_FIELDS c = Some f → value v c = Ok z → num r f = z.
Proof.
  intros H Hf Hz. assert (∀ c z, v !! c = Some z → ∃ f, (c, f) ∈ ACTUAL_FIELDS ∧ int_cell r f = Ok z) as Hall.
  { assert (NoDup (dkeys ACTUAL_FIELDS)) as Hnd by compute_decide. clear Hz Hf Hnd.
    revert H. generalize ACTUAL_FIELDS. intros l.
    apply (foldM_inv (λ pre v, ∀ c z, v !! c = Some z → ∃ f, (c, f) ∈ pre ∧ int_cell r f = Ok z)); [by intros ? ? ?%lookup_empty_Some|].
    intros pre [c' f'] v0 v1 IH H c1 z1 Hl. unfold read_field in H. cbn [fst snd] in H.
    destruct (r !! f') as [[|ch text]|] eqn:Er; inv_ok; subst v1; [destruct (IH _ _ Hl) as (f1 & ? & ?); exists f1; set_solver| |destruct (IH _ _ Hl) as (f1 & ? & ?); exists f1; set_solver].
    apply lookup_insert_Some in Hl as [[<- <-]|[_ Hl]]; [|destruct (IH _ _ Hl) as (f1 & ? & ?); exists f1; set_solver].
    exists f'. split; [set_solver|]. unfold int_cell, cell. rewrite Er. done. }
  unfold value in Hz. inv_ok. subst. match goal with H : v !! c = Some _ |- _ => destruct (Hall _ _ H) as (f' & Hin & Hi) end.
  apply dget_elem in Hin; [|compute_decide]. rewrite Hf in Hin. injection Hin as <-. by apply int_cell_num.
Qed.

Lemma expect_ok v ca v' : expect v ca = Ok v' → v' = <[ca.1 := ca.2]> v.
Proof. unfold expect. intros H. destruct (v !! ca.1); inv_ok; done. Qed.

Lemma actual_values_ok r v :
  actual_values (Some r) = Ok v →
  value v "wallet_airdrop"%string = Ok (wallet_part r) ∧ value v "staked_to_vault"%string = Ok (staked_part r) ∧
  value v "total_claim"%string = Ok (claim_total r).
Proof.
  unfold actual_values. intros H. apply bind_Ok_inv in H as (v0 & Hv0 & H). inv_ok. subst v.
  match goal with H : foldM expect _ _ = Ok _ |- _ => cbn [foldM] in H; inv_ok; rename H into Hx end. subst.
  repeat match goal with H : expect _ _ = Ok _ |- _ => apply expect_ok in H; cbn [fst snd] in H; subst end.
  match goal with H : mapM _ WALLET_PARTS = Ok _ |- _ => unfold WALLET_PARTS in H; cbn [mapM] in H end. inv_ok. subst.
  repeat match goal with H : value v0 _ = Ok _ |- _ => eapply read_fields_ok in H; [|exact Hv0|reflexivity] end.
  unfold claim_total, wallet_part, staked_part, value. subst.
  split_and!; repeat (rewrite lookup_insert_ne by done); rewrite lookup_insert_eq; cbn; f_equal; lia.
Qed.

Lemma resolve_ok a o a' :
  resolve a o = Ok a' →
  match a, a' with
  | None, None => True
  | Some r, Some r' => key_of r' = key_of r ∧ wallet_part r' = wallet_part r ∧ staked_part r' = staked_part r
  | _, _ => False end.
Proof.
  unfold resolve. intros H. inv_ok. destruct (_ ++ _) as [|x rest]; inv_ok; subst a'; [by destruct a|].
  destruct a as [r|]; [|done]. match goal with |- context [match ?l with [] => _ | _ => _ end] => destruct l end; [|done].
  assert (∀ k : str, k ≠ "address"%string → (<["address"%string : str := x]> r) !! k = r !! k) as Hne.
  { intros k Hk. by rewrite lookup_insert_ne. }
  unfold key_of, wallet_part, staked_part, num, int_cell, cell, cell_or. rewrite !Hne by done. done.
Qed.

Lemma make_claim_row_key args r v r' : make_claim_row args r v = Ok r' → key_of r' = key_of r ∧ cell r' "address"%string = cell r "address"%string.
Proof.
  unfold make_claim_row. intros H. inv_ok. subst r'. split.
  - unfold key_of at 1, cell_or at 1. cbn [app list_to_map foldr]. rewrite lookup_insert_eq. cbn. symmetry. by apply cell_cell_or.
  - unfold cell at 1. cbn [app list_to_map foldr]. rewrite lookup_insert_ne, lookup_insert_eq by done. cbn. by symmetry.
Qed.

(** A component's total in the figures of a file. *)
Definition total (o : output) (c : str) : option Z := dget (components_atto (figures o)) c.

Lemma emit_ok o r v h o' c t x :
  emit o r v h = Ok o' → c ∈ COMPONENTS → total o c = Some t → value v c = Ok x →
  written o' = written o ++ [r] ∧ total o' c = Some (t + x) ∧ rows (figures o') = rows (figures o) + 1 ∧
  rows_with_address (figures o') + rows_without_address (figures o')
  = rows_with_address (figures o) + rows_without_address (figures o) + 1.
Proof.
  unfold emit, add_stats, total. intros H Hc Ht Hx. inv_ok. subst. cbn [figures written components_atto rows rows_with_address rows_without_address].
  split; [done|]. split; [|split; [done|destruct h; lia]].
  match goal with H : add_keys _ _ _ = Ok _ |- _ => eapply add_keys_spec in H; [|compute_decide|exact Ht] end.
  rewrite decide_True in * by done. by rewrite Hx in *.
Qed.

Definition WALLET : str := "wallet_airdrop"%string.
Definition STAKED : str := "staked_to_vault"%string.
Definition TOTAL : str := "total_claim"%string.

(** A file whose rows have the keys [ks] and whose three totals are [w], [s] and their sum. *)
Record holds (o : output) (ks : list str) (w s : Z) : Prop := {
  h_keys : key_of <$> written o = ks;
  h_rows : rows (figures o) = zlen ks;
  h_split : rows_with_address (figures o) + rows_without_address (figures o) = zlen ks;
  h_wallet : total o WALLET = Some w;
  h_staked : total o STAKED = Some s;
  h_total : total o TOTAL = Some (w + s) }.

Lemma emit_holds o ks w s r v h o' x y k :
  holds o ks w s → emit o r v h = Ok o' → value v WALLET = Ok x → value v STAKED = Ok y → value v TOTAL = Ok (x + y) → key_of r = k →
  holds o' (ks ++ [k]) (w + x) (s + y).
Proof.
  intros [] He Hx Hy Ht <-.
  destruct (emit_ok _ _ _ _ _ WALLET w x He) as (Hw & Tw & Hr & Hs); [compute_decide|done|exact Hx|].
  destruct (emit_ok _ _ _ _ _ STAKED s y He) as (_ & Ts & _); [compute_decide|done|exact Hy|].
  destruct (emit_ok _ _ _ _ _ TOTAL (w + s) (x + y) He) as (_ & Tt & _); [compute_decide|done|exact Ht|].
  constructor; rewrite ?zlen_snoc; try lia; try done.
  - by rewrite Hw, fmap_app, h_keys0.
  - rewrite Tt. f_equal. lia.
Qed.

(** What an account of the ledger is owed, nothing when it is not there. *)
Definition wallet_at : option row → Z := from_option wallet_part 0.
Definition staked_at : option row → Z := from_option staked_part 0.
Definition balance_at : option row → Z := from_option (λ r, num r "balance_total_atto"%string) 0.

Lemma values_at a v :
  actual_values a = Ok v →
  value v WALLET = Ok (wallet_at a) ∧ value v STAKED = Ok (staked_at a) ∧ value v TOTAL = Ok (wallet_at a + staked_at a).
Proof.
  destruct a as [r|]; [by apply actual_values_ok|]. intros H. unfold actual_values in H. inv_ok. subst v. by vm_compute.
Qed.

Definition over_one (args : args_t) (a : option row) : bool :=
  match a with Some _ => over_one_usd args && strict_over_one_usd (wallet_at a + staked_at a) | None => false end.

Lemma write_all_ok args s a s' ks w st :
  write_all args s a = Ok s' → holds (all s) ks w st →
  holds (all s') (ks ++ match a with Some r => [key_of r] | None => [] end) (w + wallet_at a) (st + staked_at a) ∧
  key_of <$> written (over s') = (key_of <$> written (over s)) ++ (if over_one args a then option_list (key_of <$> a) else []) ∧
  original_out s' = original_out s ∧ original_liquid_total s' = original_liquid_total s ∧
  original_liquid_usd_scaled s' = original_liquid_usd_scaled s.
Proof.
  intros H Hh. destruct a as [r|]; cbn [write_all] in H; cycle 1.
  { inv_ok. subst. cbn. rewrite !app_nil_r, !Z.add_0_r. done. }
  apply bind_Ok_inv in H as (v & Hv & H). inv_ok. subst s'. cbn [all over original_out original_liquid_total original_liquid_usd_scaled].
  destruct (values_at _ _ Hv) as (Hw & Hs & Ht).
  match goal with H : make_claim_row _ _ _ = Ok _ |- _ => apply make_claim_row_key in H as [Hk _] end.
  split; [by eapply emit_holds|]. split; [|done].
  match goal with H : value v _ = Ok ?z, _ : context [strict_over_one_usd ?z] |- _ =>
    change (value v TOTAL = Ok z) in H; rewrite Ht in H; apply Ok_inj in H; subst z end.
  cbn [over_one]. destruct (over_one_usd args && _) eqn:Eo; inv_ok; subst; cbn; [|by rewrite app_nil_r].
  match goal with H : emit (over s) _ _ _ = Ok ?o |- _ => unfold emit in H; inv_ok; subst end. cbn. by rewrite fmap_app, <- Hk.
Qed.

Lemma write_original_ok args s k a o s' ks w st :
  write_original args s k a o = Ok s' → holds (original_out s) ks w st → (∀ r, a = Some r → key_of r = k) →
  all s' = all s ∧ over s' = over s ∧ original_liquid_total s' = original_liquid_total s + balance_at o ∧
  original_liquid_usd_scaled s' = original_liquid_usd_scaled s + balance_at o * PRICE_NUMERATOR ∧
  match o with
  | None => original_out s' = original_out s
  | Some _ => holds (original_out s') (ks ++ [k]) (w + wallet_at a) (st + staked_at a) end.
Proof.
  intros H Hh Hkey. destruct o as [r|]; cbn [write_original] in H; cycle 1.
  { inv_ok. subst. cbn. split_and!; try done; lia. }
  apply bind_Ok_inv in H as (v & Hv & H). inv_ok. subst s'. cbn [all over original_out original_liquid_total original_liquid_usd_scaled].
  destruct (values_at _ _ Hv) as (Hw & Hs & Ht). cells. cbn [balance_at from_option].
  split; [done|]. split; [done|]. split; [lia|]. split; [lia|]. eapply emit_holds; try done.
  match goal with H : make_claim_row _ _ _ = Ok _ |- _ => apply make_claim_row_key in H as [Hk _] end.
  unfold key_of at 1, cell_or. rewrite lookup_union_r by (by vm_compute). fold (cell_or a1 "secure_key"%string []). change (key_of a1 = k).
  rewrite Hk. match goal with H : base_row _ _ _ = Ok ?b |- _ => unfold base_row in H; inv_ok; subst b end.
  destruct a as [ra|]; case_match; unfold key_of, cell_or; rewrite ?lookup_insert_ne by done; first [by apply Hkey|done].
Qed.

Section totals.
Context (args : args_t) (A O : list row).
Let a_at (k : str) : option row := find_key k A.
Let o_at (k : str) : option row := find_key k O.
Definition known (f : str → option row) (k : str) : Prop := f k ≠ None.
#[global] Instance known_dec f k : Decision (known f k).
Proof. unfold known. destruct (f k); [left|right]; congruence. Defined.

(** The outputs after the keys [pre]. *)
Record joins (pre : list str) (s : state) : Prop := {
  j_all : holds (all s) (filter (known a_at) pre) (zsum_with (wallet_at ∘ a_at) pre) (zsum_with (staked_at ∘ a_at) pre);
  j_over : key_of <$> written (over s) = filter (λ k, over_one args (a_at k) = true) pre;
  j_original : holds (original_out s) (filter (known o_at) pre)
                 (zsum_with (wallet_at ∘ a_at) (filter (known o_at) pre)) (zsum_with (staked_at ∘ a_at) (filter (known o_at) pre));
  j_liquid : original_liquid_total s = zsum_with (balance_at ∘ o_at) pre;
  j_usd : original_liquid_usd_scaled s = original_liquid_total s * PRICE_NUMERATOR }.

Lemma find_key_Some k l r : find_key k l = Some r → key_of r = k ∧ r ∈ l.
Proof. unfold find_key. intros H. apply head_Some_elem_of in H. by apply list_elem_of_filter in H. Qed.

Lemma over_one_same (a a' : option row) :
  match a, a' with
  | None, None => True
  | Some r, Some r' => key_of r' = key_of r ∧ wallet_part r' = wallet_part r ∧ staked_part r' = staked_part r
  | _, _ => False end →
  over_one args a' = over_one args a ∧ wallet_at a' = wallet_at a ∧ staked_at a' = staked_at a ∧ key_of <$> a' = key_of <$> a.
Proof.
  destruct a, a'; try done. intros (Hk & Hw & Hs). unfold over_one, wallet_at, staked_at. cbn. by rewrite Hk, Hw, Hs.
Qed.

Lemma join_step pre k s s' : joins pre s → join args A O s k = Ok s' → joins (pre ++ [k]) s'.
Proof.
  intros [] H. rewrite join_eq in H. unfold process in H. change (find_key k A) with (a_at k) in H. change (find_key k O) with (o_at k) in H.
  apply bind_Ok_inv in H as (a & Ha & H). apply bind_Ok_inv in H as (s1 & H1 & H2).
  apply resolve_ok, over_one_same in Ha as (Hov & Hw & Hs & Hk).
  assert (∀ r, a_at k = Some r → key_of r = k) as Hak by (intros r Hr; by apply (find_key_Some k A r) in Hr as [? _]).
  eapply write_all_ok in H1 as (H1a & H1b & H1c & H1d & H1e); [|exact j_all0]. rewrite <- H1c in j_original0.
  eapply write_original_ok in H2 as (H2a & H2b & H2c & H2d & H2e); [|exact j_original0|].
  2: { intros r ->. destruct (a_at k) as [r'|] eqn:E; [|done]. cbn in Hk. injection Hk as ->. by apply Hak. }
  assert (key_of <$> a = if decide (known a_at k) then Some k else None) as Hka.
  { rewrite Hk. destruct (decide (known a_at k)) as [Hn|Hn]; unfold known in Hn; destruct (a_at k) as [r|] eqn:E; try done.
    - cbn. by rewrite (Hak r).
    - by contradict Hn. }
  rewrite Hw, Hs in *. constructor; rewrite ?filter_snoc, ?zsum_with_snoc.
  - rewrite H2a. cbn. destruct a, (decide (known a_at k)); cbn in Hka; try discriminate; try injection Hka as Hka; by rewrite ?Hka in H1a.
  - rewrite H2b, H1b, j_over0, Hov, Hka. f_equal. destruct (over_one args (a_at k)) eqn:Eo; [rewrite (decide_True (P := true = true)) by done|done].
    rewrite decide_True; [done|]. unfold known. by destruct (a_at k).
  - destruct (decide (known o_at k)) as [Hn|Hn]; unfold known in Hn; destruct (o_at k) as [o|]; try done.
    + by rewrite !zsum_with_snoc.
    + by contradict Hn.
    + by rewrite !app_nil_r, H2e.
  - cbn. lia.
  - lia.
Qed.

Lemma joins_init : joins [] init.
Proof. constructor; try done; constructor; done. Qed.

End totals.

Lemma increasing_filter P `{!∀ k, Decision (P k)} ks : increasing ks → increasing (filter P ks).
Proof.
  unfold increasing. induction 1 as [|k ks Hs IH Hall]; [constructor|]. destruct (decide (P k)).
  - rewrite filter_cons_True by done. constructor; [done|]. apply Forall_forall. intros k' [_ Hk']%list_elem_of_filter.
    rewrite Forall_forall in Hall. by apply Hall.
  - by rewrite filter_cons_False.
Qed.

Lemma increasing_fmap_filter (f : row → str) P `{!∀ r, Decision (P r)} l : increasing (f <$> l) → increasing (f <$> filter P l).
Proof.
  induction l as [|r l IH]; intros Hi; [constructor|]. rewrite fmap_cons in Hi. apply increasing_inv in Hi as [Hs Hall]. destruct (decide (P r)).
  - rewrite filter_cons_True, fmap_cons by done. apply increasing_cons; [by apply IH|].
    intros k (r' & -> & [_ Hr']%list_elem_of_filter)%list_elem_of_fmap. by apply Hall, list_elem_of_fmap_2.
  - rewrite filter_cons_False by done. by apply IH.
Qed.

Lemma increasing_ext l1 l2 : increasing l1 → increasing l2 → (∀ k, k ∈ l1 ↔ k ∈ l2) → l1 = l2.
Proof.
  intros H1 H2 He. assert (AntiSymm (=) (λ a b, str_ltb a b = true)) as Ha.
  { intros x y Hxy Hyx. apply str_ltb_antisym in Hxy. congruence. }
  apply (StronglySorted_unique (λ a b, str_ltb a b = true)); [done|done|]. apply NoDup_Permutation; auto using increasing_NoDup.
Qed.

Lemma find_key_None k l : find_key k l = None ↔ k ∉ key_of <$> l.
Proof.
  split; [|apply find_key_absent]. intros H (r & -> & Hr)%list_elem_of_fmap. unfold find_key in H.
  assert (r ∈ filter (λ r', key_of r' = key_of r) l) as Hin by by apply list_elem_of_filter.
  destruct (filter _ l); [by apply not_elem_of_nil in Hin|done].
Qed.

Lemma find_key_in l r : NoDup (key_of <$> l) → r ∈ l → find_key (key_of r) l = Some r.
Proof.
  induction l as [|r' l IH]; intros Hnd Hin; [by apply not_elem_of_nil in Hin|]. rewrite fmap_cons in Hnd. apply NoDup_cons in Hnd as [Hn Hnd].
  rewrite find_key_cons. apply elem_of_cons in Hin as [-> |Hin]; [by rewrite decide_True|].
  rewrite decide_False; [by apply IH|]. intros E. apply Hn. rewrite E. by apply list_elem_of_fmap_2.
Qed.

Lemma known_keys l ks : increasing (key_of <$> l) → increasing ks → (∀ k, k ∈ key_of <$> l → k ∈ ks) →
  filter (known (λ k, find_key k l)) ks = key_of <$> l.
Proof.
  intros Hl Hks Hsub. apply increasing_ext; [by apply increasing_filter|done|]. intros k. rewrite list_elem_of_filter. unfold known.
  rewrite find_key_None. split; [intros [H _]; by apply dec_stable|intros H; split; [by intros Hn; apply Hn|by apply Hsub]].
Qed.

(** A sum over the keys is a sum over the rows. *)
Lemma sum_keys (g : row → Z) l ks : increasing (key_of <$> l) → increasing ks → (∀ k, k ∈ key_of <$> l → k ∈ ks) →
  zsum_with (from_option g 0 ∘ (λ k, find_key k l)) ks = zsum_with g l.
Proof.
  intros Hl Hks Hsub. transitivity (zsum_with (from_option g 0 ∘ (λ k, find_key k l)) (filter (known (λ k, find_key k l)) ks)).
  - rewrite zsum_with_filter. apply zsum_with_ext, Forall_forall. intros k _. unfold known. cbn. case_decide as Hd; [done|].
    by destruct (find_key k l); [contradict Hd|].
  - rewrite known_keys by done. unfold zsum_with. rewrite <- list_fmap_compose. f_equal. apply list_fmap_ext. intros i r Hr. cbn.
    apply list_elem_of_lookup_2 in Hr. by rewrite find_key_in by (done || by apply increasing_NoDup).
Qed.

Lemma over_keys args a ks : increasing (key_of <$> a) → increasing ks → (∀ k, k ∈ key_of <$> a → k ∈ ks) →
  filter (λ k, over_one args (find_key k a) = true) ks
  = if over_one_usd args then key_of <$> filter (λ r, 10 ^ 26 < claim_total r * 74801) a else [].
Proof.
  intros Ha Hks Hsub. apply increasing_ext; [by apply increasing_filter|destruct (over_one_usd args); [by apply increasing_fmap_filter|constructor]|].
  intros k. rewrite list_elem_of_filter. unfold over_one. destruct (find_key k a) as [r|] eqn:E.
  - apply find_key_Some in E as [<- Hr]. unfold strict_over_one_usd, wallet_at, staked_at. cbn [from_option].
    change ONE_USD_SCALED with (10 ^ 26). fold (claim_total r). destruct (over_one_usd args); cbn [andb]; [|set_solver].
    rewrite Z.ltb_lt, list_elem_of_fmap. split.
    + intros [Hlt _]. exists r. split; [done|]. by apply list_elem_of_filter.
    + intros (r' & Hk & [Hlt Hr']%list_elem_of_filter). assert (r' = r) as ->; [|split; [done|by apply Hsub, list_elem_of_fmap_2]].
      assert (find_key (key_of r) a = Some r) as E1 by (apply find_key_in; [by apply increasing_NoDup|done]).
      rewrite Hk, find_key_in in E1 by (done || by apply increasing_NoDup). congruence.
  - apply find_key_None in E. split; [by intros []|]. intros Hin. exfalso. apply E. destruct (over_one_usd args); [|by apply not_elem_of_nil in Hin].
    apply list_elem_of_fmap in Hin as (r & -> & [_ Hr]%list_elem_of_filter). by apply list_elem_of_fmap_2.
Qed.

(** C37: The walk over the two sorted files is their join on the secure key, and
    it terminates: the script succeeds exactly when both files have strictly
    increasing keys and handling, in increasing order, each key that occurs in
    either, with the rows the files have for it, succeeds; its result is then
    that of handling them. *)
Theorem merge_is_join args s :
  build args = Ok s ↔
  let a := (dict_read (actual_ledger args)).2 in
  let o := (dict_read (original_qualifying args)).2 in
  let ks := union (keys a) (keys o) in
  Forall has_key (a ++ o) ∧ increasing (keys a) ∧ increasing (keys o) ∧
  foldM (λ s k, process args s k (find_key k (fix_key <$> a)) (find_key k (fix_key <$> o))) init ks = Ok s ∧
  0 ≤ original_liquid_usd_scaled s.
Proof.
  rewrite build_join. cbv zeta. unfold sorted_file, decimal_string, joined, join. rewrite Forall_app.
  destruct (Z.ltb_spec (original_liquid_usd_scaled s) 0); cbn [is_ok]; split.
  - by intros (_ & _ & _ & ?).
  - intros (_ & _ & _ & _ & ?). lia.
  - intros ((? & ? & _) & (? & ? & _) & ? & _). done.
  - intros ((? & ?) & ? & ? & ? & _). done.
Qed.

(** Every account of either file gets exactly one row per file and the
    totals are exact: the "all" output has one row per account of the supply
    ledger and the "original" output one per account that qualified originally,
    both in key order; the wallet, staked and total claims reported are the sums
    of the ledger's columns, for the second file over the ledger rows of its
    accounts; the dollar output has the accounts worth more than one dollar. *)
Theorem ledger_totals_exact args s :
  build args = Ok s →
  let a := fix_key <$> (dict_read (actual_ledger args)).2 in
  let o := fix_key <$> (dict_read (original_qualifying args)).2 in
  holds (all s) (key_of <$> a) (zsum_with wallet_part a) (zsum_with staked_part a) ∧
  holds (original_out s) (key_of <$> o) (zsum_with (λ r, wallet_at (find_key (key_of r) a)) o)
    (zsum_with (λ r, staked_at (find_key (key_of r) a)) o) ∧
  key_of <$> written (over s)
  = (if over_one_usd args then key_of <$> filter (λ r, 10 ^ 26 < claim_total r * 74801) a else []) ∧
  original_liquid_total s = zsum_with (λ r, num r "balance_total_atto"%string) o ∧
  original_liquid_usd_scaled s = original_liquid_total s * 74801.
Proof.
  intros H. apply build_join in H as ((_ & Ha & _) & (_ & Ho & _) & Hj & _). cbv zeta. unfold joined, keys in *.
  set (a := fix_key <$> (dict_read (actual_ledger args)).2) in *. set (o := fix_key <$> (dict_read (original_qualifying args)).2) in *.
  set (ks := union (key_of <$> a) (key_of <$> o)) in *. clearbody a o.
  assert (increasing ks) as Hks by by apply increasing_union.
  assert (joins args a o ks s) as [].
  { revert Hj. apply foldM_inv; [apply joins_init|]. intros. by eapply join_step. }
  assert (∀ k, k ∈ key_of <$> a → k ∈ ks) as Hsa by (intros; apply elem_of_union; auto).
  assert (∀ k, k ∈ key_of <$> o → k ∈ ks) as Hso by (intros; apply elem_of_union; auto).
  cbv zeta in j_all0, j_original0, j_liquid0, j_over0.
  rewrite known_keys in j_all0, j_original0 by done. unfold wallet_at, staked_at, balance_at in j_all0, j_liquid0. 
  rewrite (sum_keys wallet_part), (sum_keys staked_part) in j_all0 by done. rewrite sum_keys in j_liquid0 by done.
  split; [done|]. split.
  { unfold zsum_with in *. rewrite <- !list_fmap_compose in j_original0. done. }
  split; [|done]. rewrite j_over0. by apply over_keys.
Qed.

(** * Witnesses *)

Definition ledger_header : list str :=
  ["secure_key"%string : str; "address"%string : str; "nonce_shard0"%string : str; "nonce_shard1"%string : str;
   "code_hash_shard0"%string : str; "code_hash_shard1"%string : str; "liquid_shard0_atto"%string : str;
   "liquid_shard1_atto"%string : str; "liquid_total_atto"%string : str; "active_delegation_atto"%string : str;
   "pending_undelegation_atto"%string : str; "unclaimed_reward_atto"%string : str; "pending_cross_shard_atto"%string : str].
Definition original_header : list str :=
  ["secure_key"%string : str; "address"%string : str; "balance_shard_0_atto"%string : str; "balance_shard_1_atto"%string : str;
   "balance_total_atto"%string : str].

(** One account in both files, one in each only; the first gets its address
    from the second file and is worth more than a dollar. *)
Definition sample_args : args_t :=
  MkArgs
    (csv_write [ledger_header;
       ["0x0A"%string : str; [] : str; "1"%string : str; [] : str; [] : str; [] : str; "2000000000000000000000"%string : str;
        "5"%string : str; "2000000000000000000005"%string : str; "30"%string : str; "0"%string : str; "2"%string : str; "1"%string : str];
       ["0x0c"%string : str; [] : str; "1"%string : str; [] : str; [] : str; [] : str; "10"%string : str;
        "0"%string : str; "10"%string : str; "0"%string : str; "0"%string : str; "0"%string : str; "0"%string : str]])
    (csv_write [original_header;
       ["0x0a"%string : str; "0xF00"%string : str; "7"%string : str; "1"%string : str; "8"%string : str];
       ["0x0b"%string : str; [] : str; "4"%string : str; "0"%string : str; "4"%string : str]])
    true 1 2 3.
Definition sample_ledger : state := from_ok init (build sample_args).

Lemma merge_is_join_witness :
  build sample_args = Ok sample_ledger ∧ increasing (keys (dict_read (actual_ledger sample_args)).2).
Proof.
  assert (build sample_args = Ok sample_ledger) as E by (apply from_ok_is_ok; vm_compute; reflexivity).
  split; [exact E|]. destruct (proj1 (merge_is_join _ _) E) as (_ & H & _). exact H.
Defined.

Lemma ledger_totals_exact_witness :
  build sample_args = Ok sample_ledger ∧ original_liquid_total sample_ledger = 12 ∧
  original_liquid_usd_scaled sample_ledger = original_liquid_total sample_ledger * 74801.
Proof.
  assert (build sample_args = Ok sample_ledger) as E by (apply from_ok_is_ok; vm_compute; reflexivity).
  split; [exact E|]. split; [vm_compute; reflexivity|]. destruct (ledger_totals_exact _ _ E) as (_ & _ & _ & _ & H). exact H.
Defined.
