(* ===== verification/Wone.v ===== *)
(** The WONE overlay: toolkit/scripts/claims/apply-wone-qualification.py.

    Holders of wrapped ONE are paid on top of their native claim when claim and
    balance together reach the threshold.  The native ledger and the rows of
    holders without a native claim are merged into one sorted ledger.  Shown
    here: each row is paid by the rule, the merged ledger is sorted and
    complete, no holder who should be paid is missing, the totals close, and
    the reserve covers what is delivered as long as the ledger lists no account
    twice, which the script does not check. *)

From S2P Require Import Prelude PyStr PyDict Csv Keccak Sha256 Bech32 Address Eligibility.
Local Open Scope Z_scope.

(** * The code *)

Definition ATTO_PER_ONE : Z := 10 ^ 18.
Definition WONE_ADDRESS : str := "0xcf664087a5bb0237a0bad6742852ec6c8d69a27a"%string.
Definition EXTRA_FIELDS : list str :=
  ["native_wallet_airdrop_atto"%string : str; "wone_balance_atto"%string : str; "wone_airdrop_atto"%string : str;
   "qualification_total_atto"%string : str; "native_total_claim_atto"%string : str; "native_wallet_airdrop_one"%string : str;
   "wone_balance_one"%string : str; "wone_airdrop_one"%string : str; "qualification_total_one"%string : str;
   "native_total_claim_one"%string : str].

Definition normalize_address (value : str) : result str :=
  address ← of_option (crl_normalize_address value) (ValueError "invalid address");
  raw ← of_option (fromhex (drop 2 address)) (ValueError "invalid address");
  if negb (length raw =? 20)%nat then Raise (ValueError "invalid address") else Ok address.

(** An exchange of the normalization summary, with the file it names; a field
    that is absent or of the wrong type is [None]. *)
Record exchange := MkExchange {
  delivery_policy : option str; output_file : option str; output_sha256 : option str; normalized_rows : option Z }.

Definition delivery_row (exchange_id : str) (st : gset str * gset str) (r : row) : result (gset str * gset str) :=
  let '(source_addresses, addresses) := st in
  id ← cell r "exchange_id"%string;
  _ ← raise_if (negb (bool_decide (id = exchange_id))) (ValueError "exchange id mismatch");
  a ← cell r "address_hex"%string;
  address ← normalize_address a;
  _ ← raise_if (bool_decide (address ∈ source_addresses)) (ValueError "duplicate address");
  _ ← raise_if (bool_decide (address ∈ addresses)) (ValueError "aggregate exchange overlap");
  Ok ({[address]} ∪ source_addresses, {[address]} ∪ addresses).

Definition delivery_exchange (addresses : gset str) (e : str * exchange) : result (gset str) :=
  let '(exchange_id, ex) := e in
  if negb (bool_decide (delivery_policy ex = Some ("manual_from_reserve"%string : str))) then Ok addresses else
  match output_file ex, output_sha256 ex, normalized_rows ex with
  | Some text, Some expected_hash, Some expected_rows =>
      _ ← raise_if (negb (bool_decide (file_sha256 text = expected_hash))) (ValueError "normalized exchange source hash mismatch");
      let '(fieldnames, rows) := dict_read text in
      _ ← raise_if (negb (has_fields ["exchange_id"%string : str; "address_hex"%string : str] fieldnames))
            (ValueError "missing normalized exchange fields");
      '(source_addresses, addresses) ← foldM (delivery_row exchange_id) (∅, addresses) rows;
      _ ← raise_if (negb (Z.of_nat (size source_addresses) =? expected_rows)) (ValueError "normalized exchange row count mismatch");
      Ok addresses
  | _, _, _ => Raise (ValueError "incomplete normalized exchange source")
  end.

Definition load_aggregate_delivery_addresses (summary : option (Z * dict str exchange)) : result (gset str) :=
  match summary with
  | None => Ok ∅
  | Some (schema_version, exchanges) =>
      _ ← raise_if (negb (schema_version =? 2)) (ValueError "unsupported exchange normalization summary");
      _ ← raise_if (bool_decide (exchanges = [])) (ValueError "exchange normalization summary has no exchanges");
      foldM delivery_exchange ∅ (sort_str fst exchanges)
  end.

Definition fixed (value : Z) : str := str_of_Z (value / ATTO_PER_ONE) ++ "."%string ++ dec_pad 18 (value mod ATTO_PER_ONE).

(** The overlay's columns go before the column they explain. *)
Definition before (field : str) : list str :=
  if bool_decide (field = "wallet_airdrop_atto"%string) then
    ["native_wallet_airdrop_atto"%string : str; "wone_balance_atto"%string : str; "wone_airdrop_atto"%string : str]
  else if bool_decide (field = "total_claim_atto"%string) then
    ["qualification_total_atto"%string : str; "native_total_claim_atto"%string : str]
  else if bool_decide (field = "wallet_airdrop_one"%string) then
    ["native_wallet_airdrop_one"%string : str; "wone_balance_one"%string : str; "wone_airdrop_one"%string : str]
  else if bool_decide (field = "total_claim_one"%string) then
    ["qualification_total_one"%string : str; "native_total_claim_one"%string : str]
  else [].
Definition output_fields (fields : list str) : result (list str) :=
  _ ← raise_if (existsb (λ f, bool_decide (f ∈ fields)) EXTRA_FIELDS) (ValueError "native input already contains WONE overlay fields");
  Ok (concat ((λ f, before f ++ [f]) <$> fields)).

(** The holders read so far; [previous] is the last address as bytes. *)
Record holder_scan := MkScan {
  previous : option bytes; holders : dict str Z; holder_rows : Z; holder_total : Z; excluded_rows : Z; excluded_atto : Z;
  excluded_holders : list (str * str) }.
Definition not_after (previous : option bytes) (raw : bytes) : bool :=
  match previous with Some p => bytes_leb raw p | None => false end.

Definition holder_step (excluded : gset str) (s : holder_scan) (r : row) : result holder_scan :=
  a ← cell r "address"%string;
  address ← normalize_address a;
  raw ← of_option (fromhex (drop 2 address)) (ValueError "non-hexadecimal number found in fromhex() arg");
  _ ← raise_if (not_after (previous s) raw) (ValueError "WONE holder addresses are not increasing");
  amount ← int_cell r "wone_balance_atto"%string;
  text ← cell r "wone_balance"%string;
  _ ← raise_if ((amount <=? 0) || negb (bool_decide (text = fixed amount))) (ValueError "invalid WONE amount");
  if bool_decide (address ∈ excluded)
  then Ok (MkScan (Some raw) (holders s) (holder_rows s + 1) (holder_total s + amount) (excluded_rows s + 1)
             (excluded_atto s + amount) (excluded_holders s ++ [(address, str_of_Z amount)]))
  else Ok (MkScan (Some raw) (dset (holders s) address amount) (holder_rows s + 1) (holder_total s + amount) (excluded_rows s)
             (excluded_atto s) (excluded_holders s)).

Definition holder_fields : list str := ["address"%string : str; "wone_balance_atto"%string : str; "wone_balance"%string : str].
Definition load_wone (text : str) (excluded : gset str) : result holder_scan :=
  let '(fieldnames, rows) := dict_read text in
  _ ← raise_if (negb (bool_decide ((list_to_set (default [] fieldnames) : gset str) = list_to_set holder_fields)))
        (ValueError "unexpected WONE fields");
  foldM (holder_step excluded) (MkScan None [] 0 0 0 0 []) rows.

Definition metadata_fields : list str :=
  ["address"%string : str; "wone_balance_atto"%string : str; "combined_total_atto"%string : str; "claim_row_present"%string : str;
   "nonce_shard0"%string : str; "code_hash_shard0"%string : str; "code_status"%string : str].

Definition metadata_step (records : dict str row) (r : row) : result (dict str row) :=
  present ← cell r "claim_row_present"%string;
  if negb (bool_decide (lower present = "false"%string)) then Ok records else
  a ← cell r "address"%string;
  address ← normalize_address a;
  _ ← raise_if (dmem records address) (ValueError "duplicate new-holder metadata");
  h ← cell r "code_hash_shard0"%string;
  _ ← raise_if (bool_decide (h = [])) (ValueError "missing code hash");
  Ok (dset records address r).

Definition load_new_holder_metadata (text : str) : result (dict str row) :=
  let '(fieldnames, rows) := dict_read text in
  _ ← raise_if (negb (has_fields metadata_fields fieldnames)) (ValueError "new-holder metadata is missing fields");
  foldM metadata_step [] rows.

Definition expected_metadata (holders : dict str Z) (native_candidate_addresses : gset str) (threshold : Z)
    (aggregate_delivery_addresses : gset str) : gset str :=
  list_to_set (fst <$> filter (λ ha : str * Z, (threshold ≤ ha.2 ∨ ha.1 ∈ aggregate_delivery_addresses)
                                               ∧ ha.1 ∉ native_candidate_addresses) holders).
Definition require_complete_new_holder_metadata (holders : dict str Z) (native_candidate_addresses metadata_addresses : gset str)
    (threshold : Z) (aggregate_delivery_addresses : gset str) : result unit :=
  raise_if (negb (bool_decide (metadata_addresses = expected_metadata holders native_candidate_addresses threshold
                                                      aggregate_delivery_addresses)))
    (ValueError "WONE-only metadata does not equal the complete delivery set").

Definition validate_native_row (r : row) : result (Z * Z * Z) :=
  native_wallet ← int_cell r "wallet_airdrop_atto"%string;
  staked ← int_cell r "staked_to_vault_atto"%string;
  native_total ← int_cell r "total_claim_atto"%string;
  liquid_total ← int_cell r "liquid_total_atto"%string;
  _ ← raise_if (Z.min (Z.min native_wallet staked) (Z.min native_total liquid_total) <? 0) (ValueError "native claim arithmetic mismatch");
  _ ← raise_if (negb (native_wallet + staked =? native_total)) (ValueError "native claim arithmetic mismatch");
  l0 ← int_cell r "liquid_shard0_atto"%string;
  l1 ← int_cell r "liquid_shard1_atto"%string;
  _ ← raise_if (negb (l0 + l1 =? liquid_total)) (ValueError "native claim arithmetic mismatch");
  Ok (native_wallet, staked, native_total).

(** [f"{amount * price // 10**s}.{amount * price % 10**s:0{s}d}"]. *)
Definition usd_text (amount price_numerator scale : Z) : str :=
  str_of_Z (amount * price_numerator / 10 ^ scale) ++ "."%string ++ dec_pad (Z.to_nat scale) (amount * price_numerator mod 10 ^ scale).

(** The columns the overlay writes. *)
Definition overlay_cells (native_wallet native_total wone wone_airdrop price_numerator scale : Z) : list (str * str) :=
  let qualification_total := native_total + wone in
  let wallet := native_wallet + wone_airdrop in
  let total := native_total + wone_airdrop in
  [("native_wallet_airdrop_atto"%string : str, str_of_Z native_wallet); ("wone_balance_atto"%string : str, str_of_Z wone);
   ("wone_airdrop_atto"%string : str, str_of_Z wone_airdrop); ("wallet_airdrop_atto"%string : str, str_of_Z wallet);
   ("qualification_total_atto"%string : str, str_of_Z qualification_total);
   ("native_total_claim_atto"%string : str, str_of_Z native_total); ("total_claim_atto"%string : str, str_of_Z total);
   ("native_wallet_airdrop_one"%string : str, fixed native_wallet); ("wone_balance_one"%string : str, fixed wone);
   ("wone_airdrop_one"%string : str, fixed wone_airdrop); ("wallet_airdrop_one"%string : str, fixed wallet);
   ("qualification_total_one"%string : str, fixed qualification_total); ("native_total_claim_one"%string : str, fixed native_total);
   ("total_claim_one"%string : str, fixed total); ("wallet_airdrop_usd"%string : str, usd_text wallet price_numerator scale);
   ("total_usd"%string : str, usd_text total price_numerator scale)].

(** [result = dict(row)] with those columns updated. *)
Definition overlay_row (native_wallet native_total wone wone_airdrop price_numerator scale : Z) (r : row) : row :=
  list_to_map (overlay_cells native_wallet native_total wone wone_airdrop price_numerator scale) ∪ r.

Definition apply_overlay (r : row) (wone threshold : Z) (aggregate_delivery : bool) : result row :=
  native_wallet ← int_cell r "wallet_airdrop_atto"%string;
  native_total ← int_cell r "total_claim_atto"%string;
  let qualification_total := native_total + wone in
  let wone_airdrop := if (threshold <=? qualification_total) || aggregate_delivery then wone else 0 in
  price ← cell r "valuation_price_usd_per_one"%string;
  let '(price_whole, dot, price_fraction) := partition "."%char price in
  _ ← raise_if (negb (isdigit price_whole) || (dot && negb (isdigit price_fraction))) (ValueError "invalid price");
  price_numerator ← py_int (price_whole ++ price_fraction);
  Ok (overlay_row native_wallet native_total wone wone_airdrop price_numerator (18 + zlen price_fraction) r).

(** [text.replace("0x", "")]. *)
Fixpoint replace_0x (s : str) : str :=
  match s with
  | "0"%char :: "x"%char :: t => replace_0x t
  | c :: t => c :: replace_0x t
  | [] => []
  end.
(** contract_review_lib.to_checksum. *)
Definition crl_to_checksum (address : str) : result str :=
  let raw := replace_0x (lower address) in
  let digest := hex (keccak256 (ords raw)) in
  body ← mapM (checksum_char digest) (enumerate raw);
  Ok ("0x"%string ++ body).

Definition zero_columns : list str :=
  ["liquid_shard0"%string : str; "liquid_shard1"%string : str; "liquid_total"%string : str;
   "active_staked_or_delegated"%string : str; "pending_undelegation"%string : str; "unclaimed_staking_reward"%string : str;
   "pending_cross_shard"%string : str; "wallet_airdrop"%string : str; "staked_to_vault"%string : str; "total_claim"%string : str].

(** The row of a holder without a native claim. *)
Definition new_holder_row (address : str) (wone : Z) (metadata : row) (template : list str) (threshold : Z) (aggregate_delivery : bool)
  : result (str * row) :=
  checksum ← crl_to_checksum address;
  raw ← of_option (fromhex (drop 2 address)) (ValueError "non-hexadecimal number found in fromhex() arg");
  let secure_key := "0x"%string ++ hex (keccak256 raw) in
  n0 ← cell metadata "nonce_shard0"%string;
  h0 ← cell metadata "code_hash_shard0"%string;
  let base : row :=
    list_to_map ([("secure_key"%string : str, secure_key); ("address"%string : str, checksum);
      ("address_or_secure_key"%string : str, checksum); ("address_resolved"%string : str, "true"%string : str);
      ("claims_shard0_block"%string : str, "93623067"%string : str); ("claims_shard1_block"%string : str, "95882100"%string : str);
      ("valuation_price_reference_shard0_block"%string : str, "93448483"%string : str);
      ("valuation_price_usd_per_one"%string : str, "0.00074801"%string : str);
      ("wallet_airdrop_usd"%string : str, "0.00000000000000000000000000"%string : str);
      ("total_usd"%string : str, "0.00000000000000000000000000"%string : str); ("nonce_shard0"%string : str, n0);
      ("nonce_shard1"%string : str, []); ("code_hash_shard0"%string : str, h0); ("code_hash_shard1"%string : str, [])]
      ++ ((λ c, (c ++ "_atto"%string, "0"%string : str)) <$> zero_columns) ++ ((λ c, (c ++ "_one"%string, fixed 0)) <$> zero_columns))
    ∪ list_to_map ((λ f, (f, [])) <$> template) in
  result_ ← apply_overlay base wone threshold aggregate_delivery;
  Ok (secure_key, result_).

(** A row waiting to be merged in: its key, address and cells. *)
Definition new_row : Type := str * str * row.

Definition build_new_row (holders : dict str Z) (aggregate : gset str) (threshold : Z) (template : list str) (am : str * row)
  : result new_row :=
  let '(address, r) := am in
  wone ← of_option (dget holders address) (ValueError "new holder is absent from WONE input");
  w ← int_cell r "wone_balance_atto"%string;
  _ ← raise_if (negb (w =? wone)) (ValueError "new holder WONE mismatch");
  let aggregate_delivery := bool_decide (address ∈ aggregate) in
  _ ← raise_if ((wone <? threshold) && negb aggregate_delivery)
        (ValueError "new holder is neither threshold-qualified nor selected for aggregate delivery");
  '(key, res) ← new_holder_row address wone r template threshold aggregate_delivery;
  Ok (key, address, res).

(** The counters of the merge. *)
Record counters := MkCounters {
  native_rows : Z; output_rows : Z; baseline_qualified : Z; qualified_rows : Z; newly_qualified_wone_only : Z;
  newly_qualified_existing : Z; delivered_wone_holders : Z; delivered_wone : Z; threshold_wone_holders : Z; threshold_wone : Z;
  aggregate_delivery_wone_holders : Z; aggregate_delivery_wone : Z; native_wallet_total : Z; native_total_total : Z;
  wallet_total : Z; staked_total : Z; total_total : Z }.
Definition zero_counters : counters := MkCounters 0 0 0 0 0 0 0 0 0 0 0 0 0 0 0 0 0.

Record state := MkState {
  written : list row; pending : list new_row; count : counters; native_candidates : gset str;
  wone_contract_seen : bool; previous_key : option str }.

Definition b2z (b : bool) : Z := if b then 1 else 0.

(** Writing the row of a holder without a native claim. *)
Definition write_new (threshold : Z) (c : counters) (r : row) : result counters :=
  q ← int_cell r "qualification_total_atto"%string;
  let qualifies := threshold <=? q in
  amount ← int_cell r "wone_airdrop_atto"%string;
  Ok (MkCounters (native_rows c) (output_rows c + 1) (baseline_qualified c) (qualified_rows c + b2z qualifies)
        (newly_qualified_wone_only c + b2z qualifies) (newly_qualified_existing c) (delivered_wone_holders c + 1)
        (delivered_wone c + amount)
        (threshold_wone_holders c + b2z qualifies) (threshold_wone c + (if qualifies then amount else 0))
        (aggregate_delivery_wone_holders c + b2z (negb qualifies)) (aggregate_delivery_wone c + (if qualifies then 0 else amount))
        (native_wallet_total c) (native_total_total c) (wallet_total c + amount) (staked_total c) (total_total c + amount)).

(** Writes the pending rows whose keys satisfy [due]. *)
Fixpoint flush (threshold : Z) (due : str → bool) (pending : list new_row) (out : list row) (c : counters)
  : result (list row * list new_row * counters) :=
  match pending with
  | (k, a, r) :: rest =>
      if due k then c ← write_new threshold c r; flush threshold due rest (out ++ [r]) c else Ok (out, pending, c)
  | [] => Ok (out, [], c)
  end.

(** The counters after a native row that was paid [airdrop]. *)
Definition deliver (c : counters) (qualifies aggregate_delivery : bool) (airdrop : Z) : result counters :=
  if airdrop =? 0 then Ok c else
  if qualifies || aggregate_delivery then
    Ok (MkCounters (native_rows c) (output_rows c) (baseline_qualified c) (qualified_rows c) (newly_qualified_wone_only c)
          (newly_qualified_existing c) (delivered_wone_holders c + 1) (delivered_wone c + airdrop)
          (threshold_wone_holders c + b2z qualifies) (threshold_wone c + (if qualifies then airdrop else 0))
          (aggregate_delivery_wone_holders c + b2z (negb qualifies)) (aggregate_delivery_wone c + (if qualifies then 0 else airdrop))
          (native_wallet_total c) (native_total_total c) (wallet_total c) (staked_total c) (total_total c))
  else Raise (ValueError "below-threshold WONE delivery lacks aggregate authorization").

Definition native_row (holders : dict str Z) (aggregate : gset str) (threshold reserve : Z) (s : state) (r : row) : result state :=
  k ← cell r "secure_key"%string;
  let key := lower k in
  _ ← raise_if (not_increasing (previous_key s) key) (ValueError "native secure keys are not increasing");
  '(out, pending, c) ← flush threshold (λ k, str_ltb k key) (pending s) (written s) (count s);
  _ ← raise_if (match pending with (k, _, _) :: _ => bool_decide (k = key) | [] => false end)
        (ValueError "new-holder secure key already exists");
  a ← cell r "address"%string;
  address ← normalize_address a;
  let wone := default 0 (dget holders address) in
  let aggregate_delivery := bool_decide (address ∈ aggregate) in
  let candidates := if (threshold <=? wone) || aggregate_delivery then {[address]} ∪ native_candidates s else native_candidates s in
  '(native_wallet, staked, native_total) ← validate_native_row r;
  res ← apply_overlay r wone threshold aggregate_delivery;
  let baseline := threshold <=? native_total in
  q ← int_cell res "qualification_total_atto"%string;
  let qualifies := threshold <=? q in
  airdrop ← int_cell res "wone_airdrop_atto"%string;
  c ← deliver c qualifies aggregate_delivery airdrop;
  liquid0 ← int_cell r "liquid_shard0_atto"%string;
  _ ← raise_if (bool_decide (address = WONE_ADDRESS) && negb (liquid0 =? reserve))
        (ValueError "WONE contract shard-0 reserve does not match holder supply");
  w ← int_cell res "wallet_airdrop_atto"%string;
  t ← int_cell res "total_claim_atto"%string;
  Ok (MkState (out ++ [res]) pending
        (MkCounters (native_rows c + 1) (output_rows c + 1) (baseline_qualified c + b2z baseline) (qualified_rows c + b2z qualifies)
           (newly_qualified_wone_only c) (newly_qualified_existing c + b2z (qualifies && negb baseline)) (delivered_wone_holders c)
           (delivered_wone c) (threshold_wone_holders c) (threshold_wone c) (aggregate_delivery_wone_holders c)
           (aggregate_delivery_wone c) (native_wallet_total c + native_wallet) (native_total_total c + native_total)
           (wallet_total c + w) (staked_total c + staked) (total_total c + t))
        candidates (wone_contract_seen s || bool_decide (address = WONE_ADDRESS)) (Some key)).

(** The summary of the WONE scan. *)
Record scan_summary := MkSummary {
  status : option str; cutoff_block : Z; contract_address : str; reserve_minus_supply_atto : Z;
  contract_total_supply_atto : option str; contract_native_reserve_atto : option str; scan_sha256 : str; holder_count : Z;
  total_holder_balance_atto : Z }.

Definition check_summary (s : scan_summary) : result unit :=
  _ ← raise_if (negb (bool_decide (status s = Some ("passed"%string : str)))) (ValueError "WONE scan summary did not pass");
  _ ← raise_if (negb (cutoff_block s =? 93623067)) (ValueError "WONE scan summary has inconsistent cutoff reserve");
  a ← normalize_address (contract_address s);
  raise_if (negb (bool_decide (a = WONE_ADDRESS)) || negb (reserve_minus_supply_atto s =? 0)
            || negb (bool_decide (contract_total_supply_atto s = contract_native_reserve_atto s)))
    (ValueError "WONE scan summary has inconsistent cutoff reserve").

Record inputs := MkInputs {
  native_claims : str; wone_holders : str; wone_summary : scan_summary; new_holder_metadata : str;
  aggregate_delivery_summary : option (Z * dict str exchange); minimum_one : Z; exclude_address : list str }.

Definition native_required : list str :=
  ["secure_key"%string : str; "address"%string : str; "wallet_airdrop_atto"%string : str; "staked_to_vault_atto"%string : str;
   "total_claim_atto"%string : str; "liquid_shard0_atto"%string : str; "liquid_shard1_atto"%string : str;
   "liquid_total_atto"%string : str; "wallet_airdrop_one"%string : str; "total_claim_one"%string : str;
   "wallet_airdrop_usd"%string : str; "total_usd"%string : str; "valuation_price_usd_per_one"%string : str].

(** What is read and checked before the merge. *)
Record loaded := MkLoaded { scan : holder_scan; aggregate : gset str; metadata : dict str row; fields : list str; new_rows : list new_row }.

Definition load (exists_ : bool) (args : inputs) : result loaded :=
  _ ← raise_if exists_ FileExistsError;
  given ← mapM normalize_address (exclude_address args);
  let excluded : gset str := {[WONE_ADDRESS]} ∪ list_to_set given in
  requested ← load_aggregate_delivery_addresses (aggregate_delivery_summary args);
  let aggregate := requested ∖ excluded in
  _ ← check_summary (wone_summary args);
  scan ← load_wone (wone_holders args) excluded;
  _ ← raise_if (negb (bool_decide (file_sha256 (wone_holders args) = scan_sha256 (wone_summary args))))
        (ValueError "WONE holder CSV hash does not match its summary");
  _ ← raise_if (negb (holder_rows scan =? holder_count (wone_summary args))) (ValueError "WONE holder count does not match its summary");
  _ ← raise_if (negb (holder_total scan =? total_holder_balance_atto (wone_summary args)))
        (ValueError "WONE holder total does not match its summary");
  metadata ← load_new_holder_metadata (new_holder_metadata args);
  let '(fieldnames, _) := dict_read (native_claims args) in
  _ ← raise_if (negb (has_fields native_required fieldnames)) (ValueError "native claims are missing fields");
  fields ← output_fields (default [] fieldnames);
  new_rows ← mapM (build_new_row (holders scan) aggregate (minimum_one args) (default [] fieldnames)) metadata;
  Ok (MkLoaded scan aggregate metadata fields (sort_str (λ n : new_row, n.1.1) new_rows)).

Definition merge (args : inputs) (l : loaded) : result state :=
  s ← foldM (native_row (holders (scan l)) (aggregate l) (minimum_one args) (holder_total (scan l)))
        (MkState [] (new_rows l) zero_counters ∅ false None) (dict_read (native_claims args)).2;
  '(out, _, c) ← flush (minimum_one args) (λ _, true) (pending s) (written s) (count s);
  Ok (MkState out [] c (native_candidates s) (wone_contract_seen s) (previous_key s)).

(** The checks after the merge. *)
Definition metadata_addresses (l : loaded) : gset str := list_to_set (dkeys (metadata l)).
Definition check_complete (args : inputs) (l : loaded) (s : state) : result unit :=
  _ ← raise_if (negb (wone_contract_seen s)) (ValueError "native claim ledger is missing the WONE contract");
  _ ← raise_if (negb (bool_decide (metadata_addresses l ∩ native_candidates s = ∅))) (ValueError "new-holder metadata overlaps native claims");
  require_complete_new_holder_metadata (holders (scan l)) (native_candidates s) (metadata_addresses l) (minimum_one args) (aggregate l).
Definition check_totals (reserve : Z) (c : counters) : result unit :=
  _ ← raise_if (negb (wallet_total c + staked_total c =? total_total c)) (ValueError "global wallet and vault totals do not close");
  _ ← raise_if (negb (native_total_total c - native_wallet_total c =? staked_total c)) (ValueError "native wallet and vault totals do not close");
  _ ← raise_if (negb (total_total c =? native_total_total c + delivered_wone c)) (ValueError "WONE overlay total does not close");
  raise_if (reserve <? delivered_wone c) (ValueError "delivered WONE airdrop exceeds reserve").

(** The ledger written, the counters of the summary and the WONE kept back. *)
Record outcome := MkOutcome { inputs_read : loaded; final : state; retained : Z }.

Definition main (exists_ : bool) (args : inputs) : result outcome :=
  l ← load exists_ args;
  s ← merge args l;
  _ ← check_complete args l s;
  _ ← check_totals (holder_total (scan l)) (count s);
  Ok (MkOutcome l s (holder_total (scan l) - delivered_wone (count s))).

(** * Rows *)

Lemma int_cell_text (r : row) (k : str) z : r !! k = Some (str_of_Z z) → int_cell r k = Ok z.
Proof. intros H. unfold int_cell, cell. rewrite H. apply int_str_of_Z. Qed.

Lemma overlay_lookup nw nt w air p sc r k v :
  (k, v) ∈ overlay_cells nw nt w air p sc → overlay_row nw nt w air p sc r !! k = Some v.
Proof. intros H. apply lookup_union_Some_l, elem_of_list_to_map_1; [|done]. cbn. compute_decide. Qed.

Lemma overlay_other nw nt w air p sc r k :
  k ∉ (fst <$> overlay_cells nw nt w air p sc) → overlay_row nw nt w air p sc r !! k = r !! k.
Proof. intros H. apply lookup_union_r. by apply not_elem_of_list_to_map_1. Qed.

(** What the overlay makes of a row. *)
Record overlaid (r res : row) (wone threshold : Z) (aggregate_delivery : bool) : Prop := {
  ov_key : cell_or res "secure_key"%string [] = cell_or r "secure_key"%string [];
  ov_address : cell_or res "address"%string [] = cell_or r "address"%string [];
  ov_staked : num res "staked_to_vault_atto"%string = num r "staked_to_vault_atto"%string;
  ov_balance : int_cell res "wone_balance_atto"%string = Ok wone;
  ov_qualification : int_cell res "qualification_total_atto"%string = Ok (num r "total_claim_atto"%string + wone);
  ov_airdrop : int_cell res "wone_airdrop_atto"%string
               = Ok (if (threshold <=? num r "total_claim_atto"%string + wone) || aggregate_delivery then wone else 0);
  ov_wallet : int_cell res "wallet_airdrop_atto"%string
              = Ok (num r "wallet_airdrop_atto"%string + num res "wone_airdrop_atto"%string);
  ov_total : int_cell res "total_claim_atto"%string = Ok (num r "total_claim_atto"%string + num res "wone_airdrop_atto"%string);
  ov_native_wallet : int_cell res "native_wallet_airdrop_atto"%string = Ok (num r "wallet_airdrop_atto"%string);
  ov_native_total : int_cell res "native_total_claim_atto"%string = Ok (num r "total_claim_atto"%string) }.

Lemma apply_overlay_ok r wone m agg res : apply_overlay r wone m agg = Ok res → overlaid r res wone m agg.
Proof.
  unfold apply_overlay. intros H. inv_ok. subst res. cells. subst. set (air := if (m <=? _) || agg then wone else 0). set (sc := 18 + zlen l).
  set (nw := num r "wallet_airdrop_atto"%string). set (nt := num r "total_claim_atto"%string).
  match goal with |- overlaid _ (overlay_row _ _ _ _ ?p _ _) _ _ _ => rename p into price end.
  assert (∀ k z, (k, str_of_Z z) ∈ overlay_cells nw nt wone air price sc → int_cell (overlay_row nw nt wone air price sc r) k = Ok z) as Hc.
  { intros k z Hin. apply int_cell_text. by apply overlay_lookup. }
  assert (num (overlay_row nw nt wone air price sc r) "wone_airdrop_atto"%string = air) as Hair.
  { apply int_cell_num, Hc. unfold overlay_cells. cbv zeta. set_solver. }
  constructor; rewrite ?Hair; try (apply Hc; unfold overlay_cells; cbv zeta; set_solver); unfold num, int_cell, cell, cell_or;
    (rewrite overlay_other; [done|cbn; compute_decide]).
Qed.

Definition AIR : str := "wone_airdrop_atto"%string.
Definition WALLET : str := "wallet_airdrop_atto"%string.
Definition STAKED : str := "staked_to_vault_atto"%string.
Definition TOTAL : str := "total_claim_atto"%string.
Definition NATIVE_WALLET : str := "native_wallet_airdrop_atto"%string.
Definition NATIVE_TOTAL : str := "native_total_claim_atto"%string.

(** The amounts of an output row add up. *)
Record closed (r : row) : Prop := {
  c_parts : num r WALLET + num r STAKED = num r TOTAL;
  c_wallet : num r WALLET = num r NATIVE_WALLET + num r AIR;
  c_total : num r TOTAL = num r NATIVE_TOTAL + num r AIR }.

(** The row of a holder without a native claim is all WONE. *)
Record fresh (r : row) : Prop := {
  f_wallet : num r WALLET = num r AIR; f_total : num r TOTAL = num r AIR; f_staked : num r STAKED = 0;
  f_native_wallet : num r NATIVE_WALLET = 0; f_native_total : num r NATIVE_TOTAL = 0 }.

Lemma fresh_closed r : fresh r → closed r.
Proof. intros []. constructor; lia. Qed.

(** The counters are the sums over the rows written. *)
Record sums (c : counters) (out : list row) : Prop := {
  s_rows : output_rows c = zlen out;
  s_air : delivered_wone c = zsum_with (λ r, num r AIR) out;
  s_wallet : wallet_total c = zsum_with (λ r, num r WALLET) out;
  s_staked : staked_total c = zsum_with (λ r, num r STAKED) out;
  s_total : total_total c = zsum_with (λ r, num r TOTAL) out;
  s_native_wallet : native_wallet_total c = zsum_with (λ r, num r NATIVE_WALLET) out;
  s_native_total : native_total_total c = zsum_with (λ r, num r NATIVE_TOTAL) out;
  s_kinds : delivered_wone c = threshold_wone c + aggregate_delivery_wone c }.

Lemma write_new_sums m c r c' out : sums c out → fresh r → write_new m c r = Ok c' → sums c' (out ++ [r]).
Proof.
  intros [] [] H. unfold write_new in H. inv_ok. subst c'. cells. fold AIR in *.
  constructor; cbn [output_rows delivered_wone wallet_total staked_total total_total native_wallet_total native_total_total threshold_wone
    aggregate_delivery_wone]; rewrite ?zlen_snoc, ?zsum_with_snoc; try lia. destruct (m <=? _); lia.
Qed.

Lemma flush_ok m due pend out c out' pend' c' :
  Forall (λ n : new_row, fresh n.2) pend → sums c out → flush m due pend out c = Ok (out', pend', c') →
  ∃ dn, pend = dn ++ pend' ∧ out' = out ++ (snd <$> dn) ∧ sums c' out' ∧ Forall (λ n : new_row, due n.1.1 = true) dn ∧
        match pend' with n :: _ => due n.1.1 = false | [] => True end.
Proof.
  intros Hf. revert out c. induction Hf as [|[[k a] r] pend Hr _ IH]; intros out c Hs H; cbn [flush] in H.
  - inv_ok. simplify_eq. exists []. split; [done|]. split; [by rewrite app_nil_r|]. split; [done|]. split; [constructor|done].
  - destruct (due k) eqn:Ed; inv_ok.
    + eapply write_new_sums in Hs; [|done|done]. destruct (IH _ _ Hs H) as (dn & -> & -> & Hs' & Hd & Hp).
      exists ((k, a, r) :: dn). rewrite fmap_cons, <- app_assoc in *. split; [done|]. split; [done|]. split; [done|]. split; [by constructor|done].
    + simplify_eq. exists []. split; [done|]. split; [by rewrite app_nil_r|]. split; [done|]. split; [constructor|done].
Qed.

(** Every balance is in the row's columns. *)
Record new_ok (H : dict str Z) (agg : gset str) (m : Z) (n : new_row) : Prop := {
  n_fresh : fresh n.2;
  n_key : n.1.1 = "0x"%string ++ hex (keccak256 (default [] (fromhex (drop 2 n.1.2)))) ∧ cell_or n.2 "secure_key"%string [] = n.1.1;
  n_paid : dget H n.1.2 = Some (num n.2 AIR);
  n_due : m ≤ num n.2 AIR ∨ n.1.2 ∈ agg }.

Lemma new_holder_row_ok a w meta tmpl m agg k r :
  (m ≤ w ∨ agg = true) → new_holder_row a w meta tmpl m agg = Ok (k, r) →
  fresh r ∧ num r AIR = w ∧ k = "0x"%string ++ hex (keccak256 (default [] (fromhex (drop 2 a)))) ∧ cell_or r "secure_key"%string [] = k.
Proof.
  intros Hd H. unfold new_holder_row in H. cbv zeta in H. inv_ok. simplify_eq.
  cbn [default]. match goal with H : apply_overlay ?b _ _ _ = Ok _ |- _ => set (base := b) in H; apply apply_overlay_ok in H end.
  assert (num base WALLET = 0 ∧ num base TOTAL = 0 ∧ num base STAKED = 0) as (Hz1 & Hz2 & Hz3).
  { split_and!; apply int_cell_num; unfold int_cell, cell, base;
      (rewrite (lookup_union_Some_l _ _ _ ("0"%string : str)); [by vm_compute|by vm_compute]). }
  assert (cell_or base "secure_key"%string [] = "0x"%string ++ hex (keccak256 a1)) as Hk.
  { unfold base, cell_or. erewrite lookup_union_Some_l; [done|]. cbn [app list_to_map foldr]. by rewrite lookup_insert_eq. }
  clearbody base. match goal with H : overlaid _ _ _ _ _ |- _ => destruct H end. cells.
  change (num r WALLET = num base WALLET + num r AIR) in ov_wallet0. change (num r TOTAL = num base TOTAL + num r AIR) in ov_total0.
  change (num r STAKED = num base STAKED) in ov_staked0. change (num r NATIVE_WALLET = num base WALLET) in ov_native_wallet0.
  change (num r NATIVE_TOTAL = num base TOTAL) in ov_native_total0.
  change (num r AIR = if (m <=? num base TOTAL + w) || agg then w else 0) in ov_airdrop0.
  rewrite Hz2, Z.add_0_l in ov_airdrop0.
  assert ((m <=? w) || agg = true) as Hor by (destruct Hd as [Hd| ->]; [apply orb_true_iff; left; by apply Z.leb_le|by rewrite orb_true_r]).
  rewrite Hor in ov_airdrop0. split; [constructor; lia|]. split; [done|]. split; [done|]. congruence.
Qed.

Lemma build_new_row_ok H agg m tmpl am n : build_new_row H agg m tmpl am = Ok n → new_ok H agg m n ∧ n.1.2 = am.1.
Proof.
  destruct am as [a meta]. unfold build_new_row. intros Hb. inv_ok. subst n.
  match goal with H : new_holder_row _ _ _ _ _ _ = Ok _ |- _ => apply new_holder_row_ok in H as (Hf & Ha & Hk & Hc) end.
  - split; [|done]. constructor; cbn [fst snd]; try done; [congruence|]. rewrite Ha.
    match goal with H : _ && _ = false |- _ => apply andb_false_iff in H as [H|H] end; zbool; [left; lia|by right].
  - match goal with H : _ && _ = false |- _ => apply andb_false_iff in H as [H|H] end; zbool; [left; lia|right; by apply bool_decide_eq_true_2].
Qed.

(** * The merge *)

Definition naddr (r : row) : str := from_ok [] (normalize_address (cell_or r "address"%string [])).
Definition bal (H : dict str Z) (r : row) : Z := default 0 (dget H (naddr r)).
Definition lkey (r : row) : str := lower (cell_or r "secure_key"%string []).
Definition by_key (x y : row) : Prop := str_leb (lkey x) (lkey y) = true.

Section merging.
Context (H : dict str Z) (agg : gset str) (m reserve : Z) (news : list new_row).
Hypothesis news_ok : Forall (new_ok H agg m) news.
Hypothesis news_sorted : StronglySorted (λ x y : new_row, str_leb x.1.1 y.1.1 = true) news.

(** A native row and what was written for it. *)
Record paid (r res : row) : Prop := {
  p_overlaid : overlaid r res (bal H r) m (bool_decide (naddr r ∈ agg));
  p_address : normalize_address (cell_or r "address"%string []) = Ok (naddr r);
  p_nonneg : 0 ≤ num r TOTAL;
  p_closed : closed res }.

(** After the native rows [pre], written as [res], and the pending rows [dn]. *)
Record merging (pre res : list row) (dn : list new_row) (s : state) : Prop := {
  mg_new : news = dn ++ pending s;
  mg_paid : Forall2 paid pre res;
  mg_out : written s ≡ₚ res ++ (snd <$> dn);
  mg_sums : sums (count s) (written s);
  mg_candidates : ∀ a, a ∈ native_candidates s ↔ ∃ r, r ∈ pre ∧ naddr r = a ∧ (m ≤ bal H r ∨ a ∈ agg);
  mg_contract : wone_contract_seen s = true ↔ ∃ r, r ∈ pre ∧ naddr r = WONE_ADDRESS;
  mg_keys : increasing (lkey <$> pre);
  mg_previous : previous_key s = last (lkey <$> pre);
  mg_sorted : StronglySorted by_key (written s);
  mg_written : ∀ w, w ∈ written s → ∃ k, previous_key s = Some k ∧ str_leb (lkey w) k = true;
  mg_pending : ∀ n k, n ∈ pending s → previous_key s = Some k → str_ltb k n.1.1 = true }.

Lemma validate_native_row_ok r nw st nt :
  validate_native_row r = Ok (nw, st, nt) → num r WALLET = nw ∧ num r STAKED = st ∧ num r TOTAL = nt ∧ nw + st = nt ∧ 0 ≤ nt.
Proof. unfold validate_native_row. intros Hv. inv_ok. simplify_eq. cells. zbool. split_and!; try done. lia. Qed.

Lemma deliver_sums c q ag air c' out :
  sums c out → deliver c q ag air = Ok c' →
  output_rows c' = output_rows c ∧ delivered_wone c' = delivered_wone c + air ∧ wallet_total c' = wallet_total c ∧
  staked_total c' = staked_total c ∧ total_total c' = total_total c ∧ native_wallet_total c' = native_wallet_total c ∧
  native_total_total c' = native_total_total c ∧ threshold_wone c' + aggregate_delivery_wone c' = threshold_wone c + aggregate_delivery_wone c + air.
Proof.
  intros [] Hd. unfold deliver in Hd. destruct (Z.eqb_spec air 0) as [-> |]; inv_ok; subst c'; [split_and!; lia|].
  cbn. split_and!; try done. destruct q; lia.
Qed.

Lemma new_lkey n : new_ok H agg m n → lkey n.2 = n.1.1.
Proof. intros [_ (Hk & Hc) _ _]. unfold lkey. rewrite Hc, Hk, lower_app. f_equal. apply lower_hex, keccak256_ok. Qed.

(** Appending pending rows. *)
Lemma sorted_new out dn prev :
  StronglySorted by_key out → (∀ w, w ∈ out → ∃ k, prev = Some k ∧ str_leb (lkey w) k = true) →
  StronglySorted (λ x y : new_row, str_leb x.1.1 y.1.1 = true) dn → Forall (new_ok H agg m) dn →
  (∀ n k, n ∈ dn → prev = Some k → str_ltb k n.1.1 = true) → StronglySorted by_key (out ++ (snd <$> dn)).
Proof.
  intros Ho Hb Hd Hok Hgt. rewrite Forall_forall in Hok. apply StronglySorted_app_2; [|done|].
  - intros x y Hx (n & -> & Hn)%list_elem_of_fmap. unfold by_key. destruct (Hb x Hx) as (k & Hp & Hl).
    rewrite (new_lkey n) by by apply Hok. apply str_ltb_le. eapply str_leb_ltb_trans; [done|by eapply Hgt].
  - clear -Hd Hok. induction Hd as [|n dn Hd IH Hall]; [constructor|]. rewrite fmap_cons. constructor; [apply IH; set_solver|].
    apply Forall_forall. intros y (n' & -> & Hn')%list_elem_of_fmap. unfold by_key. rewrite Forall_forall in Hall.
    rewrite !new_lkey by (apply Hok; set_solver). by apply Hall.
Qed.

Lemma overlaid_closed r res w ag nw st nt :
  overlaid r res w m ag → validate_native_row r = Ok (nw, st, nt) →
  closed res ∧ num res STAKED = st ∧ num res NATIVE_WALLET = nw ∧ num res NATIVE_TOTAL = nt.
Proof.
  intros [] (Hnw & Hst & Hnt & Hadd & _)%validate_native_row_ok. cells.
  change (num res WALLET = num r WALLET + num res AIR) in ov_wallet0. change (num res TOTAL = num r TOTAL + num res AIR) in ov_total0.
  change (num res STAKED = num r STAKED) in ov_staked0. change (num res NATIVE_WALLET = num r WALLET) in ov_native_wallet0.
  change (num res NATIVE_TOTAL = num r TOTAL) in ov_native_total0. split; [constructor; lia|]. split_and!; congruence.
Qed.

(** The pending rows left after a flush come after the key. *)
Lemma pending_after key dn pend n :
  StronglySorted (λ x y : new_row, str_leb x.1.1 y.1.1 = true) (dn ++ pend) →
  match pend with n :: _ => str_ltb n.1.1 key = false | [] => True end →
  match pend with (k, _, _) :: _ => bool_decide (k = key) | [] => false end = false →
  n ∈ pend → str_ltb key n.1.1 = true.
Proof.
  intros Hs Hh He Hn. apply StronglySorted_app_1_r in Hs. destruct pend as [|[[k a] r] pend]; [by apply not_elem_of_nil in Hn|].
  apply bool_decide_eq_false_1 in He. cbn [fst] in *. assert (str_ltb key k = true) as Hk.
  { destruct (str_ltb key k) eqn:E; [done|]. contradict He. by apply str_eq_of_ltb. }
  apply elem_of_cons in Hn as [-> |Hn]; [done|]. inversion_clear Hs as [|?? _ Hall]. rewrite Forall_forall in Hall.
  eapply str_ltb_leb_trans; [done|by apply (Hall n)].
Qed.

Lemma native_row_ok pre res dn s r s' :
  merging pre res dn s → native_row H agg m reserve s r = Ok s' → ∃ x dn', merging (pre ++ [r]) (res ++ [x]) (dn ++ dn') s'.
Proof.
  intros [] Hn. unfold native_row in Hn. inv_ok. rename a into k0. set (key := lower k0) in *.
  match goal with Hf : flush _ _ _ _ _ = Ok (?o, ?p, ?c) |- _ => rename Hf into Hflush, o into out, p into pend, c into cnt end.
  assert (Forall (new_ok H agg m) (pending s)) as Hpok by (rewrite mg_new0 in news_ok; by apply Forall_app in news_ok as [_ ?]).
  eapply flush_ok in Hflush as (dn' & Hpend & Hout & Hsums & Hdue & Hhead); [|eapply Forall_impl; [exact Hpok|by intros ? []]|exact mg_sums0].
  apply (cell_cell_or _ _ []) in E, E3. assert (lkey r = key) as Hkey by (unfold lkey; by rewrite E).
  assert (naddr r = a3) as Hna by (unfold naddr; by rewrite E3, E4). rewrite <- E3, <- Hna in *. change (default 0 (dget H (naddr r))) with (bal H r) in *.
  apply apply_overlay_ok in E0 as Hov. destruct (overlaid_closed _ _ _ _ _ _ _ Hov E5) as (Hcl & Hst & Hnw & Hnt).
  assert (sums (count s') (out ++ [a4])) as Hsums'.
  { destruct (deliver_sums _ _ _ _ _ _ Hsums E9) as (? & ? & ? & ? & ? & ? & ? & ?). destruct Hsums. cells.
    change (num a4 AIR = a6) in E8. change (num a4 WALLET = a10) in E12. change (num a4 TOTAL = a11) in E13. subst s'.
    constructor; cbn [count output_rows delivered_wone wallet_total staked_total total_total native_wallet_total native_total_total
      threshold_wone aggregate_delivery_wone]; rewrite ?zlen_snoc, ?zsum_with_snoc; lia. }
  exists a4, dn'. rewrite Hout, <- app_assoc in Hsums'. subst s'.
  assert (lkey a4 = key) as Hkey' by (unfold lkey; destruct Hov as [-> _ _ _ _ _ _ _ _ _]; exact Hkey).
  assert (StronglySorted (λ x y : new_row, str_leb x.1.1 y.1.1 = true) (dn' ++ pend)) as Hns by (rewrite mg_new0, Hpend in news_sorted; by apply StronglySorted_app_1_r in news_sorted).
  assert (∀ w k, w ∈ written s → previous_key s = Some k → str_leb (lkey w) k = true → str_ltb (lkey w) key = true) as Hwk.
  { intros w k _ Hp Hle. rewrite Hp in E2. cbn in E2. apply str_leb_false in E2. by eapply str_leb_ltb_trans. }
  rewrite Forall_forall in Hdue. assert (∀ w, w ∈ out → str_leb (lkey w) key = true) as Hle.
  { rewrite Hout. intros w [Hw|(n & -> & Hin)%list_elem_of_fmap]%elem_of_app.
    - destruct (mg_written0 w Hw) as (k & Hp & Hl). apply str_ltb_le. by eapply Hwk.
    - rewrite new_lkey by (rewrite Forall_forall in Hpok; apply Hpok; rewrite Hpend; set_solver). by apply str_ltb_le, Hdue. }
  constructor; cbn [written pending count native_candidates wone_contract_seen previous_key].
  - rewrite <- app_assoc, <- Hpend. done.
  - apply Forall2_app; [done|]. constructor; [|constructor]. constructor; try done. apply validate_native_row_ok in E5 as (_ & _ & -> & _ & ?). done.
  - rewrite Hout, mg_out0, fmap_app. rewrite <- !app_assoc. apply Permutation_app_head. rewrite app_assoc. by rewrite Permutation_app_comm.
  - by rewrite Hout, <- app_assoc.
  - intros a. setoid_rewrite elem_of_app. setoid_rewrite list_elem_of_singleton.
    destruct ((m <=? bal H r) || bool_decide (naddr r ∈ agg)) eqn:Ec.
    + rewrite elem_of_union, elem_of_singleton, mg_candidates0. split.
      * intros [-> |(r' & ? & ?)]; [exists r; split; [by right|]; split; [done|]|exists r'; tauto].
        apply orb_true_iff in Ec as [?|?]; zbool; auto.
      * intros (r' & [? | ->] & <- & ?); [right; by exists r'|by left].
    + apply orb_false_iff in Ec as [? ?]. zbool. rewrite mg_candidates0. split.
      * intros (r' & ? & ?). exists r'. tauto.
      * intros (r' & [? | ->] & <- & ?); [by exists r'|]. destruct_or!; [lia|done].
  - setoid_rewrite elem_of_app. setoid_rewrite list_elem_of_singleton. rewrite orb_true_iff, mg_contract0, bool_decide_eq_true. split.
    + intros [(r' & ? & ?)|?]; [exists r'; tauto|exists r; tauto].
    + intros (r' & [? | ->] & ?); [left; by exists r'|by right].
  - rewrite fmap_app. cbn [fmap list_fmap]. apply increasing_snoc; [done|]. by rewrite Hkey, <- mg_previous0.
  - rewrite fmap_app. cbn [fmap list_fmap]. by rewrite last_snoc, Hkey.
  - apply StronglySorted_app_2; [|rewrite Hout; eapply (sorted_new _ _ (previous_key s)); try done|repeat constructor].
    + intros x y Hx ->%list_elem_of_singleton. unfold by_key. rewrite Hkey'. by apply Hle.
    + by apply StronglySorted_app_1_l in Hns.
    + rewrite Hpend in Hpok. by apply Forall_app in Hpok as [? _].
    + intros n k Hin. apply mg_pending0. rewrite Hpend. set_solver.
  - intros w Hw. exists key. split; [done|]. apply elem_of_app in Hw as [Hw| ->%list_elem_of_singleton]; [by apply Hle|].
    rewrite Hkey'. apply str_leb_refl.
  - intros n k Hin [= <-]. by eapply pending_after.
Qed.

End merging.

(** * What was read *)

Lemma normalize_address_raw v a : normalize_address v = Ok a → ∃ raw, fromhex (drop 2 a) = Some raw.
Proof. unfold normalize_address. intros H. inv_ok. subst. eauto. Qed.

Record scan_ok (s : holder_scan) : Prop := {
  sc_nodup : NoDup (dkeys (holders s));
  sc_pos : Forall (λ aw : str * Z, 0 < aw.2) (holders s);
  sc_sum : zsum_with id (dvalues (holders s)) + excluded_atto s = holder_total s;
  sc_excluded : 0 ≤ excluded_atto s;
  sc_before : ∀ a, a ∈ dkeys (holders s) → ∃ raw p, fromhex (drop 2 a) = Some raw ∧ previous s = Some p ∧ bytes_leb raw p = true }.

Lemma holder_step_ok excluded s r s' : scan_ok s → holder_step excluded s r = Ok s' → scan_ok s'.
Proof.
  intros [] H. unfold holder_step in H. inv_ok. zbool.
  match goal with H : not_after _ ?x = false |- _ => rename H into Hafter, x into raw end.
  match goal with H : fromhex (drop 2 ?a) = Some ?b |- _ => rename a into addr end.
  match goal with H : int_cell r _ = Ok ?z |- _ => rename z into amount end.
  assert (∀ a, a ∈ dkeys (holders s) → ∃ raw' , fromhex (drop 2 a) = Some raw' ∧ bytes_ltb raw' raw = true) as Hlt.
  { intros x Hx. destruct (sc_before0 x Hx) as (raw' & p & Hr & Hp & Hle). exists raw'. split; [done|].
    rewrite Hp in Hafter. cbn in Hafter. rewrite bytes_ltb_negb_leb. destruct (bytes_leb raw raw') eqn:Ele; [|done].
    assert (bytes_le raw p) as Hc by (eapply (transitivity (y := raw')); [exact Ele|exact Hle]). unfold bytes_le in Hc. congruence. }
  assert (∀ q, Some raw = Some q → ∀ a, a ∈ dkeys (holders s) → ∃ raw' p, fromhex (drop 2 a) = Some raw' ∧ Some raw = Some p ∧ bytes_leb raw' p = true) as Hb.
  { intros q _ x Hx. destruct (Hlt x Hx) as (raw' & Hr & Hl). exists raw', raw. split; [done|]. split; [done|].
    rewrite bytes_ltb_negb_leb in Hl. destruct (total bytes_le raw' raw) as [Hc|Hc]; [exact Hc|]. unfold bytes_le in Hc. by rewrite Hc in Hl. }
  assert (addr ∉ dkeys (holders s)) as Hnew.
  { intros Hin. destruct (Hlt addr Hin) as (raw' & Hr & Hl). simplify_eq. by rewrite bytes_ltb_irrefl in Hl. }
  destruct (bool_decide_reflect (addr ∈ excluded)); inv_ok; subst s'.
  - constructor; cbn [holders holder_total excluded_atto previous]; try done; [lia|lia|by eapply Hb].
  - constructor; cbn [holders holder_total excluded_atto previous]; try done.
    + by apply NoDup_dset.
    + rewrite dset_absent by done. apply Forall_app. split; [done|]. repeat constructor. cbn. lia.
    + rewrite zsum_with_dset. apply dget_None in Hnew. rewrite Hnew. cbn. lia.
    + intros x [-> |Hx]%elem_of_dkeys_dset; [|by eapply Hb]. exists raw, raw. simplify_eq. split; [done|]. split; [done|].
      unfold bytes_leb. by rewrite bytes_compare_refl.
Qed.

Lemma load_wone_ok text excluded s : load_wone text excluded = Ok s → scan_ok s.
Proof.
  unfold load_wone. intros H. inv_ok. revert H. apply (foldM_inv (λ _, scan_ok)).
  - constructor; cbn; try done; [apply NoDup_nil_2|intros x Hx; by apply not_elem_of_nil in Hx].
  - intros _ r s0 s1. apply holder_step_ok.
Qed.

Lemma load_metadata_nodup text md : load_new_holder_metadata text = Ok md → NoDup (dkeys md).
Proof.
  unfold load_new_holder_metadata. intros H. inv_ok. revert H. apply (foldM_inv (λ _ md, NoDup (dkeys md))); [constructor|].
  intros _ r d d' Hd H. unfold metadata_step in H. inv_ok.
  match type of H with (if negb ?b then _ else _) = _ => destruct b end; cbn [negb] in H; inv_ok; subst; [by apply NoDup_dset|done].
Qed.

Record loaded_ok (args : inputs) (l : loaded) : Prop := {
  l_scan : scan_ok (scan l);
  l_metadata : NoDup (dkeys (metadata l));
  l_new : Forall (new_ok (holders (scan l)) (aggregate l) (minimum_one args)) (new_rows l);
  l_addresses : (λ n : new_row, n.1.2) <$> new_rows l ≡ₚ dkeys (metadata l);
  l_sorted : StronglySorted (λ x y : new_row, str_leb x.1.1 y.1.1 = true) (new_rows l) }.

Lemma load_ok exists_ args l : load exists_ args = Ok l → loaded_ok args l.
Proof.
  unfold load. intros H. inv_ok. subst l. cbn [scan metadata new_rows aggregate].
  match goal with H : mapM (build_new_row _ _ _ _) _ = Ok _ |- _ => apply mapM_Ok_Forall2 in H as Hnew end.
  constructor; cbn [scan metadata new_rows aggregate].
  - by eapply load_wone_ok.
  - by eapply load_metadata_nodup.
  - rewrite sort_str_perm. clear -Hnew. induction Hnew as [|x y k k' Hx _ IH]; constructor; [by eapply build_new_row_ok|done].
  - rewrite sort_str_perm. clear -Hnew. induction Hnew as [|x y k k' Hx _ IH]; [done|]. rewrite fmap_cons, IH.
    apply build_new_row_ok in Hx as [_ ->]. done.
  - apply (sort_str_sorted (λ n : new_row, n.1.1)).
Qed.

(** The merged ledger. *)
Record merged (args : inputs) (l : loaded) (s : state) (res : list row) : Prop := {
  md_paid : Forall2 (paid (holders (scan l)) (aggregate l) (minimum_one args)) (dict_read (native_claims args)).2 res;
  md_out : written s ≡ₚ res ++ (snd <$> new_rows l);
  md_sums : sums (count s) (written s);
  md_candidates : ∀ a, a ∈ native_candidates s ↔
    ∃ r, r ∈ (dict_read (native_claims args)).2 ∧ naddr r = a ∧ (minimum_one args ≤ bal (holders (scan l)) r ∨ a ∈ aggregate l);
  md_keys : increasing (lkey <$> (dict_read (native_claims args)).2);
  md_sorted : StronglySorted by_key (written s) }.

Lemma merge_ok args l s : loaded_ok args l → merge args l = Ok s → ∃ res, merged args l s res.
Proof.
  intros [] H. unfold merge in H. inv_ok. subst s.
  match goal with H : foldM _ _ _ = Ok ?s0 |- _ =>
    assert (∃ res dn, merging (holders (scan l)) (aggregate l) (minimum_one args) (new_rows l) (dict_read (native_claims args)).2 res dn s0)
      as (res & dn & Hm) end.
  { match goal with H : foldM _ _ _ = Ok _ |- _ => revert H end.
    apply (foldM_inv (λ pre s, ∃ res dn, merging (holders (scan l)) (aggregate l) (minimum_one args) (new_rows l) pre res dn s)).
    - exists [], []. constructor; cbn; try done; try constructor; try done.
      + set_solver.
      + intros (r & Hr & _). by apply not_elem_of_nil in Hr.
      + intros w Hw. by apply not_elem_of_nil in Hw.
    - intros pre x s0 s1 (res & dn & Hm) Hr. edestruct native_row_ok as (y & dn' & Hm'); [| |exact Hm|exact Hr|]; [done|done|]. eauto. }
  exists res. destruct Hm.
  assert (Forall (new_ok (holders (scan l)) (aggregate l) (minimum_one args)) (pending a)) as Hpok by (rewrite mg_new0 in l_new0; by apply Forall_app in l_new0 as [_ ?]).
  assert (StronglySorted (λ x y : new_row, str_leb x.1.1 y.1.1 = true) (pending a)) as Hps by (rewrite mg_new0 in l_sorted0; by apply StronglySorted_app_1_r in l_sorted0).
  match goal with H : flush _ _ _ _ _ = Ok _ |- _ => eapply flush_ok in H as (dn' & Hpend & Hout & Hsums & _ & Hhead) end;
    [|eapply Forall_impl; [exact Hpok|by intros ? []]|done].
  destruct l1 as [|n l1]; [|done]. rewrite app_nil_r in Hpend. subst dn'. constructor; cbn [written count native_candidates]; try done.
  - rewrite mg_new0, fmap_app, app_assoc, <- mg_out0. by rewrite Hout.
  - rewrite Hout. by eapply sorted_new.
Qed.

(** * The reserve *)

Lemma sum_lookup_le (H : dict str Z) ks :
  Forall (λ aw : str * Z, 0 < aw.2) H → NoDup ks → zsum_with (λ a, default 0 (dget H a)) ks ≤ zsum_with id (dvalues H).
Proof.
  intros Hpos Hnd. induction Hpos as [|[k v] H Hv Hpos IH]; [rewrite zsum_with_zero; [done|by apply Forall_forall]|].
  unfold dvalues in *. rewrite fmap_cons, zsum_with_cons. cbn [snd id] in *.
  assert (∀ a, 0 ≤ default 0 (dget H a)) as Hnn.
  { intros a. destruct (dget H a) as [w|] eqn:E; cbn; [|lia]. apply dget_Some_elem in E. rewrite Forall_forall in Hpos. by apply Z.lt_le_incl, (Hpos _ E). }
  assert (zsum_with (λ a, default 0 (dget ((k, v) :: H) a)) ks
          ≤ zsum_with (λ a, if decide (k = a) then v else 0) ks + zsum_with (λ a, default 0 (dget H a)) ks) as Hle.
  { rewrite <- zsum_with_add. apply zsum_with_le, Forall_forall. intros a _. cbn [dget]. specialize (Hnn a).
    repeat case_decide; subst; cbn; try done; lia. }
  assert (zsum_with (λ a, if decide (k = a) then v else 0) ks ≤ v) as Hp.
  { destruct (decide (k ∈ ks)); [by rewrite zsum_with_point|]. rewrite zsum_with_zero; [lia|]. apply Forall_forall. intros a Ha.
    by rewrite decide_False by congruence. }
  lia.
Qed.

Lemma check_complete_ok args l s :
  check_complete args l s = Ok () →
  (∀ a, a ∈ dkeys (metadata l) → a ∉ native_candidates s) ∧
  (∀ a, a ∈ dkeys (metadata l) ↔ ∃ w, (a, w) ∈ holders (scan l) ∧ (minimum_one args ≤ w ∨ a ∈ aggregate l) ∧ a ∉ native_candidates s).
Proof.
  unfold check_complete, require_complete_new_holder_metadata, metadata_addresses. intros H. inv_ok. zbool.
  match goal with H : list_to_set _ = expected_metadata _ _ _ _ |- _ => rename H into He end.
  match goal with H : _ ∩ _ = ∅ |- _ => rename H into Hd end. split; [set_solver|].
  intros x. rewrite <- (elem_of_list_to_set (C := gset str)), He. unfold expected_metadata. rewrite elem_of_list_to_set, list_elem_of_fmap. split.
  - intros ([a' w] & -> & [[? ?] ?]%list_elem_of_filter). cbn in *. eauto.
  - intros (w & ? & ? & ?). exists (x, w). split; [done|]. by apply list_elem_of_filter.
Qed.

Lemma paid_le H agg m native res :
  Forall (λ aw : str * Z, 0 < aw.2) H → Forall2 (paid H agg m) native res →
  zsum_with (λ r, num r AIR) res ≤ zsum_with (λ a, default 0 (dget H a)) (naddr <$> native).
Proof.
  intros Hpos. induction 1 as [|r x native res [[] _ _ _] _ IH]; [done|]. rewrite fmap_cons, !zsum_with_cons. cells.
  change (num x AIR = if (m <=? num r "total_claim_atto"%string + bal H r) || bool_decide (naddr r ∈ agg) then bal H r else 0) in ov_airdrop0.
  change (default 0 (dget H (naddr r))) with (bal H r). assert (0 ≤ bal H r).
  { unfold bal. destruct (dget H (naddr r)) as [w|] eqn:E; cbn; [|lia]. apply dget_Some_elem in E. rewrite Forall_forall in Hpos. by apply Z.lt_le_incl, (Hpos _ E). }
  destruct (_ || _); lia.
Qed.

Lemma new_sum H agg m news :
  Forall (new_ok H agg m) news →
  zsum_with (λ r, num r AIR) (snd <$> news) = zsum_with (λ a, default 0 (dget H a)) ((λ n : new_row, n.1.2) <$> news).
Proof. induction 1 as [|n news [] _ IH]; [done|]. rewrite !fmap_cons, !zsum_with_cons, IH, n_paid0. done. Qed.

Lemma reserve_covers args l s res :
  loaded_ok args l → merged args l s res → check_complete args l s = Ok () →
  NoDup (naddr <$> (dict_read (native_claims args)).2) → delivered_wone (count s) ≤ holder_total (scan l).
Proof.
  intros [] [] Hc Hnd. destruct l_scan0. apply check_complete_ok in Hc as [Hdis _]. rewrite (s_air _ _ md_sums0), md_out0, zsum_with_app.
  rewrite (new_sum _ _ _ _ l_new0). pose proof (paid_le _ _ _ _ _ sc_pos0 md_paid0) as Hle.
  assert (NoDup ((naddr <$> (dict_read (native_claims args)).2) ++ ((λ n : new_row, n.1.2) <$> new_rows l))) as Hall.
  { apply NoDup_app. split; [done|]. split; [|by rewrite l_addresses0]. intros a (r & -> & Hr)%list_elem_of_fmap (n & Hn & Hin)%list_elem_of_fmap.
    apply (Hdis (naddr r)); [rewrite <- l_addresses0; apply list_elem_of_fmap; by exists n|]. apply md_candidates0. exists r. split; [done|]. split; [done|].
    rewrite Forall_forall in l_new0. destruct (l_new0 n Hin). unfold bal. rewrite Hn, n_paid0. exact n_due0. }
  apply (sum_lookup_le (holders (scan l))) in Hall; [|done]. rewrite zsum_with_app in Hall. lia.
Qed.

Lemma closing_totals args l s res :
  loaded_ok args l → merged args l s res →
  wallet_total (count s) + staked_total (count s) = total_total (count s) ∧
  native_total_total (count s) - native_wallet_total (count s) = staked_total (count s) ∧
  total_total (count s) = native_total_total (count s) + delivered_wone (count s).
Proof.
  intros [] []. assert (Forall closed (written s)) as Hcl.
  { rewrite md_out0. apply Forall_app. split.
    - clear -md_paid0. induction md_paid0 as [|??? ? [] _ IH]; by constructor.
    - clear -l_new0. induction l_new0 as [|n ? [] _ IH]; constructor; [by apply fresh_closed|done]. }
  destruct md_sums0.
  assert (zsum_with (λ r, num r WALLET) (written s) + zsum_with (λ r, num r STAKED) (written s) = zsum_with (λ r, num r TOTAL) (written s)) as H1.
  { rewrite <- zsum_with_add. apply zsum_with_ext. eapply Forall_impl; [exact Hcl|]. by intros r []. }
  assert (zsum_with (λ r, num r WALLET) (written s) = zsum_with (λ r, num r NATIVE_WALLET) (written s) + zsum_with (λ r, num r AIR) (written s)) as H2.
  { rewrite <- zsum_with_add. apply zsum_with_ext. eapply Forall_impl; [exact Hcl|]. by intros r []. }
  assert (zsum_with (λ r, num r TOTAL) (written s) = zsum_with (λ r, num r NATIVE_TOTAL) (written s) + zsum_with (λ r, num r AIR) (written s)) as H3.
  { rewrite <- zsum_with_add. apply zsum_with_ext. eapply Forall_impl; [exact Hcl|]. by intros r []. }
  lia.
Qed.

(** * Theorems *)

(** C38: The expanded ledger is the native ledger plus the new holders, each
    paid by the rule.  When the script succeeds, the rows written are one per
    native row and one per new holder, in key order.  A native row keeps its
    key, address and stake, and gains its WONE balance exactly when native claim
    and balance together reach the threshold or its address is delivered by an
    exchange; a new holder's row is worth its WONE balance.  The counters are
    the sums over the rows written, and what is not delivered is retained. *)
Theorem wone_ledger_exact exists_ args o :
  main exists_ args = Ok o →
  let l := inputs_read o in
  let s := final o in
  ∃ res, Forall2 (paid (holders (scan l)) (aggregate l) (minimum_one args)) (dict_read (native_claims args)).2 res ∧
    Forall (new_ok (holders (scan l)) (aggregate l) (minimum_one args)) (new_rows l) ∧
    (λ n : new_row, n.1.2) <$> new_rows l ≡ₚ dkeys (metadata l) ∧
    written s ≡ₚ res ++ (snd <$> new_rows l) ∧
    StronglySorted by_key (written s) ∧
    sums (count s) (written s) ∧
    retained o + delivered_wone (count s) = holder_total (scan l).
Proof.
  unfold main. intros H. inv_ok. subst o. cbn [inputs_read final retained].
  match goal with H : load _ _ = Ok _ |- _ => apply load_ok in H as Hl end.
  match goal with H : merge _ _ = Ok _ |- _ => destruct (merge_ok _ _ _ Hl H) as [res []] end. destruct Hl.
  exists res. split_and!; try done. lia.
Qed.

(** Nobody entitled is left out: when the script succeeds, every holder that
    was not excluded and whose balance reaches the threshold, or whose address
    an exchange delivers, has a row of the expanded ledger that pays its whole
    balance, in its native row or in a row of its own but not in both. *)
Theorem wone_complete exists_ args o a w :
  main exists_ args = Ok o →
  let l := inputs_read o in
  let native := (dict_read (native_claims args)).2 in
  dget (holders (scan l)) a = Some w → minimum_one args ≤ w ∨ a ∈ aggregate l →
  (∃ r x, r ∈ native ∧ naddr r = a ∧ x ∈ written (final o) ∧ lkey x = lkey r ∧ num x AIR = w) ∧ a ∉ dkeys (metadata l) ∨
  (∃ n, n ∈ new_rows l ∧ n.1.2 = a ∧ n.2 ∈ written (final o) ∧ num n.2 AIR = w) ∧ (∀ r, r ∈ native → naddr r ≠ a).
Proof.
  unfold main. intros H. inv_ok. subst o. cbn [inputs_read final]. intros Ha Hd.
  match goal with H : load _ _ = Ok _ |- _ => apply load_ok in H as Hl end.
  match goal with H : merge _ _ = Ok _ |- _ => destruct (merge_ok _ _ _ Hl H) as [res []] end.
  match goal with H : check_complete _ _ _ = Ok ?u |- _ => destruct u; apply check_complete_ok in H as [Hdis Hmeta] end. destruct Hl.
  destruct (decide (a ∈ native_candidates a1)) as [Hc|Hc].
  - left. split; [|intros Hin; by apply (Hdis a)]. apply md_candidates0 in Hc as (r & Hr & Hna & _).
    apply list_elem_of_lookup in Hr as [i Hi]. destruct (Forall2_lookup_l _ _ _ _ _ md_paid0 Hi) as (x & Hx & [[] _ Hnn _]).
    exists r, x. split; [by eapply list_elem_of_lookup_2|]. split; [done|].
    split; [rewrite md_out0; apply elem_of_app; left; by eapply list_elem_of_lookup_2|]. split; [unfold lkey; by rewrite ov_key0|].
    assert (bal (holders (scan a0)) r = w) as Hb by (unfold bal; by rewrite Hna, Ha). cells.
    change (num x AIR = if (minimum_one args <=? num r TOTAL + bal (holders (scan a0)) r) || bool_decide (naddr r ∈ aggregate a0)
                        then bal (holders (scan a0)) r else 0) in ov_airdrop0.
    rewrite ov_airdrop0, Hb.
    replace (_ || _) with true; [done|]. symmetry. apply orb_true_iff. destruct Hd as [Hd|Hd]; [left; apply Z.leb_le; lia|right].
    apply bool_decide_eq_true_2. by rewrite Hna.
  - right. split; cycle 1.
    { intros r Hr Hna. apply Hc, md_candidates0. exists r. split; [done|]. split; [done|]. unfold bal. by rewrite Hna, Ha. }
    assert (a ∈ dkeys (metadata a0)) as Hin.
    { apply Hmeta. exists w. split; [by apply dget_Some_elem|done]. }
    rewrite <- l_addresses0 in Hin. apply list_elem_of_fmap in Hin as (n & -> & Hn). exists n. split; [done|]. split; [done|].
    split; [rewrite md_out0; apply elem_of_app; right; by apply list_elem_of_fmap_2|].
    rewrite Forall_forall in l_new0. destruct (l_new0 n Hn). congruence.
Qed.

(** The closing checks: once the merge has succeeded the wallet, vault and
    WONE totals always close, and when in addition the completeness checks pass
    and the native ledger lists no account twice, the WONE delivered is within
    the reserve, so that the script succeeds. *)
Theorem wone_totals_close exists_ args l s :
  load exists_ args = Ok l → merge args l = Ok s → check_complete args l s = Ok () →
  NoDup (naddr <$> (dict_read (native_claims args)).2) → ∃ o, main exists_ args = Ok o.
Proof.
  intros Hl Hm Hc Hnd. exists (MkOutcome l s (holder_total (scan l) - delivered_wone (count s))). unfold main. rewrite Hl. cbn [mbind result_bind].
  rewrite Hm. cbn [mbind result_bind]. rewrite Hc. cbn [mbind result_bind]. apply load_ok in Hl as Hlo. destruct (merge_ok _ _ _ Hlo Hm) as [res Hmd].
  destruct (closing_totals _ _ _ _ Hlo Hmd) as (H1 & H2 & H3). pose proof (reserve_covers _ _ _ _ Hlo Hmd Hc Hnd) as H4. unfold check_totals.
  rewrite H1, H2, H3, !Z.eqb_refl. cbn. by rewrite (proj2 (Z.ltb_ge _ _)).
Qed.

(** * Witnesses *)

Definition holder_line (a : str) (w : Z) : list str := [a; str_of_Z w; fixed w].
Definition native_line (key a : str) (wallet staked liquid : Z) : list str :=
  [key; a; str_of_Z wallet; str_of_Z staked; str_of_Z (wallet + staked); str_of_Z liquid; "0"%string : str; str_of_Z liquid;
   fixed wallet; fixed (wallet + staked); [] : str; [] : str; "0.00074801"%string : str].
Definition A1 : str := "0x1111111111111111111111111111111111111111"%string.
Definition A2 : str := "0x2222222222222222222222222222222222222222"%string.
Definition A3 : str := "0x3333333333333333333333333333333333333333"%string.
Definition summary_for (text : str) (rows total : Z) : scan_summary :=
  MkSummary (Some ("passed"%string : str)) 93623067 WONE_ADDRESS 0 (Some (str_of_Z total)) (Some (str_of_Z total)) (file_sha256 text) rows total.

(** A holder with a native claim and one without, both above the threshold of 100. *)
Definition sample_holders : str := Eval vm_compute in csv_write [holder_fields; holder_line A1 150; holder_line A2 200].
Definition sample_inputs : inputs := Eval vm_compute in
  MkInputs (csv_write [native_required; native_line "0x00"%string WONE_ADDRESS 350 0 350; native_line "0x01"%string A1 20 5 20])
    sample_holders (summary_for sample_holders 2 350)
    (csv_write [metadata_fields; [A2; "200"%string : str; "200"%string : str; "False"%string : str; "7"%string : str; "0xc5"%string : str; [] : str]])
    None 100 [].
Definition no_loaded : loaded := MkLoaded (MkScan None [] 0 0 0 0 []) ∅ [] [] [].
Definition no_state : state := MkState [] [] zero_counters ∅ false None.
Definition sample_outcome : outcome := from_ok (MkOutcome no_loaded no_state 0) (main false sample_inputs).

Lemma sample_outcome_ok : main false sample_inputs = Ok sample_outcome.
Proof. apply from_ok_is_ok. vm_compute. reflexivity. Qed.

Lemma wone_ledger_exact_witness :
  main false sample_inputs = Ok sample_outcome ∧
  retained sample_outcome + delivered_wone (count (final sample_outcome)) = holder_total (scan (inputs_read sample_outcome)).
Proof.
  split; [exact sample_outcome_ok|]. destruct (wone_ledger_exact _ _ _ sample_outcome_ok) as (res & _ & _ & _ & _ & _ & _ & H). exact H.
Defined.

Lemma wone_complete_witness :
  (∃ r x, r ∈ (dict_read (native_claims sample_inputs)).2 ∧ naddr r = A1 ∧ x ∈ written (final sample_outcome) ∧ lkey x = lkey r ∧ num x AIR = 150)
  ∧ A1 ∉ dkeys (metadata (inputs_read sample_outcome)) ∨
  (∃ n, n ∈ new_rows (inputs_read sample_outcome) ∧ n.1.2 = A1 ∧ n.2 ∈ written (final sample_outcome) ∧ num n.2 AIR = 150)
  ∧ (∀ r, r ∈ (dict_read (native_claims sample_inputs)).2 → naddr r ≠ A1).
Proof.
  refine (wone_complete _ _ _ A1 150 sample_outcome_ok _ _).
  - vm_compute. reflexivity.
  - left. vm_compute. discriminate.
Defined.

Definition sample_loaded : loaded := from_ok no_loaded (load false sample_inputs).
Definition sample_merged : state := from_ok no_state (merge sample_inputs sample_loaded).
Lemma wone_totals_close_witness : ∃ o, main false sample_inputs = Ok o.
Proof.
  refine (wone_totals_close false sample_inputs sample_loaded sample_merged _ _ _ _).
  - apply from_ok_is_ok. vm_compute. reflexivity.
  - apply from_ok_is_ok. vm_compute. reflexivity.
  - vm_compute. reflexivity.
  - compute_decide.
Defined.

(** A holder the native ledger lists under two keys. *)
Definition twice_holders : str := Eval vm_compute in
  csv_write [holder_fields; holder_line A1 150; holder_line A2 90; holder_line A3 90].
Definition twice_inputs : inputs := Eval vm_compute in
  MkInputs (csv_write [native_required; native_line "0x00"%string WONE_ADDRESS 330 0 330; native_line "0x01"%string A1 20 5 20;
                       native_line "0x02"%string A1 0 0 0])
    twice_holders (summary_for twice_holders 3 330) (csv_write [metadata_fields]) None 100 [].
Definition delivered_of (r : result outcome) : option (Z * Z) :=
  match r with Ok o => Some (delivered_wone (count (final o)), retained o) | Raise _ => None end.

(** Without distinct accounts the reserve check is not enough: an account
    holding 150 that the native ledger lists under two keys is paid 300, and the
    script accepts it because other holders' 180 stay below the threshold. *)
Theorem wone_paid_twice :
  delivered_of (main false twice_inputs) = Some (300, 30) ∧
  (s ← load_wone (wone_holders twice_inputs) ∅; Ok (dget (holders s) A1)) = Ok (Some 150).
Proof. split; vm_compute; reflexivity. Qed.
