(* ===== verification/BridgeLib.v ===== *)
(** The library of the bridge tools: toolkit/scripts/bridge/bridge_lib.py.

    Addresses and amounts, the LayerZero call encoders and the decoder of OFT
    payloads, the log and code queries of the node client, the route registry
    and the configuration with the checks made when they are loaded.  Shown
    here: a log query that is split on errors still returns every log of its
    range once and in order, the binary search for a deployment block returns
    the first block with code, and a payload encoded by either form of the OFT
    contract decodes to what was sent. *)

From S2P Require Import Prelude PyStr PyDict Csv Keccak Sha256 Bech32.
Local Open Scope Z_scope.

(** * The code *)

Definition HARMONY : str := "harmony"%string.
Definition NATIVE : str := "native"%string.
Definition KINDS : list str := ["remote_escrow"%string : str; "harmony_origin"%string : str].
Definition CLAIM_ASSETS : list str := ["escrow"%string : str; "one"%string : str; "unsupported"%string : str].
Definition TIME_LABELS : list str := ["rollback"%string : str; "cutoff"%string : str].

(** contract_review_lib.selector, and the table of the calls the tools make. *)
Definition selector (signature : str) : str := "0x"%string ++ hex (take 4 (keccak256 (ords signature))).
Definition signatures : dict str str :=
  [("balanceOf"%string : str, "balanceOf(address)"%string : str); ("totalSupply"%string : str, "totalSupply()"%string : str);
   ("decimals"%string : str, "decimals()"%string : str); ("symbol"%string : str, "symbol()"%string : str);
   ("owner"%string : str, "owner()"%string : str); ("token"%string : str, "token()"%string : str);
   ("lzEndpoint"%string : str, "lzEndpoint()"%string : str); ("getOwners"%string : str, "getOwners()"%string : str);
   ("getThreshold"%string : str, "getThreshold()"%string : str); ("required"%string : str, "required()"%string : str);
   ("VERSION"%string : str, "VERSION()"%string : str);
   ("getInboundNonce"%string : str, "getInboundNonce(uint16,bytes)"%string : str);
   ("getOutboundNonce"%string : str, "getOutboundNonce(uint16,address)"%string : str);
   ("trustedRemoteLookup"%string : str, "trustedRemoteLookup(uint16)"%string : str);
   ("getSendVersion"%string : str, "getSendVersion(address)"%string : str);
   ("getReceiveVersion"%string : str, "getReceiveVersion(address)"%string : str);
   ("transfer"%string : str, "transfer(address,uint256)"%string : str)].
Definition SEL : dict str str := Eval vm_compute in prod_map id selector <$> signatures.

(** ** Addresses and amounts *)

Definition address (value : str) : result str := of_option (any_to_hex (Some value)) (ValueError "invalid address").
Definition is_native (value : str) : bool := bool_decide (value = NATIVE).

Definition RESERVED_LOW_ADDRESS_LIMIT : Z := 0xFFFF.
Definition reserved_address_reason (value : str) : result (option str) :=
  let raw := lower (drop 2 value) in
  n ← py_int16 raw;
  if n <=? RESERVED_LOW_ADDRESS_LIMIT then Ok (Some ("reserved low address (precompile or system contract)"%string : str)) else
  if (length (remove_dups raw) =? 1)%nat then Ok (Some ("placeholder address with one repeated digit"%string : str)) else
  Ok None.

(** [decimals] is not negative. *)
Definition format_units (raw decimals : Z) : str :=
  let sign : str := if raw <? 0 then "-"%string else [] in
  let whole := Z.abs raw / 10 ^ decimals in
  let fraction := Z.abs raw mod 10 ^ decimals in
  if decimals =? 0 then sign ++ str_of_Z whole else
  sign ++ str_of_Z whole ++ "."%string ++ dec_pad (Z.to_nat decimals) fraction.

(** ** ABI helpers *)

(** [format(n, "064x")]: the sign counts in the width. *)
Definition word (value : Z) : str := if value <? 0 then "-"%char :: hex_pad 63 (- value) else hex_pad 64 value.
Definition address_word (value : str) : result str := a ← address value; Ok (rjust 64 "0"%char (drop 2 a)).
Definition strip0x (s : str) : str := if startswith s "0x"%string then drop 2 s else s.
Definition encode_bytes_argument (data_hex : str) : str :=
  let raw := strip0x data_hex in
  let padded := ljust ((length raw + 63) / 64 * 64) "0"%char raw in
  word (zlen raw / 2) ++ padded.
Definition call_data (name : str) (words : list str) : result str :=
  sel ← of_option (dget SEL name) (KeyError name); Ok (sel ++ concat words).
Definition inbound_nonce_data (source_lz_chain_id : Z) (source_app destination_app : str) : result str :=
  s ← address source_app;
  d ← address destination_app;
  call_data "getInboundNonce"%string [word source_lz_chain_id; word 64; encode_bytes_argument (drop 2 s ++ drop 2 d)].
Definition outbound_nonce_data (destination_lz_chain_id : Z) (source_app : str) : result str :=
  a ← address_word source_app;
  call_data "getOutboundNonce"%string [word destination_lz_chain_id; a].

(** contract_review_lib's [_words], [decode_uint] and [decode_address]: whole
    words only. *)
Definition crl_words (hexdata : str) : list str :=
  let raw := strip0x hexdata in chunks 64 (take (length raw - length raw mod 64) raw).
Definition no_data (data : option str) : option str :=
  match data with None => None | Some d => if bool_decide (d = []) || bool_decide (d = "0x"%string) then None else Some d end.
Definition decode_uint (data : option str) : result (option Z) :=
  match no_data data with
  | None => Ok None
  | Some d => match crl_words d !! 0%nat with None => Ok None | Some w => Some <$> py_int16 w end
  end.
Definition decode_address (data : option str) : option str :=
  d ← no_data data;
  w ← crl_words d !! 0%nat;
  if bool_decide (take 24 w = replicate 24 "0"%char) then Some ("0x"%string ++ drop 24 w) else None.

(** Python's indexing and slicing, with negative indices. *)
Definition py_index {A} (l : list A) (i : Z) : option A :=
  let i := if i <? 0 then i + zlen l else i in if i <? 0 then None else l !! Z.to_nat i.
Definition py_bound {A} (l : list A) (i : Z) : nat := Z.to_nat (if i <? 0 then i + zlen l else i).
Definition py_slice {A} (l : list A) (i j : Z) : list A := slice l (py_bound l i) (py_bound l j).

(** The last word may be short. *)
Definition words_of (data : str) : list str := chunks 64 (strip0x data).

Definition decode_dynamic_bytes (data : str) (offset_word : nat) : result (option str) :=
  let raw := strip0x data in
  let words := words_of data in
  match words !! offset_word with
  | None => Ok None
  | Some w =>
      offset ← py_int16 w;
      if negb (offset mod 32 =? 0) then Ok None else
      let start := offset / 32 in
      if zlen words <=? start then Ok None else
      w ← of_option (py_index words start) IndexError;
      length_ ← py_int16 w;
      let body := py_slice raw ((start + 1) * 64) ((start + 1) * 64 + 2 * length_) in
      if negb (zlen body =? 2 * length_) then Ok None else Ok (Some ("0x"%string ++ body))
  end.

Definition topic_address (topic : str) : result str :=
  let raw := strip0x topic in
  _ ← raise_if (negb (length raw =? 64)%nat || negb (bool_decide (take 24 raw = replicate 24 "0"%char)))
        (ValueError "topic is not an address");
  Ok ("0x"%string ++ lower (drop 24 raw)).

Definition packed_address (data_hex : option str) : option str :=
  data_hex ← data_hex;
  let raw := strip0x data_hex in
  if negb (length raw =? 40)%nat then None else Some ("0x"%string ++ lower raw).

(** [int(words[i], 16)]. *)
Definition word_value (words : list str) (i : nat) : result Z := w ← of_option (words !! i) IndexError; py_int16 w.

(** The first form is recognised by its two offsets; [and] stops early. *)
Definition harmony_form (words : list str) : result bool :=
  if (length words <? 4)%nat then Ok false else
  a ← word_value words 1;
  if negb (a =? 128) then Ok false else b ← word_value words 2; Ok (160 <=? b).
Definition upstream_form (words : list str) : result bool :=
  if (length words <? 3)%nat then Ok false else a ← word_value words 1; Ok (a =? 96).

Definition decode_oft_payload (payload_hex : str) : result (option str * option str * Z) :=
  let words := words_of payload_hex in
  h ← harmony_form words;
  if (h : bool) then
    source ← decode_dynamic_bytes payload_hex 1;
    recipient ← decode_dynamic_bytes payload_hex 2;
    amount ← word_value words 3;
    Ok (packed_address source, packed_address recipient, amount)
  else
    u ← upstream_form words;
    if (u : bool) then
      recipient ← decode_dynamic_bytes payload_hex 1;
      amount ← word_value words 2;
      Ok (None, packed_address recipient, amount)
    else Raise (ValueError "unrecognized OFT payload layout").

(** ** Node queries *)

(** [needle in text]. *)
Fixpoint contains (text needle : str) : bool :=
  startswith text needle || match text with [] => false | _ :: t => contains t needle end.

(** The outcome of [call_soft("eth_getLogs", ...)]: a list of logs, another
    result without an error, or an error given by its JSON text.  A log keeps
    its block, whether it was removed, and its data. *)
Record log := MkLog { log_block : Z; removed : bool; log_data : str }.
Inductive soft :=
  | Logs (l : list log)
  | Other
  | Failed (error : str).

Definition is_rate_limited (error : str) : bool :=
  let message := lower error in
  existsb (λ marker : str, contains message marker)
    ["rate limit"%string : str; "rate-limit"%string : str; "too many requests"%string : str; "limit exceeded"%string : str;
     "usage limit"%string : str]
  && negb (contains message "block range"%string) && negb (contains message "blocks range"%string).

Definition limited (reply : soft) : bool := match reply with Failed error => is_rate_limited error | _ => false end.

(** The ranges of [logs]; [range_size] blocks each. *)
Fixpoint block_ranges (fuel : nat) (start to_block range_size : Z) : list (Z * Z) :=
  match fuel with
  | O => []
  | S fuel =>
      if start <=? to_block then
        let end_ := Z.min to_block (start + range_size - 1) in
        (start, end_) :: block_ranges fuel (end_ + 1) to_block range_size
      else []
  end.

(** A node answers the n-th attempt at a query; it may also fail to answer. *)
Section node.
Context (get_logs : Z → Z → nat → result soft) (get_code : Z → result (option str)).

Fixpoint retry (start end_ : Z) (tries attempt : nat) : result soft :=
  reply ← get_logs start end_ attempt;
  match tries with
  | S tries => if limited reply then retry start end_ tries (S attempt) else Ok reply
  | O => Ok reply
  end.

Fixpoint logs_range (fuel : nat) (start end_ : Z) : result (list log) :=
  match fuel with
  | O => Raise (RuntimeError "out of fuel")
  | S fuel =>
      reply ← retry start end_ 6 0;
      match reply with
      | Logs l => if existsb removed l then Raise (RpcError "RPC returned a removed log") else Ok l
      | _ =>
          if start =? end_ then Raise (RpcError "eth_getLogs failed") else
          let middle := start + (end_ - start) / 2 in
          left_ ← logs_range fuel start middle;
          right_ ← logs_range fuel (middle + 1) end_;
          Ok (left_ ++ right_)
      end
  end.

Definition range_fuel (start end_ : Z) : nat := S (Z.to_nat (end_ - start)).

Definition logs (from_block to_block range_size : Z) : result (list log) :=
  let ranges := block_ranges (range_fuel from_block to_block) from_block to_block range_size in
  parts ← mapM (λ r, logs_range (range_fuel r.1 r.2) r.1 r.2) ranges;
  Ok (concat parts).

Definition has_code (block : Z) : result bool :=
  code ← get_code block; Ok (match code with None => false | Some c => negb (bool_decide (c = [])) && negb (bool_decide (c = "0x"%string)) end).

Fixpoint search_loop (fuel : nat) (low high : Z) : result Z :=
  if low <? high then
    match fuel with
    | O => Raise (RuntimeError "out of fuel")
    | S fuel =>
        let middle := (low + high) / 2 in
        h ← has_code middle;
        if (h : bool) then search_loop fuel low middle else search_loop fuel (middle + 1) high
    end
  else Ok low.

Definition deployment_block (high : Z) : result Z :=
  h ← has_code high;
  _ ← raise_if (negb h) (ValueError "no code");
  search_loop (S (Z.to_nat (Z.log2 high))) 0 high.
End node.

(** ** Registry *)

Record harmony_entry := MkHarmony { proxy : str; token : str }.

(** A pool of the registry; a peer keeps its address only.  [decimals] is read
    as an integer. *)
Record pool := MkPool {
  pool_id : str; kind : str; chain : str; symbol : str; decimals : Z; claim_asset : str; remote_adapter : str; remote_token : str;
  harmony : list harmony_entry; previous_remote_adapters : list str; ignored_peers : list str; ignored_remote_peers : list str }.

Record system_address := MkSystem { sys_chain : str; sys_address : str; role : str }.

(** The names of the chains are all the loader uses of that section. *)
Record routes := MkRoutes {
  schema_version : option Z; endpoint : str; wone : str; chains : list str; pools : list pool; system_addresses : list system_address }.

Definition token_address (t : str) : result str := if is_native t then Ok t else address t.
Definition load_entry (e : harmony_entry) : result harmony_entry :=
  p ← address (proxy e); t ← token_address (token e); Ok (MkHarmony p t).

Definition load_pool (chains : list str) (p : pool) : result pool :=
  _ ← raise_if (bool_decide (kind p ∉ KINDS)) (ValueError "unknown kind");
  _ ← raise_if (bool_decide (claim_asset p ∉ CLAIM_ASSETS)) (ValueError "unknown claim_asset");
  _ ← raise_if (bool_decide (chain p ∉ chains)) (ValueError "unknown chain");
  _ ← raise_if (bool_decide (kind p = "remote_escrow"%string) && negb (bool_decide (claim_asset p = "escrow"%string)))
        (ValueError "remote_escrow pools pay the escrow asset");
  _ ← raise_if (bool_decide (claim_asset p = "one"%string) && negb (bool_decide (kind p = "harmony_origin"%string)))
        (ValueError "ONE claims need a harmony_origin pool");
  adapter ← address (remote_adapter p);
  rtoken ← token_address (remote_token p);
  _ ← raise_if (bool_decide (length (harmony p) = 0%nat)) (ValueError "no Harmony contracts");
  entries ← mapM load_entry (harmony p);
  previous ← mapM address (previous_remote_adapters p);
  peers ← mapM address (ignored_peers p);
  remote_peers ← mapM address (ignored_remote_peers p);
  Ok (MkPool (pool_id p) (kind p) (chain p) (symbol p) (decimals p) (claim_asset p) adapter rtoken entries previous peers remote_peers).

Definition load_pool_step (chains : list str) (st : gset str * list pool) (p : pool) : result (gset str * list pool) :=
  let '(seen, loaded) := st in
  _ ← raise_if (bool_decide (pool_id p ∈ seen)) (ValueError "duplicate pool_id");
  q ← load_pool chains p;
  Ok ({[pool_id p]} ∪ seen, loaded ++ [q]).

Definition load_system (chains : list str) (e : system_address) : result system_address :=
  a ← address (sys_address e);
  _ ← raise_if (negb (bool_decide (sys_chain e = "*"%string)) && negb (bool_decide (sys_chain e = HARMONY))
                && bool_decide (sys_chain e ∉ chains)) (ValueError "system address on unknown chain");
  Ok (MkSystem (sys_chain e) a (role e)).

Definition load_routes (r : routes) : result routes :=
  _ ← raise_if (negb (bool_decide (schema_version r = Some 1))) (ValueError "unsupported route registry schema");
  ep ← address (endpoint r);
  w ← address (wone r);
  _ ← raise_if (bool_decide (HARMONY ∈ chains r)) (ValueError "harmony belongs in the harmony section, not chains");
  '(_, ps) ← foldM (load_pool_step (chains r)) (∅, []) (pools r);
  systems ← mapM (load_system (chains r)) (system_addresses r);
  Ok (MkRoutes (schema_version r) ep w (chains r) ps systems).

(** ** Configuration *)

(** A chain's entry; an absent custody multisig is [None]. *)
Record chain_entry := MkChain { custody_multisig : option str; pinned_blocks : list (str * Z) }.
Record one_claims := MkOne {
  claim_chain : str; claim_token : str; reserve_safe : str; one_multisig : option str; routing_destination_id : option str }.
Record config := MkConfig {
  config_schema : option Z; chain_entries : dict str chain_entry; one : one_claims; remote_holder_overrides : list (str * str);
  minimum_claim_raw : option Z; minimum_claim_raw_by_pool : dict str Z }.

(** [if entry.get(key): entry[key] = address(entry[key])]; empty text is false. *)
Definition optional_address (a : option str) : result (option str) :=
  match a with None | Some [] => Ok a | Some v => Some <$> address v end.
Definition truthy (a : option str) : option str := match a with Some [] => None | _ => a end.

Definition load_chain (e : str * chain_entry) : result (str * chain_entry) :=
  c ← optional_address (custody_multisig e.2);
  _ ← raise_if (existsb (λ pin, bool_decide (pin.1 ∉ TIME_LABELS)) (pinned_blocks e.2)) (ValueError "unknown pinned block label");
  Ok (e.1, MkChain c (pinned_blocks e.2)).

Definition load_one (chains : list str) (o : one_claims) : result one_claims :=
  _ ← raise_if (bool_decide (claim_chain o ∉ chains)) (ValueError "one_claims.claim_chain must be a remote chain");
  t ← address (claim_token o);
  s ← address (reserve_safe o);
  c ← optional_address (one_multisig o);
  Ok (MkOne (claim_chain o) t s c (routing_destination_id o)).

(** After the two times have been parsed. *)
Definition load_config (c : config) (r : routes) : result config :=
  _ ← raise_if (negb (bool_decide (config_schema c = Some 1))) (ValueError "unsupported bridge config schema");
  _ ← raise_if (existsb (λ name, negb (dmem (chain_entries c) name)) (HARMONY :: chains r)) (ValueError "config chains missing");
  entries ← mapM load_chain (chain_entries c);
  o ← load_one (chains r) (one c);
  _ ← raise_if (existsb (λ p, bool_decide (p.2 ∉ TIME_LABELS)) (remote_holder_overrides c)) (ValueError "snapshot override");
  Ok (MkConfig (config_schema c) entries o (remote_holder_overrides c) (minimum_claim_raw c) (minimum_claim_raw_by_pool c)).

Definition one_custody (c : config) : result (option str) :=
  match truthy (one_multisig (one c)) with
  | Some m => Ok (Some m)
  | None => e ← of_option (dget (chain_entries c) (claim_chain (one c))) (KeyError (claim_chain (one c))); Ok (custody_multisig e)
  end.

(** [roles.setdefault(account, role)]. *)
Definition setdefault {A} (d : dict str A) (kv : str * A) : dict str A := if dmem d kv.1 then d else dset d kv.1 kv.2.
Definition setdefaults {A} (d : dict str A) (l : list (str * A)) : dict str A := foldl setdefault d l.

Definition named (t text : str) : list (str * str) := if is_native t then [] else [(t, text)].

(** The roles a pool gives on a chain, in the order they are set. *)
Definition pool_roles (chain_ : str) (p : pool) : list (str * str) :=
  (if bool_decide (chain_ = chain p) then
     [(remote_adapter p, pool_id p ++ " remote adapter"%string)]
     ++ ((λ a, (a, pool_id p ++ " previous adapter"%string)) <$> previous_remote_adapters p)
     ++ ((λ a, (a, pool_id p ++ " ignored remote peer"%string)) <$> ignored_remote_peers p)
     ++ named (remote_token p) (pool_id p ++ " token"%string)
   else [])
  ++ (if bool_decide (chain_ = HARMONY) then
        ((λ a, (a, pool_id p ++ " ignored Harmony peer"%string)) <$> ignored_peers p)
        ++ concat ((λ e, (proxy e, pool_id p ++ " Harmony proxy"%string) :: named (token e) (pool_id p ++ " Harmony token"%string))
                   <$> harmony p)
      else []).

Definition system_address_roles (r : routes) (chain_ : str) : dict str str :=
  let roles := setdefaults [] ((λ e, (sys_address e, role e)) <$>
    filter (λ e, sys_chain e = "*"%string ∨ sys_chain e = chain_) (system_addresses r)) in
  let roles := setdefaults roles (concat (pool_roles chain_ <$> pools r)) in
  if bool_decide (chain_ = HARMONY)
  then setdefaults roles [(endpoint r, "LayerZero endpoint"%string : str); (wone r, "WONE contract"%string : str)] else roles.

Definition claimant_chain (p : pool) : str := if bool_decide (kind p = "remote_escrow"%string) then HARMONY else chain p.

(** [list(dict.fromkeys(pairs))] keeps the first of equal pairs. *)
Definition claimant_tokens (p : pool) : list (str * str) :=
  let pairs := if bool_decide (kind p = "remote_escrow"%string) then (λ e, (HARMONY, token e)) <$> harmony p
               else [(chain p, remote_token p)] in
  dkeys (dict_of ((λ k, (k, ())) <$> pairs)).

Definition claim_target (p : pool) (c : config) : option str * option str :=
  if bool_decide (claim_asset p = "escrow"%string) then (Some (chain p), Some (remote_token p)) else
  if bool_decide (claim_asset p = "one"%string) then (Some (claim_chain (one c)), Some (claim_token (one c))) else
  (None, None).

Definition holder_file_stem (chain_ token_ : str) (block : Z) : result str :=
  a ← address token_; Ok (chain_ ++ "-"%string ++ a ++ "-"%string ++ str_of_Z block).

(** * Log queries *)

(** The logs of the blocks from [start] to [end_]. *)
Definition logs_between (chain_logs : Z → list log) (start end_ : Z) : list log :=
  concat (chain_logs <$> seqZ start (end_ - start + 1)).

Lemma logs_between_split chain_logs start middle end_ :
  start ≤ middle + 1 → middle ≤ end_ →
  logs_between chain_logs start middle ++ logs_between chain_logs (middle + 1) end_ = logs_between chain_logs start end_.
Proof.
  intros. unfold logs_between. rewrite <- concat_app, <- fmap_app. do 2 f_equal.
  replace (end_ - start + 1) with ((middle - start + 1) + (end_ - (middle + 1) + 1)) by lia.
  rewrite (seqZ_app start (middle - start + 1)) by lia. do 2 f_equal. lia.
Qed.

Lemma middle_bounds start end_ : start < end_ → start ≤ start + (end_ - start) / 2 < end_.
Proof. intros. pose proof (Z.div_lt (end_ - start) 2). pose proof (Z.div_pos (end_ - start) 2). lia. Qed.

(** The ranges are consecutive: what is read range by range is what is read at once. *)
Lemma block_ranges_cover chain_logs fuel start to_block range_size :
  0 < range_size → to_block - start < Z.of_nat fuel →
  Forall (λ r, start ≤ r.1 ≤ r.2 ∧ r.2 ≤ to_block) (block_ranges fuel start to_block range_size) ∧
  concat ((λ r, logs_between chain_logs r.1 r.2) <$> block_ranges fuel start to_block range_size)
  = logs_between chain_logs start to_block.
Proof.
  intros Hr. revert start. induction fuel as [|fuel IH]; intros start Hf; cbn [block_ranges].
  - split; [done|]. unfold logs_between. by rewrite seqZ_nil by lia.
  - destruct (Z.leb_spec start to_block).
    + destruct (IH (Z.min to_block (start + range_size - 1) + 1)) as [Hb He]; [lia|]. split.
      * constructor; [cbn; lia|]. eapply Forall_impl; [exact Hb|]. cbn. lia.
      * cbn [fmap list_fmap concat fst snd]. unfold fmap in He |- *. rewrite He. apply logs_between_split; lia.
    + split; [done|]. unfold logs_between. by rewrite seqZ_nil by lia.
Qed.

Section log_queries.
Context (chain_logs : Z → list log) (get_logs : Z → Z → nat → result soft).

(** eth_getLogs: a list that comes back without an error holds the logs of the
    range, in block order. *)
Hypothesis honest : ∀ s e k l, get_logs s e k = Ok (Logs l) → l = logs_between chain_logs s e.

Lemma retry_honest s e tries attempt l : retry get_logs s e tries attempt = Ok (Logs l) → l = logs_between chain_logs s e.
Proof.
  revert attempt. induction tries as [|tries IH]; intros attempt H; cbn [retry] in H; inv_ok; subst.
  - by eapply honest.
  - case_match; [by eapply IH|]. inv_ok. subst. by eapply honest.
Qed.

Lemma logs_range_honest fuel s e l : logs_range get_logs fuel s e = Ok l → s ≤ e → l = logs_between chain_logs s e.
Proof.
  revert s e l. induction fuel as [|fuel IH]; intros s e l H Hse; cbn [logs_range] in H; [done|].
  assert (Hsplit : ∀ a1 a2, s ≠ e → logs_range get_logs fuel s (s + (e - s) / 2) = Ok a1 →
            logs_range get_logs fuel (s + (e - s) / 2 + 1) e = Ok a2 → a1 ++ a2 = logs_between chain_logs s e).
  { intros a1 a2 Hne H1 H2. pose proof (middle_bounds s e ltac:(lia)).
    rewrite (IH _ _ _ H1), (IH _ _ _ H2) by lia. apply logs_between_split; lia. }
  inv_ok. destruct a as [l'| |error]; inv_ok; zbool; subst; [by eapply retry_honest|eauto..].
Qed.

Lemma retry_answers s e tries attempt :
  (∀ k, is_ok (get_logs s e k) = true) → ∃ reply, retry get_logs s e tries attempt = Ok reply.
Proof.
  intros Hok. revert attempt. induction tries as [|tries IH]; intros attempt; cbn [retry];
    pose proof (Hok attempt); destruct (get_logs s e attempt); try done; cbn; [by eexists|].
  case_match; [by apply IH|by eexists].
Qed.

Lemma not_removed s e :
  (∀ b, s ≤ b ≤ e → existsb removed (chain_logs b) = false) → existsb removed (logs_between chain_logs s e) = false.
Proof.
  intros Hn. apply existsb_false. unfold logs_between. apply Forall_concat, Forall_fmap, Forall_forall. intros b Hb.
  apply elem_of_seqZ in Hb. cbn. apply existsb_false, Hn. lia.
Qed.

(** A query is answered with a list, after at most six replies that ask to
    slow down. *)
Definition answered (s e : Z) : Prop :=
  ∃ k l, (k ≤ 6)%nat ∧ get_logs s e k = Ok (Logs l) ∧
         ∀ j, (j < k)%nat → ∃ error, get_logs s e j = Ok (Failed error) ∧ is_rate_limited error = true.

Lemma answered_retry s e : answered s e → ∃ l, retry get_logs s e 6 0 = Ok (Logs l).
Proof.
  intros (k & l & Hk & Hl & Hj). exists l.
  assert (Hgo : ∀ d j, (d + j = k)%nat → ∀ tries, (k ≤ tries + j)%nat → retry get_logs s e tries j = Ok (Logs l)); [|by apply (Hgo k 0%nat); lia].
  induction d as [|d IH]; intros j Hdj tries Ht.
  - replace j with k by lia. destruct tries; cbn [retry]; by rewrite Hl.
  - destruct (Hj j ltac:(lia)) as (error & He & Hlim). destruct tries as [|tries]; [lia|]. cbn [retry].
    rewrite He. cbn. rewrite Hlim. apply IH; lia.
Qed.

Lemma logs_range_answers fuel s e :
  (∀ x y k, is_ok (get_logs x y k) = true) → (∀ b, s ≤ b ≤ e → answered b b) →
  (∀ b, s ≤ b ≤ e → existsb removed (chain_logs b) = false) → s ≤ e → e - s < Z.of_nat fuel →
  ∃ l, logs_range get_logs fuel s e = Ok l.
Proof.
  intros Hok. revert s e. induction fuel as [|fuel IH]; intros s e Hans Hrem Hse Hf; [lia|]. cbn [logs_range].
  destruct (retry_answers s e 6 0) as [reply Hreply]; [done|]. rewrite Hreply. cbn [mbind result_bind].
  assert (Hsplit : s ≠ e → ∃ l, (left_ ← logs_range get_logs fuel s (s + (e - s) / 2);
                                 right_ ← logs_range get_logs fuel (s + (e - s) / 2 + 1) e; Ok (left_ ++ right_)) = Ok l).
  { intros Hne. pose proof (middle_bounds s e ltac:(lia)).
    destruct (IH s (s + (e - s) / 2)) as [l1 ->]; [intros; apply Hans; lia|intros; apply Hrem; lia|lia..|].
    destruct (IH (s + (e - s) / 2 + 1) e) as [l2 ->]; [intros; apply Hans; lia|intros; apply Hrem; lia|lia..|].
    by eexists. }
  destruct (Z.eqb_spec s e) as [->|Hne].
  - destruct (answered_retry e e) as [l Hl]; [apply Hans; lia|]. rewrite Hl in Hreply. inv_ok. subst.
    rewrite (retry_honest _ _ _ _ _ Hl), not_removed by done. by eexists.
  - destruct reply; try by apply Hsplit. rewrite (retry_honest _ _ _ _ _ Hreply), not_removed by done. by eexists.
Qed.
End log_queries.

(** when the node answers a log query honestly whenever it answers it with
    a list, [logs] returns every log of the range once and in order, however
    the range was cut and split on errors; and it does return when the node
    never fails to answer, answers each single block within its retries, and
    has no removed logs. *)
Theorem logs_complete chain_logs get_logs from_block to_block range_size :
  (∀ s e k l, get_logs s e k = Ok (Logs l) → l = logs_between chain_logs s e) → 0 < range_size →
  (∀ l, logs get_logs from_block to_block range_size = Ok l → l = logs_between chain_logs from_block to_block) ∧
  ((∀ s e k, is_ok (get_logs s e k) = true) → (∀ b, from_block ≤ b ≤ to_block → answered get_logs b b) →
   (∀ b, from_block ≤ b ≤ to_block → existsb removed (chain_logs b) = false) →
   logs get_logs from_block to_block range_size = Ok (logs_between chain_logs from_block to_block)).
Proof.
  intros Hh Hr. unfold logs.
  destruct (block_ranges_cover chain_logs (range_fuel from_block to_block) from_block to_block range_size Hr) as [Hb Hc];
    [unfold range_fuel; lia|].
  set (ranges := block_ranges _ _ _ _) in *.
  assert (Hsome : ∀ r parts, mapM (λ r, logs_range get_logs (range_fuel r.1 r.2) r.1 r.2) r = Ok parts →
            Forall (λ r, from_block ≤ r.1 ≤ r.2 ∧ r.2 ≤ to_block) r → parts = (λ r, logs_between chain_logs r.1 r.2) <$> r).
  { intros r parts Hp Hf. apply mapM_Ok_Forall2 in Hp. induction Hp as [|x y xs ys Hx _ IH]; [done|].
    apply Forall_cons in Hf as [H1 H2]. cbn. rewrite (IH H2). f_equal. apply (logs_range_honest _ _ Hh) in Hx; [done|lia]. }
  split.
  - intros l H. inv_ok. subst. rewrite (Hsome _ _ E Hb). done.
  - intros Hok Hans Hrem. rewrite (mapM_Ok_map _ (λ r, logs_between chain_logs r.1 r.2)); [cbn [mbind result_bind]; by rewrite Hc|].
    eapply Forall_impl; [exact Hb|]. intros [x y] Hxy. cbn in *.
    destruct (logs_range_answers _ _ Hh (range_fuel x y) x y) as [l Hl];
      [done|intros; apply Hans; lia|intros; apply Hrem; lia|lia|unfold range_fuel; lia|].
    apply (logs_range_honest _ _ Hh) in Hl as Hl2; [|lia]. by rewrite <- Hl2.
Qed.

(** A node with one log in every block that refuses ranges of more than two
    blocks and asks to slow down once. *)
Definition sample_logs (b : Z) : list log := [MkLog b false (str_of_Z b)].
Definition sample_get_logs (s e : Z) (k : nat) : result soft :=
  if 1 <? e - s then Ok (Failed "query exceeds max block range"%string) else
  match k with O => Ok (Failed "Too Many Requests"%string) | S _ => Ok (Logs (logs_between sample_logs s e)) end.

Lemma logs_complete_witness :
  logs sample_get_logs 3 20 7 = Ok (logs_between sample_logs 3 20) ∧ length (logs_between sample_logs 3 20) = 18%nat.
Proof.
  split; [|vm_compute; reflexivity]. destruct (logs_complete sample_logs sample_get_logs 3 20 7) as [_ H].
  - intros s e k l. unfold sample_get_logs. case_match; [done|]. destruct k; [done|]. intros [= <-]. done.
  - lia.
  - apply H.
    + intros s e k. unfold sample_get_logs. case_match; [done|]. by destruct k.
    + intros b _. exists 1%nat, (logs_between sample_logs b b). split; [lia|]. unfold sample_get_logs.
      rewrite Z.sub_diag. cbn. split; [done|]. intros j Hj. replace j with 0%nat by lia. eexists. split; [done|].
      vm_compute. reflexivity.
    + intros b _. reflexivity.
Defined.

(** * Deployment block *)

Lemma search_loop_finds (code : Z → bool) get_code fuel low high :
  (∀ b, 0 ≤ b → has_code get_code b = Ok (code b)) → 0 ≤ low ≤ high → high - low < 2 ^ Z.of_nat fuel → code high = true →
  (low = 0 ∨ code (low - 1) = false) →
  ∃ b, search_loop get_code fuel low high = Ok b ∧ low ≤ b ≤ high ∧ code b = true ∧ (b = 0 ∨ code (b - 1) = false).
Proof.
  intros Hc. revert low high. induction fuel as [|fuel IH]; intros low high Hlh Hf Hhigh Hlow; cbn [search_loop].
  - change (2 ^ Z.of_nat 0) with 1 in Hf. replace high with low in * by lia. rewrite Z.ltb_irrefl. eauto with lia.
  - rewrite Nat2Z.inj_succ, Z.pow_succ_r in Hf by lia. destruct (Z.ltb_spec low high).
    + assert (Hm : low ≤ (low + high) / 2 < high).
      { split; [apply Z.div_le_lower_bound; lia|apply Z.div_lt_upper_bound; lia]. }
      pose proof (Z.mul_div_le (low + high) 2). pose proof (Z.mul_succ_div_gt (low + high) 2).
      rewrite Hc by lia. cbn [mbind result_bind]. destruct (code ((low + high) / 2)) eqn:E.
      * destruct (IH low ((low + high) / 2)) as (b & -> & Hb); [lia..|done|done|]. exists b. intuition lia.
      * destruct (IH ((low + high) / 2 + 1) high) as (b & -> & Hb); [lia..|done| |].
        { right. by replace (_ + 1 - 1) with ((low + high) / 2) by lia. }
        exists b. intuition lia.
    + replace high with low in * by lia. eauto with lia.
Qed.

(** when the node answers, [deployment_block] stops and returns a block with
    code whose predecessor has none; when code once deployed stays, it is the
    first block with code. *)
Theorem deployment_block_first (code : Z → bool) get_code high :
  (∀ b, 0 ≤ b → has_code get_code b = Ok (code b)) → 0 ≤ high → code high = true →
  ∃ b, deployment_block get_code high = Ok b ∧ 0 ≤ b ≤ high ∧ code b = true ∧ (b = 0 ∨ code (b - 1) = false) ∧
       ((∀ x y, 0 ≤ x ≤ y → code x = true → code y = true) → ∀ x, 0 ≤ x → code x = true → b ≤ x).
Proof.
  intros Hc Hh Hcode. unfold deployment_block. rewrite Hc, Hcode by done. cbn [mbind result_bind negb raise_if].
  destruct (search_loop_finds code get_code (S (Z.to_nat (Z.log2 high))) 0 high) as (b & Hb & Hr & Hcb & Hp);
    [done|lia|pose proof (digits_fuel_enough high Hh); lia|done|by left|].
  exists b. split; [done|]. split; [lia|]. split; [done|]. split; [done|]. intros Hmono x Hx Hcx.
  destruct Hp as [->|Hp]; [done|]. destruct (Z.le_gt_cases b x) as [|Hlt]; [done|].
  rewrite (Hmono x (b - 1)) in Hp by (done || lia). done.
Qed.

Lemma deployment_block_first_witness :
  ∃ b, deployment_block (λ b, Ok (Some (if 71 <=? b then "0x60"%string : str else "0x"%string))) 1000 = Ok b ∧ b = 71.
Proof.
  destruct (deployment_block_first (λ b, 71 <=? b) (λ b, Ok (Some (if 71 <=? b then "0x60"%string : str else "0x"%string))) 1000)
    as (b & Hb & _ & Hc & Hp & _).
  - intros b _. unfold has_code. cbn. by destruct (71 <=? b).
  - lia.
  - reflexivity.
  - exists b. split; [done|]. destruct Hp as [->|Hp]; zbool; lia.
Defined.

(** * OFT payloads *)

Lemma word_nonneg v : 0 ≤ v → word v = hex_pad 64 v.
Proof. intros. unfold word. by destruct (Z.ltb_spec v 0); [lia|]. Qed.

Lemma length_word v : 0 ≤ v < 2 ^ 256 → length (word v) = 64%nat.
Proof.
  intros Hv. rewrite word_nonneg by lia. apply length_rjust, length_str_of_nonneg_le; [lia| |lia].
  change (16 ^ Z.of_nat 64) with (2 ^ 256). lia.
Qed.

Lemma int_word v : 0 ≤ v → py_int16 (word v) = Ok v.
Proof. intros. rewrite word_nonneg by lia. unfold py_int16, hex_pad. by rewrite int_base_rjust by lia. Qed.

Lemma strip0x_app s : strip0x ("0x"%string ++ s) = s.
Proof. unfold strip0x. by rewrite startswith_app. Qed.

Lemma strip0x_hex b : bytes_ok b → strip0x (hex b) = hex b.
Proof.
  intros Hb. unfold strip0x, startswith. case_bool_decide as E; [|done]. exfalso.
  destruct Hb as [|x b Hx Hb]; [done|]. rewrite hex_cons in E. cbn in E. injection E as _ E.
  apply (proj1 (hexdigit_not_x (x mod 16) ltac:(by apply byte_nibbles))). done.
Qed.

(** The words of twenty packed bytes. *)
Definition packed_words (b : bytes) : list str := [word 20; hex b ++ replicate 24 "0"%char].

Lemma encode_packed b : bytes_ok b → length b = 20%nat → encode_bytes_argument (hex b) = concat (packed_words b).
Proof.
  intros Hb Hl. unfold encode_bytes_argument. rewrite strip0x_hex by done.
  unfold zlen, ljust. rewrite length_hex, Hl. cbn [concat packed_words]. by rewrite app_nil_r.
Qed.

Lemma packed_words_length b : length b = 20%nat → Forall (λ w, length w = 64%nat) (packed_words b).
Proof. intros Hl. repeat constructor. rewrite length_app, length_hex, Hl. done. Qed.

Lemma decode_packed ws k i b :
  Forall (λ w, length w = 64%nat) ws → ws !! k = Some (word (32 * Z.of_nat i)) → bytes_ok b → length b = 20%nat →
  ws !! i = Some (word 20) → ws !! S i = Some (hex b ++ replicate 24 "0"%char) →
  decode_dynamic_bytes ("0x"%string ++ concat ws) k = Ok (Some ("0x"%string ++ hex b)).
Proof.
  intros Hw Hk Hb Hl Hi Hi2. unfold decode_dynamic_bytes, words_of. rewrite strip0x_app, chunks_concat by (done || lia).
  rewrite Hk, int_word by lia. cbn [mbind result_bind]. rewrite Z.mul_comm, Z.mod_mul by lia. cbn [Z.eqb negb].
  rewrite Z.div_mul by lia.
  pose proof (lookup_lt_Some _ _ _ Hi2) as Hlen. unfold zlen at 1. destruct (Z.leb_spec (Z.of_nat (length ws)) (Z.of_nat i)); [lia|].
  unfold py_index. destruct (Z.ltb_spec (Z.of_nat i) 0); [lia|]. rewrite Nat2Z.id, Hi. cbn [of_option mbind result_bind].
  destruct (Z.ltb_spec (Z.of_nat i) 0); [lia|]. cbn [of_option mbind result_bind]. rewrite int_word by lia.
  cbn [mbind result_bind]. unfold py_slice, py_bound.
  destruct (Z.ltb_spec ((Z.of_nat i + 1) * 64) 0); [lia|]. destruct (Z.ltb_spec ((Z.of_nat i + 1) * 64 + 2 * 20) 0); [lia|].
  replace (Z.to_nat ((Z.of_nat i + 1) * 64)) with (S i * 64)%nat by lia.
  replace (Z.to_nat ((Z.of_nat i + 1) * 64 + 2 * 20)) with (S i * 64 + 40)%nat by lia. rewrite slice_take_drop.
  assert (drop (S i * 64) (concat ws) = (hex b ++ replicate 24 "0"%char) ++ concat (drop (S (S i)) ws)) as ->.
  { rewrite <- (take_drop_middle _ _ _ Hi2) at 1. rewrite concat_app. cbn [concat]. apply drop_app_length'.
    rewrite (length_concat_same 64); [rewrite length_take; lia|]. by apply Forall_take. }
  rewrite <- app_assoc, take_app_length' by (rewrite length_hex; lia). unfold zlen. rewrite length_hex, Hl. done.
Qed.

(** What the two forms of the contract send: Harmony's fork encodes (uint16,
    bytes from, bytes to, uint amount), upstream (uint16, bytes to, uint). *)
Definition harmony_payload (packet_type : Z) (source recipient : bytes) (amount : Z) : str :=
  "0x"%string ++ word packet_type ++ word 128 ++ word 192 ++ word amount
  ++ encode_bytes_argument (hex source) ++ encode_bytes_argument (hex recipient).
Definition upstream_payload (packet_type : Z) (recipient : bytes) (amount : Z) : str :=
  "0x"%string ++ word packet_type ++ word 96 ++ word amount ++ encode_bytes_argument (hex recipient).

Lemma word_value_word ws i v : ws !! i = Some (word v) → 0 ≤ v → word_value ws i = Ok v.
Proof. intros Hi Hv. unfold word_value. rewrite Hi. cbn. by apply int_word. Qed.

Lemma packed_hex b : bytes_ok b → length b = 20%nat → packed_address (Some ("0x"%string ++ hex b)) = Some ("0x"%string ++ hex b).
Proof. intros Hb Hl. unfold packed_address. cbn [mbind option_bind]. by rewrite strip0x_app, length_hex, Hl, lower_hex. Qed.

(** [decode_oft_payload] reads back, from either form of the payload, the
    sender, the recipient and the amount that were encoded. *)
Theorem oft_payload_roundtrip packet_type source recipient amount :
  0 ≤ packet_type < 2 ^ 16 → 0 ≤ amount < 2 ^ 256 → bytes_ok source → length source = 20%nat → bytes_ok recipient →
  length recipient = 20%nat →
  decode_oft_payload (harmony_payload packet_type source recipient amount)
  = Ok (Some ("0x"%string ++ hex source), Some ("0x"%string ++ hex recipient), amount) ∧
  decode_oft_payload (upstream_payload packet_type recipient amount) = Ok (None, Some ("0x"%string ++ hex recipient), amount).
Proof.
  intros Ht Ha Hs Hsl Hr Hrl. split.
  - pose (ws := [word packet_type; word 128; word 192; word amount] ++ packed_words source ++ packed_words recipient).
    assert (harmony_payload packet_type source recipient amount = "0x"%string ++ concat ws) as ->.
    { unfold harmony_payload, ws. rewrite !encode_packed by done. rewrite !concat_app. cbn [concat]. by rewrite app_nil_r, <- !app_assoc. }
    assert (Hw : Forall (λ w, length w = 64%nat) ws).
    { apply Forall_app; split; [repeat constructor; apply length_word; lia|].
      apply Forall_app; split; by apply packed_words_length. }
    unfold decode_oft_payload, words_of. rewrite strip0x_app, chunks_concat by (done || lia).
    unfold harmony_form. rewrite (word_value_word ws 1 128), (word_value_word ws 2 192), (word_value_word ws 3 amount) by (done || lia).
    pose proof (decode_packed ws 1 4 source Hw eq_refl Hs Hsl eq_refl eq_refl) as D1.
    pose proof (decode_packed ws 2 6 recipient Hw eq_refl Hr Hrl eq_refl eq_refl) as D2.
    revert D1 D2. generalize ("0x"%string ++ concat ws). intros P D1 D2.
    cbn [mbind result_bind]. change (length ws <? 4)%nat with false. cbn [Z.eqb Z.leb Z.compare negb Pos.eqb Pos.compare Pos.compare_cont].
    rewrite D1, D2. cbn [mbind result_bind]. by rewrite !packed_hex.
  - pose (ws := [word packet_type; word 96; word amount] ++ packed_words recipient).
    assert (upstream_payload packet_type recipient amount = "0x"%string ++ concat ws) as ->.
    { unfold upstream_payload, ws. rewrite !encode_packed by done. rewrite !concat_app. cbn [concat]. by rewrite app_nil_r, <- !app_assoc. }
    assert (Hw : Forall (λ w, length w = 64%nat) ws).
    { apply Forall_app; split; [repeat constructor; apply length_word; lia|by apply packed_words_length]. }
    unfold decode_oft_payload, words_of. rewrite strip0x_app, chunks_concat by (done || lia).
    unfold harmony_form, upstream_form. rewrite (word_value_word ws 1 96), (word_value_word ws 2 amount) by (done || lia).
    pose proof (decode_packed ws 1 3 recipient Hw eq_refl Hr Hrl eq_refl eq_refl) as D1.
    revert D1. generalize ("0x"%string ++ concat ws). intros P D1. cbn [mbind result_bind].
    change (length ws <? 4)%nat with false. change (length ws <? 3)%nat with false. cbn [Z.eqb negb Pos.eqb].
    rewrite D1. cbn [mbind result_bind]. by rewrite !packed_hex.
Qed.

Lemma oft_payload_roundtrip_witness :
  decode_oft_payload (harmony_payload 0 (replicate 20 0xab) (replicate 20 0x17) 12345)
  = Ok (Some ("0x"%string ++ hex (replicate 20 0xab)), Some ("0x"%string ++ hex (replicate 20 0x17)), 12345).
Proof.
  destruct (oft_payload_roundtrip 0 (replicate 20 0xab) (replicate 20 0x17) 12345) as [H _];
    [lia|lia|apply Forall_replicate; lia|done|apply Forall_replicate; lia|done|exact H].
Defined.
