(* ===== verification/BridgeAlloc.v ===== *)
(** Bridge allocations: toolkit/scripts/bridge/build-bridge-allocations.py.

    Every pool's collateral is shared among the holders of its token, corrected
    by message adjustments: accounts are claimable, held or excluded, and when
    their balances exceed the collateral the allocations are scaled down.
    Shown here: the pool's collateral is what is claimable, held and retained,
    never overdrawn, with the rounding loss bounded; a claimable row is
    justified by its account's class or by an override; the claim lists pay
    exactly the claimable rows, from collateral that covers them. *)

From S2P Require Import Prelude PyStr PyDict Csv Keccak Sha256 Bech32 BridgeLib.
Local Open Scope Z_scope.

(** * The code *)

Definition ELIGIBLE : list str :=
  ["claimable"%string : str; "held_multisig"%string : str; "held_onewallet"%string : str; "held_contract"%string : str;
   "held_unclassified"%string : str; "held_review"%string : str].
Definition KEY_CONTROLLED : list str :=
  ["eoa"%string : str; "eoa_7702"%string : str; "validator_wrapper"%string : str; "adjustment_target"%string : str].

Definition file_sha256 (content : str) : str := hex (sha256 (ords content)).

(** contract_review_lib.one_str_to_atto. *)
Definition one_str_to_atto (value : str) : result Z :=
  let text := strip (if bool_decide (value = []) then "0"%string : str else value) in
  let negative := startswith text "-"%string in
  let text := if negative then drop 1 text else text in
  let '(whole, separator, fraction) := partition "."%char text in
  _ ← raise_if (negb (isdigit whole)) (ValueError "invalid ONE amount");
  _ ← raise_if (separator && negb (isdigit fraction)) (ValueError "invalid ONE amount");
  _ ← raise_if (18 <? length fraction)%nat (ValueError "ONE amount exceeds 18 decimals");
  w ← py_int whole;
  f ← py_int (ljust 18 "0"%char fraction);
  let atto := w * 10 ^ 18 + f in
  Ok (if negative then - atto else atto).

(** ** Inputs *)

(** A holder snapshot: its summary and the CSV file beside it. *)
Record snapshot := MkSnapshot { snap_status : option str; snap_sha256 : option str; snap_block : Z; snap_text : str }.

(** A pool of the snapshot plan; its tokens by their file stems. *)
Record plan_pool := MkPlan {
  plan_status : str; plan_reason : str; plan_chain : str; snapshot_label : str; snapshot_number : Z; stems : list str }.

(** The chain state of a pool; [None] is a value the node could not read. *)
Record harmony_state := MkHarmonyState {
  hs_token : str; native_balance : option Z; wone_balance : option Z; proxy_token_balance : option Z }.
Record pool_state := MkPoolState {
  escrow_balance : option Z; previous_adapter_balances : dict str (option Z); harmony_states : list harmony_state;
  owner : option str; owner_is_safe : bool; previous_adapter_owners : dict str (option str) }.
Record custody_facts := MkFacts { meets_requirements : bool; claim_token_balance : option Z }.
Record chain_state := MkState { state_pools : dict str pool_state; custody : dict str (dict str custody_facts) }.

Definition holding_step (holdings : dict str Z) (r : row) : result (dict str Z) :=
  a ← cell r "address"%string;
  account ← address a;
  v ← int_cell r "balance_raw"%string;
  Ok (dset holdings account (default 0 (dget holdings account) + v)).

Definition holding_file (p : plan_pool) (holders_dir : dict str snapshot) (holdings : dict str Z) (stem : str) : result (dict str Z) :=
  s ← of_option (dget holders_dir stem) FileNotFoundError;
  _ ← raise_if (negb (bool_decide (snap_status s = Some ("passed"%string : str)))) (ValueError "holder snapshot did not pass");
  _ ← raise_if (negb (bool_decide (snap_sha256 s = Some (file_sha256 (snap_text s))))) (ValueError "holder CSV hash mismatch");
  _ ← raise_if (negb (snap_block s =? snapshot_number p)) (ValueError "holder snapshot block mismatch");
  foldM holding_step holdings (dict_read (snap_text s)).2.

Definition load_holdings (p : plan_pool) (holders_dir : dict str snapshot) : result (dict str Z) :=
  foldM (holding_file p holders_dir) [] (stems p).

Definition lock_step (total : Z) (e : harmony_state) : result Z :=
  if is_native (hs_token e) then
    n ← of_option (native_balance e) (TypeError "int() argument must be a string or a number");
    Ok (total + (n + default 0 (wone_balance e)))
  else Ok (total + default 0 (proxy_token_balance e)).

Definition collateral_for (p : pool) (s : chain_state) : result (Z * str) :=
  item ← of_option (dget (state_pools s) (pool_id p)) (KeyError (pool_id p));
  if bool_decide (kind p = "remote_escrow"%string) then
    values ← of_option (mapM id (escrow_balance item :: dvalues (previous_adapter_balances item))) (ValueError "escrow balance unreadable");
    Ok (zsum values, chain p ++ " escrow and previous escrows at state block"%string)
  else
    total ← foldM lock_step 0 (harmony_states item);
    Ok (total, "Harmony lock at cutoff (native ONE plus WONE)"%string : str).

Definition system_roles (r : routes) (c : config) : dict str str :=
  let roles := foldl (λ roles ch, setdefaults roles (system_address_roles r ch)) [] (HARMONY :: chains r) in
  let roles := foldl (λ roles e, match truthy (custody_multisig e.2) with
                                 | Some m => setdefault roles (m, e.1 ++ " custody multisig"%string)
                                 | None => roles
                                 end) roles (chain_entries c) in
  let roles := setdefault roles (reserve_safe (one c), "supply reserve Safe"%string : str) in
  match truthy (one_multisig (one c)) with
  | Some m => setdefault roles (m, "ONE custody multisig"%string : str)
  | None => roles
  end.

(** ** Status of an account *)

Definition status_for (account_class : option str) (holder_chain : str) (claim_chain : option str) : str * str :=
  match account_class with
  | Some c =>
      if bool_decide (c ∈ KEY_CONTROLLED) then ("claimable"%string : str, [])
      else if bool_decide (c = "safe"%string) || bool_decide (c = "multisig"%string) then
        if bool_decide (claim_chain = Some holder_chain) then ("claimable"%string : str, "same contract on the claim chain"%string : str)
        else ("held_multisig"%string : str, "multisig needs an approved claim-chain destination"%string : str)
      else if bool_decide (c = "onewallet"%string) then
        ("held_onewallet"%string : str, "1wallet needs an approved claim-chain destination"%string : str)
      else if bool_decide (c = "contract"%string) || bool_decide (c = "smartvault"%string) then
        ("held_contract"%string : str, "contract holder needs review"%string : str)
      else ("held_unclassified"%string : str, "account was not classified"%string : str)
  | None => ("held_unclassified"%string : str, "account was not classified"%string : str)
  end.

Fixpoint elsewhere_loop (holder_chain : str) (claim_chain : option str) (items : list (str * str)) : option (str * str) :=
  match items with
  | [] => None
  | (ch, other) :: items =>
      if bool_decide (ch = holder_chain) || bool_decide (other ∈ KEY_CONTROLLED) then elsewhere_loop holder_chain claim_chain items
      else
        let '(status, reason) := status_for (Some other) ch claim_chain in
        if negb (bool_decide (status = "claimable"%string))
        then Some (status, other ++ " on "%string ++ ch ++ ", no code on "%string ++ holder_chain ++ ": "%string ++ reason)
        else elsewhere_loop holder_chain claim_chain items
  end.
Definition contract_elsewhere (account holder_chain : str) (claim_chain : option str) (chain_classes : dict str (dict str str))
  : option (str * str) :=
  elsewhere_loop holder_chain claim_chain (sort_str fst (default [] (dget chain_classes account))).

(** ** A pool *)

Record allocation := MkAllocation {
  a_pool_id : str; a_claim_chain : option str; a_claim_token : option str; a_holder_chain : str; a_snapshot_block : Z;
  account : str; holding_raw : Z; adjustment_raw : Z; gross_raw : Z; unrecovered_debit_raw : Z; class_ : str; status : str;
  payee : str; allocation_raw : Z; reason : str }.

Record exclusion := MkExclusion { ex_chain : str; ex_reason : str }.

(** What [build_pool] is given besides the pool. *)
Record policy := MkPolicy {
  classes : dict (str * str) str; chain_classes : dict str (dict str str); roles : dict str str;
  exclusions : dict (str * str) exclusion; overrides : dict (str * str) row }.

(** [d.get((pid, account)) or d.get(("*", account))]. *)
Definition keyed {A} (d : dict (str * str) A) (pid account : str) : option A :=
  match dget d (pid, account) with Some v => Some v | None => dget d ("*"%string : str, account) end.

(** The class of an account without code or record that only a message names. *)
Definition class_of (p : policy) (holder_chain : str) (holdings : dict str Z) (account : str) : option str :=
  match dget (classes p) (holder_chain, account) with
  | Some c => Some c
  | None => if dmem holdings account then None else Some ("adjustment_target"%string : str)
  end.

Definition base_status (p : policy) (holder_chain : str) (claim_chain : option str) (account_class : option str) (account : str)
  : str * str :=
  let s := status_for account_class holder_chain claim_chain in
  if bool_decide (account_class = Some ("eoa"%string : str)) || bool_decide (account_class = Some ("adjustment_target"%string : str))
  then default s (contract_elsewhere account holder_chain claim_chain (chain_classes p)) else s.

Definition system_status (p : policy) (account : str) (s : str * str) : result (str * str) :=
  match dget (roles p) account with
  | Some role => Ok ("excluded_system"%string : str, role)
  | None =>
      r ← reserved_address_reason account;
      Ok (match r with Some why => ("excluded_system"%string : str, why) | None => s end)
  end.

Definition exclusion_status (p : policy) (pid holder_chain account : str) (s : str * str) : str * str :=
  match keyed (exclusions p) pid account with
  | Some e => if bool_decide (ex_chain e = "*"%string) || bool_decide (ex_chain e = holder_chain)
              then ("excluded_policy"%string : str, ex_reason e) else s
  | None => s
  end.

Definition override_action (o : row) (account action why : str) : result (str * str * str) :=
  if bool_decide (action = "claim"%string) then Ok ("claimable"%string : str, why, account)
  else if bool_decide (action = "redirect"%string) then
    d ← cell o "destination"%string;
    to ← address d;
    Ok ("claimable"%string : str, why, to)
  else if bool_decide (action = "hold"%string) then Ok ("held_review"%string : str, why, account)
  else if bool_decide (action = "exclude"%string) then Ok ("excluded_policy"%string : str, why, account)
  else Raise (ValueError "unknown override action").
Definition override_status (p : policy) (pid account : str) (s : str * str) : result (str * str * str) :=
  match keyed (overrides p) pid account with
  | None => Ok (s, account)
  | Some o => action ← cell o "action"%string; why ← cell o "reason"%string; override_action o account action why
  end.

Definition account_row (pool_ : pool) (pp : plan_pool) (c : config) (p : policy) (holdings adjustments : dict str Z) (account : str)
  : result allocation :=
  let pid := pool_id pool_ in
  let '(claim_chain, claim_token) := claim_target pool_ c in
  let holder_chain := plan_chain pp in
  let holding := default 0 (dget holdings account) in
  let adjustment := default 0 (dget adjustments account) in
  let gross := holding + adjustment in
  let unrecovered := if gross <? 0 then - gross else 0 in
  let gross := Z.max 0 gross in
  let account_class := class_of p holder_chain holdings account in
  s ← system_status p account (base_status p holder_chain claim_chain account_class account);
  '(status, reason, payee) ← override_status p pid account (exclusion_status p pid holder_chain account s);
  Ok (MkAllocation pid claim_chain claim_token holder_chain (snapshot_number pp) account holding adjustment gross unrecovered
        (default [] account_class) status payee 0 reason).

Definition eligible_row (r : allocation) : Prop := status r ∈ ELIGIBLE.

(** One round of the loop that sets the allocations. *)
Definition allocate (numerator denominator minimum : Z) (r : allocation) : allocation :=
  if bool_decide (eligible_row r) then
    let amount := gross_raw r * numerator / denominator in
    if bool_decide (status r = "claimable"%string) && (amount <? minimum) then
      MkAllocation (a_pool_id r) (a_claim_chain r) (a_claim_token r) (a_holder_chain r) (a_snapshot_block r) (account r)
        (holding_raw r) (adjustment_raw r) (gross_raw r) (unrecovered_debit_raw r) (class_ r) "below_minimum"%string (payee r)
        (allocation_raw r) ("allocation below "%string ++ str_of_Z minimum)
    else
      MkAllocation (a_pool_id r) (a_claim_chain r) (a_claim_token r) (a_holder_chain r) (a_snapshot_block r) (account r)
        (holding_raw r) (adjustment_raw r) (gross_raw r) (unrecovered_debit_raw r) (class_ r) (status r) (payee r) amount (reason r)
  else r.

Record pool_summary := MkPoolSummary {
  s_pool_id : str; s_kind : str; s_chain : str; s_symbol : str; s_decimals : Z; s_claim_asset : str; s_claim_chain : option str;
  s_claim_token : option str; s_snapshot_chain : str; s_snapshot_label : str; s_snapshot_block : Z; collateral_source : str;
  collateral_raw : Z; s_holders : Z; s_holding_raw : Z; s_adjustment_raw : Z; excluded_raw : Z; eligible_raw : Z;
  scale_numerator : Z; scale_denominator : Z; claimable_raw : Z; held_raw : Z; below_minimum_raw : Z; retained_raw : Z;
  surplus_raw : Z; shortfall_raw : Z; s_unrecovered_debit_raw : Z; claimable_accounts : Z; held_accounts : Z }.

Definition claimable_row (r : allocation) : Prop := status r = "claimable"%string.
Definition held_row (r : allocation) : Prop := startswith (status r) "held_"%string = true.
Definition below_row (r : allocation) : Prop := status r = "below_minimum"%string.
Definition excluded_row (r : allocation) : Prop := startswith (status r) "excluded_"%string = true.
#[export] Instance eligible_row_dec r : Decision (eligible_row r).
Proof. unfold eligible_row. apply _. Defined.
#[export] Instance claimable_row_dec r : Decision (claimable_row r).
Proof. unfold claimable_row. apply _. Defined.
#[export] Instance held_row_dec r : Decision (held_row r).
Proof. unfold held_row. apply _. Defined.
#[export] Instance below_row_dec r : Decision (below_row r).
Proof. unfold below_row. apply _. Defined.
#[export] Instance excluded_row_dec r : Decision (excluded_row r).
Proof. unfold excluded_row. apply _. Defined.

(** [collateral / eligible] when the balances exceed the collateral. *)
Definition scale (collateral eligible : Z) : Z * Z := if collateral <? eligible then (collateral, eligible) else (1, 1).

Definition build_pool (pool_ : pool) (pp : plan_pool) (c : config) (s : chain_state) (holders_dir : dict str snapshot)
    (adjustments : dict str Z) (p : policy) (minimum : Z) : result (pool_summary * list allocation) :=
  let '(claim_chain, claim_token) := claim_target pool_ c in
  holdings ← load_holdings pp holders_dir;
  '(collateral, source) ← collateral_for pool_ s;
  let accounts := sort_str id (remove_dups (dkeys holdings ++ dkeys adjustments)) in
  rows ← mapM (account_row pool_ pp c p holdings adjustments) accounts;
  let eligible := zsum_with gross_raw (filter eligible_row rows) in
  let '(numerator, denominator) := scale collateral eligible in
  _ ← raise_if ((denominator =? 0) && existsb (λ r, bool_decide (eligible_row r)) rows) ZeroDivisionError;
  let rows := allocate numerator denominator minimum <$> rows in
  let claimable := zsum_with allocation_raw (filter claimable_row rows) in
  let held := zsum_with allocation_raw (filter held_row rows) in
  let below := zsum_with (λ r, gross_raw r * numerator / denominator) (filter below_row rows) in
  Ok (MkPoolSummary (pool_id pool_) (kind pool_) (chain pool_) (symbol pool_) (decimals pool_) (claim_asset pool_) claim_chain
        claim_token (plan_chain pp) (snapshot_label pp) (snapshot_number pp) source collateral (zlen holdings)
        (zsum (dvalues holdings)) (zsum (dvalues adjustments)) (zsum_with gross_raw (filter excluded_row rows)) eligible
        numerator denominator claimable held below (collateral - claimable - held) (Z.max 0 (collateral - eligible))
        (Z.max 0 (eligible - collateral)) (zsum_with unrecovered_debit_raw rows) (zlen (filter claimable_row rows))
        (zlen (filter held_row rows)), rows).

(** ** Policy files *)

Definition pool_key (r : row) : result (str * str) :=
  let pid := cell_or r "pool_id"%string [] in
  a ← cell r "address"%string;
  account ← address a;
  Ok (if bool_decide (pid = []) then "*"%string : str else pid, account).

Definition keyed_step (fields : list str) (d : dict (str * str) row) (r : row) : result (dict (str * str) row) :=
  _ ← raise_if (existsb (λ f, bool_decide (r !! f = None)) fields) (ValueError "missing columns");
  key ← pool_key r;
  _ ← raise_if (dmem d key) (ValueError "duplicate row");
  Ok (dset d key r).
Definition load_keyed (path : option str) (fields : list str) : result (dict (str * str) row) :=
  match path with None => Ok [] | Some text => foldM (keyed_step fields) [] (dict_read text).2 end.

Definition override_fields : list str :=
  ["address"%string : str; "action"%string : str; "destination"%string : str; "reason"%string : str].

Definition adjustment_step (adjustments : dict str (dict str Z)) (r : row) : result (dict str (dict str Z)) :=
  a ← cell r "adjustment_account"%string;
  if bool_decide (a = []) then Ok adjustments else
  v ← int_cell r "adjustment_raw"%string;
  if v =? 0 then Ok adjustments else
  key ← cell r "pool_id"%string;
  account ← address a;
  let d := default [] (dget adjustments key) in
  Ok (dset adjustments key (dset d account (default 0 (dget d account) + v))).

Definition class_entry (r : row) : result (str * str * str) :=
  ch ← cell r "chain"%string;
  a ← cell r "address"%string;
  account ← address a;
  c ← cell r "class"%string;
  Ok (ch, account, c).
Definition load_classes (text : str) : result (dict (str * str) str) :=
  entries ← mapM class_entry (dict_read text).2; Ok (dict_of entries).
Definition by_account (classes : dict (str * str) str) : dict str (dict str str) :=
  foldl (λ d e, dset d e.1.2 (dset (default [] (dget d e.1.2)) e.1.1 e.2)) [] classes.

Definition exclusion_step (d : dict (str * str) exclusion) (r : row) : result (dict (str * str) exclusion) :=
  key ← pool_key r;
  why ← cell r "reason"%string;
  let ch := cell_or r "chain"%string [] in
  Ok (dset d key (MkExclusion (if bool_decide (ch = []) then "*"%string : str else ch) why)).
Definition load_exclusions (path : option str) : result (dict (str * str) exclusion) :=
  match path with None => Ok [] | Some text => foldM exclusion_step [] (dict_read text).2 end.

(** ** Custody plan *)

Record transfer := MkTransfer {
  t_pool_id : str; t_symbol : str; asset : str; escrow : str; amount_raw : Z; escrow_owner : option str;
  escrow_owner_is_safe : option bool; escrow_owner_is_custody : bool }.
Record chain_custody := MkChainCustody {
  c_multisig : option str; c_status : str; c_facts : option custody_facts; transfers : list transfer; escrow_owners : list str }.
Record funding := MkFunding {
  f_chain : str; f_token : str; f_from : str; f_to : option str; f_amount : Z; f_pools : dict str Z; reserve_balance : Z;
  reserve_sufficient : bool; safe_data : option str; destination_id : option str }.

Definition custody_status (multisig : option str) (facts : option custody_facts) : str :=
  match truthy multisig, facts with
  | None, _ => "missing"%string
  | Some _, Some f => if meets_requirements f then "ready"%string else "not_qualified"%string
  | Some _, None => "not_qualified"%string
  end.

Definition custody_of (s : chain_state) (chain_ : str) (multisig : option str) : option custody_facts :=
  match truthy multisig with None => None | Some m => dget (default [] (dget (custody s) chain_)) m end.

(** An escrow, its balance and its owner. *)
Definition escrows_of (p : pool) (item : pool_state) : list (str * option Z * option str) :=
  (remote_adapter p, escrow_balance item, owner item)
  :: ((λ pb, (pb.1, pb.2, default None (dget (previous_adapter_owners item) pb.1)))
      <$> filter (λ pb : str * option Z, 0 < default 0 pb.2) (previous_adapter_balances item)).

Definition transfer_of (p : pool) (item : pool_state) (multisig : option str) (e : str * option Z * option str) : result transfer :=
  let '(escrow, balance, owner_) := e in
  b ← of_option balance (TypeError "int() argument must be a string or a number");
  Ok (MkTransfer (pool_id p) (symbol p) (remote_token p) escrow b owner_
        (if bool_decide (owner_ = owner item) then Some (owner_is_safe item) else None) (bool_decide (owner_ = multisig))).

(** [by_id]: the pool of a summary. *)
Definition find_pool (r : routes) (pid : str) : result pool :=
  of_option (dget (dict_of ((λ p, (pool_id p, p)) <$> pools r)) pid) (KeyError pid).

Definition summary_transfers (r : routes) (s : chain_state) (chain_ : str) (multisig : option str) (sm : pool_summary)
  : result (list transfer) :=
  p ← find_pool r (s_pool_id sm);
  if negb (bool_decide (kind p = "remote_escrow"%string)) || negb (bool_decide (chain p = chain_)) then Ok [] else
  item ← of_option (dget (state_pools s) (pool_id p)) (KeyError (pool_id p));
  mapM (transfer_of p item multisig) (escrows_of p item).

Definition chain_plan (r : routes) (c : config) (s : chain_state) (sms : list pool_summary) (chain_ : str) : result (str * chain_custody) :=
  e ← of_option (dget (chain_entries c) chain_) (KeyError chain_);
  let multisig := custody_multisig e in
  let facts := custody_of s chain_ multisig in
  ts ← mapM (summary_transfers r s chain_ multisig) sms;
  let ts := concat ts in
  Ok (chain_, MkChainCustody multisig (custody_status multisig facts) facts ts
                (sort_str id (remove_dups ((λ t, default [] (escrow_owner t)) <$> ts)))).

Definition one_pool (sm : pool_summary) : Prop := s_claim_asset sm = "one"%string.
#[export] Instance one_pool_dec sm : Decision (one_pool sm).
Proof. unfold one_pool. apply _. Defined.

Definition one_funding (c : config) (s : chain_state) (sms : list pool_summary) : result funding :=
  to ← one_custody c;
  let one_pools := filter one_pool sms in
  let amount := zsum_with collateral_raw one_pools in
  let reserve := dget (default [] (dget (custody s) (claim_chain (one c)))) (reserve_safe (one c)) in
  let balance := default 0 (r ← reserve; claim_token_balance r) in
  data ← match truthy to with
         | None => Ok None
         | Some t =>
             w ← address_word t;
             d ← call_data "transfer"%string [w; word amount];
             Ok (Some d)
         end;
  Ok (MkFunding (claim_chain (one c)) (claim_token (one c)) (reserve_safe (one c)) to amount
        (dict_of ((λ sm, (s_pool_id sm, collateral_raw sm)) <$> one_pools)) balance (amount <=? balance) data
        (routing_destination_id (one c))).

Definition custody_plan (r : routes) (c : config) (s : chain_state) (sms : list pool_summary) : result (list (str * chain_custody) * funding) :=
  cs ← mapM (chain_plan r c s sms) (chains r);
  f ← one_funding c s sms;
  Ok (cs, f).

(** ** Main *)

Record claim := MkClaim { amount : Z; claim_pools : gset str }.
Definition claim_key : Type := option str * str * option str.

Definition claim_step (claims : dict claim_key claim) (r : allocation) : dict claim_key claim :=
  if negb (bool_decide (claimable_row r)) || (allocation_raw r =? 0) then claims else
  let key := (a_claim_chain r, payee r, a_claim_token r) in
  let item := default (MkClaim 0 ∅) (dget claims key) in
  dset claims key (MkClaim (amount item + allocation_raw r) ({[a_pool_id r]} ∪ claim_pools item)).
Definition collect_claims (allocations : list allocation) : dict claim_key claim := foldl claim_step [] allocations.

Record claim_row := MkClaimRow { cl_account : str; cl_token : option str; cl_amount : Z; cl_pools : str }.

(** [sorted(claims.items())]: tuples in order; comparing a missing chain with a
    name is a [TypeError]. *)
Definition key_ltb (a b : claim_key) : bool :=
  let '(ca, pa, ta) := a in
  let '(cb, pb, tb) := b in
  let opt (o : option str) : str := default [] o in
  str_ltb (opt ca) (opt cb) ||
  (bool_decide (ca = cb) && (str_ltb pa pb || (bool_decide (pa = pb) && str_ltb (opt ta) (opt tb)))).
Definition sorted_claims (claims : dict claim_key claim) : result (list (claim_key * claim)) :=
  let missing := existsb (λ e, bool_decide (e.1.1.1 = None)) claims in
  let present := existsb (λ e, negb (bool_decide (e.1.1.1 = None))) claims in
  _ ← raise_if (missing && present) (TypeError "'<' not supported between instances of 'NoneType' and 'str'");
  Ok (sort_by (λ x y, negb (key_ltb y.1 x.1)) claims).

Definition claim_list (sorted : list (claim_key * claim)) (chain_ : str) : list claim_row :=
  (λ e, MkClaimRow e.1.1.2 e.1.2 (amount e.2) (join ";"%string (sort_str id (elements (claim_pools e.2)))))
  <$> filter (λ e, e.1.1.1 = Some chain_) sorted.

Record unsupported := MkUnsupported { u_pool_id : str; u_reason : str; u_collateral : Z; u_source : str }.

Record inputs := MkInputs {
  in_routes : routes; in_config : config; in_state : chain_state; in_plan : dict str plan_pool; in_messages : str;
  messages_status : option str; messages_sha256 : option str; messages_pools : dict str (option str); holders_dir : dict str snapshot;
  in_classes : str; in_exclusions : option str; in_overrides : option str; contract_review_policy : option str }.

Definition outputs : Type := list pool_summary * list allocation * list unsupported.

Definition pool_step (i : inputs) (r : routes) (c : config) (adjustments : dict str (dict str Z)) (p : policy) (st : outputs) (pool_ : pool)
  : result outputs :=
  let '(sms, allocations, unsup) := st in
  let pid := pool_id pool_ in
  pp ← of_option (dget (in_plan i) pid) (KeyError pid);
  if bool_decide (plan_status pp = "unsupported"%string) then
    '(collateral, source) ← collateral_for pool_ (in_state i);
    Ok (sms, allocations, unsup ++ [MkUnsupported pid (plan_reason pp) collateral source])
  else
    _ ← raise_if (negb (bool_decide (plan_status pp = "planned"%string))) (ValueError "snapshot plan status");
    _ ← raise_if (negb (bool_decide (default None (dget (messages_pools i) pid) = Some ("complete"%string : str))))
          (ValueError "message scan is not complete");
    let minimum := default (default 0 (minimum_claim_raw c)) (dget (minimum_claim_raw_by_pool c) pid) in
    '(sm, rows) ← build_pool pool_ pp c (in_state i) (holders_dir i) (default [] (dget adjustments pid)) p minimum;
    Ok (sms ++ [sm], allocations ++ rows, unsup).

(** The ONE collateral against the migration ledger. *)
Definition review_entry (review : dict str row) (expected : Z) (e : harmony_entry) : result Z :=
  r ← of_option (dget review (proxy e)) (ValueError "missing from contract review");
  t ← cell r "native_total_claim_one"%string;
  v ← one_str_to_atto t;
  Ok (expected + v).
Definition review_pool (r : routes) (review : dict str row) (sm : pool_summary) : result unit :=
  p ← find_pool r (s_pool_id sm);
  if negb (bool_decide (claim_asset p = "one"%string)) then Ok () else
  expected ← foldM (review_entry review) 0 (harmony p);
  raise_if (negb (expected =? collateral_raw sm)) (ValueError "collateral does not match the migration ledger").
Definition review_row (r : row) : result (str * row) := a ← cell r "address"%string; account ← address a; Ok (account, r).
Definition check_review (i : inputs) (r : routes) (sms : list pool_summary) : result unit :=
  match contract_review_policy i with
  | None => Ok ()
  | Some text =>
      entries ← mapM review_row (dict_read text).2;
      foldM (λ _ sm, review_pool r (dict_of entries) sm) () sms
  end.

Definition claim_chains (r : routes) (c : config) : list str :=
  sort_str id (remove_dups (omap (λ p, (claim_target p c).1) (filter (λ p, claim_asset p ≠ "unsupported"%string) (pools r)))).

Definition main (i : inputs) : result (outputs * list (str * list claim_row) * (list (str * chain_custody) * funding)) :=
  r ← load_routes (in_routes i);
  c ← load_config (in_config i) r;
  _ ← raise_if (negb (bool_decide (messages_status i = Some ("passed"%string : str)))) (ValueError "message scan did not pass");
  _ ← raise_if (negb (bool_decide (messages_sha256 i = Some (file_sha256 (in_messages i))))) (ValueError "messages CSV does not match its summary");
  adjustments ← foldM adjustment_step [] (dict_read (in_messages i)).2;
  cls ← load_classes (in_classes i);
  ex ← load_exclusions (in_exclusions i);
  ov ← load_keyed (in_overrides i) override_fields;
  let p := MkPolicy cls (by_account cls) (system_roles r c) ex ov in
  out ← foldM (pool_step i r c adjustments p) ([], [], []) (pools r);
  _ ← check_review i r out.1.1;
  sorted ← sorted_claims (collect_claims out.1.2);
  let lists := (λ ch, (ch, claim_list sorted ch)) <$> claim_chains r c in
  plan ← custody_plan r c (in_state i) out.1.1;
  Ok (out, lists, plan).

(** ** Tables: [DictWriter] writes a missing value as the empty text. *)

Definition POOL_FIELDS : list str :=
  ["pool_id"%string : str; "kind"%string : str; "chain"%string : str; "symbol"%string : str; "decimals"%string : str;
   "claim_asset"%string : str; "claim_chain"%string : str; "claim_token"%string : str; "status"%string : str;
   "snapshot_chain"%string : str; "snapshot_label"%string : str; "snapshot_block"%string : str; "collateral_source"%string : str;
   "collateral_raw"%string : str; "holders"%string : str; "holding_raw"%string : str; "adjustment_raw"%string : str;
   "excluded_raw"%string : str; "eligible_raw"%string : str; "scale_numerator"%string : str; "scale_denominator"%string : str;
   "claimable_raw"%string : str; "held_raw"%string : str; "below_minimum_raw"%string : str; "retained_raw"%string : str;
   "surplus_raw"%string : str; "shortfall_raw"%string : str; "unrecovered_debit_raw"%string : str;
   "claimable_accounts"%string : str; "held_accounts"%string : str].
Definition ALLOCATION_FIELDS : list str :=
  ["pool_id"%string : str; "claim_chain"%string : str; "claim_token"%string : str; "holder_chain"%string : str;
   "snapshot_block"%string : str; "account"%string : str; "holding_raw"%string : str; "adjustment_raw"%string : str;
   "gross_raw"%string : str; "unrecovered_debit_raw"%string : str; "class"%string : str; "status"%string : str;
   "payee"%string : str; "allocation_raw"%string : str; "reason"%string : str].
Definition CLAIM_FIELDS : list str :=
  ["account"%string : str; "token"%string : str; "amount_raw"%string : str; "pools"%string : str].

Definition opt_text (o : option str) : str := default [] o.
Definition pool_cells (s : pool_summary) : list str :=
  [s_pool_id s; s_kind s; s_chain s; s_symbol s; str_of_Z (s_decimals s); s_claim_asset s; opt_text (s_claim_chain s);
   opt_text (s_claim_token s); "ready"%string : str; s_snapshot_chain s; s_snapshot_label s; str_of_Z (s_snapshot_block s);
   collateral_source s; str_of_Z (collateral_raw s); str_of_Z (s_holders s); str_of_Z (s_holding_raw s);
   str_of_Z (s_adjustment_raw s); str_of_Z (excluded_raw s); str_of_Z (eligible_raw s); str_of_Z (scale_numerator s);
   str_of_Z (scale_denominator s); str_of_Z (claimable_raw s); str_of_Z (held_raw s); str_of_Z (below_minimum_raw s);
   str_of_Z (retained_raw s); str_of_Z (surplus_raw s); str_of_Z (shortfall_raw s); str_of_Z (s_unrecovered_debit_raw s);
   str_of_Z (claimable_accounts s); str_of_Z (held_accounts s)].
Definition allocation_cells (r : allocation) : list str :=
  [a_pool_id r; opt_text (a_claim_chain r); opt_text (a_claim_token r); a_holder_chain r; str_of_Z (a_snapshot_block r); account r;
   str_of_Z (holding_raw r); str_of_Z (adjustment_raw r); str_of_Z (gross_raw r); str_of_Z (unrecovered_debit_raw r); class_ r;
   status r; payee r; str_of_Z (allocation_raw r); reason r].
Definition claim_cells (c : claim_row) : list str := [cl_account c; opt_text (cl_token c); str_of_Z (cl_amount c); cl_pools c].
Definition write_csv (fields : list str) (records : list (list str)) : str := csv_write (fields :: records).

(** * Statuses *)

(** What [account_row] can give before the minimum is applied. *)
Definition first_status (s : str) : Prop := s ∈ ELIGIBLE ∨ s = "excluded_system"%string ∨ s = "excluded_policy"%string.

Lemma status_for_eligible c hc cc : (status_for c hc cc).1 ∈ ELIGIBLE.
Proof. unfold status_for. repeat case_match; compute_decide. Qed.

Lemma elsewhere_eligible hc cc items s : elsewhere_loop hc cc items = Some s → s.1 ∈ ELIGIBLE ∧ s.1 ≠ "claimable"%string.
Proof.
  induction items as [|[ch other] items IH]; cbn [elsewhere_loop]; [done|]. case_match; [done|].
  pose proof (status_for_eligible (Some other) ch cc) as He. destruct (status_for (Some other) ch cc) as [st why].
  destruct (bool_decide (st = _)) eqn:E; cbn [negb]; [done|]. intros Hs. inv_ok. subst s. zbool. done.
Qed.

Lemma base_status_eligible p hc cc c a : (base_status p hc cc c a).1 ∈ ELIGIBLE.
Proof.
  unfold base_status. case_match; [|apply status_for_eligible].
  destruct (contract_elsewhere a hc cc (chain_classes p)) eqn:E; cbn; [|apply status_for_eligible].
  by apply elsewhere_eligible in E as [? _].
Qed.

Lemma system_status_first p a s s' : s.1 ∈ ELIGIBLE → system_status p a s = Ok s' → first_status s'.1.
Proof.
  intros Hs H. unfold system_status in H. case_match; inv_ok; subst; [by right; left|].
  case_match; cbn; [by right; left|by left].
Qed.

Lemma exclusion_status_first p pid hc a s : first_status s.1 → first_status (exclusion_status p pid hc a s).1.
Proof. intros Hs. unfold exclusion_status. repeat case_match; try done. by right; right. Qed.

Lemma override_status_first p pid a s st why to :
  first_status s.1 → override_status p pid a s = Ok (st, why, to) → first_status st.
Proof.
  intros Hs H. unfold override_status, override_action in H. case_match; [|inv_ok; simplify_eq; done].
  inv_ok. repeat case_bool_decide; inv_ok; simplify_eq; first [by right; right|left; compute_decide].
Qed.

(** The row of an account: its amounts and the status it starts with. *)
Lemma account_row_spec pool_ pp c p h adj a r :
  account_row pool_ pp c p h adj a = Ok r →
  account r = a ∧ first_status (status r) ∧ allocation_raw r = 0 ∧ 0 ≤ gross_raw r ∧ 0 ≤ unrecovered_debit_raw r ∧
  holding_raw r = default 0 (dget h a) ∧ adjustment_raw r = default 0 (dget adj a) ∧
  gross_raw r - unrecovered_debit_raw r = holding_raw r + adjustment_raw r ∧
  gross_raw r * unrecovered_debit_raw r = 0 ∧ (a_claim_chain r, a_claim_token r) = claim_target pool_ c ∧ a_pool_id r = pool_id pool_.
Proof.
  unfold account_row. destruct (claim_target pool_ c) as [cc ct]. intros H. inv_ok. subst r. cbn.
  split; [done|]. split.
  { eapply override_status_first; [|done]. apply exclusion_status_first. eapply system_status_first; [|done]. apply base_status_eligible. }
  set (g := _ + _). destruct (Z.ltb_spec g 0); repeat split; lia.
Qed.

(** * The allocations of a pool *)

(** Rounding down every share loses less than one unit per share. *)
Lemma floor_sum {A} (f : A → Z) (c e : Z) l :
  0 < e → Forall (λ x, 0 ≤ f x) l → 0 ≤ c →
  e * zsum_with (λ x, f x * c / e) l ≤ zsum_with f l * c ≤ e * zsum_with (λ x, f x * c / e) l + zlen l * (e - 1).
Proof.
  intros He Hl Hc. induction Hl as [|x l Hx _ IH]; [unfold zsum_with, zlen; cbn; lia|].
  rewrite !zsum_with_cons. unfold zlen in *. cbn [length].
  pose proof (Z.div_mod (f x * c) e). pose proof (Z.mod_pos_bound (f x * c) e). nia.
Qed.

Definition share (collateral eligible : Z) (r : allocation) : Z :=
  gross_raw r * (scale collateral eligible).1 / (scale collateral eligible).2.

(** The shares never exceed the collateral; what is left over is the surplus,
    or less than one unit per row. *)
Lemma shares_bound collateral (l : list allocation) :
  0 ≤ collateral → Forall (λ r, 0 ≤ gross_raw r) l →
  let eligible := zsum_with gross_raw l in
  let dust := collateral - zsum_with (share collateral eligible) l - Z.max 0 (collateral - eligible) in
  0 ≤ dust ∧ (eligible ≤ collateral → dust = 0) ∧ (collateral < eligible → dust < zlen l).
Proof.
  intros Hc Hl eligible dust. unfold share, scale in dust. destruct (Z.ltb_spec collateral eligible) as [Hlt|Hge]; cbn [fst snd] in dust.
  - pose proof (floor_sum gross_raw collateral eligible l ltac:(lia) Hl Hc). fold eligible in H.
    assert (0 < zlen l).
    { destruct l; [unfold eligible, zsum_with in Hlt; cbn in Hlt; lia|unfold zlen; cbn; lia]. }
    subst dust. split; [|split; [lia|intros _]]; rewrite Z.max_l by lia; nia.
  - assert (Hs : zsum_with (λ r, gross_raw r * 1 / 1) l = eligible).
    { apply zsum_with_ext, Forall_forall. intros r _. by rewrite Z.mul_1_r, Z.div_1_r. }
    subst dust. rewrite Hs. lia.
Qed.

Lemma share_bounds collateral eligible r :
  0 ≤ collateral → 0 ≤ gross_raw r → 0 ≤ share collateral eligible r ≤ gross_raw r.
Proof.
  intros Hc Hg. unfold share, scale. destruct (Z.ltb_spec collateral eligible); cbn [fst snd]; [|rewrite Z.mul_1_r, Z.div_1_r; lia].
  split; [apply Z.div_pos; nia|apply Z.div_le_upper_bound; nia].
Qed.

Lemma eligible_cases (s : str) :
  s ∈ ELIGIBLE →
  s = "claimable"%string ∨ startswith s "held_"%string = true ∧ startswith s "excluded_"%string = false ∧ s ≠ "claimable"%string.
Proof.
  intros H. unfold ELIGIBLE in H.
  repeat (apply elem_of_cons in H as [->|H]); [by left|right; repeat split; first [vm_compute; reflexivity|compute_decide]..|].
  by apply not_elem_of_nil in H.
Qed.

(** A row after the loop: what it carries over and what it is given. *)
Lemma allocate_spec collateral eligible minimum r :
  first_status (status r) → allocation_raw r = 0 → 0 ≤ collateral → 0 ≤ gross_raw r →
  let r' := allocate (scale collateral eligible).1 (scale collateral eligible).2 minimum r in
  let given := share collateral eligible r in
  account r' = account r ∧ payee r' = payee r ∧ gross_raw r' = gross_raw r ∧ holding_raw r' = holding_raw r ∧
  adjustment_raw r' = adjustment_raw r ∧ unrecovered_debit_raw r' = unrecovered_debit_raw r ∧ a_pool_id r' = a_pool_id r ∧
  a_claim_chain r' = a_claim_chain r ∧ a_claim_token r' = a_claim_token r ∧ class_ r' = class_ r ∧
  ((eligible_row r ∧ claimable_row r ∧ claimable_row r' ∧ ¬ held_row r' ∧ ¬ below_row r' ∧ ¬ excluded_row r' ∧ allocation_raw r' = given ∧ minimum ≤ given)
   ∨ (eligible_row r ∧ ¬ claimable_row r' ∧ held_row r' ∧ ¬ below_row r' ∧ ¬ excluded_row r' ∧ allocation_raw r' = given)
   ∨ (eligible_row r ∧ ¬ claimable_row r' ∧ ¬ held_row r' ∧ below_row r' ∧ ¬ excluded_row r' ∧ allocation_raw r' = 0 ∧ given < minimum)
   ∨ (¬ eligible_row r ∧ ¬ claimable_row r' ∧ ¬ held_row r' ∧ ¬ below_row r' ∧ excluded_row r' ∧ allocation_raw r' = 0)).
Proof.
  intros Hf Hz Hc Hg r' given.
  assert (Hsplit : claimable_row r ∨ held_row r ∧ ¬ claimable_row r ∧ eligible_row r ∨
            ¬ eligible_row r ∧ (status r = "excluded_system"%string ∨ status r = "excluded_policy"%string)).
  { destruct Hf as [Hf|Hf].
    - destruct (eligible_cases _ Hf) as [|(? & ? & ?)]; [by left|right; left; done].
    - right; right. split; [|done]. unfold eligible_row. destruct Hf as [-> | ->]; compute_decide. }
  subst r' given. unfold allocate, share, claimable_row, held_row, below_row, excluded_row, eligible_row in *.
  destruct Hsplit as [Hs|[(Hh & Hn & He)|[He Hs]]].
  - rewrite Hs. rewrite bool_decide_true by compute_decide. rewrite bool_decide_true by done. cbn [andb].
    case_match; zbool; cbn; (repeat (split; [done|])).
    + right; right; left. repeat split; first [done|lia|compute_decide].
    + left. repeat split; first [done|lia|compute_decide].
  - rewrite bool_decide_true by done. rewrite (bool_decide_false (status r = _)) by done. cbn. (repeat (split; [done|])).
    right; left. repeat split; try done.
    + intros Hb. rewrite Hb in Hh. discriminate.
    + intros Hb. destruct (eligible_cases _ He) as [|(_ & Hp & _)]; [done|]. change (startswith (status r) "excluded_"%string = true) in Hb. congruence.
  - rewrite bool_decide_false by done. repeat (split; [done|]). do 3 right.
    destruct Hs as [-> | ->]; repeat split; first [done|lia|compute_decide].
Qed.

(** Rows that share in the collateral, whether or not they reach the minimum. *)
Definition sharing_row (r : allocation) : Prop := claimable_row r ∨ held_row r ∨ below_row r.
#[export] Instance sharing_row_dec r : Decision (sharing_row r).
Proof. unfold sharing_row. apply _. Defined.

(** What a finished pool looks like, from its rows before the allocation. *)
Record built (sm : pool_summary) (rows0 rows : list allocation) (minimum : Z) : Prop := {
  built_rows : rows = allocate (scale_numerator sm) (scale_denominator sm) minimum <$> rows0;
  built_scale : (scale_numerator sm, scale_denominator sm) = scale (collateral_raw sm) (eligible_raw sm);
  built_eligible : eligible_raw sm = zsum_with gross_raw (filter eligible_row rows0);
  built_claimable : claimable_raw sm = zsum_with allocation_raw (filter claimable_row rows);
  built_held : held_raw sm = zsum_with allocation_raw (filter held_row rows);
  built_below : below_minimum_raw sm
                = zsum_with (λ r, gross_raw r * scale_numerator sm / scale_denominator sm) (filter below_row rows);
  built_excluded : excluded_raw sm = zsum_with gross_raw (filter excluded_row rows);
  built_retained : retained_raw sm = collateral_raw sm - claimable_raw sm - held_raw sm;
  built_surplus : surplus_raw sm = Z.max 0 (collateral_raw sm - eligible_raw sm);
  built_shortfall : shortfall_raw sm = Z.max 0 (eligible_raw sm - collateral_raw sm) }.

Lemma build_pool_inv pool_ pp c s dir adj p minimum sm rows :
  build_pool pool_ pp c s dir adj p minimum = Ok (sm, rows) →
  ∃ holdings rows0, load_holdings pp dir = Ok holdings ∧
    mapM (account_row pool_ pp c p holdings adj) (sort_str id (remove_dups (dkeys holdings ++ dkeys adj))) = Ok rows0 ∧
    built sm rows0 rows minimum ∧ s_holding_raw sm = zsum (dvalues holdings) ∧ s_adjustment_raw sm = zsum (dvalues adj) ∧
    s_unrecovered_debit_raw sm = zsum_with unrecovered_debit_raw rows ∧ s_pool_id sm = pool_id pool_ ∧
    s_claim_asset sm = claim_asset pool_ ∧ (s_claim_chain sm, s_claim_token sm) = claim_target pool_ c ∧
    from_ok (0, []) (collateral_for pool_ s) = (collateral_raw sm, collateral_source sm).
Proof.
  unfold build_pool. destruct (claim_target pool_ c) as [cc ct]. intros H.
  destruct (load_holdings pp dir) as [holdings|] eqn:Eh; [cbn [mbind result_bind] in H|done].
  destruct (collateral_for pool_ s) as [[collateral source]|]; [cbn [mbind result_bind] in H|done].
  destruct (mapM _ _) as [rows0|] eqn:Em in H; [cbn [mbind result_bind] in H|done].
  destruct (scale _ _) as [num den] eqn:Es in H. inv_ok. simplify_eq. eexists _, _. split; [done|]. split; [done|]. split; [|done].
  by constructor.
Qed.

(** The rows before the allocation, in general terms. *)
Definition fresh (r : allocation) : Prop := first_status (status r) ∧ allocation_raw r = 0 ∧ 0 ≤ gross_raw r.

Lemma rows0_fresh pool_ pp c p h adj accounts rows0 :
  mapM (account_row pool_ pp c p h adj) accounts = Ok rows0 → Forall fresh rows0 ∧ account <$> rows0 = accounts ∧
  holding_raw <$> rows0 = (λ a, default 0 (dget h a)) <$> accounts ∧
  adjustment_raw <$> rows0 = (λ a, default 0 (dget adj a)) <$> accounts.
Proof.
  intros H%mapM_Ok_Forall2. induction H as [|a r accounts rows0 Hr _ (IH1 & IH2 & IH3 & IH4)]; [done|].
  apply account_row_spec in Hr as (Ha & Hf & Hz & Hg & _ & Hh & Hd & _).
  rewrite !fmap_cons. split_and!; [by constructor|congruence..].
Qed.

Section shares.
Context (sm : pool_summary) (rows0 rows : list allocation) (minimum : Z).
Hypothesis Hb : built sm rows0 rows minimum.
Hypothesis Hf : Forall fresh rows0.
Hypothesis Hc : 0 ≤ collateral_raw sm.

Lemma rows_eq : rows = (λ r, allocate (scale (collateral_raw sm) (eligible_raw sm)).1 (scale (collateral_raw sm) (eligible_raw sm)).2
                               minimum r) <$> rows0.
Proof. rewrite (built_rows _ _ _ _ Hb). by rewrite <- (built_scale _ _ _ _ Hb). Qed.

Let one_share := share (collateral_raw sm) (eligible_raw sm).

(** The case analysis of a row, for sums over the finished rows. *)
Lemma rows_sum (f g : allocation → Z) :
  (∀ r, fresh r → f (allocate (scale (collateral_raw sm) (eligible_raw sm)).1 (scale (collateral_raw sm) (eligible_raw sm)).2 minimum r) = g r) →
  zsum_with f rows = zsum_with g rows0.
Proof.
  intros Hfg. rewrite rows_eq. unfold zsum_with. rewrite <- list_fmap_compose. apply (zsum_with_ext (_ ∘ _) g).
  eapply Forall_impl; [exact Hf|]. exact Hfg.
Qed.

Ltac row_cases r :=
  match goal with Hr : fresh r |- _ =>
    destruct Hr as (Hr1 & Hr2 & Hr3);
    destruct (allocate_spec (collateral_raw sm) (eligible_raw sm) minimum r Hr1 Hr2 Hc Hr3)
      as (Ha & Hp & Hg & Hh & Hd & Hu & _ & _ & _ & _ & Hcase)
  end.

Lemma paid_total : claimable_raw sm + held_raw sm + below_minimum_raw sm = zsum_with one_share (filter eligible_row rows0).
Proof.
  rewrite (built_claimable _ _ _ _ Hb), (built_held _ _ _ _ Hb), (built_below _ _ _ _ Hb), !zsum_with_filter, <- !zsum_with_add.
  apply rows_sum. intros r Hr. row_cases r.
  assert (Hsc := built_scale _ _ _ _ Hb). unfold one_share, share in *. rewrite <- Hsc in *. cbn [fst snd] in *. rewrite Hg.
  destruct Hcase as [Hk|[Hk|[Hk|Hk]]]; destruct_and! Hk; repeat case_decide; try done; lia.
Qed.

Lemma sharing_count : zlen (filter sharing_row rows) = zlen (filter eligible_row rows0).
Proof.
  assert (Hlen : ∀ (P : allocation → Prop) `{!∀ x, Decision (P x)} l, zlen (filter P l) = zsum_with (λ _, 1) (filter P l)).
  { intros P ? l. unfold zlen. induction (filter P l) as [|x l' IH]; [done|]. rewrite zsum_with_cons. cbn [length]. lia. }
  rewrite !Hlen, !zsum_with_filter. apply rows_sum. intros r Hr. row_cases r. unfold sharing_row.
  destruct Hcase as [Hk|[Hk|[Hk|Hk]]]; destruct_and! Hk; repeat case_decide; try done; tauto.
Qed.

Lemma gross_total : zsum_with gross_raw rows = eligible_raw sm + excluded_raw sm.
Proof.
  rewrite (built_eligible _ _ _ _ Hb), (built_excluded _ _ _ _ Hb), !zsum_with_filter.
  rewrite (rows_sum gross_raw gross_raw), (rows_sum _ (λ r, if decide (eligible_row r) then 0 else gross_raw r)).
  - rewrite <- zsum_with_add. apply zsum_with_ext, Forall_forall. intros r _. case_decide; lia.
  - intros r Hr. row_cases r. rewrite Hg. destruct Hcase as [Hk|[Hk|[Hk|Hk]]]; destruct_and! Hk; repeat case_decide; done.
  - intros r Hr. by row_cases r.
Qed.

Lemma rows_given :
  Forall (λ r, 0 ≤ allocation_raw r ≤ gross_raw r ∧
               allocation_raw r = (if decide (claimable_row r ∨ held_row r) then one_share r else 0) ∧
               (claimable_row r → minimum ≤ allocation_raw r)) rows.
Proof.
  rewrite rows_eq. apply Forall_fmap. eapply Forall_impl; [exact Hf|]. intros r Hr. row_cases r. cbn.
  pose proof (share_bounds (collateral_raw sm) (eligible_raw sm) r Hc Hr3) as Hs.
  assert (one_share (allocate (scale (collateral_raw sm) (eligible_raw sm)).1 (scale (collateral_raw sm) (eligible_raw sm)).2 minimum r)
          = share (collateral_raw sm) (eligible_raw sm) r) as Hsame by (unfold one_share, share; by rewrite Hg).
  rewrite Hg, Hsame. destruct Hcase as [Hk|[Hk|[Hk|Hk]]]; destruct_and! Hk; repeat case_decide; try tauto; repeat split; try tauto; lia.
Qed.

Lemma below_nonneg : 0 ≤ below_minimum_raw sm.
Proof.
  rewrite (built_below _ _ _ _ Hb). apply zsum_with_nonneg, Forall_forall. intros r [_ Hr]%list_elem_of_filter.
  pose proof rows_given as Hg. rewrite Forall_forall in Hg. destruct (Hg r Hr) as [Hr1 _].
  pose proof (share_bounds (collateral_raw sm) (eligible_raw sm) r Hc ltac:(lia)) as Hs. unfold share in Hs.
  rewrite <- (built_scale _ _ _ _ Hb) in Hs. cbn in Hs. lia.
Qed.

Lemma retained_split :
  ∃ dust, retained_raw sm = surplus_raw sm + below_minimum_raw sm + dust ∧ 0 ≤ dust ∧ (shortfall_raw sm = 0 → dust = 0) ∧
          (0 < shortfall_raw sm → dust < zlen (filter sharing_row rows)).
Proof.
  exists (collateral_raw sm - zsum_with one_share (filter eligible_row rows0) - surplus_raw sm).
  rewrite (built_retained _ _ _ _ Hb), sharing_count. pose proof paid_total.
  assert (Hg : Forall (λ r, 0 ≤ gross_raw r) (filter eligible_row rows0)).
  { apply Forall_forall. intros r [_ Hr]%list_elem_of_filter. rewrite Forall_forall in Hf. by apply Hf. }
  pose proof (shares_bound (collateral_raw sm) _ Hc Hg) as Hs. cbn zeta in Hs.
  rewrite <- (built_eligible _ _ _ _ Hb) in Hs. fold one_share in Hs.
  rewrite (built_surplus _ _ _ _ Hb), (built_shortfall _ _ _ _ Hb). lia.
Qed.
End shares.

Lemma load_holdings_NoDup pp dir h : load_holdings pp dir = Ok h → NoDup (dkeys h).
Proof.
  unfold load_holdings. intros H. apply (foldM_inv (λ _ d, NoDup (dkeys d))) in H; [done|constructor|].
  clear. intros pre stem d d' Hd H. unfold holding_file in H. inv_ok.
  apply (foldM_inv (λ _ d, NoDup (dkeys d))) in H; [done|done|]. clear. intros pre r d d' Hd H. unfold holding_step in H. inv_ok. subst.
  by apply NoDup_dset.
Qed.

(** C20: when a pool is built from collateral that is not negative, every account
    that holds the token or is named by a message has exactly one row; nothing
    held or adjusted is lost; every row is given its share of the collateral,
    rounded down and never more than its balance, or nothing; what is
    claimable, held and retained is the collateral, and what is retained is
    the surplus, the shares below the minimum and, only when balances were
    scaled down, a rounding loss of less than one unit per sharing row. *)
Theorem pool_conserves pool_ pp c s dir adj p minimum sm rows :
  build_pool pool_ pp c s dir adj p minimum = Ok (sm, rows) → 0 ≤ collateral_raw sm → NoDup (dkeys adj) →
  (∃ holdings, load_holdings pp dir = Ok holdings ∧ StronglySorted str_le (account <$> rows) ∧ NoDup (account <$> rows) ∧
     (∀ a, a ∈ account <$> rows ↔ a ∈ dkeys holdings ∨ a ∈ dkeys adj)) ∧
  zsum_with holding_raw rows = s_holding_raw sm ∧ zsum_with adjustment_raw rows = s_adjustment_raw sm ∧
  zsum_with gross_raw rows = eligible_raw sm + excluded_raw sm ∧
  Forall (λ r, 0 ≤ allocation_raw r ≤ gross_raw r ∧
               allocation_raw r = (if decide (claimable_row r ∨ held_row r) then share (collateral_raw sm) (eligible_raw sm) r else 0) ∧
               (claimable_row r → minimum ≤ allocation_raw r)) rows ∧
  collateral_raw sm = claimable_raw sm + held_raw sm + retained_raw sm ∧
  claimable_raw sm = zsum_with allocation_raw (filter claimable_row rows) ∧
  held_raw sm = zsum_with allocation_raw (filter held_row rows) ∧
  ∃ dust, retained_raw sm = surplus_raw sm + below_minimum_raw sm + dust ∧ 0 ≤ surplus_raw sm ∧ 0 ≤ below_minimum_raw sm ∧
          0 ≤ dust ∧ (shortfall_raw sm = 0 → dust = 0) ∧ (0 < shortfall_raw sm → dust < zlen (filter sharing_row rows)).
Proof.
  intros H Hc Hadj. apply build_pool_inv in H as (h & rows0 & Hh & Hm & Hb & Esh & Esa & _).
  destruct (rows0_fresh _ _ _ _ _ _ _ _ Hm) as (Hf & Hacc & Hhold & Hadjs).
  set (accounts := sort_str id _) in *.
  assert (Hmem : ∀ a, a ∈ accounts ↔ a ∈ dkeys h ∨ a ∈ dkeys adj).
  { intros a. unfold accounts. rewrite sort_str_perm, elem_of_remove_dups, elem_of_app. done. }
  assert (Hnd : NoDup accounts) by (unfold accounts; rewrite sort_str_perm; apply NoDup_remove_dups).
  assert (Hsame : ∀ (f : allocation → Z), (∀ r, fresh r → f (allocate (scale (collateral_raw sm) (eligible_raw sm)).1
              (scale (collateral_raw sm) (eligible_raw sm)).2 minimum r) = f r) → zsum_with f rows = zsum (f <$> rows0)).
  { intros f Hff. by apply (rows_sum sm rows0 rows minimum Hb Hf). }
  assert (Eacc : account <$> rows = accounts).
  { rewrite <- Hacc, (rows_eq sm rows0 rows minimum Hb), <- list_fmap_compose. apply list_fmap_ext. intros i r Hr. cbn.
    apply (Forall_lookup_1 _ _ _ _ Hf) in Hr as (H1 & H2 & H3).
    by destruct (allocate_spec (collateral_raw sm) (eligible_raw sm) minimum r H1 H2 Hc H3) as [? _]. }
  split; [|split; [|split; [|split; [|split; [|split; [|split; [|split]]]]]]].
  - exists h. rewrite Eacc. split; [done|]. split; [apply sort_str_sorted|]. split; [done|exact Hmem].
  - rewrite Hsame, Hhold, Esh; [apply dict_total; [by eapply load_holdings_NoDup|done|]; intros; apply Hmem; by left|].
    intros r (H1 & H2 & H3). by destruct (allocate_spec (collateral_raw sm) (eligible_raw sm) minimum r H1 H2 Hc H3) as (_ & _ & _ & ? & _).
  - rewrite Hsame, Hadjs, Esa; [apply dict_total; [done|done|]; intros; apply Hmem; by right|].
    intros r (H1 & H2 & H3). by destruct (allocate_spec (collateral_raw sm) (eligible_raw sm) minimum r H1 H2 Hc H3) as (_ & _ & _ & _ & ? & _).
  - by eapply gross_total.
  - by eapply rows_given.
  - rewrite (built_retained _ _ _ _ Hb). lia.
  - by apply (built_claimable _ _ _ _ Hb).
  - by apply (built_held _ _ _ _ Hb).
  - destruct (retained_split sm rows0 rows minimum Hb Hf Hc) as (dust & H1 & H2 & H3 & H4). exists dust. split; [done|].
    split; [rewrite (built_surplus _ _ _ _ Hb); lia|]. split; [|done]. by eapply below_nonneg.
Qed.

(** * Who can claim *)

(** A key controls the account, or its multisig exists on the claim chain. *)
Definition controlled (cls : str) (on : str) (claim_chain : option str) : Prop :=
  cls ∈ KEY_CONTROLLED ∨ (cls = "safe"%string ∨ cls = "multisig"%string) ∧ claim_chain = Some on.

Lemma status_for_claimable cls on cc :
  (status_for cls on cc).1 = "claimable"%string → ∃ k, cls = Some k ∧ controlled k on cc.
Proof.
  unfold status_for, controlled. destruct cls as [k|]; [|discriminate]. intros H. exists k. split; [done|].
  repeat case_match; zbool; try discriminate H; [by left|]. right. split; [|done].
  match goal with E : _ || _ = true |- _ => apply orb_prop in E as [E|E]; apply bool_decide_eq_true in E end; tauto.
Qed.

Lemma elsewhere_none hc cc items :
  elsewhere_loop hc cc items = None → Forall (λ e, e.1 = hc ∨ controlled e.2 e.1 cc) items.
Proof.
  induction items as [|[ch other] items IH]; cbn [elsewhere_loop]; intros H; [done|].
  destruct (bool_decide (ch = hc) || bool_decide (other ∈ KEY_CONTROLLED)) eqn:E.
  - constructor; [|by apply IH]. apply orb_prop in E as [E|E]; apply bool_decide_eq_true in E; [by left|right; by left].
  - pose proof (status_for_claimable (Some other) ch cc) as Hs. destruct (status_for (Some other) ch cc) as [st why].
    destruct (bool_decide (st = _)) eqn:E2; cbn [negb] in H; [|done]. constructor; [|by apply IH].
    zbool. destruct (Hs E2) as (k & Hk & Hcontrol). right. by simplify_eq.
Qed.

(** Without an override, no system, reserved or excluded address passes. *)
Lemma no_override_claimable p pid hc a s st :
  system_status p a s = Ok st → (exclusion_status p pid hc a st).1 = "claimable"%string →
  dget (roles p) a = None ∧ reserved_address_reason a = Ok None ∧ st = s ∧ s.1 = "claimable"%string ∧
  ∀ e, keyed (exclusions p) pid a = Some e → ex_chain e ≠ "*"%string ∧ ex_chain e ≠ hc.
Proof.
  unfold system_status, exclusion_status. intros Hs He.
  assert (Hst : st.1 = "claimable"%string ∧ ∀ e, keyed (exclusions p) pid a = Some e → ex_chain e ≠ "*"%string ∧ ex_chain e ≠ hc).
  { destruct (keyed (exclusions p) pid a) as [e|]; [|by split]. case_match eqn:E; [discriminate He|]. zbool.
    split; [done|]. intros e' [= <-]. done. }
  destruct Hst as [Hst Hex]. destruct (dget (roles p) a) eqn:Er; inv_ok; subst st; [discriminate Hst|].
  destruct a0; [discriminate Hst|]. done.
Qed.

Lemma base_claimable p hc cc cls a :
  (base_status p hc cc cls a).1 = "claimable"%string →
  ∃ k, cls = Some k ∧ controlled k hc cc ∧
       (k = "eoa"%string ∨ k = "adjustment_target"%string →
        ∀ ch other, (ch, other) ∈ default [] (dget (chain_classes p) a) → ch = hc ∨ controlled other ch cc).
Proof.
  unfold base_status. intros H.
  destruct (bool_decide (cls = Some ("eoa"%string : str)) || bool_decide (cls = Some ("adjustment_target"%string : str))) eqn:E.
  - destruct (contract_elsewhere a hc cc (chain_classes p)) as [s|] eqn:Ec; cbn in H.
    + by apply elsewhere_eligible in Ec as [_ ?].
    + destruct (status_for_claimable _ _ _ H) as (k & -> & Hk). exists k. split; [done|]. split; [done|]. intros _ ch other Hin.
      unfold contract_elsewhere in Ec. apply elsewhere_none in Ec. rewrite Forall_forall in Ec. apply (Ec (ch, other)).
      by rewrite sort_str_perm.
  - destruct (status_for_claimable _ _ _ H) as (k & -> & Hk). exists k. split; [done|]. split; [done|]. intros Hcls. zbool.
    destruct Hcls as [-> | ->]; done.
Qed.

Definition override_allows (o : row) (account payee : str) : Prop :=
  cell o "action"%string = Ok ("claim"%string : str) ∧ payee = account ∨
  cell o "action"%string = Ok ("redirect"%string : str) ∧ ∃ d, cell o "destination"%string = Ok d ∧ address d = Ok payee.

Lemma override_claimable p pid a s why to :
  override_status p pid a s = Ok ("claimable"%string : str, why, to) →
  (∃ o, keyed (overrides p) pid a = Some o ∧ override_allows o a to) ∨
  keyed (overrides p) pid a = None ∧ s.1 = "claimable"%string ∧ to = a.
Proof.
  unfold override_status, override_action. destruct (keyed (overrides p) pid a) as [o|]; intros H; inv_ok.
  - left. exists o. split; [done|]. unfold override_allows. repeat case_bool_decide; inv_ok; simplify_eq; subst; [by left|right; eauto].
  - right. by simplify_eq.
Qed.

Lemma allocate_claimable num den minimum r : claimable_row (allocate num den minimum r) →
  claimable_row r ∧ account (allocate num den minimum r) = account r ∧ payee (allocate num den minimum r) = payee r ∧
  class_ (allocate num den minimum r) = class_ r.
Proof. unfold allocate, claimable_row. repeat case_match; cbn; intros; try done. Qed.

(** a row is claimable only for a reason: an override that allows it for its
    account and payee; or no override, the account itself as payee, an account
    that is neither a system nor a reserved address nor excluded on the
    holders' chain, whose class has a key or is a multisig on the claim chain,
    and which, where it has no code, is not a contract that no key controls
    on any other chain. *)
Theorem claimable_row_justified pool_ pp c s dir adj p minimum sm rows r :
  build_pool pool_ pp c s dir adj p minimum = Ok (sm, rows) → r ∈ rows → claimable_row r →
  (∃ o, keyed (overrides p) (pool_id pool_) (account r) = Some o ∧ override_allows o (account r) (payee r)) ∨
  keyed (overrides p) (pool_id pool_) (account r) = None ∧ payee r = account r ∧
  dget (roles p) (account r) = None ∧ reserved_address_reason (account r) = Ok None ∧
  (∀ e, keyed (exclusions p) (pool_id pool_) (account r) = Some e → ex_chain e ≠ "*"%string ∧ ex_chain e ≠ plan_chain pp) ∧
  controlled (class_ r) (plan_chain pp) (claim_target pool_ c).1 ∧
  (class_ r = "eoa"%string ∨ class_ r = "adjustment_target"%string →
   ∀ ch other, (ch, other) ∈ default [] (dget (chain_classes p) (account r)) → ch = plan_chain pp ∨ controlled other ch (claim_target pool_ c).1).
Proof.
  intros H Hr Hcl. apply build_pool_inv in H as (h & rows0 & _ & Hm & Hb & _).
  rewrite (built_rows _ _ _ _ Hb) in Hr. apply list_elem_of_fmap in Hr as (r0 & -> & Hr0).
  apply allocate_claimable in Hcl as (Hcl & -> & -> & ->).
  apply mapM_Ok_Forall2 in Hm. destruct (list_elem_of_lookup_1 _ _ Hr0) as [i Hi].
  destruct (Forall2_lookup_r _ _ _ _ _ Hm Hi) as (a & _ & Ha). clear Hm Hb Hr0 Hi.
  unfold account_row in Ha. destruct (claim_target pool_ c) as [cc ct]. inv_ok. subst r0. unfold claimable_row in Hcl. cbn in *. subst.
  match goal with E : override_status _ _ _ _ = Ok _ |- _ => apply override_claimable in E as [Ho|(Ho & Hs & ->)]; [by left|] end.
  right. split; [done|]. split; [done|].
  match goal with E : system_status _ _ _ = Ok _ |- _ =>
    destruct (no_override_claimable _ _ _ _ _ _ E Hs) as (H1 & H2 & -> & H3 & H4) end.
  apply base_claimable in H3 as (k & -> & H5 & H6). done.
Qed.

(** * The claim lists *)

Definition key_of (r : allocation) : claim_key := (a_claim_chain r, payee r, a_claim_token r).
(** Rows that put money into a claim. *)
Definition paying (r : allocation) : Prop := claimable_row r ∧ allocation_raw r ≠ 0.
#[export] Instance paying_dec r : Decision (paying r).
Proof. unfold paying. apply _. Defined.

Definition paying_to (k : claim_key) (l : list allocation) : list allocation := filter (λ r, paying r ∧ key_of r = k) l.

Lemma collect_snoc l r : collect_claims (l ++ [r]) = claim_step (collect_claims l) r.
Proof. unfold collect_claims. by rewrite foldl_app. Qed.

Lemma claim_step_paying claims r :
  claim_step claims r =
  if decide (paying r) then
    let item := default (MkClaim 0 ∅) (dget claims (key_of r)) in
    dset claims (key_of r) (MkClaim (amount item + allocation_raw r) ({[a_pool_id r]} ∪ claim_pools item))
  else claims.
Proof.
  unfold claim_step, paying. case_bool_decide; cbn [negb orb]; [|by rewrite decide_False by tauto].
  destruct (Z.eqb_spec (allocation_raw r) 0); [by rewrite decide_False by tauto|by rewrite decide_True by tauto].
Qed.

(** A claim adds up the paying rows of its key and names their pools; there is
    a claim for each key that is paid. *)
Lemma collect_spec l :
  NoDup (dkeys (collect_claims l)) ∧
  ∀ k, match dget (collect_claims l) k with
       | Some cl => amount cl = zsum_with allocation_raw (paying_to k l) ∧ claim_pools cl = list_to_set (a_pool_id <$> paying_to k l) ∧
                    paying_to k l ≠ []
       | None => paying_to k l = []
       end.
Proof.
  induction l as [|r l [IHn IH]] using rev_ind; [by split; [constructor|]|].
  rewrite collect_snoc, claim_step_paying. unfold paying_to in *.
  destruct (decide (paying r)) as [Hp|Hp].
  - split; [by apply NoDup_dset|]. intros k. rewrite dget_dset, !filter_snoc. specialize (IH k). case_decide as Hk.
    + subst k. rewrite decide_True by done. rewrite zsum_with_snoc, fmap_app, list_to_set_app_L. cbn.
      split_and!; [| |by destruct (filter _ l)].
      * destruct (dget (collect_claims l) (key_of r)) as [cl|]; cbn; [destruct IH as (-> & _); lia|by rewrite IH].
      * destruct (dget (collect_claims l) (key_of r)) as [cl|]; cbn; [destruct IH as (_ & -> & _); set_solver|rewrite IH; set_solver].
    + rewrite decide_False by (intros [_ ?]; by subst). rewrite app_nil_r. exact IH.
  - split; [done|]. intros k. rewrite !filter_snoc, decide_False by tauto. rewrite app_nil_r. exact (IH k).
Qed.

Definition on_chain (ch : str) (r : allocation) : Prop := claimable_row r ∧ a_claim_chain r = Some ch.
#[export] Instance on_chain_dec ch r : Decision (on_chain ch r).
Proof. unfold on_chain. apply _. Defined.

(** The list of a chain adds up to its claimable rows. *)
Lemma claim_list_total l sorted ch :
  sorted ≡ₚ collect_claims l → zsum_with cl_amount (claim_list sorted ch) = zsum_with allocation_raw (filter (on_chain ch) l).
Proof.
  intros Hs. destruct (collect_spec l) as [Hn Hk]. unfold claim_list, zsum_with. rewrite <- list_fmap_compose.
  change (zsum_with (λ e, amount e.2) (filter (λ e : claim_key * claim, e.1.1.1 = Some ch) sorted) = zsum_with allocation_raw (filter (on_chain ch) l)).
  rewrite Hs.
  set (es := filter _ (collect_claims l)).
  assert (Hes : NoDup es.*1).
  { unfold es. eapply (sublist_NoDup _ (collect_claims l).*1); [exact Hn|]. apply fmap_sublist, sublist_filter. }
  assert (Ha : zsum_with (λ e, amount e.2) es = zsum_with (λ k, zsum_with allocation_raw (filter (λ r, key_of r = k) (filter (λ r, paying r ∧ a_claim_chain r = Some ch) l))) es.*1).
  { unfold zsum_with at 2. rewrite <- list_fmap_compose. apply zsum_with_ext, Forall_forall. intros [k cl] [Hch He]%list_elem_of_filter. cbn in *.
    apply (dget_elem _ _ _ Hn) in He. specialize (Hk k). rewrite He in Hk. destruct Hk as (-> & _). f_equal. unfold paying_to.
    rewrite list_filter_filter. apply list_filter_iff. intros r. split; [intros [Hp Hkey]|intros [Hkey [Hp _]]]; [|done].
    split; [done|]. split; [done|]. by rewrite <- Hch, <- Hkey. }
  rewrite Ha, zsum_with_by_key; [|done|].
  - rewrite !zsum_with_filter. apply zsum_with_ext, Forall_forall. intros r _. unfold paying, on_chain.
    repeat case_decide; try tauto. destruct (decide (allocation_raw r = 0)); [lia|tauto].
  - apply Forall_forall. intros r [[Hp Hch] Hr]%list_elem_of_filter. specialize (Hk (key_of r)).
    destruct (dget (collect_claims l) (key_of r)) as [cl|] eqn:E.
    + apply list_elem_of_fmap. exists (key_of r, cl). split; [done|]. apply list_elem_of_filter. split; [done|]. by apply dget_Some_elem.
    + exfalso. assert (Hin : r ∈ paying_to (key_of r) l) by (apply list_elem_of_filter; done). rewrite Hk in Hin. by apply not_elem_of_nil in Hin.
Qed.

(** * All pools *)

(** A pool's summary and rows, as the loop of [main] makes them. *)
Definition made (i : inputs) (r : routes) (c : config) (adjustments : dict str (dict str Z)) (p : policy) (sm : pool_summary)
    (rows : list allocation) : Prop :=
  ∃ pool_ pp minimum, pool_ ∈ pools r ∧ dget (in_plan i) (pool_id pool_) = Some pp ∧
    build_pool pool_ pp c (in_state i) (holders_dir i) (default [] (dget adjustments (pool_id pool_))) p minimum = Ok (sm, rows).

Lemma pools_made i r c adj p l out :
  (∀ x, x ∈ l → x ∈ pools r) → foldM (pool_step i r c adj p) ([], [], []) l = Ok out →
  ∃ groups, out.1.2 = concat groups ∧ Forall2 (made i r c adj p) out.1.1 groups.
Proof.
  intros Hl H. revert Hl.
  apply (foldM_inv (λ pre o, (∀ x, x ∈ pre → x ∈ pools r) →
    ∃ groups, o.1.2 = concat groups ∧ Forall2 (made i r c adj p) o.1.1 groups) (pool_step i r c adj p) ([], [], [])); [by exists []| |done].
  intros pre pool_ [[sms allocations] unsup] o IH Hstep Hin. destruct IH as (groups & Hcat & Hg); [set_solver|]. cbn in Hcat, Hg. subst allocations.
  unfold pool_step in Hstep. inv_ok. case_bool_decide; inv_ok; subst o; cbn; [by exists groups|].
  match goal with E : build_pool _ _ _ _ _ _ _ _ = Ok (?sm, ?rows) |- _ => exists (groups ++ [rows]) end.
  split; [rewrite concat_app; cbn; by rewrite app_nil_r|]. apply Forall2_app; [done|]. constructor; [|done].
  eexists pool_, _, _. split; [apply Hin; set_solver|]. subst. split; eassumption.
Qed.

(** A pool's claimable rows are on its claim chain and within its collateral. *)
Lemma made_claimable i r c adj p sm rows :
  made i r c adj p sm rows → 0 ≤ collateral_raw sm →
  Forall (λ x, a_claim_chain x = s_claim_chain sm ∧ 0 ≤ allocation_raw x) rows ∧
  claimable_raw sm = zsum_with allocation_raw (filter claimable_row rows) ∧ 0 ≤ claimable_raw sm ≤ collateral_raw sm ∧
  (∀ ch, s_claim_chain sm = Some ch → ch ∈ claim_chains r c).
Proof.
  intros (pool_ & pp & minimum & Hin & _ & H) Hc. apply build_pool_inv in H as (h & rows0 & _ & Hm & Hb & _ & _ & _ & _ & _ & Ht & _).
  destruct (rows0_fresh _ _ _ _ _ _ _ _ Hm) as (Hf & _).
  pose proof (rows_given sm rows0 rows minimum Hb Hf Hc) as Hg.
  assert (Hnn : ∀ (P : allocation → Prop) `{!∀ x, Decision (P x)}, 0 ≤ zsum_with allocation_raw (filter P rows)).
  { intros P ?. apply zsum_with_nonneg, Forall_forall. intros x [_ Hx]%list_elem_of_filter. rewrite Forall_forall in Hg.
    destruct (Hg x Hx) as [? _]. lia. }
  split; [|split; [|split]].
  - apply Forall_forall. intros x Hx. rewrite Forall_forall in Hg. split; [|destruct (Hg x Hx) as [? _]; lia].
    rewrite (built_rows _ _ _ _ Hb) in Hx. apply list_elem_of_fmap in Hx as (x0 & -> & Hx0).
    apply mapM_Ok_Forall2 in Hm. destruct (list_elem_of_lookup_1 _ _ Hx0) as [k Hk].
    destruct (Forall2_lookup_r _ _ _ _ _ Hm Hk) as (a & _ & Ha).
    apply account_row_spec in Ha as (_ & _ & _ & _ & _ & _ & _ & _ & _ & Hct & _). rewrite <- Ht in Hct. injection Hct as Hct _.
    rewrite <- Hct. unfold allocate. repeat case_match; done.
  - exact (built_claimable _ _ _ _ Hb).
  - destruct (retained_split sm rows0 rows minimum Hb Hf Hc) as (dust & H1 & H2 & _).
    pose proof (Hnn claimable_row _) as Hn1. pose proof (Hnn held_row _) as Hn2.
    rewrite <- (built_claimable _ _ _ _ Hb) in Hn1. rewrite <- (built_held _ _ _ _ Hb) in Hn2.
    rewrite (built_retained _ _ _ _ Hb), (built_surplus _ _ _ _ Hb) in H1.
    pose proof (below_nonneg sm rows0 rows minimum Hb Hf Hc).
    lia.
  - intros ch Hch. unfold claim_chains. rewrite sort_str_perm, elem_of_remove_dups, list_elem_of_omap.
    exists pool_. rewrite <- Ht. split; [|done]. apply list_elem_of_filter. split; [|done].
    intros Hu. unfold claim_target in Ht. rewrite Hu in Ht. cbn in Ht. injection Ht as Ht _. congruence.
Qed.

Definition pays_on (ch : str) (sm : pool_summary) : Prop := s_claim_chain sm = Some ch.
#[export] Instance pays_on_dec ch sm : Decision (pays_on ch sm).
Proof. unfold pays_on. apply _. Defined.

(** Adding up by chain over the rows is adding up over the pools. *)
Lemma chain_total i r c adj p sms groups ch :
  Forall2 (made i r c adj p) sms groups → Forall (λ sm, 0 ≤ collateral_raw sm) sms →
  zsum_with allocation_raw (filter (on_chain ch) (concat groups)) = zsum_with claimable_raw (filter (pays_on ch) sms).
Proof.
  induction 1 as [|sm rows sms groups Hm _ IH]; intros Hc; [done|]. apply Forall_cons in Hc as [Hc Hcs].
  destruct (made_claimable _ _ _ _ _ _ _ Hm Hc) as (Hch & Hcl & _). cbn [concat]. rewrite filter_app, zsum_with_app, IH by done.
  rewrite !(zsum_with_filter claimable_raw), zsum_with_cons. f_equal. rewrite Hcl, !zsum_with_filter. unfold pays_on.
  case_decide as Hp; [apply zsum_with_ext|apply zsum_with_zero]; (eapply Forall_impl; [exact Hch|]); intros x [Hx _]; cbn;
    repeat case_decide; unfold on_chain in *; rewrite ?Hx in *; tauto.
Qed.

Lemma sorted_claims_perm claims sorted : sorted_claims claims = Ok sorted → sorted ≡ₚ claims.
Proof. unfold sorted_claims. intros H. inv_ok. subst. apply sort_by_perm. Qed.

Lemma claim_list_NoDup l sorted ch :
  sorted ≡ₚ collect_claims l → NoDup ((λ cl, (cl_account cl, cl_token cl)) <$> claim_list sorted ch).
Proof.
  intros Hs. destruct (collect_spec l) as [Hn _]. unfold claim_list. rewrite <- list_fmap_compose.
  apply (NoDup_fmap_1 (λ at_, (Some ch, at_.1, at_.2) : claim_key)). rewrite <- list_fmap_compose.
  set (es := filter _ sorted). assert (NoDup es.*1).
  { eapply (sublist_NoDup _ sorted.*1); [rewrite Hs; exact Hn|]. apply fmap_sublist, sublist_filter. }
  rewrite (list_fmap_ext _ fst); [done|]. intros i [[[ch' pay] tok] cl] Hi. cbn.
  apply list_elem_of_lookup_2, list_elem_of_filter in Hi as [Hch _]. cbn in Hch. by subst.
Qed.

(** Every claim of a list adds up paying rows, and every paying row is in one. *)
Lemma claim_list_entries l sorted ch :
  sorted ≡ₚ collect_claims l → Forall (λ r, 0 ≤ allocation_raw r) l →
  Forall (λ cl, 0 < cl_amount cl) (claim_list sorted ch) ∧
  ∀ r, r ∈ l → paying r → a_claim_chain r = Some ch →
       ∃ cl, cl ∈ claim_list sorted ch ∧ cl_account cl = payee r ∧ cl_token cl = a_claim_token r ∧ allocation_raw r ≤ cl_amount cl.
Proof.
  intros Hs Hl. destruct (collect_spec l) as [Hn Hk]. rewrite Forall_forall in Hl.
  assert (Hpos : ∀ k r, r ∈ paying_to k l → 0 < allocation_raw r ≤ zsum_with allocation_raw (paying_to k l)).
  { intros k r Hr. split.
    - apply list_elem_of_filter in Hr as [[[_ Hp] _] Hr]. specialize (Hl r Hr). lia.
    - apply zsum_with_elem_le; [|done]. apply Forall_forall. intros y [_ Hy]%list_elem_of_filter. by apply Hl. }
  assert (Hentry : ∀ k cl, (k, cl) ∈ sorted → amount cl = zsum_with allocation_raw (paying_to k l) ∧ paying_to k l ≠ []).
  { intros k cl He. rewrite Hs in He. apply (dget_elem _ _ _ Hn) in He. specialize (Hk k). rewrite He in Hk. by destruct Hk as (? & _ & ?). }
  split.
  - apply Forall_fmap, Forall_forall. intros [k cl] [_ He]%list_elem_of_filter. cbn. destruct (Hentry _ _ He) as [-> Hne].
    destruct (paying_to k l) as [|r rest] eqn:E; [done|]. specialize (Hpos k r). rewrite E in Hpos. destruct Hpos as [? ?]; [left|lia].
  - intros r Hr Hp Hch. assert (Hin : r ∈ paying_to (key_of r) l) by (apply list_elem_of_filter; done).
    specialize (Hk (key_of r)). destruct (dget (collect_claims l) (key_of r)) as [cl|] eqn:E;
      [|rewrite Hk in Hin; by apply not_elem_of_nil in Hin].
    apply dget_Some_elem in E. rewrite <- Hs in E. destruct (Hentry _ _ E) as [Ha _].
    eexists. split; [apply list_elem_of_fmap; exists (key_of r, cl); split; [reflexivity|by apply list_elem_of_filter]|].
    cbn. rewrite Ha. split; [done|]. split; [done|]. by apply Hpos.
Qed.

(** C21: the claim list of a chain has one row for each payee and token, each
    with a positive amount; it adds up to the claimable allocations of the
    pools that pay on that chain and so never exceeds their collateral; every
    claimable allocation on a chain is in its list; and the ONE the reserve is
    asked for covers every ONE claim. *)
Theorem claim_lists_exact i out lists custody_ f :
  main i = Ok (out, lists, (custody_, f)) → Forall (λ sm, 0 ≤ collateral_raw sm) out.1.1 →
  (∀ ch rows, (ch, rows) ∈ lists →
     NoDup ((λ cl, (cl_account cl, cl_token cl)) <$> rows) ∧ Forall (λ cl, 0 < cl_amount cl) rows ∧
     zsum_with cl_amount rows = zsum_with allocation_raw (filter (on_chain ch) out.1.2) ∧
     zsum_with cl_amount rows = zsum_with claimable_raw (filter (pays_on ch) out.1.1) ∧
     zsum_with cl_amount rows ≤ zsum_with collateral_raw (filter (pays_on ch) out.1.1)) ∧
  (∀ x ch, x ∈ out.1.2 → paying x → a_claim_chain x = Some ch →
     ∃ rows cl, (ch, rows) ∈ lists ∧ cl ∈ rows ∧ cl_account cl = payee x ∧ cl_token cl = a_claim_token x ∧ allocation_raw x ≤ cl_amount cl) ∧
  f_amount f = zsum_with collateral_raw (filter one_pool out.1.1) ∧
  zsum_with claimable_raw (filter one_pool out.1.1) ≤ f_amount f.
Proof.
  intros H Hc. unfold main in H. inv_ok. simplify_eq.
  match goal with E : foldM (pool_step _ ?r ?c ?adj ?p) _ _ = Ok _ |- _ =>
    destruct (pools_made i r c adj p (pools r) out (λ _ Hx, Hx) E) as (groups & Hcat & Hg) end.
  match goal with E : sorted_claims _ = Ok _ |- _ => apply sorted_claims_perm in E as Hs end.
  assert (Hmade : ∀ sm, sm ∈ out.1.1 → 0 ≤ claimable_raw sm ≤ collateral_raw sm).
  { intros sm Hsm. destruct (list_elem_of_lookup_1 _ _ Hsm) as [k Hk]. destruct (Forall2_lookup_l _ _ _ _ _ Hg Hk) as (rows & _ & Hm).
    rewrite Forall_forall in Hc. by apply (made_claimable _ _ _ _ _ _ _ Hm (Hc sm Hsm)). }
  assert (Hle : ∀ (P : pool_summary → Prop) `{!∀ x, Decision (P x)},
            zsum_with claimable_raw (filter P out.1.1) ≤ zsum_with collateral_raw (filter P out.1.1)).
  { intros P ?. apply zsum_with_le, Forall_forall. intros sm [_ Hsm]%list_elem_of_filter. by apply Hmade. }
  assert (Hrows : ∀ x, x ∈ out.1.2 → 0 ≤ allocation_raw x ∧ ∀ ch, a_claim_chain x = Some ch → ch ∈ claim_chains a a0).
  { intros x Hx. rewrite Hcat in Hx. apply list_elem_of_In, in_concat in Hx as (rows & Hrows%list_elem_of_In & Hx%list_elem_of_In).
    destruct (list_elem_of_lookup_1 _ _ Hrows) as [k Hk]. destruct (Forall2_lookup_r _ _ _ _ _ Hg Hk) as (sm & Hsm & Hm).
    apply list_elem_of_lookup_2 in Hsm. rewrite Forall_forall in Hc.
    destruct (made_claimable _ _ _ _ _ _ _ Hm (Hc sm Hsm)) as (Hch & _ & _ & Hin). rewrite Forall_forall in Hch.
    destruct (Hch x Hx) as [Hx1 Hx2]. split; [done|]. intros ch. rewrite Hx1. apply Hin. }
  assert (Hnn : Forall (λ x, 0 ≤ allocation_raw x) out.1.2) by (apply Forall_forall; intros; by apply Hrows).
  split; [|split; [|split]].
  - intros ch rows Hin. apply list_elem_of_fmap in Hin as (ch' & [= <- ->] & _).
    pose proof (claim_list_total _ _ ch Hs) as T1. pose proof (chain_total _ _ _ _ _ _ _ ch Hg Hc) as T2.
    rewrite <- Hcat in T2. rewrite T1, T2.
    split; [by eapply claim_list_NoDup|]. split; [by eapply claim_list_entries|]. split; [done|]. split; [done|apply Hle].
  - intros x ch Hx Hp Hch. destruct (claim_list_entries _ _ ch Hs Hnn) as [_ He].
    destruct (He x Hx Hp Hch) as (cl & Hcl & H1 & H2 & H3). eexists _, cl. split; [|by split_and!].
    apply list_elem_of_fmap. exists ch. split; [reflexivity|]. by apply (proj2 (Hrows x Hx)).
  - match goal with E : custody_plan _ _ _ _ = Ok _ |- _ => unfold custody_plan, one_funding in E; inv_ok; simplify_eq end. done.
  - match goal with E : custody_plan _ _ _ _ = Ok _ |- _ => unfold custody_plan, one_funding in E; inv_ok; simplify_eq end. apply Hle.
Qed.

(** * A migration with two pools *)

Module Sample.
Definition addr (c d : ascii) : str := "0x"%string ++ replicate 39 c ++ [d].
Definition text (lines : list str) : str := concat ((λ l, l ++ [LF]) <$> lines).
Definition csv_line (fields : list str) : str := join ","%string fields.

Definition usdt : pool :=
  MkPool "usdt"%string "remote_escrow"%string "bsc"%string "USDT"%string 6 "escrow"%string (addr "a" "1") (addr "a" "2")
    [MkHarmony (addr "b" "1") (addr "b" "2")] [] [] [].
Definition one_bsc : pool :=
  MkPool "one"%string "harmony_origin"%string "bsc"%string "ONE"%string 18 "one"%string (addr "a" "3") (addr "a" "4")
    [MkHarmony (addr "b" "3") NATIVE] [] [] [].
Definition registry : routes := MkRoutes (Some 1) (addr "c" "1") (addr "c" "2") ["bsc"%string : str] [usdt; one_bsc] [].
Definition conf : config :=
  MkConfig (Some 1) [(HARMONY, MkChain None []); ("bsc"%string : str, MkChain (Some (addr "d" "1")) [])]
    (MkOne "bsc"%string (addr "d" "2") (addr "d" "3") None None) [] (Some 2) [].
Definition state : chain_state :=
  MkState [("usdt"%string : str, MkPoolState (Some 100) [] [] None false []);
           ("one"%string : str, MkPoolState None [] [MkHarmonyState NATIVE (Some 40) (Some 10) None] None false [])]
    [("bsc"%string : str, [(addr "d" "3", MkFacts true (Some 500))])].

Definition holders (rows : list (str * str)) : str :=
  text (csv_line ["address"%string : str; "balance_raw"%string : str] :: ((λ r, csv_line [r.1; r.2]) <$> rows)).
Definition snap (t : str) : snapshot := MkSnapshot (Some ("passed"%string : str)) (Some (file_sha256 t)) 7 t.
Definition messages : str :=
  text [csv_line ["pool_id"%string : str; "adjustment_account"%string : str; "adjustment_raw"%string : str];
        csv_line ["usdt"%string : str; addr "e" "4"; "9"%string : str]].
Definition account_classes : str :=
  text (csv_line ["chain"%string : str; "address"%string : str; "class"%string : str]
        :: [csv_line [HARMONY; addr "e" "1"; "eoa"%string : str]; csv_line [HARMONY; addr "e" "2"; "contract"%string : str];
            csv_line [HARMONY; addr "e" "3"; "eoa"%string : str]; csv_line ["bsc"%string : str; addr "e" "1"; "eoa"%string : str]]).
Definition plans : dict str plan_pool :=
  [("usdt"%string : str, MkPlan "planned"%string [] HARMONY "cutoff"%string 7 ["h1"%string : str]);
   ("one"%string : str, MkPlan "planned"%string [] "bsc"%string "cutoff"%string 7 ["h2"%string : str])].
Definition snapshots : dict str snapshot :=
  [("h1"%string : str, snap (holders [(addr "e" "1", "90"%string : str); (addr "e" "2", "60"%string : str);
                                      (addr "e" "3", "1"%string : str); (addr "a" "1", "5"%string : str)]));
   ("h2"%string : str, snap (holders [(addr "e" "1", "33"%string : str)]))].
Definition sample : inputs :=
  MkInputs registry conf state plans messages (Some ("passed"%string : str)) (Some (file_sha256 messages))
    [("usdt"%string : str, Some ("complete"%string : str)); ("one"%string : str, Some ("complete"%string : str))] snapshots
    account_classes None None None.

Definition classes_ : dict (str * str) str := Eval vm_compute in from_ok [] (load_classes account_classes).
Definition policy_ : policy := MkPolicy classes_ (by_account classes_) (system_roles registry conf) [] [].
Definition adjusted : dict str Z := [(addr "e" "4", 9)].
Definition usdt_plan : plan_pool := default (MkPlan [] [] [] [] 0 []) (dget plans ("usdt"%string : str)).
Definition no_summary : pool_summary :=
  MkPoolSummary [] [] [] [] 0 [] None None [] [] 0 [] 0 0 0 0 0 0 0 0 0 0 0 0 0 0 0 0 0.
Definition usdt_built : result (pool_summary * list allocation) := build_pool usdt usdt_plan conf state snapshots adjusted policy_ 2.
Definition usdt_out : pool_summary * list allocation := Eval vm_compute in from_ok (no_summary, []) usdt_built.
Definition no_funding : funding := MkFunding [] [] [] None 0 [] 0 false None None.
Definition sample_out : outputs * list (str * list claim_row) * (list (str * chain_custody) * funding) :=
  Eval vm_compute in from_ok ([], [], [], [], ([], no_funding)) (main sample).

(** The pool of 100 is shared by balances of 160: one row is below the
    minimum, one is held, and two units are retained. *)
Lemma sample_pool :
  usdt_built = Ok usdt_out ∧
  (claimable_raw usdt_out.1, held_raw usdt_out.1, below_minimum_raw usdt_out.1, retained_raw usdt_out.1, shortfall_raw usdt_out.1)
  = (61, 37, 0, 2, 60) ∧
  status <$> usdt_out.2 = [("excluded_system"%string : str); "claimable"%string : str; "held_contract"%string : str;
                           "below_minimum"%string : str; "claimable"%string : str].
Proof. split; [|split]; vm_compute; reflexivity. Qed.

Lemma usdt_ok : build_pool usdt usdt_plan conf state snapshots adjusted policy_ 2 = Ok (usdt_out.1, usdt_out.2).
Proof. vm_compute. reflexivity. Qed.

Lemma bridge_sample_main : main sample = Ok (sample_out.1.1, sample_out.1.2, (sample_out.2.1, sample_out.2.2)).
Proof. vm_compute. reflexivity. Qed.
End Sample.

Lemma pool_conserves_witness :
  0 ≤ collateral_raw Sample.usdt_out.1 ∧
  collateral_raw Sample.usdt_out.1 = claimable_raw Sample.usdt_out.1 + held_raw Sample.usdt_out.1 + retained_raw Sample.usdt_out.1.
Proof.
  split; [vm_compute; discriminate|].
  destruct (pool_conserves Sample.usdt Sample.usdt_plan Sample.conf Sample.state Sample.snapshots Sample.adjusted Sample.policy_ 2
              Sample.usdt_out.1 Sample.usdt_out.2) as (_ & _ & _ & _ & _ & H & _).
  - exact Sample.usdt_ok.
  - vm_compute. discriminate.
  - compute_decide.
  - exact H.
Defined.

Lemma claimable_row_justified_witness :
  ∃ r, Sample.usdt_out.2 !! 1%nat = Some r ∧ claimable_row r ∧ reserved_address_reason (account r) = Ok None.
Proof.
  destruct (Sample.usdt_out.2 !! 1%nat) as [r|] eqn:Hr; [|discriminate Hr]. exists r. split; [done|].
  assert (Hcl : claimable_row r) by (vm_compute in Hr; injection Hr as <-; vm_compute; reflexivity). split; [done|].
  destruct (claimable_row_justified Sample.usdt Sample.usdt_plan Sample.conf Sample.state Sample.snapshots Sample.adjusted Sample.policy_ 2
              Sample.usdt_out.1 Sample.usdt_out.2 r) as [(o & Ho & _)|(_ & _ & _ & H & _)].
  - exact Sample.usdt_ok.
  - by apply list_elem_of_lookup_2 in Hr.
  - done.
  - vm_compute in Ho. discriminate Ho.
  - exact H.
Defined.

Lemma claim_lists_exact_witness :
  zsum_with claimable_raw (filter one_pool Sample.sample_out.1.1.1.1) ≤ f_amount Sample.sample_out.2.2.
Proof.
  destruct (claim_lists_exact Sample.sample Sample.sample_out.1.1 Sample.sample_out.1.2 Sample.sample_out.2.1 Sample.sample_out.2.2)
    as (_ & _ & _ & H).
  - exact Sample.bridge_sample_main.
  - compute_decide.
  - exact H.
Defined.
