(* ===== verification/BridgeVerify.v ===== *)
(** The verifier of the bridge allocations:
    toolkit/scripts/bridge/verify-bridge-allocations.py.

    It reads the files of a built allocation directory, recomputes holdings and
    adjustments from their sources and counts the checks that fail.  Shown
    here: when none fails, every pool listed in pools.csv conserves its
    collateral, every row of it is given exactly its share, and the claim lists
    are the claimable rows of allocations.csv; but rows under a pool that
    pools.csv does not list are claimed without having been checked. *)

From S2P Require Import Prelude PyStr PyDict Csv Keccak Sha256 Bech32 BridgeLib BridgeAlloc.
Local Open Scope Z_scope.

(** * The code *)

Definition ELIGIBLE_PREFIXES : list str := ["claimable"%string : str; "held_"%string : str; "below_minimum"%string : str].

(** ** Checks: a message is its fixed part. *)
Record Checks := MkChecks { failures : list string; count : Z }.
Definition require (c : Checks) (condition : bool) (message : string) : Checks :=
  MkChecks (if condition then failures c else failures c ++ [message]) (count c + 1).

(** ** Inputs *)

(** A holder snapshot with the fields the builder does not look at. *)
Record holder_file := MkHolderFile { file_snapshot : snapshot; block_hash : str; total_supply_raw : str }.
Record planned := MkPlanned { planned_pool : plan_pool; snapshot_hash : str }.

(** The custody plan: the transfers of each chain and the ONE funding. *)
Record plan_funding := MkPlanFunding { pf_to : option str; pf_amount : Z; pf_data : option str }.
Record directory := MkDirectory {
  files : dict str str; digests : dict str str; claim_lists : list str; transfers_of : dict str (list (str * Z)); plan_one : plan_funding }.
Record v_inputs := MkVInputs {
  v_routes : routes; v_config : config; v_state : chain_state; v_plan : dict str planned; v_messages : str;
  v_holders : dict str holder_file; v_out : directory }.

Definition read_file (d : directory) (name : str) : result (list row) :=
  text ← of_option (dget (files d) name) FileNotFoundError; Ok (dict_read text).2.

Definition hash_step (d : directory) (c : Checks) (e : str * str) : Checks :=
  require c (match dget (files d) e.1 with Some text => bool_decide (file_sha256 text = e.2) | None => false end)
    "hash does not match summary.json".

Definition pool_row_entry (r : row) : result (str * row) := pid ← cell r "pool_id"%string; Ok (pid, r).

(** [by_pool.setdefault(row["pool_id"], []).append(row)]. *)
Definition by_pool_step (d : dict str (list row)) (r : row) : result (dict str (list row)) :=
  pid ← cell r "pool_id"%string; Ok (dset d pid (default [] (dget d pid) ++ [r])).

(** ** Holdings *)

Definition balance_step (st : dict str Z * Z) (r : row) : result (dict str Z * Z) :=
  let '(holdings, total) := st in
  a ← cell r "address"%string;
  account ← address a;
  amount ← int_cell r "balance_raw"%string;
  Ok (dset holdings account (default 0 (dget holdings account) + amount), total + amount).

Definition token_step (p : planned) (holders : dict str holder_file) (st : Checks * dict str Z) (stem : str)
  : result (Checks * dict str Z) :=
  let '(c, holdings) := st in
  f ← of_option (dget holders stem) FileNotFoundError;
  let s := file_snapshot f in
  let c := require c (bool_decide (snap_status s = Some ("passed"%string : str))) "snapshot not passed" in
  let c := require c (bool_decide (snap_sha256 s = Some (file_sha256 (snap_text s)))) "snapshot hash mismatch" in
  let c := require c ((snap_block s =? snapshot_number (planned_pool p)) && bool_decide (lower (block_hash f) = lower (snapshot_hash p)))
             "snapshot block differs from the plan" in
  '(holdings, total) ← foldM balance_step (holdings, 0) (dict_read (snap_text s)).2;
  Ok (require c (bool_decide (str_of_Z total = total_supply_raw f)) "holders do not sum to totalSupply", holdings).

(** ** Rows *)

Record sums := MkSums { sum_claimable : Z; sum_held : Z; sum_eligible : Z; sum_excluded : Z }.

Definition starts_eligible (status : str) : bool := existsb (λ p, startswith status p) ELIGIBLE_PREFIXES.

Definition row_step (holdings adjustments : dict str Z) (numerator denominator : Z) (st : Checks * sums) (r : row)
  : result (Checks * sums) :=
  let '(c, s) := st in
  a ← cell r "account"%string;
  account ← address a;
  let holding := default 0 (dget holdings account) in
  let adjustment := default 0 (dget adjustments account) in
  let gross := Z.max 0 (holding + adjustment) in
  h ← int_cell r "holding_raw"%string;
  let c := require c (h =? holding) "holding" in
  d ← int_cell r "adjustment_raw"%string;
  let c := require c (d =? adjustment) "adjustment" in
  g ← int_cell r "gross_raw"%string;
  let c := require c (g =? gross) "gross" in
  allocation ← int_cell r "allocation_raw"%string;
  status ← cell r "status"%string;
  if starts_eligible status then
    _ ← raise_if (denominator =? 0) ZeroDivisionError;
    let expected := gross * numerator / denominator in
    let c := if bool_decide (status = "below_minimum"%string) then require c (allocation =? 0) "below-minimum allocation"
             else require c (allocation =? expected) "scaled allocation" in
    Ok (c, if bool_decide (status = "claimable"%string)
           then MkSums (sum_claimable s + allocation) (sum_held s) (sum_eligible s + gross) (sum_excluded s)
           else if startswith status "held_"%string
           then MkSums (sum_claimable s) (sum_held s + allocation) (sum_eligible s + gross) (sum_excluded s)
           else MkSums (sum_claimable s) (sum_held s) (sum_eligible s + gross) (sum_excluded s))
  else
    let c := require c (startswith status "excluded_"%string) "unknown status" in
    let c := require c (allocation =? 0) "excluded allocation" in
    Ok (c, MkSums (sum_claimable s) (sum_held s) (sum_eligible s) (sum_excluded s + gross)).

Definition to_int (o : option Z) : result Z := of_option o (TypeError "int() argument must be a string or a number").

Definition lock_value (e : harmony_state) : result Z := n ← to_int (native_balance e); Ok (n + default 0 (wone_balance e)).

Definition expected_collateral (p : pool) (item : pool_state) : result Z :=
  if bool_decide (kind p = "remote_escrow"%string) then
    e ← to_int (escrow_balance item);
    vs ← mapM to_int (dvalues (previous_adapter_balances item));
    Ok (e + zsum vs)
  else
    vs ← mapM lock_value (harmony_states item);
    Ok (zsum vs).

(** The totals of a pool against its row of pools.csv. *)
Definition check_totals (c : Checks) (s : sums) (pool_row : row) (numerator denominator collateral : Z) : result Checks :=
  e ← int_cell pool_row "eligible_raw"%string;
  let c := require c (sum_eligible s =? e) "eligible total" in
  cl ← int_cell pool_row "claimable_raw"%string;
  let c := require c (sum_claimable s =? cl) "claimable total" in
  h ← int_cell pool_row "held_raw"%string;
  let c := require c (sum_held s =? h) "held total" in
  x ← int_cell pool_row "excluded_raw"%string;
  let c := require c (sum_excluded s =? x) "excluded total" in
  let c := if collateral <? sum_eligible s
           then require c ((numerator =? collateral) && (denominator =? sum_eligible s)) "scale is not collateral over eligible"
           else require c ((numerator =? 1) && (denominator =? 1)) "scale should be 1" in
  r ← int_cell pool_row "retained_raw"%string;
  Ok (require c ((collateral =? sum_claimable s + sum_held s + r) && (0 <=? r)) "collateral is not conserved").

Definition check_target (i : v_inputs) (cf : config) (c : Checks) (pool_ : pool) (pool_row : row) (collateral : Z) : result Checks :=
  item ← of_option (dget (state_pools (v_state i)) (pool_id pool_)) (KeyError (pool_id pool_));
  expected ← expected_collateral pool_ item;
  let c := require c (collateral =? expected) "collateral differs from state" in
  ch ← cell pool_row "claim_chain"%string;
  t ← cell pool_row "claim_token"%string;
  Ok (require c (bool_decide ((Some ch, Some t) = claim_target pool_ cf)) "claim target").

Definition row_account (r : row) : result str := a ← cell r "account"%string; address a.

Definition verify_pool (i : v_inputs) (r : routes) (cf : config) (by_pool : dict str (list row)) (adjustments : dict str (dict str Z)) (c : Checks)
    (e : str * row) : result Checks :=
  let '(pid, pool_row) := e in
  pool_ ← find_pool r pid;
  p ← of_option (dget (v_plan i) pid) (KeyError pid);
  '(c, holdings) ← foldM (token_step p (v_holders i)) (c, []) (stems (planned_pool p));
  let pool_adjustments := default [] (dget adjustments pid) in
  let rows := default [] (dget by_pool pid) in
  accounts ← mapM row_account rows;
  let set_of (l : list str) : gset str := list_to_set l in
  let c := require c (zlen accounts =? Z.of_nat (size (set_of accounts))) "duplicate accounts" in
  let c := require c (bool_decide (set_of accounts = set_of (dkeys holdings) ∪ set_of (dkeys pool_adjustments)))
             "allocation accounts differ from holders plus adjustments" in
  numerator ← int_cell pool_row "scale_numerator"%string;
  denominator ← int_cell pool_row "scale_denominator"%string;
  collateral ← int_cell pool_row "collateral_raw"%string;
  '(c, s) ← foldM (row_step holdings pool_adjustments numerator denominator) (c, MkSums 0 0 0 0) rows;
  c ← check_totals c s pool_row numerator denominator collateral;
  check_target i cf c pool_ pool_row collateral.

(** ** Claims *)

Definition vkey : Type := str * str * str.

Definition expected_step (d : dict vkey Z) (r : row) : result (dict vkey Z) :=
  status ← cell r "status"%string;
  if negb (bool_decide ((status : str) = "claimable"%string)) then Ok d else
  v ← int_cell r "allocation_raw"%string;
  if v =? 0 then Ok d else
  ch ← cell r "claim_chain"%string;
  p ← cell r "payee"%string;
  payee ← address p;
  t ← cell r "claim_token"%string;
  Ok (dset d (ch, payee, t) (default 0 (dget d (ch, payee, t)) + v)).

Definition found_row (ch : str) (st : Checks * dict vkey Z) (r : row) : result (Checks * dict vkey Z) :=
  let '(c, found) := st in
  a ← cell r "account"%string;
  account ← address a;
  t ← cell r "token"%string;
  let key := (ch, account, t) in
  let c := require c (negb (dmem found key)) "duplicate claim" in
  v ← int_cell r "amount_raw"%string;
  Ok (require c (0 <? v) "non-positive amount", dset found key v).
Definition list_file (ch : str) : str := "claims/"%string ++ ch ++ ".csv"%string.
Definition found_list (d : directory) (st : Checks * dict vkey Z) (ch : str) : result (Checks * dict vkey Z) :=
  rows ← read_file d (list_file ch);
  foldM (found_row ch) st rows.

(** [found == expected] for dictionaries. *)
Definition dict_eqb (d e : dict vkey Z) : bool := bool_decide ((list_to_map d : gmap vkey Z) = list_to_map e).

(** ** Custody *)

Definition moved_step (d : dict str Z) (t : str * Z) : dict str Z := dset d t.1 (default 0 (dget d t.1) + t.2).
Definition moved_check (pools : dict str row) (c : Checks) (e : str * Z) : result Checks :=
  r ← of_option (dget pools e.1) (KeyError e.1);
  v ← int_cell r "collateral_raw"%string;
  Ok (require c (e.2 =? v) "custody transfers differ from collateral").

Definition escrow_pool (r : routes) (pid : str) : result (option str) :=
  p ← find_pool r pid; Ok (if bool_decide (kind p = "remote_escrow"%string) then Some pid else None).
Definition one_collateral (r : routes) (e : str * row) : result Z :=
  p ← find_pool r e.1; if bool_decide (claim_asset p = "one"%string) then int_cell e.2 "collateral_raw"%string else Ok 0.

Definition check_custody (d : directory) (r : routes) (pools : dict str row) (c : Checks) : result Checks :=
  let all_transfers := concat (dvalues (transfers_of d)) in
  c ← foldM (moved_check pools) c (foldl moved_step [] all_transfers);
  escrows ← mapM (escrow_pool r) (dkeys pools);
  let set_of (l : list str) : gset str := list_to_set l in
  let c := require c (bool_decide (set_of (omap id escrows) = set_of (fst <$> all_transfers))) "custody plan does not cover every escrow pool" in
  ones ← mapM (one_collateral r) pools;
  let one_total := zsum ones in
  let c := require c (pf_amount (plan_one d) =? one_total) "ONE funding differs from ONE collateral" in
  match pf_data (plan_one d) with
  | None => Ok c
  | Some data =>
      to ← of_option (pf_to (plan_one d)) (ValueError "invalid address");
      w ← address_word to;
      expected ← call_data "transfer"%string [w; word one_total];
      Ok (require c (bool_decide (data = expected)) "ONE funding calldata does not transfer the ONE collateral to custody")
  end.

(** ** Main *)

Definition planned_ids (plan : dict str planned) : list str :=
  dkeys (filter (λ e : str * planned, plan_status (planned_pool e.2) ≠ "unsupported"%string) plan).

(** What the checks work on: the rows of the two tables. *)
Definition load_tables (d : directory) : result (dict str row * list row) :=
  pool_rows ← read_file d "pools.csv"%string;
  entries ← mapM pool_row_entry pool_rows;
  allocations ← read_file d "allocations.csv"%string;
  Ok (dict_of entries, allocations).

Definition verify (i : v_inputs) : result Checks :=
  r ← load_routes (v_routes i);
  cf ← load_config (v_config i) r;
  let d := v_out i in
  let c := foldl (hash_step d) (MkChecks [] 0) (digests d) in
  '(pools, allocations) ← load_tables d;
  by_pool ← foldM by_pool_step [] allocations;
  adjustments ← foldM adjustment_step [] (dict_read (v_messages i)).2;
  let set_of (l : list str) : gset str := list_to_set l in
  let c := require c (bool_decide (set_of (dkeys pools) = set_of (planned_ids (v_plan i)))) "pools.csv does not cover the planned pools" in
  c ← foldM (verify_pool i r cf by_pool adjustments) c pools;
  expected ← foldM expected_step [] allocations;
  '(c, found) ← foldM (found_list d) (c, []) (claim_lists d);
  let c := require c (dict_eqb found expected) "claim lists differ from claimable allocations" in
  check_custody d r pools c.

(** The exit status: any failure is [SystemExit(1)]. *)
Definition verify_main (i : v_inputs) : result Z :=
  c ← verify i;
  if bool_decide (failures c = []) then Ok (count c) else Raise (SystemExit "failures").

(** ** What the builder leaves for the verifier

    The tables and claim lists with their digests, and the parts of the custody
    plan that are read back; the plan's own file and digest are left out. *)
Definition table_files (sms : list pool_summary) (allocations : list allocation) (lists : list (str * list claim_row)) : dict str str :=
  [("pools.csv"%string : str, write_csv POOL_FIELDS (pool_cells <$> sms));
   ("allocations.csv"%string : str, write_csv ALLOCATION_FIELDS (allocation_cells <$> allocations))]
  ++ ((λ l, (list_file l.1, write_csv CLAIM_FIELDS (claim_cells <$> l.2))) <$> lists).
Definition write_directory (out : outputs) (lists : list (str * list claim_row)) (cs : list (str * chain_custody)) (f : funding) : directory :=
  let fs := table_files out.1.1 out.1.2 lists in
  MkDirectory fs (prod_map id file_sha256 <$> fs) (fst <$> lists)
    ((λ e, (e.1, (λ t, (t_pool_id t, BridgeAlloc.amount_raw t)) <$> transfers e.2)) <$> cs)
    (MkPlanFunding (f_to f) (f_amount f) (safe_data f)).

(** * Checks that pass *)

Definition clean (c : Checks) : Prop := failures c = [].

Lemma require_clean c b m : clean (require c b m) ↔ clean c ∧ b = true.
Proof.
  unfold clean, require. destruct b; cbn; [tauto|]. split; [|by intros [_ ?]]. intros H. by destruct (failures c).
Qed.

(** Splits a clean check list into the checks it made. *)
Ltac checked := repeat match goal with H : clean (require _ _ _) |- _ => apply require_clean in H as [H ?] end.

Lemma hash_clean d l c :
  clean (foldl (hash_step d) c l) → clean c ∧ Forall (λ e, ∃ text, dget (files d) e.1 = Some text ∧ file_sha256 text = e.2) l.
Proof.
  revert c. induction l as [|e l IH]; intros c H; [done|]. cbn [foldl] in H. apply IH in H as [H Hl]. unfold hash_step in H.
  checked. split; [done|]. constructor; [|done]. case_match; [|done]. zbool. eauto.
Qed.

(** Runs a computation whose steps are known to succeed. *)
Ltac run_ok := repeat match goal with E : ?m = Ok _ |- context [?m] => rewrite E; cbn [mbind result_bind of_option] end.

(** ** The rows of a pool *)

Definition stat (r : row) : str := cell_or r "status"%string [].
Definition acct (r : row) : str := from_ok [] (row_account r).
Definition alloc (r : row) : Z := num r "allocation_raw"%string.
Definition gross_of (h adj : dict str Z) (r : row) : Z := Z.max 0 (default 0 (dget h (acct r)) + default 0 (dget adj (acct r))).

(** A row that agrees with the sources and is given its share, or nothing. *)
Record row_ok (h adj : dict str Z) (n d : Z) (r : row) : Prop := {
  ok_holding : num r "holding_raw"%string = default 0 (dget h (acct r));
  ok_adjustment : num r "adjustment_raw"%string = default 0 (dget adj (acct r));
  ok_gross : num r "gross_raw"%string = gross_of h adj r;
  ok_eligible : starts_eligible (stat r) = true → d ≠ 0 ∧ alloc r = if decide (stat r = "below_minimum"%string) then 0 else gross_of h adj r * n / d;
  ok_excluded : starts_eligible (stat r) = false → startswith (stat r) "excluded_"%string = true ∧ alloc r = 0 }.

Definition is_claimable (r : row) : Prop := stat r = "claimable"%string.
Definition is_held (r : row) : Prop := startswith (stat r) "held_"%string = true.
#[export] Instance is_claimable_dec r : Decision (is_claimable r).
Proof. unfold is_claimable. apply _. Defined.
#[export] Instance is_held_dec r : Decision (is_held r).
Proof. unfold is_held. apply _. Defined.

Definition sums_of (h adj : dict str Z) (rows : list row) : sums :=
  MkSums (zsum_with alloc (filter is_claimable rows)) (zsum_with alloc (filter is_held rows))
    (zsum_with (gross_of h adj) (filter (λ r, starts_eligible (stat r) = true) rows))
    (zsum_with (gross_of h adj) (filter (λ r, starts_eligible (stat r) = false) rows)).

Lemma sums_of_snoc h adj rows r :
  sums_of h adj (rows ++ [r]) =
  MkSums (sum_claimable (sums_of h adj rows) + if decide (is_claimable r) then alloc r else 0)
    (sum_held (sums_of h adj rows) + if decide (is_held r) then alloc r else 0)
    (sum_eligible (sums_of h adj rows) + if decide (starts_eligible (stat r) = true) then gross_of h adj r else 0)
    (sum_excluded (sums_of h adj rows) + if decide (starts_eligible (stat r) = false) then gross_of h adj r else 0).
Proof. unfold sums_of. cbn. by rewrite !zsum_with_filter_snoc. Qed.

Lemma claimable_not_held r : is_claimable r → ¬ is_held r.
Proof. unfold is_claimable, is_held. by intros ->. Qed.
Lemma claimable_eligible r : is_claimable r → starts_eligible (stat r) = true.
Proof. unfold is_claimable. by intros ->. Qed.
Lemma held_eligible r : is_held r → starts_eligible (stat r) = true.
Proof. unfold is_held, starts_eligible. cbn. intros ->. by rewrite orb_true_r. Qed.

Lemma row_step_clean h adj n d pre c r c' s' :
  row_step h adj n d (c, sums_of h adj pre) r = Ok (c', s') → clean c' →
  clean c ∧ row_ok h adj n d r ∧ s' = sums_of h adj (pre ++ [r]).
Proof.
  unfold row_step. intros H Hc. inv_ok.
  assert (Ha : acct r = a0) by (unfold acct, row_account; rewrite E; cbn; by rewrite E0).
  assert (Hst : stat r = a5) by (unfold stat; eapply cell_cell_or; eassumption).
  repeat match goal with H : int_cell _ _ = Ok _ |- _ => apply int_cell_num in H end.
  assert (Hal : alloc r = a4) by done. clear E E0 E5. subst a0 a4 a5.
  change (Z.max 0 (default 0 (dget h (acct r)) + default 0 (dget adj (acct r)))) with (gross_of h adj r) in H.
  rewrite sums_of_snoc. destruct (starts_eligible (stat r)) eqn:Es.
  - inv_ok. apply pair_eq in H as [<- <-]. zbool.
    assert (Hin : clean c ∧ row_ok h adj n d r).
    { case_bool_decide as Hb; checked; zbool; (split; [done|]); (constructor; [lia..| |congruence]);
        intros _; (split; [done|]); [rewrite decide_True by done|rewrite decide_False by done]; lia. }
    destruct Hin as [Hin1 Hin2]. split; [done|]. split; [done|].
    clear Hc. case_bool_decide as Hb.
    + rewrite (decide_True (P := is_claimable r)) by done. rewrite (decide_False (P := is_held r)) by by apply claimable_not_held.
      repeat case_decide; try done; f_equal; lia.
    + rewrite (decide_False (P := is_claimable r)) by done. destruct (startswith (stat r) "held_"%string) eqn:Eh.
      * rewrite (decide_True (P := is_held r)) by done. repeat case_decide; try done; f_equal; lia.
      * rewrite (decide_False (P := is_held r)) by (unfold is_held; congruence). repeat case_decide; try done; f_equal; lia.
  - inv_ok. apply pair_eq in H as [<- <-]. checked. zbool. split; [done|]. split.
    + constructor; [lia..|congruence|]. intros _. split; [done|lia].
    + assert (¬ is_claimable r) by (intros Hk%claimable_eligible; congruence).
      assert (¬ is_held r) by (intros Hk%held_eligible; congruence).
      repeat case_decide; try done; f_equal; lia.
Qed.

Lemma row_step_mono h adj n d c s r c' s' : row_step h adj n d (c, s) r = Ok (c', s') → clean c' → clean c.
Proof.
  unfold row_step. intros H Hc. inv_ok. destruct (starts_eligible _); inv_ok; apply pair_eq in H as [<- <-].
  - case_bool_decide; checked; done.
  - checked. done.
Qed.

Lemma rows_clean h adj n d rows c c' s' :
  foldM (row_step h adj n d) (c, MkSums 0 0 0 0) rows = Ok (c', s') → clean c' →
  clean c ∧ Forall (row_ok h adj n d) rows ∧ s' = sums_of h adj rows.
Proof.
  intros H. refine (foldM_inv (λ pre st, clean st.1 → clean c ∧ Forall (row_ok h adj n d) pre ∧ st.2 = sums_of h adj pre)
                     (row_step h adj n d) (c, MkSums 0 0 0 0) rows (c', s') _ _ H); [done|].
  intros pre r [c1 s1] [c2 s2] IH Hs Hc. destruct (IH (row_step_mono _ _ _ _ _ _ _ _ _ Hs Hc)) as (H1 & H2 & H3). cbn in *. subst s1.
  apply row_step_clean in Hs as (_ & Hr & ->); [|done]. split; [done|]. split; [|done]. by apply Forall_app; split; [|constructor].
Qed.

(** ** The holdings of a pool *)

Definition snapshots_of (holders : dict str holder_file) : dict str snapshot := prod_map id file_snapshot <$> holders.

Lemma dget_snapshots holders stem : dget (snapshots_of holders) stem = file_snapshot <$> dget holders stem.
Proof. induction holders as [|[k f] l IH]; [done|]. cbn. by case_decide. Qed.

Lemma balances_clean rows h t h' t' :
  foldM balance_step (h, t) rows = Ok (h', t') →
  foldM holding_step h rows = Ok h' ∧ t' = t + zsum_with (λ r, num r "balance_raw"%string) rows.
Proof.
  revert h t. induction rows as [|r rows IH]; intros h t H; cbn [foldM] in *; inv_ok.
  - apply pair_eq in H as [<- <-]. unfold zsum_with. cbn. split; [done|lia].
  - unfold balance_step in E. inv_ok. apply pair_eq in E as [<- <-] || subst. destruct (IH _ _ H) as [Hf Ht].
    assert (holding_step h r = Ok (dset h a1 (default 0 (dget h a1) + a2))) as -> by (unfold holding_step; by run_ok).
    split; [done|].
    rewrite Ht, zsum_with_cons. match goal with E : int_cell _ _ = Ok _ |- _ => apply int_cell_num in E end. lia.
Qed.

(** Sources the verifier accepted are sources the builder accepts, with the
    same holdings; and the balances of each add up to its total supply. *)
Lemma tokens_clean p holders stems_ c c' h' :
  foldM (token_step p holders) (c, []) stems_ = Ok (c', h') → clean c' →
  clean c ∧ foldM (holding_file (planned_pool p) (snapshots_of holders)) [] stems_ = Ok h' ∧
  Forall (λ stem, ∃ f, dget holders stem = Some f ∧
    str_of_Z (zsum_with (λ r, num r "balance_raw"%string) (dict_read (snap_text (file_snapshot f))).2) = total_supply_raw f) stems_.
Proof.
  intros H. refine (foldM_inv (λ pre st, clean st.1 → clean c ∧ foldM (holding_file (planned_pool p) (snapshots_of holders)) [] pre = Ok st.2 ∧
    Forall (λ stem, ∃ f, dget holders stem = Some f ∧
      str_of_Z (zsum_with (λ r, num r "balance_raw"%string) (dict_read (snap_text (file_snapshot f))).2) = total_supply_raw f) pre)
    (token_step p holders) (c, []) stems_ (c', h') _ _ H); [done|].
  intros pre stem [c1 h1] [c2 h2] IH Hs Hc. unfold token_step in Hs. inv_ok. apply pair_eq in Hs as [<- <-]. subst. cbn [fst] in Hc. checked. zbool.
  destruct IH as (Hc0 & Hpre & Hsupply); [done|]. split; [done|]. cbn in Hpre.
  match goal with E : foldM balance_step _ _ = Ok _ |- _ => apply balances_clean in E as [Hh Ht] end. split.
  - rewrite foldM_app, Hpre. cbn [mbind result_bind foldM].
    match goal with |- (x ← ?m; Ok x) = Ok ?h => enough (m = Ok h) as ->; [done|] end.
    unfold holding_file. rewrite dget_snapshots. match goal with E : dget holders stem = Some _ |- _ => rewrite E end.
    cbn [fmap option_fmap option_map of_option mbind result_bind]. rewrite !bool_decide_true by done. cbn [negb raise_if mbind result_bind].
    match goal with E : snap_block _ = _ |- _ => rewrite E end. rewrite Z.eqb_refl. exact Hh.
  - apply Forall_app. split; [done|]. constructor; [|done]. eexists. split; [eassumption|]. rewrite Ht in *. done.
Qed.

(** ** A pool *)

Definition in_pool (pid : str) (r : row) : Prop := r !! ("pool_id"%string : str) = Some pid.
#[export] Instance in_pool_dec pid r : Decision (in_pool pid r).
Proof. unfold in_pool. apply _. Defined.

Lemma by_pool_spec allocations d pid :
  foldM by_pool_step [] allocations = Ok d → default [] (dget d pid) = filter (in_pool pid) allocations.
Proof.
  intros H. refine (foldM_inv (λ pre d, default [] (dget d pid) = filter (in_pool pid) pre) by_pool_step [] allocations d _ _ H); [done|].
  clear. intros pre r d d' IH H. unfold by_pool_step, cell in H. inv_ok. subst. rewrite dget_dset, filter_snoc, <- IH.
  unfold in_pool. destruct (decide (pid = _)) as [->|Hne].
  - rewrite decide_True by done. done.
  - rewrite decide_False by congruence. by rewrite app_nil_r.
Qed.

Lemma size_list_to_set_le (l : list str) : (size (list_to_set l : gset str) ≤ length l)%nat.
Proof.
  induction l as [|x l IH]; [done|]. cbn [list_to_set length]. destruct (decide (x ∈ (list_to_set l : gset str))).
  - replace ({[x]} ∪ list_to_set l : gset str) with (list_to_set l : gset str) by set_solver. lia.
  - rewrite size_union, size_singleton by set_solver. lia.
Qed.

Lemma NoDup_size (l : list str) : zlen l = Z.of_nat (size (list_to_set l : gset str)) → NoDup l.
Proof.
  unfold zlen. induction l as [|x l IH]; intros H; [constructor|]. cbn [list_to_set length] in H. pose proof (size_list_to_set_le l).
  destruct (decide (x ∈ (list_to_set l : gset str))) as [Hx|Hx].
  - replace ({[x]} ∪ list_to_set l : gset str) with (list_to_set l : gset str) in H by set_solver. lia.
  - rewrite size_union, size_singleton in H by set_solver. constructor; [set_solver|]. apply IH. lia.
Qed.

Definition adjustments_of (adjustments : dict str (dict str Z)) (pid : str) : dict str Z := default [] (dget adjustments pid).
Definition pnum (r : row) (field : str) : Z := num r field.

(** A pool that passed: its rows are the holders and adjusted accounts, each
    given its share, and its totals conserve the collateral the chain state
    shows. *)
Record pool_sound (i : v_inputs) (r : routes) (cf : config) (adj : dict str Z) (rows : list row) (pid : str) (pr : row)
    (holdings : dict str Z) (pool_ : pool) (p : planned) : Prop := {
  snd_pool : find_pool r pid = Ok pool_;
  snd_plan : dget (v_plan i) pid = Some p;
  snd_holdings : load_holdings (planned_pool p) (snapshots_of (v_holders i)) = Ok holdings;
  snd_once : NoDup (acct <$> rows);
  snd_accounts : ∀ a, a ∈ acct <$> rows ↔ a ∈ dkeys holdings ∨ a ∈ dkeys adj;
  snd_rows : Forall (row_ok holdings adj (pnum pr "scale_numerator"%string) (pnum pr "scale_denominator"%string)) rows;
  snd_scale : (pnum pr "scale_numerator"%string, pnum pr "scale_denominator"%string)
              = scale (pnum pr "collateral_raw"%string) (sum_eligible (sums_of holdings adj rows));
  snd_claimable : pnum pr "claimable_raw"%string = zsum_with alloc (filter is_claimable rows);
  snd_held : pnum pr "held_raw"%string = zsum_with alloc (filter is_held rows);
  snd_conserved : pnum pr "collateral_raw"%string
                  = pnum pr "claimable_raw"%string + pnum pr "held_raw"%string + pnum pr "retained_raw"%string;
  snd_retained : 0 ≤ pnum pr "retained_raw"%string;
  snd_collateral : (item ← of_option (dget (state_pools (v_state i)) (pool_id pool_)) (KeyError (pool_id pool_)); expected_collateral pool_ item)
                   = Ok (pnum pr "collateral_raw"%string);
  snd_target : claim_target pool_ cf = (Some (cell_or pr "claim_chain"%string []), Some (cell_or pr "claim_token"%string [])) }.

Lemma check_totals_clean c s pr n d col c' :
  check_totals c s pr n d col = Ok c' → clean c' →
  clean c ∧ pnum pr "claimable_raw"%string = sum_claimable s ∧ pnum pr "held_raw"%string = sum_held s ∧ (n, d) = scale col (sum_eligible s) ∧
  col = sum_claimable s + sum_held s + pnum pr "retained_raw"%string ∧ 0 ≤ pnum pr "retained_raw"%string.
Proof.
  unfold check_totals. intros H Hc. inv_ok. repeat match goal with H : int_cell _ _ = Ok _ |- _ => apply int_cell_num in H end.
  unfold pnum. subst. unfold scale. destruct (col <? sum_eligible s); checked; zbool; subst; (split; [done|]); repeat split; try lia; congruence.
Qed.

Lemma check_target_clean i cf c pool_ pr col c' :
  check_target i cf c pool_ pr col = Ok c' → clean c' →
  clean c ∧ (item ← of_option (dget (state_pools (v_state i)) (pool_id pool_)) (KeyError (pool_id pool_)); expected_collateral pool_ item) = Ok col ∧
  claim_target pool_ cf = (Some (cell_or pr "claim_chain"%string []), Some (cell_or pr "claim_token"%string [])).
Proof.
  unfold check_target. intros H Hc. inv_ok. subst. checked. zbool. split; [done|].
  repeat match goal with E : cell _ _ = Ok _ |- _ => apply (cell_cell_or _ _ []) in E end. split; [|congruence].
  cbn [mbind result_bind]. congruence.
Qed.

Lemma verify_pool_clean i r cf allocations by_pool adjustments c pid pr c' :
  foldM by_pool_step [] allocations = Ok by_pool → verify_pool i r cf by_pool adjustments c (pid, pr) = Ok c' → clean c' →
  clean c ∧ ∃ holdings pool_ p, pool_sound i r cf (adjustments_of adjustments pid) (filter (in_pool pid) allocations) pid pr holdings pool_ p.
Proof.
  intros Hby H Hc. unfold verify_pool in H. inv_ok. rewrite (by_pool_spec _ _ pid Hby) in *.
  match goal with E : mapM row_account _ = Ok ?l |- _ =>
    assert (Hacc : acct <$> filter (in_pool pid) allocations = l)
      by (apply mapM_Ok_Forall2 in E; clear -E; induction E as [|x y xs ys Hx _ IH]; [done|]; cbn; unfold acct at 1; rewrite Hx; cbn; by f_equal)
  end.
  apply check_target_clean in H as (Hc1 & Hcol & Htarget); [|done].
  match goal with E : check_totals _ _ _ _ _ _ = Ok _ |- _ => apply check_totals_clean in E as (Hc2 & Hcl & Hh & Hscale & Hcons & Hret); [|done] end.
  match goal with E : foldM (row_step _ _ _ _) _ _ = Ok _ |- _ => apply rows_clean in E as (Hc3 & Hrows & ->); [|done] end.
  checked. zbool.
  match goal with E : foldM (token_step _ _) _ _ = Ok _ |- _ => apply tokens_clean in E as (Hc4 & Hhold & _); [|done] end.
  repeat match goal with H : int_cell _ _ = Ok _ |- _ => apply int_cell_num in H end. subst.
  split; [done|]. eexists _, _, _. split; try eassumption; [by apply NoDup_size| |rewrite Hcl, Hh; exact Hcons].
  intros x. unfold adjustments_of. match goal with E : list_to_set _ = _ |- _ => rename E into Hset end.
  rewrite <- !(elem_of_list_to_set (C := gset str)), Hset. set_solver.
Qed.

(** ** Claims *)

Definition claim_entry (ch : str) (x : row) : vkey * Z := ((ch, acct x, cell_or x "token"%string []), num x "amount_raw"%string).

(** The rows of the claim lists. *)
Definition listed (d : directory) : dict vkey Z := concat ((λ ch, claim_entry ch <$> from_ok [] (read_file d (list_file ch))) <$> claim_lists d).

Lemma found_rows_clean ch rows c f c' f' :
  foldM (found_row ch) (c, f) rows = Ok (c', f') → clean c' →
  clean c ∧ f' = f ++ (claim_entry ch <$> rows) ∧ (NoDup (dkeys f) → NoDup (dkeys f')) ∧ Forall (λ e, 0 < e.2) (claim_entry ch <$> rows).
Proof.
  revert c f. induction rows as [|r rows IH]; intros c f H Hc; cbn [foldM] in H; inv_ok.
  - apply pair_eq in H as [<- <-]. by rewrite app_nil_r.
  - destruct a as [c1 f1]. apply IH in H as (Hc1 & -> & Hnd & Hpos); [|done]. unfold found_row in E. inv_ok.
    apply pair_eq in E as [<- <-]. checked. zbool. rewrite fmap_cons.
    assert (He : claim_entry ch r = (ch, a0, a1, a2)).
    { unfold claim_entry, acct, row_account. run_ok. cbn [from_ok]. f_equal; [|by apply int_cell_num].
      f_equal. by eapply cell_cell_or. }
    match goal with E : dmem f _ = false |- _ => apply dmem_false in E as Hf end. rewrite dset_absent in * by done. rewrite He.
    split; [done|]. split; [by rewrite <- app_assoc|]. split; [|by constructor].
    intros Hn. apply Hnd. unfold dkeys. rewrite fmap_app. apply NoDup_app. split; [done|]. split; [|apply NoDup_singleton].
    intros k Hk Hk2. cbn in Hk2. apply list_elem_of_singleton in Hk2 as ->. done.
Qed.

Lemma found_clean d c c' found :
  foldM (found_list d) (c, []) (claim_lists d) = Ok (c', found) → clean c' →
  clean c ∧ found = listed d ∧ NoDup (dkeys found) ∧ Forall (λ e, 0 < e.2) found ∧
  Forall (λ ch, is_ok (read_file d (list_file ch)) = true) (claim_lists d).
Proof.
  unfold listed. intros H. refine (foldM_inv (λ pre st, clean st.1 → clean c ∧
    st.2 = concat ((λ ch, claim_entry ch <$> from_ok [] (read_file d (list_file ch))) <$> pre) ∧ NoDup (dkeys st.2) ∧ Forall (λ e, 0 < e.2) st.2 ∧
    Forall (λ ch, is_ok (read_file d (list_file ch)) = true) pre) (found_list d) (c, []) _ (c', found) _ _ H).
  - cbn. intros. split_and!; try done. constructor.
  - intros pre ch [c1 f1] [c2 f2] IH Hs Hc. unfold found_list in Hs. inv_ok.
    apply found_rows_clean in Hs as (Hc1 & -> & Hnd & Hpos); [|done]. destruct (IH Hc1) as (H1 & H2 & H3 & H4 & H5). cbn [fst snd] in *.
    split; [done|]. split; [|split; [by apply Hnd|split; [by apply Forall_app|]]].
    + rewrite fmap_app, concat_app, <- H2. cbn [fmap list_fmap concat]. rewrite E, app_nil_r. done.
    + apply Forall_app. split; [done|]. constructor; [by rewrite E|done].
Qed.

Definition vkey_of (r : row) : vkey :=
  (cell_or r "claim_chain"%string [], from_ok [] (address (cell_or r "payee"%string [])), cell_or r "claim_token"%string []).
(** The rows that make up a claim. *)
Definition pays (k : vkey) (r : row) : Prop := (is_claimable r ∧ alloc r ≠ 0) ∧ vkey_of r = k.
#[export] Instance pays_dec k r : Decision (pays k r).
Proof. unfold pays. apply _. Defined.

Lemma expected_spec rows d k :
  foldM expected_step [] rows = Ok d →
  NoDup (dkeys d) ∧
  match dget d k with
  | Some v => v = zsum_with alloc (filter (pays k) rows) ∧ filter (pays k) rows ≠ []
  | None => filter (pays k) rows = []
  end.
Proof.
  intros H. refine (foldM_inv (λ pre d, NoDup (dkeys d) ∧
    match dget d k with
    | Some v => v = zsum_with alloc (filter (pays k) pre) ∧ filter (pays k) pre ≠ []
    | None => filter (pays k) pre = []
    end) expected_step [] rows d _ _ H); [by split; [constructor|]|].
  clear. intros pre r d d' [IHn IH] H. unfold expected_step in H. inv_ok. rewrite filter_snoc.
  assert (Hst : stat r = a) by (unfold stat; eapply cell_cell_or; eassumption).
  destruct (bool_decide (a = _)) eqn:Ecl; cbn [negb] in H; zbool; inv_ok.
  - apply int_cell_num in E0 as Hv. fold (alloc r) in Hv. destruct (Z.eqb_spec a0 0) as [Hz|Hz].
    + inv_ok. subst d'. rewrite decide_False by (intros [[_ ?] _]; lia). by rewrite app_nil_r.
    + inv_ok. subst d'. split; [by apply NoDup_dset|]. rewrite dget_dset.
      assert (Hk : vkey_of r = (a1, a3, a4)).
      { unfold vkey_of. repeat match goal with E : cell _ _ = Ok _ |- _ => apply (cell_cell_or _ _ []) in E; rewrite E end. by run_ok. }
      destruct (decide (k = (a1, a3, a4))) as [->|Hne].
      * rewrite decide_True by (split; [split; [unfold is_claimable; congruence|lia]|done]). rewrite zsum_with_snoc.
        split; [|by destruct (filter _ pre)]. destruct (dget d _); cbn; [destruct IH as [-> _]; lia|rewrite IH; cbn; lia].
      * rewrite decide_False by (intros [_ ?]; congruence). by rewrite app_nil_r.
  - subst d'. rewrite decide_False by (intros [[? _] _]; unfold is_claimable in *; congruence). by rewrite app_nil_r.
Qed.

Lemma dget_map {A} (d : dict vkey A) k : (list_to_map d : gmap vkey A) !! k = dget d k.
Proof. induction d as [|[k' v] d IH]; [done|]. cbn. rewrite lookup_insert. repeat case_decide; congruence. Qed.

Lemma dict_eqb_dget d e k : dict_eqb d e = true → dget d k = dget e k.
Proof. unfold dict_eqb. intros H%bool_decide_eq_true. by rewrite <- !dget_map, H. Qed.

(** ** Custody *)

Lemma moved_spec ts pid :
  match dget (foldl moved_step [] ts) pid with
  | Some v => v = zsum_with snd (filter (λ t : str * Z, t.1 = pid) ts)
  | None => pid ∉ ts.*1
  end ∧ zsum_with snd (filter (λ t : str * Z, t.1 = pid) ts) = default 0 (dget (foldl moved_step [] ts) pid).
Proof.
  induction ts as [|t ts [IH IH2]] using rev_ind; [split; [apply not_elem_of_nil|done]|].
  rewrite foldl_app, filter_snoc. cbn [foldl]. unfold moved_step. rewrite dget_dset, fmap_app.
  destruct (decide (pid = t.1)) as [Heq|Hne]; subst.
  - rewrite decide_True, zsum_with_snoc, IH2 by done. split; done.
  - rewrite decide_False, app_nil_r by congruence. split; [|done].
    destruct (dget _ pid); [done|]. cbn. set_solver.
Qed.

Definition all_transfers (d : directory) : list (str * Z) := concat (dvalues (transfers_of d)).

Lemma moved_clean pools l c c' :
  foldM (moved_check pools) c l = Ok c' → clean c' →
  clean c ∧ Forall (λ e, ∃ pr, dget pools e.1 = Some pr ∧ e.2 = pnum pr "collateral_raw"%string) l.
Proof.
  revert c. induction l as [|e l IH]; intros c H Hc; cbn [foldM] in H; inv_ok; [by subst|]. apply IH in H as [H Hl]; [|done].
  unfold moved_check in E. inv_ok. subst. checked. zbool. split; [done|]. constructor; [|done]. eexists. split; [eassumption|].
  match goal with H : int_cell _ _ = Ok _ |- _ => apply int_cell_num in H end. unfold pnum. congruence.
Qed.

(** The collateral of the pools paid in ONE, as pools.csv has it. *)
Definition one_share_of (r : routes) (e : str * row) : Z := from_ok 0 (one_collateral r e).

Lemma custody_clean d r pools c c' :
  check_custody d r pools c = Ok c' → clean c' →
  clean c ∧
  (∀ pid, pid ∈ (all_transfers d).*1 →
     ∃ pr, dget pools pid = Some pr ∧ zsum_with snd (filter (λ t, t.1 = pid) (all_transfers d)) = pnum pr "collateral_raw"%string) ∧
  (∀ pid, pid ∈ (all_transfers d).*1 ↔ pid ∈ dkeys pools ∧ ∃ p, find_pool r pid = Ok p ∧ kind p = "remote_escrow"%string) ∧
  pf_amount (plan_one d) = zsum_with (one_share_of r) pools.
Proof.
  unfold check_custody. fold (all_transfers d). intros H Hc. inv_ok.
  match goal with E : mapM (one_collateral r) pools = Ok ?l |- _ =>
    assert (Hones : zsum l = zsum_with (one_share_of r) pools)
      by (apply mapM_Ok_Forall2 in E; clear -E; unfold zsum_with; induction E as [|x y xs ys Hx _ IH]; [done|];
          rewrite fmap_cons; cbn [zsum]; rewrite IH; unfold one_share_of; by rewrite Hx) end.
  assert (Hbase : clean (require (require a (bool_decide (list_to_set (omap id a0) = (list_to_set (all_transfers d).*1 : gset str)))
             "custody plan does not cover every escrow pool") (pf_amount (plan_one d) =? zsum a1) "ONE funding differs from ONE collateral")).
  { destruct (pf_data (plan_one d)); inv_ok; subst c'; [apply require_clean in Hc as [Hc _]|]; exact Hc. }
  clear H Hc. checked. zbool. match goal with E : foldM (moved_check _) _ _ = Ok _ |- _ => apply moved_clean in E as [Hc0 Hm]; [|done] end.
  split; [done|]. split; [|split; [|congruence]].
  - intros pid Hp. destruct (moved_spec (all_transfers d) pid) as [Hs _]. destruct (dget _ pid) as [v|] eqn:Ev; [|done].
    apply dget_Some_elem in Ev. rewrite Forall_forall in Hm. destruct (Hm _ Ev) as (pr & Hpr & Hv). exists pr. split; [done|].
    by rewrite <- Hs.
  - intros pid. match goal with E : list_to_set _ = _ |- _ => rename E into Hset end.
    rewrite <- (elem_of_list_to_set (C := gset str)), <- Hset, elem_of_list_to_set, list_elem_of_omap.
    match goal with E : mapM (escrow_pool r) _ = Ok _ |- _ => apply mapM_Ok_Forall2 in E as Hesc end. split.
    + intros (o & Ho & Hid). cbn in Hid. subst o. destruct (list_elem_of_lookup_1 _ _ Ho) as [n Hn].
      destruct (Forall2_lookup_r _ _ _ _ _ Hesc Hn) as (pid' & Hp & He). unfold escrow_pool in He. inv_ok.
      case_bool_decide; [|done]. simplify_eq. split; [by eapply list_elem_of_lookup_2|]. eauto.
    + intros (Hp & p & Hf & Hk). destruct (list_elem_of_lookup_1 _ _ Hp) as [n Hn].
      destruct (Forall2_lookup_l _ _ _ _ _ Hesc Hn) as (o & Ho & He). exists o. split; [by eapply list_elem_of_lookup_2|].
      unfold escrow_pool in He. rewrite Hf in He. cbn in He. rewrite bool_decide_true in He by done. inv_ok. by subst.
Qed.

(** ** The whole directory *)

Lemma pools_clean i r cf allocations by_pool adjustments l c c' :
  foldM by_pool_step [] allocations = Ok by_pool → foldM (verify_pool i r cf by_pool adjustments) c l = Ok c' → clean c' →
  clean c ∧ Forall (λ e, ∃ holdings pool_ p, pool_sound i r cf (adjustments_of adjustments e.1) (filter (in_pool e.1) allocations) e.1 e.2 holdings pool_ p) l.
Proof.
  intros Hby. revert c. induction l as [|[pid pr] l IH]; intros c H Hc; cbn [foldM] in H; inv_ok; [by subst|].
  apply IH in H as [H Hl]; [|done]. apply (verify_pool_clean _ _ _ allocations) in E as [Hc0 Hs]; [|done|done].
  split; [done|]. by constructor.
Qed.

(** C4: when the verifier exits without a failure, the files have the hashes of
    the summary; pools.csv lists exactly the planned pools; each of them has
    one row per holder and adjusted account, given exactly its share, and
    totals that conserve the collateral the chain state shows; no claim is
    listed twice, every listed amount is positive and is the sum of the
    claimable rows of its chain, payee and token, every claimable row is
    listed, so that the lists pay exactly what is claimable; and the custody
    plan moves exactly the collateral of the escrow pools and funds exactly the
    ONE collateral. *)
Theorem verify_bridge_sound i n :
  verify_main i = Ok n →
  ∃ r cf pools allocations adjustments,
    load_routes (v_routes i) = Ok r ∧ load_config (v_config i) r = Ok cf ∧ load_tables (v_out i) = Ok (pools, allocations) ∧
    foldM adjustment_step [] (dict_read (v_messages i)).2 = Ok adjustments ∧
    Forall (λ e, ∃ text, dget (files (v_out i)) e.1 = Some text ∧ file_sha256 text = e.2) (digests (v_out i)) ∧
    (∀ pid, pid ∈ dkeys pools ↔ pid ∈ planned_ids (v_plan i)) ∧
    Forall (λ e, ∃ holdings pool_ p,
      pool_sound i r cf (adjustments_of adjustments e.1) (filter (in_pool e.1) allocations) e.1 e.2 holdings pool_ p) pools ∧
    (NoDup (dkeys (listed (v_out i))) ∧
     Forall (λ e, 0 < e.2 ∧ e.2 = zsum_with alloc (filter (pays e.1) allocations)) (listed (v_out i)) ∧
     (∀ x, x ∈ allocations → is_claimable x → alloc x ≠ 0 → vkey_of x ∈ dkeys (listed (v_out i))) ∧
     zsum (dvalues (listed (v_out i))) = zsum_with alloc (filter is_claimable allocations)) ∧
    (∀ pid, pid ∈ (all_transfers (v_out i)).*1 ↔ pid ∈ dkeys pools ∧ ∃ p, find_pool r pid = Ok p ∧ kind p = "remote_escrow"%string) ∧
    (∀ pid, pid ∈ (all_transfers (v_out i)).*1 → ∃ pr, dget pools pid = Some pr ∧
       zsum_with snd (filter (λ t, t.1 = pid) (all_transfers (v_out i))) = pnum pr "collateral_raw"%string) ∧
    pf_amount (plan_one (v_out i)) = zsum_with (one_share_of r) pools.
Proof.
  unfold verify_main. intros H. inv_ok. case_bool_decide as Hclean; [clear H|done]. fold (clean a) in Hclean.
  unfold verify in E. inv_ok. apply custody_clean in E as (Hc1 & Hmoved & Hcover & Hone); [|done]. checked.
  match goal with E : foldM (found_list _) _ _ = Ok _ |- _ => apply found_clean in E as (Hc2 & -> & Hnd & Hpos & _); [|done] end.
  match goal with E : foldM (verify_pool _ _ _ _ _) _ _ = Ok _ |- _ =>
    eapply pools_clean in E as (Hc3 & Hpools); [|eassumption|done] end.
  checked. zbool. match goal with E : clean (foldl _ _ _) |- _ => apply hash_clean in E as [_ Hhash] end.
  match goal with E : load_tables _ = Ok (?ps, ?al) |- _ => rename ps into pools, al into allocations end.
  assert (Hkey : ∀ k, match dget (listed (v_out i)) k with
                      | Some v => v = zsum_with alloc (filter (pays k) allocations) ∧ filter (pays k) allocations ≠ []
                      | None => filter (pays k) allocations = []
                      end).
  { intros k. match goal with E : dict_eqb _ _ = true |- _ => rewrite (dict_eqb_dget _ _ k E) end. by eapply expected_spec. }
  assert (Hlisted : ∀ x, x ∈ allocations → is_claimable x → alloc x ≠ 0 → vkey_of x ∈ dkeys (listed (v_out i))).
  { intros x Hx Hcl Ha. specialize (Hkey (vkey_of x)). destruct (dget _ _) eqn:Ev; [by eapply dget_Some_key|].
    assert (Hin : x ∈ filter (pays (vkey_of x)) allocations) by (apply list_elem_of_filter; done).
    rewrite Hkey in Hin. by apply not_elem_of_nil in Hin. }
  assert (Hsum : ∀ e, e ∈ listed (v_out i) → e.2 = zsum_with alloc (filter (pays e.1) allocations)).
  { intros [k v] He. apply (dget_elem _ _ _ Hnd) in He. specialize (Hkey k). rewrite He in Hkey. by destruct Hkey. }
  eexists _, _, pools, allocations, _. do 4 (split; [first [eassumption|reflexivity]|]). split; [done|]. split; [|split; [exact Hpools|split; [|done]]].
  - intros pid. match goal with E : list_to_set _ = _ |- _ => rename E into Hset end.
    by rewrite <- !(elem_of_list_to_set (C := gset str)), Hset.
  - split; [done|]. split; [|split; [done|]].
    + rewrite !Forall_forall in *. intros e He. split; [by apply Hpos|by apply Hsum].
    + transitivity (zsum_with (λ k, zsum_with alloc (filter (λ x, vkey_of x = k) (filter (λ x, is_claimable x ∧ alloc x ≠ 0) allocations)))
                     (dkeys (listed (v_out i)))).
      * unfold dvalues, dkeys, zsum_with at 1. rewrite <- list_fmap_compose.
        apply (zsum_with_ext snd), Forall_forall. intros e He. cbn. rewrite (Hsum e He), list_filter_filter. f_equal.
        apply list_filter_iff. intros x. unfold pays. tauto.
      * rewrite zsum_with_by_key; [|done|].
        -- rewrite !zsum_with_filter. apply zsum_with_ext, Forall_forall. intros x _. repeat case_decide; try tauto.
           destruct (decide (alloc x = 0)); [lia|tauto].
        -- apply Forall_forall. intros x [[Hcl Ha] Hx]%list_elem_of_filter. by apply Hlisted.
Qed.

(** * The collateral of builder and verifier *)

Lemma to_int_all vs l : mapM id vs = Some l → mapM to_int vs = Ok l.
Proof.
  revert l. induction vs as [|v vs IH]; intros l H; cbn [mapM] in H |- *.
  - apply Some_inj in H as <-. done.
  - destruct v as [v|]; [|done]. cbn [id mbind option_bind] in H. destruct (mapM id vs) as [l'|]; [|done]. apply Some_inj in H as <-.
    cbn [to_int of_option mbind result_bind]. by rewrite (IH l').
Qed.

Lemma lock_total es t col :
  foldM lock_step t es = Ok col → Forall (λ e, is_native (hs_token e) = true) es →
  ∃ vs, mapM lock_value es = Ok vs ∧ col = t + zsum vs.
Proof.
  revert t. induction es as [|e es IH]; intros t H Hn; cbn [foldM] in H; inv_ok.
  - subst. exists []. split; [done|]. cbn. lia.
  - apply Forall_cons in Hn as [Hn1 Hn2]. unfold lock_step in E. rewrite Hn1 in E. inv_ok. subst.
    destruct (IH _ H Hn2) as (vs & Hvs & ->). eexists. split.
    + cbn [mapM]. assert (lock_value e = Ok (a0 + default 0 (wone_balance e))) as ->
        by (unfold lock_value, to_int; match goal with E : native_balance e = Some _ |- _ => by rewrite E end).
      cbn [mbind result_bind]. rewrite Hvs. reflexivity.
    + cbn. lia.
Qed.

(** The verifier's collateral is the builder's for every escrow pool and for
    every pool whose Harmony tokens are all native; for a pool locked in
    another token it still adds native and WONE balances. *)
Lemma collateral_agrees p s item col src :
  dget (state_pools s) (pool_id p) = Some item → collateral_for p s = Ok (col, src) →
  kind p = "remote_escrow"%string ∨ Forall (λ e, is_native (hs_token e) = true) (harmony_states item) →
  expected_collateral p item = Ok col.
Proof.
  intros Hitem H Hk. unfold collateral_for, expected_collateral in *. rewrite Hitem in H. cbn [of_option mbind result_bind] in H.
  case_bool_decide as Hkind; inv_ok; simplify_eq.
  - match goal with E : mapM id _ = Some _ |- _ => apply to_int_all in E; cbn [mapM mbind result_bind] in E end. inv_ok.
    subst. cbn. done.
  - destruct Hk as [Hk|Hk]; [done|]. match goal with E : foldM lock_step _ _ = Ok _ |- _ => destruct (lock_total _ _ _ E Hk) as (vs & -> & ->) end.
    done.
Qed.

(** * A directory that passes and one that should not *)

Module VSample.
Import BridgeAlloc.Sample.
Definition holder (supply : str) (s : snapshot) : holder_file := MkHolderFile s "0xAB"%string supply.
Definition holders_ : dict str holder_file :=
  (λ e : str * snapshot, (e.1, holder (if bool_decide (e.1 = "h1"%string) then "156"%string : str else "33"%string : str) e.2)) <$> snapshots.
Definition plans_ : dict str planned := (λ e : str * plan_pool, (e.1, MkPlanned e.2 "0xab"%string)) <$> plans.
Definition inputs_of (d : directory) : v_inputs := MkVInputs registry conf state plans_ messages holders_ d.

Definition built_directory : directory :=
  write_directory sample_out.1.1 sample_out.1.2 sample_out.2.1 sample_out.2.2.

(** A claimable row of a pool that exists nowhere else, and its claim. *)
Definition ghost : allocation :=
  MkAllocation "ghost"%string (Some ("bsc"%string : str)) (Some (addr "a" "2")) HARMONY 7 (addr "f" "1") 0 0 0 0 "eoa"%string "claimable"%string
    (addr "f" "1") 1000000 [].
Definition ghost_rows : list allocation := sample_out.1.1.1.2 ++ [ghost].
Definition ghost_lists : list (str * list claim_row) :=
  (λ ch, (ch, claim_list (from_ok [] (sorted_claims (collect_claims ghost_rows))) ch)) <$> sample_out.1.2.*1.
Definition ghost_directory : directory :=
  write_directory (sample_out.1.1.1.1, ghost_rows, sample_out.1.1.2) ghost_lists sample_out.2.1 sample_out.2.2.
End VSample.

Lemma verify_bridge_sound_witness :
  ∃ pools allocations, load_tables VSample.built_directory = Ok (pools, allocations) ∧
    zsum (dvalues (listed VSample.built_directory)) = zsum_with alloc (filter is_claimable allocations).
Proof.
  destruct (verify_bridge_sound (VSample.inputs_of VSample.built_directory) 68)
    as (r & cf & pools & allocations & adjustments & _ & _ & Ht & _ & _ & _ & _ & (_ & _ & _ & Hz) & _).
  - vm_compute. reflexivity.
  - exists pools, allocations. split; [exact Ht|exact Hz].
Defined.

(** Rows under a pool that pools.csv does not list are not checked: the
    verifier accepts a directory whose claim list pays a million units that
    belong to no pool. *)
Theorem unlisted_pool_accepted :
  (∃ n, verify_main (VSample.inputs_of VSample.ghost_directory) = Ok n) ∧
  zsum (dvalues (listed VSample.ghost_directory)) = zsum (dvalues (listed VSample.built_directory)) + 1000000.
Proof. split; [eexists|]; vm_compute; reflexivity. Qed.
