(* ===== verification/ReleasePlan.v ===== *)
(** The release of the bridge collateral: bridge-claims/tools/release_plan.py, from its
    encodings to the escrows of [plan]: what it reads of an escrow ([receive_state]), the
    calls that release it ([release_calls]) and what [decode_call] reads back from call
    data.  The rest of [plan] is in ReleaseGroups.

    The escrows, their endpoint and receive library are LayerZero's contracts: what the
    planner relies on is the interface [EscrowChain], which states what each call
    and each read is documented to do.  Shown against it: the calls pay the whole
    locked balance to the Safe and leave every setting as it was read, and a release
    that stopped after any number of its calls is refused by [receive_state].  Also: the
    call data of a release reads back as what was planned. *)

From S2P Require Import Prelude PyStr PyDict Csv Keccak Abi BatchTree Bech32 Address Json SafeTx BridgeLib.
Local Open Scope Z_scope.

(** * The code *)

Definition DST_GAS : Z := 300000.
Definition PT_SEND : Z := 0.
Definition RECEIVE_ULN301_VERSION : Z * Z * Z := (3, 0, 1).
Definition PACKET_VERSION : Z := 1.
Definition CONFIG_TYPE_EXECUTOR : Z := 1.
Definition CONFIG_TYPE_ULN : Z := 2.
Definition NIL_DVN_COUNT : Z := 255.
Definition CONFIRMATIONS : Z := 1.
Definition DEFAULT_MAX_ESCROWS_PER_BATCH : Z := 30.
Definition LZ_ID : dict str Z := [
  ("ethereum"%string : str, 101); ("bsc"%string : str, 102); ("arbitrum"%string : str, 110); ("base"%string : str, 184); ("linea"%string : str, 183)].

(** The entries of [SEL] the calls and reads use. *)
Definition SEL_setTrustedRemote : bytes := Eval vm_compute in Airdrop.selector "setTrustedRemote(uint16,bytes)"%string.
Definition SEL_setReceiveVersion : bytes := Eval vm_compute in Airdrop.selector "setReceiveVersion(uint16)"%string.
Definition SEL_setConfig : bytes := Eval vm_compute in Airdrop.selector "setConfig(uint16,uint16,uint256,bytes)"%string.
Definition SEL_verify : bytes := Eval vm_compute in Airdrop.selector "verify(bytes,bytes32,uint64)"%string.
Definition SEL_commitVerification : bytes := Eval vm_compute in Airdrop.selector "commitVerification(bytes,uint256)"%string.
Definition SEL_addOwnerWithThreshold : bytes := Eval vm_compute in Airdrop.selector "addOwnerWithThreshold(address,uint256)"%string.
Definition SEL_transfer : bytes := Eval vm_compute in Airdrop.selector "transfer(address,uint256)"%string.
Definition SEL_circulatingSupply : bytes := Eval vm_compute in Airdrop.selector "circulatingSupply()"%string.
Definition SEL_lzEndpoint : bytes := Eval vm_compute in Airdrop.selector "lzEndpoint()"%string.
Definition SEL_owner : bytes := Eval vm_compute in Airdrop.selector "owner()"%string.
Definition SEL_getThreshold : bytes := Eval vm_compute in Airdrop.selector "getThreshold()"%string.
Definition SEL_token : bytes := Eval vm_compute in Airdrop.selector "token()"%string.
Definition SEL_balanceOf : bytes := Eval vm_compute in Airdrop.selector "balanceOf(address)"%string.
Definition SEL_decimals : bytes := Eval vm_compute in Airdrop.selector "decimals()"%string.
Definition SEL_version : bytes := Eval vm_compute in Airdrop.selector "version()"%string.
Definition SEL_uaConfigLookup : bytes := Eval vm_compute in Airdrop.selector "uaConfigLookup(address)"%string.
Definition SEL_getReceiveVersion : bytes := Eval vm_compute in Airdrop.selector "getReceiveVersion(address)"%string.
Definition SEL_libraryLookup : bytes := Eval vm_compute in Airdrop.selector "libraryLookup(uint16)"%string.
Definition SEL_getInboundNonce : bytes := Eval vm_compute in Airdrop.selector "getInboundNonce(uint16,bytes)"%string.
Definition SEL_hasStoredPayload : bytes := Eval vm_compute in Airdrop.selector "hasStoredPayload(uint16,bytes)"%string.
Definition SEL_trustedRemoteLookup : bytes := Eval vm_compute in Airdrop.selector "trustedRemoteLookup(uint16)"%string.
Definition SEL_getAppUlnConfig : bytes := Eval vm_compute in Airdrop.selector "getAppUlnConfig(address,uint32)"%string.
Definition SEL_executors : bytes := Eval vm_compute in Airdrop.selector "executors(address,uint32)"%string.

(** ** ABI encoding *)

(** [_word]. *)
Definition word (value : Z) : result bytes := SafeTx.word value.

(** [_address_word]: [bytes(12) + bytes.fromhex(address[2:])]. *)
Definition address_word (address : str) : result bytes :=
  b ← of_option (fromhex (drop 2 address)) (ValueError "non-hexadecimal number"); Ok (replicate 12 0 ++ b).

(** A type and its value. *)
Inductive abi_value := VUint (z : Z) | VAddress (a : str) | VBool (b : bool) | VBytes32 (b : bytes) | VBytes (b : bytes).

(** [bytes(value).rjust(32, b"\x00")] and [b"\x00" * (-len(data) % 32)]. *)
Definition rjust32 (b : bytes) : bytes := replicate (32 - length b) 0 ++ b.
Definition pad32 (b : bytes) : bytes := b ++ replicate (Z.to_nat ((- zlen b) mod 32)) 0.

Definition abi_step (base : Z) (st : bytes * bytes) (v : abi_value) : result (bytes * bytes) :=
  let '(head, tail) := st in
  match v with
  | VBytes b =>
      h ← word (base + zlen tail); l ← word (zlen b);
      Ok (head ++ h, tail ++ l ++ pad32 b)
  | VAddress a => n ← py_int16 a; w ← word n; Ok (head ++ w, tail)
  | VBool b => w ← word (if b then 1 else 0); Ok (head ++ w, tail)
  | VBytes32 b => Ok (head ++ rjust32 b, tail)
  | VUint z => w ← word z; Ok (head ++ w, tail)
  end.

Definition abi_encode (values : list abi_value) : result bytes :=
  '(head, tail) ← foldM (abi_step (32 * zlen values)) ([], []) values; Ok (head ++ tail).

Definition packed (addresses : list str) : result bytes :=
  bs ← mapM (λ a : str, of_option (fromhex (drop 2 a)) (ValueError "non-hexadecimal number")) addresses; Ok (concat bs).

Definition release_payload (safe : str) (amount : Z) (packet_type : bool) : result bytes :=
  to_ ← packed [safe];
  if packet_type then abi_encode [VUint PT_SEND; VBytes to_; VBytes to_; VUint amount]
  else abi_encode [VBytes to_; VUint amount].

Definition uln_config (dvn : str) : result bytes :=
  d ← py_int16 dvn;
  ws ← mapM word [0x20; CONFIRMATIONS; 1; NIL_DVN_COUNT; 0; 0xC0; 0x100; 1; d; 0];
  Ok (concat ws).

(** [n.to_bytes(k, "big")]. *)
Definition to_bytes (k : nat) (n : Z) : result bytes :=
  if (0 <=? n) && (n <? 2 ^ (8 * Z.of_nat k)) then Ok (to_be k n) else Raise OverflowError.

Definition packet_header (nonce src_eid : Z) (sender : str) (dst_eid : Z) (receiver : str) : result bytes :=
  n ← to_bytes 8 nonce; s ← to_bytes 4 src_eid; a ← address_word sender; d ← to_bytes 4 dst_eid; r ← address_word receiver;
  Ok ([PACKET_VERSION] ++ n ++ s ++ a ++ d ++ r).

Definition packet (header message : bytes) : bytes * bytes :=
  let payload := keccak256 (drop 1 header) ++ message in
  (header ++ payload, keccak256 payload).

Definition call_data (sel : bytes) (values : list abi_value) : result bytes :=
  e ← abi_encode values; Ok (sel ++ e).

(** ** Chain reads *)

(** [rpc] answers an [eth_call] at the pinned block, [None] on an error; an address that
    could not be read is passed on as [None]. *)
Definition chain_reads : Type := option str → bytes → option str.

Definition read_address (rpc : chain_reads) (to_ : option str) (data : bytes) : result (option str) :=
  match rpc to_ data with
  | Some raw => if (42 <=? length raw)%nat then a ← address ("0x"%string ++ drop (length raw - 40) raw); Ok (Some a) else Ok None
  | None => Ok None
  end.

Definition read_uint (rpc : chain_reads) (to_ : option str) (data : bytes) : result (option Z) :=
  match rpc to_ data with
  | Some raw => if bool_decide (raw = []) || bool_decide (raw = "0x"%string) then Ok None else n ← py_int16 raw; Ok (Some n)
  | None => Ok None
  end.

Definition read_raw (rpc : chain_reads) (to_ : option str) (data : bytes) : result bytes :=
  match rpc to_ data with
  | Some raw => if bool_decide (raw = []) || bool_decide (raw = "0x"%string) then Raise (SystemExit "call failed") else Claims.unhex raw
  | None => Raise (SystemExit "call failed")
  end.

Definition read_bytes (rpc : chain_reads) (to_ : option str) (data : bytes) : result bytes :=
  raw ← read_raw rpc to_ data;
  let offset := from_be (zslice raw 0 32) in
  let length_ := from_be (zslice raw offset (offset + 32)) in
  Ok (zslice raw (offset + 32) (offset + 32 + length_)).

Inductive escrow_kind := Proxy | Native.

Definition locked_balance (rpc : chain_reads) (escrow : str) : result (escrow_kind * option str * option Z * bool) :=
  token ← read_address rpc (Some escrow) SEL_token;
  holder ← BridgeLib.address_word escrow;
  h ← Claims.unhex holder;
  supply ← read_uint rpc (Some escrow) SEL_circulatingSupply;
  let has_pt := bool_decide (is_Some supply) in
  match token with
  | Some t => if bool_decide (t = escrow) then b ← read_uint rpc (Some escrow) (SEL_balanceOf ++ h); Ok (Native, None, b, has_pt)
              else b ← read_uint rpc (Some t) (SEL_balanceOf ++ h); Ok (Proxy, Some t, b, has_pt)
  | None => b ← read_uint rpc (Some escrow) (SEL_balanceOf ++ h); Ok (Native, None, b, has_pt)
  end.

Record receive := MkReceive {
  r_endpoint : option str; lz_chain_id : Z; stored_receive_version : Z; receive_version : Z; receive_library : option str; path_nonce : Z;
  previous_trusted_remote : str; previous_uln_config : str; previous_executor : str }.

(** A read that returns [None] where the code goes on to use it as a value. *)
Definition need {A} (o : option A) : result A := of_option o (TypeError "NoneType").

(** [trusted == path or executor == _address_word(owner) or uln == uln_config(owner)]. *)
Definition release_started (trusted path executor uln : bytes) (owner : option str) : result bool :=
  if bool_decide (trusted = path) then Ok true else
  o ← need owner; ow ← address_word o;
  if bool_decide (executor = ow) then Ok true else
  ou ← uln_config o; Ok (bool_decide (uln = ou)).

Definition receive_state (rpc : chain_reads) (escrow : str) (owner : option str) (eid : Z) (safe : str) : result receive :=
  endpoint ← read_address rpc (Some escrow) SEL_lzEndpoint;
  ew ← address_word escrow;
  ua ← read_raw rpc endpoint (SEL_uaConfigLookup ++ ew);
  let stored_version := from_be (zslice ua 32 64) in
  version ← read_uint rpc endpoint (SEL_getReceiveVersion ++ ew); version ← need version;
  vw ← word version;
  library ← read_address rpc endpoint (SEL_libraryLookup ++ vw);
  raw ← read_raw rpc library SEL_version;
  let found := (from_be (zslice raw 0 32), from_be (zslice raw 32 64), from_be (zslice raw 64 96)) in
  _ ← raise_if (negb (bool_decide (found = RECEIVE_ULN301_VERSION))) (SystemExit "receive library is not ReceiveUln301");
  path ← packed [safe; escrow];
  path_args ← abi_encode [VUint eid; VBytes path];
  inbound ← read_uint rpc endpoint (SEL_getInboundNonce ++ path_args);
  stored ← read_uint rpc endpoint (SEL_hasStoredPayload ++ path_args);
  _ ← raise_if (match stored with Some n => negb (n =? 0) | None => false end)
        (SystemExit "a payload is stored on the local path; clear it first");
  ewid ← word eid;
  trusted ← read_bytes rpc (Some escrow) (SEL_trustedRemoteLookup ++ ewid);
  uln ← read_raw rpc library (SEL_getAppUlnConfig ++ ew ++ ewid);
  executor ← read_raw rpc library (SEL_executors ++ ew ++ ewid);
  started ← release_started trusted path executor uln owner;
  _ ← raise_if started (SystemExit "a release was started and not finished");
  inbound ← need inbound;
  Ok (MkReceive endpoint eid stored_version version library (inbound + 1)
        (Airdrop.hex0x trusted) (Airdrop.hex0x uln) (Airdrop.hex0x executor)).

(** ** The calls *)

Record planned_call := MkCall { c_to : str; c_value : Z; c_data : bytes; c_args : list (str * str) }.

Definition mk_call (to_ : option str) (data : bytes) : result planned_call :=
  a ← of_option (any_to_hex to_) (ValueError "invalid address"); Ok (MkCall a 0 data []).

(** An escrow of the plan. *)
Record escrow_entry := MkEscrow {
  e_chain : str; e_pool_id : str; e_escrow : str; e_owner : str; e_kind : escrow_kind; e_token : option str; e_decimals : option Z;
  e_locked : Z; e_packet_type : bool; e_owner_is_safe : bool; e_state : receive; e_packet_header : bytes; e_payload_hash : bytes }.

Definition release_packet_of (r : receive) (escrow : str) (locked : Z) (packet_type : bool) (safe : str) : result (bytes * bytes * bytes) :=
  let eid := lz_chain_id r in
  message ← release_payload safe locked packet_type;
  header ← packet_header (path_nonce r) eid safe eid escrow;
  let '(full, payload_hash) := packet header message in
  Ok (header, full, payload_hash).

Definition release_packet (e : escrow_entry) (safe : str) : result (bytes * bytes * bytes) :=
  release_packet_of (e_state e) (e_escrow e) (e_locked e) (e_packet_type e) safe.

Definition set_config (version eid config_type : Z) (config : bytes) : result bytes :=
  call_data SEL_setConfig [VUint version; VUint eid; VUint config_type; VBytes config].
Definition set_trusted (eid : Z) (path : bytes) : result bytes := call_data SEL_setTrustedRemote [VUint eid; VBytes path].
Definition set_version (v : Z) : result bytes := call_data SEL_setReceiveVersion [VUint v].

Definition release_calls (e : escrow_entry) (safe : str) : result (list planned_call) :=
  let r := e_state e in
  let escrow := e_escrow e in let owner := e_owner e in let eid := lz_chain_id r in
  let version := receive_version r in let library := receive_library r in
  '(header, full, payload_hash) ← release_packet e safe;
  let pin := negb (stored_receive_version r =? version) in
  ou ← uln_config owner; d1 ← set_config version eid CONFIG_TYPE_ULN ou; c1 ← mk_call (Some escrow) d1;
  ow ← address_word owner; d2 ← set_config version eid CONFIG_TYPE_EXECUTOR ow; c2 ← mk_call (Some escrow) d2;
  c3 ← (if pin then d ← set_version version; c ← mk_call (Some escrow) d; Ok [c] else Ok []);
  path ← packed [safe; escrow];
  d4 ← set_trusted eid path; c4 ← mk_call (Some escrow) d4;
  d5 ← call_data SEL_verify [VBytes header; VBytes32 payload_hash; VUint CONFIRMATIONS]; c5 ← mk_call library d5;
  d6 ← call_data SEL_commitVerification [VBytes full; VUint DST_GAS]; c6 ← mk_call library d6;
  pt ← Claims.unhex (previous_trusted_remote r); d7 ← set_trusted eid pt; c7 ← mk_call (Some escrow) d7;
  c8 ← (if pin then d ← set_version (stored_receive_version r); c ← mk_call (Some escrow) d; Ok [c] else Ok []);
  pe ← Claims.unhex (previous_executor r); d9 ← set_config version eid CONFIG_TYPE_EXECUTOR pe; c9 ← mk_call (Some escrow) d9;
  pu ← Claims.unhex (previous_uln_config r); d10 ← set_config version eid CONFIG_TYPE_ULN pu; c10 ← mk_call (Some escrow) d10;
  Ok ([c1; c2] ++ c3 ++ [c4; c5; c6; c7] ++ c8 ++ [c9; c10]).

(** ** The escrows of the plan *)

Record transfer := MkTransfer { t_pool_id : str; t_escrow : str }.

Inductive skip_reason := SkippedByFlag | NothingLocked.

Inductive escrow_outcome := Released (e : escrow_entry) | Skipped (chain pool escrow : str) (reason : skip_reason).

(** A chain at the pinned block: its answers to [eth_call] and to [eth_getCode]. *)
Record chain_node := MkChainNode { cn_reads : chain_reads; cn_code : str → result str }.

Definition is_safe (node : chain_node) (a : str) : result bool :=
  code ← cn_code node a;
  if (2 <? length code)%nat then t ← read_uint (cn_reads node) (Some a) SEL_getThreshold; Ok (bool_decide (is_Some t)) else Ok false.

Definition plan_escrow (node : chain_node) (chain : str) (skip : list str) (safe : str) (t : transfer) : result escrow_outcome :=
  escrow ← address (t_escrow t);
  owner ← read_address (cn_reads node) (Some escrow) SEL_owner;
  '(kind, token, locked, has_pt) ← locked_balance (cn_reads node) escrow;
  decimals ← (match token with Some t => read_uint (cn_reads node) (Some t) SEL_decimals | None => Ok (Some 18) end);
  if bool_decide (escrow ∈ skip) then Ok (Skipped chain (t_pool_id t) escrow SkippedByFlag) else
  eid ← of_option (dget LZ_ID chain) (KeyError chain);
  state ← receive_state (cn_reads node) escrow owner eid safe;
  owner_ ← need owner;
  match locked with
  | None | Some 0 => Ok (Skipped chain (t_pool_id t) escrow NothingLocked)
  | Some locked =>
      s ← is_safe node owner_;
      '(header, _, payload_hash) ← release_packet_of state escrow locked has_pt safe;
      Ok (Released (MkEscrow chain (t_pool_id t) escrow owner_ kind token decimals locked has_pt s state header payload_hash))
  end.

Definition released (o : escrow_outcome) : option escrow_entry := match o with Released e => Some e | Skipped _ _ _ _ => None end.

Definition plan_escrows (nodes : str → chain_node) (skip : list str) (safe : str) (chains : list (str * list transfer)) : result (list escrow_outcome) :=
  outs ← mapM (λ ct, mapM (plan_escrow (nodes ct.1) ct.1 skip safe) ct.2) chains;
  Ok (concat outs).

(** ** Reading call data back *)

(** What [describe_header] prints: nonce, source chain and sender, target chain and receiver. *)
Record header_text := MkHeaderText { ht_nonce : Z; ht_src : Z; ht_sender : bytes; ht_dst : Z; ht_receiver : bytes }.

Definition describe_header (h : bytes) : header_text :=
  MkHeaderText (from_be (zslice h 1 9)) (from_be (zslice h 9 13)) (zslice h 25 45) (from_be (zslice h 45 49)) (zslice h 61 81).

(** The recipient and the raw amount. *)
Definition describe_message (m : bytes) : bytes * Z :=
  let first := from_be (zslice m 0 32) in
  let '(to_at, amount) := if first =? PT_SEND then (from_be (zslice m 64 96), from_be (zslice m 96 128)) else (first, from_be (zslice m 32 64)) in
  (zslice m (to_at + 32) (to_at + 52), amount).

Inductive description :=
  | DExecutor (version eid kind : Z) (executor : bytes)
  | DExecutorUnset (version eid kind : Z)
  | DUlnUnset (version eid kind : Z)
  | DUln (version eid kind : Z) (dvns : list Z) (optional confirmations : Z)
  | DReceiveVersion (v : Z)
  | DTrustNone (eid : Z)
  | DTrust (eid : Z) (sender : bytes)
  | DVerify (confirmations : Z) (header : header_text) (payload_hash : bytes)
  | DCommit (gas : Z) (header : header_text) (amount : Z) (recipient : bytes)
  | DAddOwner (owner : bytes) (threshold : Z)
  | DTransfer (recipient : bytes) (amount : Z)
  | DUnknown (selector : bytes).

Definition word_at (body : bytes) (i : Z) : Z := from_be (zslice body (32 * i) (32 * i + 32)).
Definition dyn_at (body : bytes) (i : Z) : bytes :=
  let at_ := word_at body i in zslice body (at_ + 32) (at_ + 32 + from_be (zslice body at_ (at_ + 32))).

(** [w[i]] and [w[i:j]] of a list. *)
Definition item {A} (l : list A) (i : Z) : result A := of_option (l !! Z.to_nat i) IndexError.

Definition describe_config (version eid kind : Z) (config : bytes) : result description :=
  if kind =? CONFIG_TYPE_EXECUTOR then
    let ex := zslice config 12 32 in
    n ← py_int16 (hex ex);
    Ok (if n =? 0 then DExecutorUnset version eid kind else DExecutor version eid kind ex)
  else
    let w := from_be <$> chunks 32 config in
    confirmations ← item w 1; required ← item w 2; optional ← item w 3; w4 ← item w 4;
    if (confirmations =? 0) && (required =? 0) && (optional =? 0) && (w4 =? 0) then Ok (DUlnUnset version eid kind) else
    w5 ← item w 5;
    let at_ := 1 + w5 / 32 in
    n ← item w at_;
    Ok (DUln version eid kind (zslice w (at_ + 1) (at_ + 1 + n)) optional confirmations).

Definition decode_call (data : bytes) : result description :=
  let sel := zslice data 0 4 in
  let body := drop 4 data in
  if bool_decide (sel = SEL_setConfig) then describe_config (word_at body 0) (word_at body 1) (word_at body 2) (dyn_at body 3)
  else if bool_decide (sel = SEL_setReceiveVersion) then Ok (DReceiveVersion (word_at body 0))
  else if bool_decide (sel = SEL_setTrustedRemote) then
    let path := dyn_at body 1 in
    Ok (if bool_decide (path = []) then DTrustNone (word_at body 0) else DTrust (word_at body 0) (zslice path 0 20))
  else if bool_decide (sel = SEL_verify) then Ok (DVerify (word_at body 2) (describe_header (dyn_at body 0)) (zslice body 32 64))
  else if bool_decide (sel = SEL_commitVerification) then
    let full := dyn_at body 0 in
    let '(to_, amount) := describe_message (drop 113 full) in
    Ok (DCommit (word_at body 1) (describe_header (zslice full 0 81)) amount to_)
  else if bool_decide (sel = SEL_addOwnerWithThreshold) then Ok (DAddOwner (zslice body 12 32) (word_at body 1))
  else if bool_decide (sel = SEL_transfer) then Ok (DTransfer (zslice body 12 32) (word_at body 1))
  else Ok (DUnknown sel).

(** * The contracts the planner relies on *)

(** What the chain holds about one escrow on its local path. *)
Record lz_view := MkView {
  v_uln : bytes; v_executor : bytes; v_stored : Z; v_trusted : bytes; v_inbound : Z;
  v_locked : Z; v_credited : Z; v_attested : option (bytes * bytes) }.

Definition with_uln (c : bytes) (w : lz_view) := MkView c (v_executor w) (v_stored w) (v_trusted w) (v_inbound w) (v_locked w) (v_credited w) (v_attested w).
Definition with_executor (c : bytes) (w : lz_view) := MkView (v_uln w) c (v_stored w) (v_trusted w) (v_inbound w) (v_locked w) (v_credited w) (v_attested w).
Definition with_stored (v : Z) (w : lz_view) := MkView (v_uln w) (v_executor w) v (v_trusted w) (v_inbound w) (v_locked w) (v_credited w) (v_attested w).
Definition with_trusted (p : bytes) (w : lz_view) := MkView (v_uln w) (v_executor w) (v_stored w) p (v_inbound w) (v_locked w) (v_credited w) (v_attested w).
Definition with_attested (h : option (bytes * bytes)) (w : lz_view) := MkView (v_uln w) (v_executor w) (v_stored w) (v_trusted w) (v_inbound w) (v_locked w) (v_credited w) h.
(** A delivery of [amount]. *)
Definition delivered (amount : Z) (w : lz_view) :=
  MkView (v_uln w) (v_executor w) (v_stored w) (v_trusted w) (v_inbound w + 1) (v_locked w - amount) (v_credited w + amount) None.

(** The addresses and numbers of one escrow. *)
Record site := MkSite {
  x_escrow : str; x_owner : str; x_safe : str; x_endpoint : str; x_library : str; x_eid : Z; x_version : Z; x_default : Z; x_kind : escrow_kind; x_token : option str; x_packet_type : bool }.

(** The receive version in effect: the stored one, or the endpoint's default. *)
Definition effective (x : site) (w : lz_view) : Z := if v_stored w =? 0 then x_default x else v_stored w.

(** A chain with the escrow: its state, a call of the owner ([None] when it reverts),
    and its answers to [eth_call]. *)
Class EscrowChain (S : Type) := {
  view : S → lz_view;
  send : S → str → bytes → option S;
  reads : S → chain_reads;
  (** encodings the receive library accepts as a verifier config and as an executor *)
  is_uln : bytes → Prop;
  is_executor : bytes → Prop;
}.

(** What the contracts are documented to do: the four settings of the owner, the
    attestation and the delivery of a packet, and the views. *)
Class Documented {S} `{EscrowChain S} (x : site) : Prop := {
  doc_set_uln s c data : is_uln c → set_config (x_version x) (x_eid x) CONFIG_TYPE_ULN c = Ok data →
    ∃ s', send s (x_escrow x) data = Some s' ∧ view s' = with_uln c (view s);
  doc_set_executor s c data : is_executor c → set_config (x_version x) (x_eid x) CONFIG_TYPE_EXECUTOR c = Ok data →
    ∃ s', send s (x_escrow x) data = Some s' ∧ view s' = with_executor c (view s);
  doc_set_version s v data : v = x_version x ∨ v = 0 → set_version v = Ok data →
    ∃ s', send s (x_escrow x) data = Some s' ∧ view s' = with_stored v (view s);
  doc_set_trusted s p data : bytes_ok p → set_trusted (x_eid x) p = Ok data →
    ∃ s', send s (x_escrow x) data = Some s' ∧ view s' = with_trusted p (view s);
  doc_verify s header hash data : call_data SEL_verify [VBytes header; VBytes32 hash; VUint CONFIRMATIONS] = Ok data →
    length hash = 32%nat → uln_config (x_owner x) = Ok (v_uln (view s)) →
    ∃ s', send s (x_library x) data = Some s' ∧ view s' = with_attested (Some (header, hash)) (view s);
  doc_commit s header message amount data :
    call_data SEL_commitVerification [VBytes (packet header message).1; VUint DST_GAS] = Ok data →
    packet_header (v_inbound (view s) + 1) (x_eid x) (x_safe x) (x_eid x) (x_escrow x) = Ok header →
    release_payload (x_safe x) amount (x_packet_type x) = Ok message → 0 < amount ≤ v_locked (view s) →
    uln_config (x_owner x) = Ok (v_uln (view s)) → address_word (x_owner x) = Ok (v_executor (view s)) →
    packed [x_safe x; x_escrow x] = Ok (v_trusted (view s)) → effective x (view s) = x_version x →
    v_attested (view s) = Some (header, (packet header message).2) →
    ∃ s', send s (x_library x) data = Some s' ∧ view s' = delivered amount (view s);
  doc_encodings s : is_uln (v_uln (view s)) ∧ is_executor (v_executor (view s));
  doc_owner_encodings : (∀ c, uln_config (x_owner x) = Ok c → is_uln c) ∧ (∀ c, address_word (x_owner x) = Ok c → is_executor c);
}.

(** What the views answer. *)
Class Readable {S} `{EscrowChain S} (x : site) : Prop := {
  read_owner s : read_address (reads s) (Some (x_escrow x)) SEL_owner = Ok (Some (x_owner x));
  read_endpoint s : read_address (reads s) (Some (x_escrow x)) SEL_lzEndpoint = Ok (Some (x_endpoint x));
  read_stored s ew : address_word (x_escrow x) = Ok ew →
    ∃ ua, read_raw (reads s) (Some (x_endpoint x)) (SEL_uaConfigLookup ++ ew) = Ok ua ∧ from_be (zslice ua 32 64) = v_stored (view s);
  read_version s ew : address_word (x_escrow x) = Ok ew →
    read_uint (reads s) (Some (x_endpoint x)) (SEL_getReceiveVersion ++ ew) = Ok (Some (effective x (view s)));
  read_library s vw : word (x_version x) = Ok vw → read_address (reads s) (Some (x_endpoint x)) (SEL_libraryLookup ++ vw) = Ok (Some (x_library x));
  read_library_version s : ∃ raw, read_raw (reads s) (Some (x_library x)) SEL_version = Ok raw ∧
    (from_be (zslice raw 0 32), from_be (zslice raw 32 64), from_be (zslice raw 64 96)) = RECEIVE_ULN301_VERSION;
  read_nonce s path args : packed [x_safe x; x_escrow x] = Ok path → abi_encode [VUint (x_eid x); VBytes path] = Ok args →
    read_uint (reads s) (Some (x_endpoint x)) (SEL_getInboundNonce ++ args) = Ok (Some (v_inbound (view s))) ∧
    read_uint (reads s) (Some (x_endpoint x)) (SEL_hasStoredPayload ++ args) = Ok (Some 0);
  read_settings s ew we : address_word (x_escrow x) = Ok ew → word (x_eid x) = Ok we →
    read_bytes (reads s) (Some (x_escrow x)) (SEL_trustedRemoteLookup ++ we) = Ok (v_trusted (view s)) ∧
    read_raw (reads s) (Some (x_library x)) (SEL_getAppUlnConfig ++ ew ++ we) = Ok (v_uln (view s)) ∧
    read_raw (reads s) (Some (x_library x)) (SEL_executors ++ ew ++ we) = Ok (v_executor (view s));
  read_locked s : locked_balance (reads s) (x_escrow x) = Ok (x_kind x, x_token x, Some (v_locked (view s)), x_packet_type x);
  read_decimals s tok : x_token x = Some tok → ∃ d, read_uint (reads s) (Some tok) SEL_decimals = Ok (Some d);
  read_bytes_ok s : bytes_ok (v_trusted (view s)) ∧ bytes_ok (v_uln (view s)) ∧ bytes_ok (v_executor (view s));
  read_addresses : address (x_escrow x) = Ok (x_escrow x) ∧ address (x_library x) = Ok (x_library x);
}.

(** The calls of a list, one after another. *)
Fixpoint sends {S} `{EscrowChain S} (s : S) (calls : list planned_call) : option S :=
  match calls with
  | [] => Some s
  | c :: calls => s' ← send s (c_to c) (c_data c); sends s' calls
  end.

Section release.
Context {S : Type} `{EscrowChain S} (x : site) {Hd : Documented x} {Hr : Readable x}.

Definition state_read (s : S) : result receive := receive_state (reads s) (x_escrow x) (Some (x_owner x)) (x_eid x) (x_safe x).

Lemma sends_app s l1 l2 : sends s (l1 ++ l2) = (s' ← sends s l1; sends s' l2).
Proof. revert s. induction l1 as [|c l1 IH]; intros s; [done|]. cbn [app sends]. destruct (send s (c_to c) (c_data c)); cbn [mbind option_bind]; [apply IH|done]. Qed.

(** The encodings every reading of the site uses. *)
Record encodings := MkEncodings { en_escrow : bytes; en_path : bytes; en_owner : bytes; en_uln : bytes }.
Definition encoded (en : encodings) : Prop :=
  address_word (x_escrow x) = Ok (en_escrow en) ∧ packed [x_safe x; x_escrow x] = Ok (en_path en) ∧
  address_word (x_owner x) = Ok (en_owner en) ∧ uln_config (x_owner x) = Ok (en_uln en) ∧
  is_ok (word (x_version x)) = true ∧ is_ok (word (x_eid x)) = true ∧ is_ok (abi_encode [VUint (x_eid x); VBytes (en_path en)]) = true.

Definition started (en : encodings) (w : lz_view) : bool :=
  bool_decide (v_trusted w = en_path en) || bool_decide (v_executor w = en_owner en) || bool_decide (v_uln w = en_uln en).

(** [receive_state] on a chain that answers as documented. *)
Lemma receive_state_eq s en :
  encoded en → effective x (view s) = x_version x →
  state_read s =
    if started en (view s) then Raise (SystemExit "a release was started and not finished")
    else Ok (MkReceive (Some (x_endpoint x)) (x_eid x) (v_stored (view s)) (x_version x) (Some (x_library x)) (v_inbound (view s) + 1)
               (Airdrop.hex0x (v_trusted (view s))) (Airdrop.hex0x (v_uln (view s))) (Airdrop.hex0x (v_executor (view s)))).
Proof.
  intros (He & Hp & Ho & Hu & Hv & Hi & Ha) Heff. unfold state_read, receive_state, started. rewrite read_endpoint. cbn [mbind result_bind need of_option].
  rewrite He. cbn [mbind result_bind]. destruct (read_stored s _ He) as (ua & -> & Est). cbn [mbind result_bind]. rewrite (read_version s _ He), Heff. cbn [mbind result_bind need of_option].
  destruct (word (x_version x)) as [vw|] eqn:Evw; [|done]. cbn [mbind result_bind]. rewrite (read_library s _ Evw). cbn [mbind result_bind need of_option].
  destruct (read_library_version s) as (raw & -> & Ev). cbn [mbind result_bind]. rewrite Ev, bool_decide_eq_true_2 by done. cbn [negb raise_if mbind result_bind].
  rewrite Hp. cbn [mbind result_bind]. destruct (abi_encode _) as [args|] eqn:Eargs; [|done]. cbn [mbind result_bind].
  destruct (read_nonce s _ _ Hp Eargs) as [-> Est0]. cbn [mbind result_bind]. rewrite Est0. cbn [mbind result_bind Z.eqb negb raise_if].
  destruct (word (x_eid x)) as [we|] eqn:Ewe; [|done]. cbn [mbind result_bind]. destruct (read_settings s _ _ He Ewe) as (-> & S1 & S2). cbn [mbind result_bind]. rewrite S1. cbn [mbind result_bind]. rewrite S2. cbn [mbind result_bind need of_option].
  unfold release_started. destruct (bool_decide (_ = en_path en)); cbn [orb mbind result_bind raise_if]; [done|]. cbn [need of_option mbind result_bind]. rewrite Ho. cbn [mbind result_bind].
  destruct (bool_decide (_ = en_owner en)); cbn [orb mbind result_bind raise_if]; [done|]. rewrite Hu. cbn [mbind result_bind]. rewrite Est. by destruct (bool_decide _).
Qed.

Lemma release_started_false t p e u o :
  release_started t p e u (Some o) = Ok false → ∃ ow ou, address_word o = Ok ow ∧ uln_config o = Ok ou.
Proof.
  unfold release_started. destruct (bool_decide _); [done|]. cbn [need of_option mbind result_bind]. destruct (address_word o) as [ow|]; [|done]. cbn [mbind result_bind].
  destruct (bool_decide _); [done|]. destruct (uln_config o) as [ou|]; [|done]. intros _. by exists ow, ou.
Qed.

(** A reading that succeeded used these encodings. *)
Lemma state_read_encoded s r : state_read s = Ok r → effective x (view s) = x_version x → ∃ en, encoded en.
Proof.
  unfold state_read, receive_state, need. rewrite read_endpoint. cbn [mbind result_bind of_option]. intros H0 Heff. inv_ok.
  match goal with E : address_word (x_escrow x) = Ok ?ew |- _ => rename ew into wescrow, E into Hew end.
  rewrite (read_version s _ Hew), Heff in *. inv_ok. subst. inv_ok. subst.
  match goal with E : release_started _ _ _ _ _ = Ok _ |- _ => apply release_started_false in E as (wowner & culn & Eo & Eu) end.
  match goal with E : packed _ = Ok ?p, E2 : address_word (x_owner x) = Ok ?o, E3 : uln_config _ = Ok ?u |- _ => exists (MkEncodings wescrow p o u) end.
  unfold encoded. cbn [en_escrow en_path en_owner en_uln].
  repeat match goal with E : ?m = Ok _ |- context [is_ok ?m] => rewrite E end. simplify_eq. split_and!; done.
Qed.
(** ** What the calls do *)

Inductive action :=
  | AUln (c : bytes) | AExecutor (c : bytes) | AVersion (v : Z) | ATrusted (p : bytes) | AVerify (header hash : bytes)
  | ACommit (header message : bytes) (amount : Z).

Definition act (w : lz_view) (a : action) : lz_view :=
  match a with
  | AUln c => with_uln c w | AExecutor c => with_executor c w | AVersion v => with_stored v w | ATrusted p => with_trusted p w
  | AVerify header hash => with_attested (Some (header, hash)) w
  | ACommit _ _ amount => delivered amount w
  end.

(** When an action goes through. *)
Definition enabled (w : lz_view) (a : action) : Prop :=
  match a with
  | AUln c => is_uln c | AExecutor c => is_executor c | AVersion v => v = x_version x ∨ v = 0 | ATrusted p => bytes_ok p
  | AVerify _ hash => length hash = 32%nat ∧ uln_config (x_owner x) = Ok (v_uln w)
  | ACommit header message amount =>
      packet_header (v_inbound w + 1) (x_eid x) (x_safe x) (x_eid x) (x_escrow x) = Ok header ∧
      release_payload (x_safe x) amount (x_packet_type x) = Ok message ∧ 0 < amount ≤ v_locked w ∧
      uln_config (x_owner x) = Ok (v_uln w) ∧ address_word (x_owner x) = Ok (v_executor w) ∧
      packed [x_safe x; x_escrow x] = Ok (v_trusted w) ∧ effective x w = x_version x ∧
      v_attested w = Some (header, (packet header message).2)
  end.

Fixpoint all_enabled (w : lz_view) (l : list action) : Prop :=
  match l with [] => True | a :: l => enabled w a ∧ all_enabled (act w a) l end.

(** The call is the action's. *)
Definition carries (c : planned_call) (a : action) : Prop :=
  match a with
  | AUln cf => c_to c = x_escrow x ∧ set_config (x_version x) (x_eid x) CONFIG_TYPE_ULN cf = Ok (c_data c)
  | AExecutor cf => c_to c = x_escrow x ∧ set_config (x_version x) (x_eid x) CONFIG_TYPE_EXECUTOR cf = Ok (c_data c)
  | AVersion v => c_to c = x_escrow x ∧ set_version v = Ok (c_data c)
  | ATrusted p => c_to c = x_escrow x ∧ set_trusted (x_eid x) p = Ok (c_data c)
  | AVerify header hash => c_to c = x_library x ∧ call_data SEL_verify [VBytes header; VBytes32 hash; VUint CONFIRMATIONS] = Ok (c_data c)
  | ACommit header message _ =>
      c_to c = x_library x ∧ call_data SEL_commitVerification [VBytes (packet header message).1; VUint DST_GAS] = Ok (c_data c)
  end.

Lemma send_action s c a : carries c a → enabled (view s) a → ∃ s', send s (c_to c) (c_data c) = Some s' ∧ view s' = act (view s) a.
Proof.
  destruct a; cbn [carries enabled act]; intros [-> Hc] He.
  - by apply doc_set_uln.
  - by apply doc_set_executor.
  - by apply doc_set_version.
  - by apply doc_set_trusted.
  - destruct He as [? ?]. by apply doc_verify.
  - destruct He as (? & ? & ? & ? & ? & ? & ? & ?). by eapply doc_commit.
Qed.

Lemma sends_actions s calls acts :
  Forall2 carries calls acts → all_enabled (view s) acts → ∃ s', sends s calls = Some s' ∧ view s' = foldl act (view s) acts.
Proof.
  intros Hc. revert s. induction Hc as [|c a calls acts Hc _ IH]; intros s; cbn [all_enabled sends foldl]; [by eexists|].
  intros [Ha Hl]. destruct (send_action s c a Hc Ha) as (s1 & -> & Hv). cbn [mbind option_bind]. rewrite <- Hv in Hl |- *. by apply IH.
Qed.

Lemma all_enabled_take w l n : all_enabled w l → all_enabled w (take n l).
Proof. revert w n. induction l as [|a l IH]; intros w [|n]; [done..|]. cbn [take all_enabled]. intros [? ?]. split; [done|by apply IH]. Qed.

(** The actions of a release. *)
Definition release_actions (en : encodings) (w : lz_view) (header message : bytes) : list action :=
  let pin := negb (v_stored w =? x_version x) in
  [AUln (en_uln en); AExecutor (en_owner en)] ++ (if pin then [AVersion (x_version x)] else []) ++
  [ATrusted (en_path en); AVerify header (packet header message).2; ACommit header message (v_locked w); ATrusted (v_trusted w)] ++
  (if pin then [AVersion (v_stored w)] else []) ++ [AExecutor (v_executor w); AUln (v_uln w)].

(** What a release leaves: the balance paid, every setting as before. *)
Definition released_view (w : lz_view) : lz_view := delivered (v_locked w) w.

Lemma effective_stored w v : effective x w = x_version x → v = x_version x → effective x (with_stored v w) = x_version x.
Proof. unfold effective. cbn [with_stored v_stored]. destruct (v_stored w =? 0) eqn:E, (v =? 0) eqn:Ev; zbool; congruence. Qed.

Lemma packed_ok l p : packed l = Ok p → bytes_ok p.
Proof.
  unfold packed. intros H0. inv_ok. subst p. apply Forall_concat.
  match goal with E : mapM _ _ = Ok _ |- _ => apply mapM_Ok_Forall2 in E; induction E as [|a b l bs Ha _ IH]; constructor; [|done] end.
  inv_ok. subst. match goal with E : fromhex _ = Some _ |- _ => by apply fromhex_ok in E end.
Qed.

Lemma release_actions_ok en s header message :
  encoded en → effective x (view s) = x_version x → 0 < v_locked (view s) →
  packet_header (v_inbound (view s) + 1) (x_eid x) (x_safe x) (x_eid x) (x_escrow x) = Ok header →
  release_payload (x_safe x) (v_locked (view s)) (x_packet_type x) = Ok message →
  all_enabled (view s) (release_actions en (view s) header message) ∧
  foldl act (view s) (release_actions en (view s) header message) = released_view (view s) ∧
  ∀ n, (0 < n < length (release_actions en (view s) header message))%nat →
    let w := foldl act (view s) (take n (release_actions en (view s) header message)) in
    v_uln w = en_uln en ∧ effective x w = x_version x.
Proof.
  intros (He & Hp & Ho & Hu & _) Heff Hl Hh Hm.
  assert (bytes_ok (en_path en)) as Bp by (by eapply packed_ok). destruct (read_bytes_ok s) as (Bt & _ & _).
  assert (length (packet header message).2 = 32%nat) as Lh by apply length_keccak256.
  destruct (doc_encodings s) as [Eu Ee]. destruct doc_owner_encodings as [Ou Oe]. specialize (Ou _ Hu). specialize (Oe _ Ho).
  set (w := view s) in *. assert (v_stored w ≠ x_version x → v_stored w = 0) as Hst.
  { unfold effective in Heff. destruct (Z.eqb_spec (v_stored w) 0); [done|]. congruence. }
  pose proof (effective_stored w (x_version x) Heff eq_refl) as Heff'. unfold release_actions.
  destruct (Z.eqb_spec (v_stored w) (x_version x)) as [Epin|Epin]; cbn [negb app].
  - split; [|split].
    + cbn [all_enabled enabled act]. unfold with_uln, with_executor, with_trusted, with_attested. cbn [v_uln v_executor v_stored v_trusted v_inbound v_locked v_credited v_attested].
      split_and!; try done; lia.
    + cbn [foldl act]. unfold released_view. by destruct w.
    + intros n [H0 H1]. cbn [length] in H1. unfold effective in *.
      do 8 (destruct n as [|n]; [first [lia|by destruct w]|]). lia.
  - split; [|split].
    + cbn [all_enabled enabled act]. unfold with_uln, with_executor, with_trusted, with_attested, with_stored, effective in *.
      cbn [v_uln v_executor v_stored v_trusted v_inbound v_locked v_credited v_attested] in *.
      split_and!; try done; (lia || by left || by right; apply Hst).
    + cbn [foldl act]. unfold released_view. by destruct w.
    + intros n [H0 H1]. cbn [length] in H1. unfold effective in *.
      do 10 (destruct n as [|n]; [first [lia|by destruct w]|]). lia.
Qed.
(** The entry of the plan for this escrow, as it was read in [s]. *)
Record entry_of_state (s : S) (e : escrow_entry) : Prop := {
  es_escrow : e_escrow e = x_escrow x; es_owner : e_owner e = x_owner x; es_locked : e_locked e = v_locked (view s);
  es_packet_type : e_packet_type e = x_packet_type x; es_state : state_read s = Ok (e_state e);
  es_version : effective x (view s) = x_version x; es_positive : 0 < v_locked (view s);
}.

Lemma claims_unhex_hex0x b : bytes_ok b → Claims.unhex (Airdrop.hex0x b) = Ok b.
Proof. intros Hb. unfold Claims.unhex, Airdrop.hex0x. rewrite startswith_app. change (drop 2 ("0x"%string ++ hex b)) with (hex b). by rewrite fromhex_hex. Qed.

Lemma mk_call_Ok to_ data c : mk_call (Some to_) data = Ok c → address to_ = Ok (c_to c) ∧ c_data c = data.
Proof. unfold mk_call, address. destruct (any_to_hex (Some to_)) as [a|]; [|done]. intros <-%Ok_inj. done. Qed.

Lemma mk_call_data to_ data c : mk_call to_ data = Ok c → c_data c = data.
Proof. unfold mk_call. destruct (any_to_hex to_) as [a|]; [|done]. by intros <-%Ok_inj. Qed.

Lemma release_calls_carry s e calls :
  entry_of_state s e → release_calls e (x_safe x) = Ok calls →
  ∃ en header message, encoded en ∧
    packet_header (v_inbound (view s) + 1) (x_eid x) (x_safe x) (x_eid x) (x_escrow x) = Ok header ∧
    release_payload (x_safe x) (v_locked (view s)) (x_packet_type x) = Ok message ∧
    Forall2 carries calls (release_actions en (view s) header message).
Proof.
  intros [Ee Eo El Ep Es Ev Epos] Hc. destruct (state_read_encoded s _ Es Ev) as [en Hen]. exists en.
  pose proof (receive_state_eq s en Hen Ev) as Heq. rewrite Es in Heq. destruct (started en (view s)); [done|]. apply Ok_inj in Heq.
  unfold release_calls, release_packet, release_packet_of in Hc. rewrite Heq, Ee, Eo, El, Ep in Hc.
  cbn [lz_chain_id stored_receive_version receive_version receive_library path_nonce previous_trusted_remote previous_uln_config previous_executor] in Hc.
  destruct (read_bytes_ok s) as (B1 & B2 & B3). rewrite !claims_unhex_hex0x in Hc by done. cbn [mbind result_bind] in Hc.
  destruct Hen as (He & Hp & Ho & Hu & Hv & Hi & Ha). destruct read_addresses as [Ra Rl].
  destruct (release_payload _ _ _) as [message|] eqn:Em; [|done]. cbn [mbind result_bind] in Hc.
  destruct (packet_header _ _ _ _ _) as [header|] eqn:Eh; [|done]. cbn [mbind result_bind] in Hc.
  exists header, message. split; [by split_and!|]. split; [done|]. split; [done|].
  rewrite Hu, Ho, Hp in Hc. cbn [mbind result_bind] in Hc.
  destruct (packet header message) as [full hash] eqn:Epk. unfold release_actions. rewrite Epk.
  set (pin := negb _) in *. inv_ok.
  repeat match goal with E : mk_call _ _ = Ok _ |- _ => apply mk_call_Ok in E as [? ?] end.
  subst calls. destruct pin; inv_ok; subst;
    repeat match goal with E : mk_call _ _ = Ok _ |- _ => apply mk_call_Ok in E as [? ?] end; subst; cbn [app snd];
    repeat (apply Forall2_cons_2; [cbn [carries]; rewrite ?Epk; cbn [fst]; split; congruence|]); constructor.
Qed.

(** The sequence of calls pays the balance and puts everything back. *)
Lemma release_runs s e calls :
  entry_of_state s e → release_calls e (x_safe x) = Ok calls → ∃ s', sends s calls = Some s' ∧ view s' = released_view (view s).
Proof.
  intros Hes Hc. destruct (release_calls_carry s e calls Hes Hc) as (en & header & message & Hen & Hh & Hm & Hca).
  destruct (release_actions_ok en s header message Hen (es_version _ _ Hes) (es_positive _ _ Hes) Hh Hm) as (Hall & Hf & _).
  destruct (sends_actions s calls _ Hca Hall) as (s' & Hs & Hv). exists s'. by rewrite Hv, Hf.
Qed.

(** Stopped anywhere in between, it cannot be planned again. *)
Lemma release_interrupted s e calls n :
  entry_of_state s e → release_calls e (x_safe x) = Ok calls → (0 < n < length calls)%nat →
  ∃ s', sends s (take n calls) = Some s' ∧ state_read s' = Raise (SystemExit "a release was started and not finished").
Proof.
  intros Hes Hc Hn. destruct (release_calls_carry s e calls Hes Hc) as (en & header & message & Hen & Hh & Hm & Hca).
  destruct (release_actions_ok en s header message Hen (es_version _ _ Hes) (es_positive _ _ Hes) Hh Hm) as (Hall & _ & Hpre).
  destruct (sends_actions s (take n calls) _ (Forall2_take _ _ _ n Hca) (all_enabled_take _ _ n Hall)) as (s' & Hs & Hv).
  exists s'. split; [done|]. destruct (Hpre n) as [Hu Heff]; [by rewrite <- (Forall2_length _ _ _ Hca)|].
  rewrite <- Hv in Hu, Heff. rewrite (receive_state_eq s' en Hen Heff). unfold started.
  rewrite (bool_decide_eq_true_2 (v_uln (view s') = en_uln en)) by done. by rewrite orb_true_r.
Qed.
End release.

(** * Reading encodings back *)

(** What the head of an encoding says about a value; [base] is the size of the head. *)
Definition head_of (base : Z) (tail : bytes) (v : abi_value) (h : bytes) : Prop :=
  zlen h = 32 ∧
  match v with
  | VUint z => uint256 z ∧ h = to_be 32 z
  | VAddress a => ∃ n, py_int16 a = Ok n ∧ uint256 n ∧ h = to_be 32 n
  | VBool b => h = to_be 32 (if b then 1 else 0)
  | VBytes32 b => h = rjust32 b
  | VBytes b => ∃ t1 t2, tail = t1 ++ to_be 32 (zlen b) ++ pad32 b ++ t2 ∧ uint256 (zlen b) ∧ uint256 (base + zlen t1) ∧ h = to_be 32 (base + zlen t1)
  end.

Definition wide (v : abi_value) : Prop := match v with VBytes32 b => length b = 32%nat | _ => True end.

Lemma head_of_grow base tail more v h : head_of base tail v h → head_of base (tail ++ more) v h.
Proof.
  intros [Hl Hv]. split; [done|]. destruct v; try done. destruct Hv as (t1 & t2 & -> & ? & ? & ?).
  exists t1, (t2 ++ more). split_and!; try done. by rewrite <- !app_assoc.
Qed.

Lemma abi_step_ok base st v st' :
  wide v → abi_step base st v = Ok st' → ∃ h, st'.1 = st.1 ++ h ∧ head_of base st'.2 v h ∧ ∃ more, st'.2 = st.2 ++ more.
Proof.
  destruct st as [head tail]. intros Hw H. unfold abi_step, word in H.
  assert (∀ z w, SafeTx.word z = Ok w → zlen w = 32 ∧ uint256 z ∧ w = to_be 32 z) as Hword.
  { intros z w [? ->]%word_Ok. split; [apply zlen_to_be|done]. }
  destruct v; inv_ok; subst st'; cbn [fst snd];
    repeat match goal with E : SafeTx.word _ = Ok _ |- _ => apply Hword in E as (? & ? & ?) end.
  - eexists. split; [done|]. split; [by split|]. exists []. by rewrite app_nil_r.
  - eexists. split; [done|]. split; [split; [done|by eexists]|]. exists []. by rewrite app_nil_r.
  - eexists. split; [done|]. split; [by split|]. exists []. by rewrite app_nil_r.
  - eexists. split; [done|]. split; [|exists []; by rewrite app_nil_r]. split; [|done]. unfold rjust32, zlen. cbn [wide] in Hw. rewrite Hw, length_app, length_replicate. lia.
  - eexists. split; [done|]. split; [|by eexists]. split; [done|]. subst. exists tail, []. rewrite !app_nil_r. done.
Qed.

Lemma abi_encode_layout values out :
  Forall wide values → abi_encode values = Ok out →
  ∃ heads tail, out = concat heads ++ tail ∧ Forall2 (head_of (32 * zlen values) tail) values heads.
Proof.
  intros Hw H. unfold abi_encode in H. inv_ok. subst out.
  match goal with E : foldM _ _ _ = Ok (?h, ?t) |- _ => rename E into Hf, h into hd, t into tl end.
  assert (∃ heads, hd = concat heads ∧ Forall2 (head_of (32 * zlen values) tl) values heads) as (heads & -> & Hh); [|by exists heads, tl].
  refine (foldM_inv (λ pre st, Forall wide pre → ∃ heads, st.1 = concat heads ∧ Forall2 (head_of (32 * zlen values) st.2) pre heads)
    _ _ _ _ _ _ Hf Hw); [intros _; by exists []|].
  intros pre v st st' IH Hs [Hpre Hv]%Forall_app. destruct (IH Hpre) as (heads & Hh & Hf2).
  destruct (abi_step_ok _ _ _ _ (Forall_inv Hv) Hs) as (h & Hh' & Hho & more & Hm).
  exists (heads ++ [h]). split; [rewrite concat_app, Hh', Hh; cbn [concat]; by rewrite app_nil_r|].
  apply Forall2_app; [|by constructor]. rewrite Hm. eapply Forall2_impl; [exact Hf2|]. intros. by apply head_of_grow.
Qed.

Lemma zlen_concat_heads (base : Z) tail values heads : Forall2 (head_of base tail) values heads → zlen (concat heads) = 32 * zlen values.
Proof. induction 1 as [|v h vs hs [Hl _] _ IH]; [done|]. cbn [concat]. rewrite zlen_app, IH, Hl. unfold zlen. cbn [length]. lia. Qed.

Lemma heads_slice (base : Z) tail values heads i h rest :
  Forall2 (head_of base tail) values heads → heads !! i = Some h →
  zslice (concat heads ++ rest) (32 * Z.of_nat i) (32 * Z.of_nat i + 32) = h.
Proof.
  intros Hf Hi. destruct (Forall2_lookup_r _ _ _ _ _ Hf Hi) as (v & Hv & Hl & _).
  rewrite <- (take_drop_middle _ _ _ Hi). rewrite concat_app. cbn [concat]. rewrite <- !app_assoc.
  apply (zslice_mid _ (concat (take i heads)) h (concat (drop (Datatypes.S i) heads) ++ rest)); [done| |lia].
  rewrite (zlen_concat_heads base tail (take i values)) by by apply Forall2_take. unfold zlen. rewrite length_take.
  apply lookup_lt_Some in Hv. lia.
Qed.

Lemma read_word values out i z :
  Forall wide values → abi_encode values = Ok out → values !! i = Some (VUint z) → word_at out (Z.of_nat i) = z ∧ uint256 z.
Proof.
  intros Hw H Hi. destruct (abi_encode_layout _ _ Hw H) as (heads & tail & -> & Hf).
  destruct (Forall2_lookup_l _ _ _ _ _ Hf Hi) as (h & Hh & _ & Hu & ->). split; [|done].
  unfold word_at. rewrite (heads_slice _ _ _ _ _ _ _ Hf Hh). by apply from_to_be.
Qed.

Lemma read_dyn values out i b :
  Forall wide values → abi_encode values = Ok out → values !! i = Some (VBytes b) →
  dyn_at out (Z.of_nat i) = b ∧ uint256 (zlen b) ∧
  zslice out (word_at out (Z.of_nat i) + 32) (word_at out (Z.of_nat i) + 32 + zlen b) = b ∧ 32 * zlen values ≤ word_at out (Z.of_nat i).
Proof.
  intros Hw H Hi. destruct (abi_encode_layout _ _ Hw H) as (heads & tail & -> & Hf).
  destruct (Forall2_lookup_l _ _ _ _ _ Hf Hi) as (h & Hh & _ & t1 & t2 & Ht & Hl & Hu & ->). unfold dyn_at.
  assert (word_at (concat heads ++ tail) (Z.of_nat i) = 32 * zlen values + zlen t1) as ->.
  { unfold word_at. rewrite (heads_slice _ _ _ _ _ _ _ Hf Hh). by apply from_to_be. }
  pose proof (zlen_concat_heads _ _ _ _ Hf) as Hz. rewrite Ht.
  set (at_ := 32 * zlen values + zlen t1). set (all := concat heads ++ _).
  assert (zslice all at_ (at_ + 32) = to_be 32 (zlen b)) as ->.
  { apply (zslice_mid _ (concat heads ++ t1) (to_be 32 (zlen b)) (pad32 b ++ t2)); [unfold all; by rewrite <- !app_assoc|rewrite zlen_app, Hz; lia|rewrite zlen_to_be; lia]. }
  rewrite from_to_be by done. assert (zslice all (at_ + 32) (at_ + 32 + zlen b) = b) as E.
  { apply (zslice_mid _ (concat heads ++ t1 ++ to_be 32 (zlen b)) b (replicate (Z.to_nat ((- zlen b) mod 32)) 0 ++ t2));
      rewrite ?zlen_app, ?zlen_to_be, ?Hz; [unfold all, pad32; by rewrite <- !app_assoc|lia..]. }
  pose proof (zlen_nonneg t1). split_and!; [exact E|apply Hl..|exact E|unfold at_; lia].
Qed.

Lemma read_bytes32 values out i b :
  Forall wide values → abi_encode values = Ok out → values !! i = Some (VBytes32 b) →
  zslice out (32 * Z.of_nat i) (32 * Z.of_nat i + 32) = b.
Proof.
  intros Hw H Hi. destruct (abi_encode_layout _ _ Hw H) as (heads & tail & -> & Hf).
  destruct (Forall2_lookup_l _ _ _ _ _ Hf Hi) as (h & Hh & _ & ->). rewrite (heads_slice _ _ _ _ _ _ _ Hf Hh).
  pose proof (Forall_lookup_1 _ _ _ _ Hw Hi) as Hb. cbn [wide] in Hb. unfold rjust32. by rewrite Hb.
Qed.

(** * Call data reads back as planned *)

Lemma hex_nibbles b : bytes_ok b → ∃ ds, Forall (λ d, 0 ≤ d < 16) ds ∧ hex b = hexdigit <$> ds ∧ length ds = (2 * length b)%nat ∧
  ∀ acc, undigits 16 acc ds = acc * 256 ^ zlen b + from_be b.
Proof.
  intros Hb. set (ds := concat ((λ x, [x / 16; x mod 16]) <$> b)).
  assert (Forall (λ d, 0 ≤ d < 16) ds) as Hd.
  { apply Forall_concat, Forall_fmap. eapply Forall_impl; [exact Hb|]. intros z Hz. unfold compose.
    cbn beta in Hz. apply Forall_cons_2; [split; [apply Z.div_pos|apply Z.div_lt_upper_bound]; lia|]. apply Forall_singleton, Z.mod_pos_bound. lia. }
  assert (hex b = hexdigit <$> ds) as Eh.
  { unfold hex, ds. rewrite fmap_concat, <- list_fmap_compose. done. }
  assert (length ds = (2 * length b)%nat) as El by (rewrite <- (length_fmap hexdigit), <- Eh, length_hex; lia).
  destruct (hexdigits_bytes (length b) ds Hd El) as (b' & Hl & Hok & E & Hu).
  rewrite <- Eh in E. apply hex_inj in E as <-; [|done..]. by exists ds.
Qed.

Lemma py_int16_hex b : bytes_ok b → b ≠ [] → py_int16 (hex b) = Ok (from_be b) ∧ py_int16 ("0x"%string ++ hex b) = Ok (from_be b).
Proof.
  intros Hb Hne. destruct (hex_nibbles b Hb) as (ds & Hd & Eh & El & Hu).
  assert (ds ≠ []) as Hn by (intros ->; destruct b; [done|cbn in El; lia]). split.
  - unfold py_int16. rewrite Eh, int_base_hexdigits, Hu by (done || lia). cbn [of_option]. by rewrite Z.mul_0_l.
  - unfold py_int16. rewrite int_base_0x.
    + rewrite lower_hex, Eh, (int_digits_hexdigits_need 16), Hu by (done || lia). cbn [of_option]. by rewrite Z.mul_0_l.
    + rewrite Eh. by destruct ds.
    + rewrite Eh. apply Forall_fmap. eapply Forall_impl; [exact Hd|]. intros d Hdd. by apply (hexdigit_cases (λ d, is_hex_char (hexdigit d) = true) d Hdd).
Qed.

(** An address as the planner has it: lower case. *)
Definition lz_address (a : str) (b : bytes) : Prop := a = "0x"%string ++ hex b ∧ length b = 20%nat ∧ bytes_ok b.

Lemma lz_address_forms a b :
  lz_address a b → fromhex (drop 2 a) = Some b ∧ address_word a = Ok (replicate 12 0 ++ b) ∧ py_int16 a = Ok (from_be b).
Proof.
  intros (-> & Hl & Hok). change (drop 2 ("0x"%string ++ hex b)) with (hex b). unfold address_word.
  change (drop 2 ("0x"%string ++ hex b)) with (hex b). rewrite fromhex_hex by done. split; [done|]. split; [done|].
  apply py_int16_hex; [done|]. by destruct b.
Qed.

Lemma to_bytes_Ok k n b : to_bytes k n = Ok b → 0 ≤ n < 2 ^ (8 * Z.of_nat k) ∧ b = to_be k n.
Proof. unfold to_bytes. intros H. destruct (_ && _) eqn:E; [|done]. zbool. apply Ok_inj in H as <-. done. Qed.

Lemma packet_header_reads nonce src sender sb dst receiver rb h :
  lz_address sender sb → lz_address receiver rb → packet_header nonce src sender dst receiver = Ok h →
  zlen h = 81 ∧ describe_header h = MkHeaderText nonce src sb dst rb.
Proof.
  intros Hs Hr H. destruct (lz_address_forms _ _ Hs) as (_ & Es & _). destruct (lz_address_forms _ _ Hr) as (_ & Er & _).
  unfold packet_header in H. rewrite Es, Er in H. inv_ok. subst h.
  repeat match goal with E : to_bytes _ _ = Ok _ |- _ => apply to_bytes_Ok in E as [? ->] end.
  destruct Hs as (_ & Ls & _), Hr as (_ & Lr & _). assert (zlen sb = 20) as Zs by (unfold zlen; lia). assert (zlen rb = 20) as Zr by (unfold zlen; lia).
  assert (zlen (replicate 12 0) = 12) as Zz by done. assert (zlen [PACKET_VERSION] = 1) as Zp by done.
  set (n8 := to_be 8 nonce). set (s4 := to_be 4 src). set (d4 := to_be 4 dst).
  assert (zlen n8 = 8) as Z1 by apply zlen_to_be. assert (zlen s4 = 4) as Z2 by apply zlen_to_be. assert (zlen d4 = 4) as Z3 by apply zlen_to_be.
  set (h := [PACKET_VERSION] ++ n8 ++ s4 ++ (replicate 12 0 ++ sb) ++ d4 ++ replicate 12 0 ++ rb).
  split; [unfold h; rewrite !zlen_app; lia|]. unfold describe_header.
  assert (∀ a b c i j, h = a ++ b ++ c → zlen a = i → zlen b = j - i → zslice h i j = b) as Hsl by (intros; by eapply zslice_mid).
  rewrite (Hsl [PACKET_VERSION] n8 (s4 ++ (replicate 12 0 ++ sb) ++ d4 ++ replicate 12 0 ++ rb)) by (done || lia).
  rewrite (Hsl ([PACKET_VERSION] ++ n8) s4 ((replicate 12 0 ++ sb) ++ d4 ++ replicate 12 0 ++ rb)) by (done || (rewrite ?zlen_app; lia)).
  rewrite (Hsl ([PACKET_VERSION] ++ n8 ++ s4 ++ replicate 12 0) sb (d4 ++ replicate 12 0 ++ rb)) by ((unfold h; by rewrite <- !app_assoc) || (rewrite ?zlen_app; lia)).
  rewrite (Hsl ([PACKET_VERSION] ++ n8 ++ s4 ++ replicate 12 0 ++ sb) d4 (replicate 12 0 ++ rb)) by ((unfold h; by rewrite <- !app_assoc) || (rewrite ?zlen_app; lia)).
  rewrite (Hsl ([PACKET_VERSION] ++ n8 ++ s4 ++ replicate 12 0 ++ sb ++ d4 ++ replicate 12 0) rb []) by ((unfold h; rewrite app_nil_r; by rewrite <- !app_assoc) || (rewrite ?zlen_app; lia)).
  unfold n8, s4, d4. rewrite !from_to_be by done. done.
Qed.

Lemma packed_bytes l bs : Forall2 lz_address l bs → packed l = Ok (concat bs).
Proof.
  intros Hl. unfold packed. assert (mapM (λ a : str, of_option (fromhex (drop 2 a)) (ValueError "non-hexadecimal number")) l = Ok bs) as ->; [|done].
  apply mapM_Ok_Forall2. eapply Forall2_impl; [exact Hl|]. intros a b Hab. by destruct (lz_address_forms _ _ Hab) as (-> & _).
Qed.

Lemma payload_reads safe sb amount packet_type m :
  lz_address safe sb → release_payload safe amount packet_type = Ok m → describe_message m = (sb, amount) ∧ uint256 amount.
Proof.
  intros Hs H. destruct (lz_address_forms _ _ Hs) as (Ef & _ & _). unfold release_payload in H. rewrite (packed_bytes [safe] [sb]) in H by (by constructor).
  cbn [mbind result_bind concat] in H. rewrite app_nil_r in H. destruct Hs as (_ & Ls & _). assert (zlen sb = 20) as Zs by (unfold zlen; lia).
  unfold describe_message. destruct packet_type.
  - assert (Forall wide [VUint PT_SEND; VBytes sb; VBytes sb; VUint amount]) as Hw by repeat constructor.
    destruct (read_word _ _ 0 _ Hw H eq_refl) as [E0 _]. destruct (read_word _ _ 3 _ Hw H eq_refl) as [E3 Hu].
    destruct (read_dyn _ _ 2 _ Hw H eq_refl) as (_ & _ & Ed & _). change (word_at m (Z.of_nat 0)) with (from_be (zslice m 0 32)) in E0.
    change (word_at m (Z.of_nat 3)) with (from_be (zslice m 96 128)) in E3. change (word_at m (Z.of_nat 2)) with (from_be (zslice m 64 96)) in Ed.
    rewrite E0, Z.eqb_refl, E3. rewrite Zs in Ed. split; [|done]. f_equal. rewrite <- Ed. f_equal. lia.
  - assert (Forall wide [VBytes sb; VUint amount]) as Hw by repeat constructor.
    destruct (read_word _ _ 1 _ Hw H eq_refl) as [E1 Hu]. destruct (read_dyn _ _ 0 _ Hw H eq_refl) as (_ & _ & Ed & Hge).
    change (word_at m (Z.of_nat 1)) with (from_be (zslice m 32 64)) in E1. change (word_at m (Z.of_nat 0)) with (from_be (zslice m 0 32)) in Ed, Hge.
    unfold zlen in Hge. cbn [length] in Hge. rewrite (proj2 (Z.eqb_neq _ _)) by (unfold PT_SEND; lia). rewrite E1. rewrite Zs in Ed. split; [|done].
    f_equal. rewrite <- Ed. f_equal. lia.
Qed.

Lemma call_parts sel values data :
  zlen sel = 4 → call_data sel values = Ok data → ∃ body, abi_encode values = Ok body ∧ zslice data 0 4 = sel ∧ drop 4 data = body.
Proof.
  intros Hl H. unfold call_data in H. inv_ok. subst data. eexists. split; [done|]. split.
  - by apply (zslice_mid _ [] sel a).
  - unfold zlen in Hl. replace 4%nat with (length sel) by lia. apply drop_app_length.
Qed.

(** Picks the branch of [decode_call] of a selector. *)
Ltac selector_branch :=
  repeat match goal with |- context [bool_decide (?a = ?b)] =>
    lazymatch type of a with option _ => fail | _ => idtac end;
    first [rewrite (bool_decide_eq_true_2 (a = b)) by reflexivity | rewrite (bool_decide_eq_false_2 (a = b)) by (vm_compute; discriminate)] end.

Ltac nat_index := change (Z.of_nat 0) with 0 in *; change (Z.of_nat 1) with 1 in *; change (Z.of_nat 2) with 2 in *; change (Z.of_nat 3) with 3 in *.

Lemma decode_set_config v eid k c data : set_config v eid k c = Ok data → decode_call data = describe_config v eid k c.
Proof.
  intros (body & He & Hs & Hb)%call_parts; [|done]. unfold decode_call. rewrite Hs, Hb. selector_branch.
  assert (Forall wide [VUint v; VUint eid; VUint k; VBytes c]) as Hw by repeat constructor.
  destruct (read_word _ _ 0 _ Hw He eq_refl) as [E0 _]. destruct (read_word _ _ 1 _ Hw He eq_refl) as [E1 _].
  destruct (read_word _ _ 2 _ Hw He eq_refl) as [E2 _]. destruct (read_dyn _ _ 3 _ Hw He eq_refl) as (E3 & _).
  nat_index. by rewrite E0, E1, E2, E3.
Qed.

Lemma decode_set_version v data : set_version v = Ok data → decode_call data = Ok (DReceiveVersion v).
Proof.
  intros (body & He & Hs & Hb)%call_parts; [|done]. unfold decode_call. rewrite Hs, Hb. selector_branch.
  assert (Forall wide [VUint v]) as Hw by repeat constructor. destruct (read_word _ _ 0 _ Hw He eq_refl) as [E0 _].
  nat_index. by rewrite E0.
Qed.

Definition describe_trusted (eid : Z) (path : bytes) : description := if bool_decide (path = []) then DTrustNone eid else DTrust eid (zslice path 0 20).

Lemma decode_set_trusted eid p data : set_trusted eid p = Ok data → decode_call data = Ok (describe_trusted eid p).
Proof.
  intros (body & He & Hs & Hb)%call_parts; [|done]. unfold decode_call. rewrite Hs, Hb. selector_branch.
  assert (Forall wide [VUint eid; VBytes p]) as Hw by repeat constructor.
  destruct (read_word _ _ 0 _ Hw He eq_refl) as [E0 _]. destruct (read_dyn _ _ 1 _ Hw He eq_refl) as (E1 & _).
  nat_index. by rewrite E0, E1.
Qed.

Lemma decode_verify header hash c data :
  length hash = 32%nat → call_data SEL_verify [VBytes header; VBytes32 hash; VUint c] = Ok data → decode_call data = Ok (DVerify c (describe_header header) hash).
Proof.
  intros Hl (body & He & Hs & Hb)%call_parts; [|done]. unfold decode_call. rewrite Hs, Hb. selector_branch.
  assert (Forall wide [VBytes header; VBytes32 hash; VUint c]) as Hw by (repeat constructor; done).
  destruct (read_dyn _ _ 0 _ Hw He eq_refl) as (E0 & _). pose proof (read_bytes32 _ _ 1 _ Hw He eq_refl) as E1.
  destruct (read_word _ _ 2 _ Hw He eq_refl) as [E2 _]. nat_index.
  change (32 * 1) with 32 in E1. change (32 + 32) with 64 in E1. by rewrite E0, E1, E2.
Qed.

(** The header, the hashed part and the message of a full packet. *)
Lemma full_parts header message :
  zlen header = 81 → let full := (packet header message).1 in
  zslice full 0 81 = header ∧ keccak256 (drop 81 full) = (packet header message).2 ∧ drop 113 full = message.
Proof.
  intros Hl. cbn zeta. unfold packet. cbn [fst snd]. set (guid := keccak256 _). assert (length header = 81%nat) as Ll by (unfold zlen in Hl; lia).
  split; [by apply (zslice_mid _ [] header (guid ++ message))|]. split.
  - f_equal. rewrite <- Ll. apply drop_app_length.
  - rewrite app_assoc. assert (length (header ++ guid) = 113%nat) as <-; [|apply drop_app_length].
    unfold guid. rewrite length_app, length_keccak256. lia.
Qed.

Lemma decode_commit header message gas data sb amount :
  zlen header = 81 → describe_message message = (sb, amount) →
  call_data SEL_commitVerification [VBytes (packet header message).1; VUint gas] = Ok data →
  decode_call data = Ok (DCommit gas (describe_header header) amount sb).
Proof.
  intros Hl Hm (body & He & Hs & Hb)%call_parts; [|done]. unfold decode_call. rewrite Hs, Hb. selector_branch.
  set (full := (packet header message).1) in *. assert (Forall wide [VBytes full; VUint gas]) as Hw by repeat constructor.
  destruct (read_dyn _ _ 0 _ Hw He eq_refl) as (E0 & _). destruct (read_word _ _ 1 _ Hw He eq_refl) as [E1 _].
  nat_index. rewrite E0, E1.
  destruct (full_parts header message Hl) as (P1 & _ & P2). fold full in P1, P2. rewrite P1, P2.
  by rewrite Hm.
Qed.

Lemma describe_owner_uln v eid owner ob c :
  lz_address owner ob → uln_config owner = Ok c →
  describe_config v eid CONFIG_TYPE_ULN c = Ok (DUln v eid CONFIG_TYPE_ULN [from_be ob] NIL_DVN_COUNT CONFIRMATIONS).
Proof.
  intros Ho H. destruct (lz_address_forms _ _ Ho) as (_ & _ & Hi). unfold uln_config in H. rewrite Hi in H. cbn [mbind result_bind] in H. inv_ok. subst c.
  match goal with E : mapM word _ = Ok ?l |- _ => apply mapM_Ok_Forall2 in E as Hw; rename l into ws end.
  assert (Forall (λ l, length l = 32%nat) ws) as Hlen.
  { clear -Hw. induction Hw as [|z w zs ws Hz _ IH]; constructor; [|done]. unfold word in Hz. apply word_Ok in Hz as [_ ->]. apply length_to_be. }
  unfold describe_config. change (CONFIG_TYPE_ULN =? CONFIG_TYPE_EXECUTOR) with false. cbn iota. rewrite (chunks_concat 32 ws) by (done || lia).
  assert (from_be <$> ws = [0x20; CONFIRMATIONS; 1; NIL_DVN_COUNT; 0; 0xC0; 0x100; 1; from_be ob; 0]) as ->; [|reflexivity].
  clear -Hw. remember [32; CONFIRMATIONS; 1; NIL_DVN_COUNT; 0; 192; 256; 1; from_be ob; 0] as zs eqn:Ez. clear Ez.
  induction Hw as [|z w zs ws Hz _ IH]; [done|]. cbn [fmap list_fmap]. rewrite IH. f_equal. unfold word in Hz. apply word_Ok in Hz as [? ->]. by apply from_to_be.
Qed.

Lemma describe_owner_executor v eid ob :
  length ob = 20%nat → bytes_ok ob → from_be ob ≠ 0 →
  describe_config v eid CONFIG_TYPE_EXECUTOR (replicate 12 0 ++ ob) = Ok (DExecutor v eid CONFIG_TYPE_EXECUTOR ob).
Proof.
  intros Hl Hok Hnz. unfold describe_config. rewrite Z.eqb_refl.
  assert (zslice (replicate 12 0 ++ ob) 12 32 = ob) as ->.
  { apply (zslice_mid _ (replicate 12 0) ob []); [by rewrite app_nil_r|done|unfold zlen; lia]. }
  destruct (py_int16_hex ob Hok) as [-> _]; [by destruct ob|]. cbn [mbind result_bind]. by rewrite (proj2 (Z.eqb_neq _ _)).
Qed.

(** What the signers of a release read, call by call. *)
Definition release_text (e : escrow_entry) (ob sb eb : bytes) (payload_hash pt pe pu : bytes) : list (result description) :=
  let r := e_state e in
  let eid := lz_chain_id r in let version := receive_version r in
  let pin := negb (stored_receive_version r =? version) in
  let header := MkHeaderText (path_nonce r) eid sb eid eb in
  [Ok (DUln version eid CONFIG_TYPE_ULN [from_be ob] NIL_DVN_COUNT CONFIRMATIONS); Ok (DExecutor version eid CONFIG_TYPE_EXECUTOR ob)] ++
  (if pin then [Ok (DReceiveVersion version)] else []) ++
  [Ok (DTrust eid sb); Ok (DVerify CONFIRMATIONS header payload_hash); Ok (DCommit DST_GAS header (e_locked e) sb); Ok (describe_trusted eid pt)] ++
  (if pin then [Ok (DReceiveVersion (stored_receive_version r))] else []) ++
  [describe_config version eid CONFIG_TYPE_EXECUTOR pe; describe_config version eid CONFIG_TYPE_ULN pu].

Notation decoded l := ((λ c, decode_call (c_data c)) <$> l).

Lemma release_packet_reads e safe sb eb header full hash :
  lz_address safe sb → lz_address (e_escrow e) eb → release_packet e safe = Ok (header, full, hash) →
  zlen header = 81 ∧ length hash = 32%nat ∧
  describe_header header = MkHeaderText (path_nonce (e_state e)) (lz_chain_id (e_state e)) sb (lz_chain_id (e_state e)) eb ∧
  ∃ message, full = (packet header message).1 ∧ describe_message message = (sb, e_locked e).
Proof.
  intros Hs He Ep. unfold release_packet, release_packet_of, packet in Ep.
  destruct (release_payload _ _ _) as [message|] eqn:Em; [|done]. cbn [mbind result_bind] in Ep.
  destruct (packet_header _ _ _ _ _) as [h|] eqn:Eh; [|done]. cbn [mbind result_bind] in Ep. apply Ok_inj in Ep.
  destruct (packet_header_reads _ _ _ _ _ _ _ _ Hs He Eh) as [Lh Dh]. destruct (payload_reads _ _ _ _ _ Hs Em) as [Dm _].
  injection Ep as -> <- <-. split; [done|]. split; [apply length_keccak256|]. split; [done|]. by exists message.
Qed.

Lemma pinned_reads (pin : bool) v escrow l :
  (if pin then d ← set_version v; c ← mk_call (Some escrow) d; Ok [c] else Ok []) = Ok l → decoded l = if pin then [Ok (DReceiveVersion v)] else [].
Proof.
  destruct pin; intros H; inv_ok; subst l; [|done]. match goal with E : mk_call _ _ = Ok _ |- _ => apply mk_call_data in E as <- end.
  cbn [fmap list_fmap]. by erewrite decode_set_version.
Qed.

(** What a signer reads back from the call data of a release, without anything
    else, is the release: the owner as only verifier and executor, the packet from
    the Safe at the next nonce of the path with its hash, the payment of exactly the
    locked balance to the Safe, and the settings that were read before, put back. *)
Theorem release_calls_read_back e safe sb ob eb calls :
  lz_address safe sb → lz_address (e_owner e) ob → lz_address (e_escrow e) eb → from_be ob ≠ 0 →
  release_calls e safe = Ok calls →
  ∃ header full payload_hash pt pe pu, release_packet e safe = Ok (header, full, payload_hash) ∧
    Claims.unhex (previous_trusted_remote (e_state e)) = Ok pt ∧ Claims.unhex (previous_executor (e_state e)) = Ok pe ∧
    Claims.unhex (previous_uln_config (e_state e)) = Ok pu ∧
    (λ c, decode_call (c_data c)) <$> calls = release_text e ob sb eb payload_hash pt pe pu.
Proof.
  intros Hs Ho He Hnz H. unfold release_calls in H. destruct (release_packet e safe) as [[[header full] hash]|] eqn:Ep; [|done]. cbn [mbind result_bind] in H.
  destruct (lz_address_forms _ _ Ho) as (_ & Eow & _). rewrite Eow, (packed_bytes [safe; e_escrow e] [sb; eb]) in H by (repeat (constructor; [done|]); constructor).
  cbn [mbind result_bind concat] in H. rewrite app_nil_r in H. inv_ok. subst calls.
  match goal with E : Claims.unhex (previous_trusted_remote _) = Ok ?a, E2 : Claims.unhex (previous_executor _) = Ok ?b, E3 : Claims.unhex (previous_uln_config _) = Ok ?c |- _ =>
    exists header, full, hash, a, b, c end.
  do 4 (split; [done|]). destruct (release_packet_reads e safe sb eb _ _ _ Hs He Ep) as (Lh & Lhash & Dh & message & -> & Dm).
  repeat match goal with E : mk_call _ _ = Ok _ |- _ => apply mk_call_data in E as <- end.
  repeat match goal with E : (if _ then _ else _) = Ok _ |- _ => apply pinned_reads in E end.
  rewrite !fmap_app. cbn [fmap list_fmap].
  repeat match goal with E : decoded _ = _ |- _ => rewrite E; clear E end.
  repeat match goal with E : set_config _ _ _ _ = Ok _ |- _ => rewrite (decode_set_config _ _ _ _ _ E); clear E
    | E : set_trusted _ _ = Ok _ |- _ => rewrite (decode_set_trusted _ _ _ E); clear E end.
  repeat match goal with E : call_data SEL_verify _ = Ok _ |- _ => rewrite (decode_verify _ _ _ _ Lhash E); clear E
    | E : call_data SEL_commitVerification _ = Ok _ |- _ => rewrite (decode_commit _ _ _ _ _ _ Lh Dm E); clear E
    | E : uln_config _ = Ok _ |- _ => rewrite (describe_owner_uln _ _ _ _ _ Ho E); clear E end. rewrite Dh.
  destruct Ho as (_ & Lo & Oo), Hs as (_ & Ls & _). rewrite (describe_owner_executor _ _ ob) by done.
  assert (describe_trusted (lz_chain_id (e_state e)) (sb ++ eb) = DTrust (lz_chain_id (e_state e)) sb) as ->; [|done].
  unfold describe_trusted. rewrite bool_decide_eq_false_2 by (by destruct sb). f_equal. apply (zslice_mid _ [] sb eb); [done|done|unfold zlen; lia].
Qed.

(** * A chain that behaves as documented *)

Definition demo_address (d : Z) : bytes := replicate 20 d.
Definition demo_text (d : Z) : str := "0x"%string ++ hex (demo_address d).

Definition demo_site : site :=
  MkSite (demo_text 17) (demo_text 34) (demo_text 51) (demo_text 68) (demo_text 85) 102 2 2 Proxy (Some (demo_text 102)) true.

(** The settings a receive library can hold. *)
Definition settings_ok (w : lz_view) : Prop :=
  (bytes_ok (v_uln w) ∧ v_uln w ≠ []) ∧ (bytes_ok (v_executor w) ∧ v_executor w ≠ []) ∧
  (bytes_ok (v_trusted w) ∧ uint256 (zlen (v_trusted w))) ∧ uint256 (v_stored w) ∧ uint256 (v_inbound w) ∧ uint256 (v_locked w).

#[local] Instance settings_ok_dec w : Decision (settings_ok w).
Proof. unfold settings_ok, bytes_ok. apply _. Defined.

Definition demo_chain : Type := { w : lz_view | bool_decide (settings_ok w) = true }.

Definition demo_make (w : lz_view) : option demo_chain :=
  match bool_decide (settings_ok w) as b return bool_decide (settings_ok w) = b → option demo_chain with
  | true => λ p, Some (exist _ w p)
  | false => λ _, None
  end eq_refl.

Lemma demo_make_ok w : settings_ok w → ∃ s, demo_make w = Some s ∧ proj1_sig s = w.
Proof.
  intros Hw. unfold demo_make. generalize (eq_refl (bool_decide (settings_ok w))).
  generalize (bool_decide (settings_ok w)) at 2 3. intros [] p; [by eexists|]. exfalso. by rewrite bool_decide_eq_true_2 in p.
Qed.

(** The owner's calls, by their call data. *)
Definition demo_send (s : demo_chain) (to_ : str) (data : bytes) : option demo_chain :=
  let w := proj1_sig s in let sel := zslice data 0 4 in let body := drop 4 data in
  if bool_decide (to_ = x_escrow demo_site) then
    if bool_decide (sel = SEL_setConfig) then
      let c := dyn_at body 3 in
      demo_make (if word_at body 2 =? CONFIG_TYPE_ULN then with_uln c w else with_executor c w)
    else if bool_decide (sel = SEL_setReceiveVersion) then demo_make (with_stored (word_at body 0) w)
    else if bool_decide (sel = SEL_setTrustedRemote) then demo_make (with_trusted (dyn_at body 1) w)
    else None
  else if bool_decide (to_ = x_library demo_site) then
    if bool_decide (sel = SEL_verify) then demo_make (with_attested (Some (dyn_at body 0, zslice body 32 64)) w)
    else if bool_decide (sel = SEL_commitVerification) then
      let full := dyn_at body 0 in
      if bool_decide (v_attested w = Some (zslice full 0 81, keccak256 (drop 81 full))) then
        demo_make (delivered (describe_message (drop 113 full)).2 w)
      else None
    else None
  else None.

Definition demo_word (z : Z) : bytes := to_be 32 z.

(** The views, by their selector. *)
Definition demo_reads (s : demo_chain) : chain_reads := λ to_ data,
  let w := proj1_sig s in let sel := zslice data 0 4 in
  let answers := [
    (SEL_owner, replicate 12 0 ++ demo_address 34);
    (SEL_lzEndpoint, replicate 12 0 ++ demo_address 68);
    (SEL_uaConfigLookup, demo_word 0 ++ demo_word (v_stored w));
    (SEL_getReceiveVersion, demo_word (effective demo_site w));
    (SEL_libraryLookup, replicate 12 0 ++ demo_address 85);
    (SEL_token, replicate 12 0 ++ demo_address 102);
    (SEL_balanceOf, demo_word (v_locked w));
    (SEL_circulatingSupply, demo_word 0);
    (SEL_decimals, demo_word 18);
    (SEL_version, demo_word 3 ++ demo_word 0 ++ demo_word 1);
    (SEL_getInboundNonce, demo_word (v_inbound w));
    (SEL_hasStoredPayload, demo_word 0);
    (SEL_trustedRemoteLookup, demo_word 32 ++ demo_word (zlen (v_trusted w)) ++ pad32 (v_trusted w));
    (SEL_getAppUlnConfig, v_uln w);
    (SEL_executors, v_executor w)] in
  Airdrop.hex0x <$> dget answers sel.

#[local] Instance demo : EscrowChain demo_chain := {
  view := @proj1_sig _ _; send := demo_send; reads := demo_reads;
  is_uln := λ c, bytes_ok c ∧ c ≠ []; is_executor := λ c, bytes_ok c ∧ c ≠ [] }.

Lemma demo_ok (s : demo_chain) : settings_ok (proj1_sig s).
Proof. destruct s as [w p]. exact (proj1 (bool_decide_eq_true _) p). Qed.

(** Picks the branch of a call or a view of the example chain. *)
Ltac demo_branch := repeat (selector_branch; cbn iota beta).

Lemma demo_set_config s kind c data :
  set_config 2 102 kind c = Ok data →
  demo_send s (x_escrow demo_site) data = demo_make (if kind =? CONFIG_TYPE_ULN then with_uln c (proj1_sig s) else with_executor c (proj1_sig s)).
Proof.
  intros (body & He & Hs & Hb)%call_parts; [|done]. unfold demo_send. rewrite Hs, Hb. demo_branch.
  assert (Forall wide [VUint 2; VUint 102; VUint kind; VBytes c]) as Hw by repeat constructor.
  destruct (read_word _ _ 2 _ Hw He eq_refl) as [E2 _]. destruct (read_dyn _ _ 3 _ Hw He eq_refl) as (E3 & _). nat_index.
  by rewrite E2, E3.
Qed.

Lemma demo_commit s header message amount data :
  call_data SEL_commitVerification [VBytes (packet header message).1; VUint DST_GAS] = Ok data →
  zlen header = 81 → (describe_message message).2 = amount → v_attested (proj1_sig s) = Some (header, (packet header message).2) →
  demo_send s (x_library demo_site) data = demo_make (delivered amount (proj1_sig s)).
Proof.
  intros (body & He & Hs & Hb)%call_parts Hl Hm Ha; [|done]. unfold demo_send. rewrite Hs, Hb. demo_branch.
  set (full := (packet header message).1) in *. assert (Forall wide [VBytes full; VUint DST_GAS]) as Hw by repeat constructor.
  destruct (read_dyn _ _ 0 _ Hw He eq_refl) as (E0 & _). nat_index. rewrite E0. destruct (full_parts header message Hl) as (P1 & P2 & P3). fold full in P1, P2, P3. rewrite P1, P2, P3.
  rewrite Ha, bool_decide_eq_true_2 by done. by rewrite Hm.
Qed.

Ltac fields Hok s :=
  destruct (Hok s) as ((? & ?) & (? & ?) & (? & ?) & ? & ? & ?); unfold settings_ok; cbn [view demo Z.eqb Pos.eqb CONFIG_TYPE_ULN CONFIG_TYPE_EXECUTOR] in *;
  unfold with_uln, with_executor, with_stored, with_trusted, with_attested, delivered; cbn [v_uln v_executor v_stored v_trusted v_inbound v_locked] in *;
  split_and!; try done; try tauto.

#[local] Instance demo_documented : Documented demo_site.
Proof.
  assert (∀ s : demo_chain, settings_ok (view s)) as Hok by exact demo_ok. unfold settings_ok in Hok. split.
  - intros s c data [? ?] ?. cbn [send demo]. erewrite demo_set_config by done. apply demo_make_ok. fields Hok s.
  - intros s c data [? ?] ?. cbn [send demo]. erewrite demo_set_config by done. apply demo_make_ok. fields Hok s.
  - intros s v data Hv (body & He & Hs & Hb)%call_parts; [|done]. cbn [send demo]. unfold demo_send. rewrite Hs, Hb. demo_branch.
    assert (Forall wide [VUint v]) as Hw by repeat constructor. destruct (read_word _ _ 0 _ Hw He eq_refl) as [E0 Hu]. nat_index. rewrite E0.
    apply demo_make_ok. fields Hok s.
  - intros s p data Hp (body & He & Hs & Hb)%call_parts; [|done]. cbn [send demo]. unfold demo_send. rewrite Hs, Hb. demo_branch.
    assert (Forall wide [VUint (x_eid demo_site); VBytes p]) as Hw by repeat constructor. destruct (read_dyn _ _ 1 _ Hw He eq_refl) as (E1 & Hu & _). nat_index. rewrite E1.
    apply demo_make_ok. fields Hok s.
  - intros s header hash data (body & He & Hs & Hb)%call_parts Hl _; [|done]. cbn [send demo]. unfold demo_send. rewrite Hs, Hb. demo_branch.
    assert (Forall wide [VBytes header; VBytes32 hash; VUint CONFIRMATIONS]) as Hw by (repeat constructor; done).
    destruct (read_dyn _ _ 0 _ Hw He eq_refl) as (E0 & _). pose proof (read_bytes32 _ _ 1 _ Hw He eq_refl) as E1. nat_index.
    change (32 * 1) with 32 in E1. change (32 + 32) with 64 in E1. rewrite E0, E1. apply demo_make_ok. fields Hok s.
  - intros s header message amount data Hc Hh Hm Hamt _ _ _ _ Ha. cbn [send demo].
    assert (lz_address (x_safe demo_site) (demo_address 51)) as Ls by (split; [done|split; [done|by compute_decide]]).
    assert (lz_address (x_escrow demo_site) (demo_address 17)) as Le by (split; [done|split; [done|by compute_decide]]).
    destruct (packet_header_reads _ _ _ _ _ _ _ _ Ls Le Hh) as [Hl _]. destruct (payload_reads _ _ _ _ _ Ls Hm) as [Dm _].
    rewrite (demo_commit s header message amount data) by (done || by rewrite Dm). apply demo_make_ok.
    assert (uint256 (v_locked (view s) - amount)).
    { specialize (Hok s). unfold uint256 in *. lia. }
    assert (uint256 (v_inbound (view s) + 1)).
    { unfold packet_header in Hh. destruct (to_bytes 8 _) as [n8|] eqn:E8; [|done]. apply to_bytes_Ok in E8 as [[L8 U8] _]. unfold uint256. split; [exact L8|].
      eapply Z.lt_trans; [exact U8|]. by vm_compute. }
    fields Hok s.
  - intros s. fields Hok s.
  - split; intros c Hc; vm_compute in Hc; apply Ok_inj in Hc as <-; (split; [by compute_decide|done]).
Qed.

Lemma demo_answer s to_ sel rest b :
  zlen sel = 4 → demo_reads s to_ sel = Some (Airdrop.hex0x b) → demo_reads s to_ (sel ++ rest) = Some (Airdrop.hex0x b).
Proof.
  intros Hl. unfold demo_reads. rewrite (zslice_mid (sel ++ rest) [] sel rest 0 4), (zslice_mid sel [] sel [] 0 4); [done|by rewrite app_nil_r|done|lia|done|done|lia].
Qed.

Lemma hex0x_ne b : b ≠ [] → Airdrop.hex0x b ≠ [] ∧ Airdrop.hex0x b ≠ "0x"%string.
Proof. intros Hb. split; [done|]. unfold Airdrop.hex0x. destruct b; done. Qed.

Lemma read_raw_hex0x rpc to_ data b : rpc to_ data = Some (Airdrop.hex0x b) → bytes_ok b → b ≠ [] → read_raw rpc to_ data = Ok b.
Proof.
  intros Hr Hb Hn. destruct (hex0x_ne b Hn) as [N1 N2]. unfold read_raw. rewrite Hr, !bool_decide_eq_false_2 by done. by apply claims_unhex_hex0x.
Qed.

Lemma read_uint_word rpc to_ data z : rpc to_ data = Some (Airdrop.hex0x (demo_word z)) → uint256 z → read_uint rpc to_ data = Ok (Some z).
Proof.
  intros Hr Hz. assert (demo_word z ≠ []) as Hn by (intros E%(f_equal length); unfold demo_word in E; by rewrite length_to_be in E).
  destruct (hex0x_ne _ Hn) as [N1 N2]. unfold read_uint. rewrite Hr, !bool_decide_eq_false_2 by done. cbn [orb]. unfold Airdrop.hex0x.
  destruct (py_int16_hex (demo_word z)) as [_ ->]; [apply to_be_ok|done|]. cbn [mbind result_bind]. unfold demo_word. by rewrite from_to_be.
Qed.

Lemma demo_dynamic t :
  uint256 (zlen t) → let raw := demo_word 32 ++ demo_word (zlen t) ++ pad32 t in
  let offset := from_be (zslice raw 0 32) in zslice raw (offset + 32) (offset + 32 + from_be (zslice raw offset (offset + 32))) = t.
Proof.
  intros Hz. cbn zeta. set (raw := _ ++ _). assert (∀ z, zlen (demo_word z) = 32) as Hw by (intros; apply zlen_to_be).
  assert (zslice raw 0 32 = demo_word 32) as -> by (apply (zslice_mid _ [] (demo_word 32) (demo_word (zlen t) ++ pad32 t)); [done|done|by rewrite Hw]).
  change (from_be (demo_word 32)) with 32. change (32 + 32) with 64.
  assert (zslice raw 32 64 = demo_word (zlen t)) as -> by (apply (zslice_mid _ (demo_word 32) (demo_word (zlen t)) (pad32 t)); [done|by rewrite Hw|by rewrite Hw]).
  unfold demo_word at 1. rewrite from_to_be by done.
  apply (zslice_mid _ (demo_word 32 ++ demo_word (zlen t)) t (replicate (Z.to_nat ((- zlen t) mod 32)) 0)); [unfold raw, pad32; by rewrite <- !app_assoc|by rewrite zlen_app, !Hw|lia].
Qed.

#[local] Instance demo_readable : Readable demo_site.
Proof.
  assert (∀ s : demo_chain, settings_ok (proj1_sig s)) as Hok by exact demo_ok. unfold settings_ok in Hok. split; cbn [reads view demo].
  - intros s. by vm_compute.
  - intros s. by vm_compute.
  - intros s ew _. destruct (Hok s) as (_ & _ & _ & Hs & _). exists (demo_word 0 ++ demo_word (v_stored (proj1_sig s))). split.
    + apply read_raw_hex0x; [by apply demo_answer|by apply Forall_app; split; apply to_be_ok|]. by intros E%(f_equal length).
    + rewrite (zslice_mid _ (demo_word 0) (demo_word (v_stored (proj1_sig s))) []) by (by rewrite ?app_nil_r, ?zlen_to_be). by apply from_to_be.
  - intros s ew _. apply read_uint_word; [by apply demo_answer|]. destruct (Hok s) as (_ & _ & _ & Hs & _). unfold effective. by destruct (_ =? _).
  - intros s vw _. unfold read_address. rewrite (demo_answer s _ SEL_libraryLookup vw (replicate 12 0 ++ demo_address 85)) by done. by vm_compute.
  - intros s. exists (demo_word 3 ++ demo_word 0 ++ demo_word 1). by split; vm_compute.
  - intros s path args _ _. destruct (Hok s) as (_ & _ & _ & _ & Hi & _). split; (apply read_uint_word; [by apply demo_answer|done]).
  - intros s ew we _ _. destruct (Hok s) as ((Bu & Nu) & (Bx & Nx) & (Bt & Zt) & _). split_and!.
    + unfold read_bytes. rewrite (read_raw_hex0x _ _ _ (demo_word 32 ++ demo_word (zlen (v_trusted (proj1_sig s))) ++ pad32 (v_trusted (proj1_sig s)))).
      * cbn [mbind result_bind]. f_equal. by apply demo_dynamic.
      * by apply demo_answer.
      * apply Forall_app; split; [apply to_be_ok|]. apply Forall_app; split; [apply to_be_ok|]. apply Forall_app; split; [done|]. by apply Forall_replicate.
      * by intros E%(f_equal length).
    + apply read_raw_hex0x; [by apply demo_answer|done..].
    + apply read_raw_hex0x; [by apply demo_answer|done..].
  - intros s. destruct (Hok s) as (_ & _ & _ & _ & _ & Hl).
    assert (∀ rest, read_uint (demo_reads s) (Some (demo_text 102)) (SEL_balanceOf ++ rest) = Ok (Some (v_locked (proj1_sig s)))) as Hb.
    { intros rest. apply read_uint_word; [by apply demo_answer|done]. }
    unfold locked_balance. change (BridgeLib.address_word (x_escrow demo_site)) with (Ok (rjust 64 "0"%char (drop 2 (demo_text 17)))).
    assert (read_address (demo_reads s) (Some (x_escrow demo_site)) SEL_token = Ok (Some (demo_text 102))) as -> by by vm_compute.
    assert (read_uint (demo_reads s) (Some (x_escrow demo_site)) SEL_circulatingSupply = Ok (Some 0)) as -> by by vm_compute.
    cbn [mbind result_bind]. destruct (Claims.unhex _) as [h|] eqn:Eh; [|by vm_compute in Eh]. cbn [mbind result_bind].
    rewrite (bool_decide_eq_false_2 (demo_text 102 = _)), Hb by by vm_compute. done.
  - intros s tok _. exists 18. by vm_compute.
  - intros s. destruct (Hok s) as ((Bu & Nu) & (Bx & Nx) & (Bt & Zt) & _). done.
  - by split; vm_compute.
Qed.

(** * The claims *)

(** What the planner relies on besides the contracts: it asked this chain about this escrow. *)
Record asked {S} `{EscrowChain S} (x : site) (s : S) (node : chain_node) (chain : str) (t : transfer) : Prop := {
  asked_reads : cn_reads node = reads s;
  asked_escrow : address (t_escrow t) = Ok (x_escrow x);
  asked_chain : dget LZ_ID chain = Some (x_eid x);
  asked_version : effective x (view s) = x_version x;
}.

Lemma release_payload_positive safe amount pt m : release_payload safe amount pt = Ok m → 0 ≤ amount.
Proof.
  intros H. unfold release_payload in H. inv_ok.
  match goal with E : packed _ = Ok ?b |- _ => rename b into to_ end.
  assert (Forall wide [VUint PT_SEND; VBytes to_; VBytes to_; VUint amount]) as W1 by repeat constructor.
  assert (Forall wide [VBytes to_; VUint amount]) as W2 by repeat constructor.
  destruct pt; [destruct (read_word _ _ 3 _ W1 H eq_refl) as [_ Hu]|destruct (read_word _ _ 1 _ W2 H eq_refl) as [_ Hu]]; apply Hu.
Qed.

(** A planned escrow is one read in the state of the chain. *)
Lemma planned_entry {S} `{EscrowChain S} (x : site) `{!Documented x} `{!Readable x} s node chain skip t e :
  asked x s node chain t → plan_escrow node chain skip (x_safe x) t = Ok (Released e) → entry_of_state x s e.
Proof.
  intros [Hr Ha Hc Hv] Hp. unfold plan_escrow in Hp. rewrite Ha in Hp. cbn [mbind result_bind] in Hp. rewrite Hr, read_owner, read_locked in Hp. cbn [mbind result_bind] in Hp.
  destruct (match x_token x with Some _ => _ | None => _ end) as [decimals|]; [|done]. cbn [mbind result_bind] in Hp.
  destruct (bool_decide _); [done|]. rewrite Hc in Hp. cbn [of_option mbind result_bind] in Hp.
  destruct (receive_state _ _ _ _ _) as [r|] eqn:Er; [|done]. cbn [mbind result_bind need of_option] in Hp.
  destruct (v_locked (view s)) as [|l|l] eqn:El; [done| |]; inv_ok; simplify_eq.
  all: match goal with E : release_packet_of _ _ _ _ _ = Ok _ |- _ => unfold release_packet_of in E; destruct (release_payload _ _ _) eqn:Ep; [|done];
         apply release_payload_positive in Ep end.
  all: split; cbn [e_escrow e_owner e_locked e_packet_type e_state]; rewrite ?El; try done.
Qed.

(** C10: Sent in order, the calls planned for an escrow all go through, pay the whole
    locked balance out to the Safe and leave every setting of the escrow (verifiers,
    executor, receive version, trusted sender) as it was before. *)
Theorem release_restores {S} `{EscrowChain S} (x : site) `{!Documented x} `{!Readable x} s node chain skip t e calls :
  asked x s node chain t → plan_escrow node chain skip (x_safe x) t = Ok (Released e) → release_calls e (x_safe x) = Ok calls →
  ∃ s', sends s calls = Some s' ∧
    v_locked (view s') = 0 ∧ v_credited (view s') = v_credited (view s) + v_locked (view s) ∧ v_inbound (view s') = v_inbound (view s) + 1 ∧
    v_uln (view s') = v_uln (view s) ∧ v_executor (view s') = v_executor (view s) ∧
    v_stored (view s') = v_stored (view s) ∧ v_trusted (view s') = v_trusted (view s).
Proof.
  intros Ha Hp Hc. destruct (release_runs x s e calls (planned_entry x s _ _ _ _ _ Ha Hp) Hc) as (s' & Hs & Hv). exists s'.
  split; [done|]. rewrite Hv. unfold released_view, delivered. cbn [v_locked v_credited v_inbound v_uln v_executor v_stored v_trusted]. split_and!; try done; lia.
Qed.

(** C11: A release that stopped part of the way, after any number of its calls, cannot be
    planned again: the planner stops at the escrow and asks for the earlier file. *)
Theorem interrupted_release_refused {S} `{EscrowChain S} (x : site) `{!Documented x} `{!Readable x} s node node' chain skip t e calls n :
  asked x s node chain t → plan_escrow node chain skip (x_safe x) t = Ok (Released e) → release_calls e (x_safe x) = Ok calls →
  (0 < n < length calls)%nat →
  ∃ s', sends s (take n calls) = Some s' ∧
    (cn_reads node' = reads s' → x_escrow x ∉ skip →
     plan_escrow node' chain skip (x_safe x) t = Raise (SystemExit "a release was started and not finished")).
Proof.
  intros Ha Hp Hc Hn. destruct (release_interrupted x s e calls n (planned_entry x s _ _ _ _ _ Ha Hp) Hc Hn) as (s' & Hs & Hr). exists s'.
  split; [done|]. intros Hn' Hsk. destruct Ha as [_ Ha Hch _]. unfold plan_escrow. rewrite Ha. cbn [mbind result_bind]. rewrite Hn', read_owner, read_locked. cbn [mbind result_bind].
  assert (∃ d, match x_token x with Some t => read_uint (reads s') (Some t) SEL_decimals | None => Ok (Some 18) end = Ok d) as [d ->].
  { destruct (x_token x) as [tok|] eqn:Et; [|by eexists]. destruct (read_decimals s' tok Et) as [d ->]. by eexists. }
  cbn [mbind result_bind]. rewrite bool_decide_eq_false_2 by done. rewrite Hch. cbn [of_option mbind result_bind]. unfold state_read in Hr. by rewrite Hr.
Qed.

(** ** On the example chain *)

Definition demo_view : lz_view := MkView (demo_word 7) (demo_word 9) 0 (demo_address 1 ++ demo_address 17) 4 1000 0 None.
Definition demo_state : demo_chain := exist _ demo_view eq_refl.
Definition demo_node (s : demo_chain) : chain_node := MkChainNode (demo_reads s) (λ _, Ok ("0x6080"%string : str)).
Definition demo_transfer : transfer := MkTransfer "pool"%string (x_escrow demo_site).
Definition demo_entry : escrow_entry := Eval vm_compute in
  match plan_escrow (demo_node demo_state) "bsc"%string [] (x_safe demo_site) demo_transfer with
  | Ok (Released e) => e
  | _ => MkEscrow [] [] [] [] Native None None 0 false false (MkReceive None 0 0 0 None 0 [] [] []) [] []
  end.
Definition demo_calls : list planned_call := Eval vm_compute in match release_calls demo_entry (x_safe demo_site) with Ok l => l | Raise _ => [] end.

Lemma demo_asked : asked demo_site demo_state (demo_node demo_state) "bsc"%string demo_transfer.
Proof. split; by vm_compute. Qed.
Lemma demo_planned : plan_escrow (demo_node demo_state) "bsc"%string [] (x_safe demo_site) demo_transfer = Ok (Released demo_entry).
Proof. by vm_compute. Qed.
Lemma demo_release_calls : release_calls demo_entry (x_safe demo_site) = Ok demo_calls.
Proof. by vm_compute. Qed.

Lemma release_restores_witness :
  ∃ s', sends demo_state demo_calls = Some s' ∧ v_locked (view s') = 0 ∧ v_credited (view s') = 1000 ∧ v_trusted (view s') = v_trusted demo_view.
Proof.
  destruct (release_restores demo_site demo_state _ _ _ _ _ _ demo_asked demo_planned demo_release_calls) as (s' & Hs & Hl & Hc & _ & _ & _ & _ & Ht).
  exists s'. by split_and!.
Defined.

Lemma interrupted_release_refused_witness :
  length demo_calls = 10%nat ∧ ∃ s', sends demo_state (take 6 demo_calls) = Some s' ∧
    plan_escrow (demo_node s') "bsc"%string [] (x_safe demo_site) demo_transfer = Raise (SystemExit "a release was started and not finished").
Proof.
  split; [done|].
  assert (∀ node', ∃ s', sends demo_state (take 6 demo_calls) = Some s' ∧ _) as Hall
    by (intros node'; apply (interrupted_release_refused demo_site demo_state _ node' _ _ _ _ _ 6 demo_asked demo_planned demo_release_calls); cbn; lia).
  destruct (sends demo_state (take 6 demo_calls)) as [s'|] eqn:Es; [|by destruct (Hall (demo_node demo_state)) as (? & ? & _)].
  exists s'. split; [done|]. destruct (Hall (demo_node s')) as (s2 & E2 & Hf). injection E2 as <-. apply Hf; [done|]. apply not_elem_of_nil.
Defined.

Lemma release_calls_read_back_witness :
  ∃ header full payload_hash pt pe pu, release_packet demo_entry (x_safe demo_site) = Ok (header, full, payload_hash) ∧
    decoded demo_calls = release_text demo_entry (demo_address 34) (demo_address 51) (demo_address 17) payload_hash pt pe pu.
Proof.
  destruct (release_calls_read_back demo_entry (x_safe demo_site) (demo_address 51) (demo_address 34) (demo_address 17) demo_calls)
    as (header & full & hash & pt & pe & pu & Hp & _ & _ & _ & Hd).
  - split; [done|]. split; [done|]. by compute_decide.
  - split; [done|]. split; [done|]. by compute_decide.
  - split; [done|]. split; [done|]. by compute_decide.
  - by vm_compute.
  - exact demo_release_calls.
  - by exists header, full, hash, pt, pe, pu.
Defined.

(** A release takes ten calls, or eight when the escrow already stores the version in effect. *)
Lemma release_calls_length e safe calls :
  release_calls e safe = Ok calls → length calls = if stored_receive_version (e_state e) =? receive_version (e_state e) then 8%nat else 10%nat.
Proof.
  intros H. unfold release_calls in H. set (pin := _ =? _) in *. inv_ok. subst calls. destruct pin; cbn [negb] in *; inv_ok; subst; done.
Qed.
