(* ===== verification/ReleaseGroups.v ===== *)
(** The rest of the plan of bridge-claims/tools/release_plan.py: the custody Safe and its
    owner setup ([custody_problems], [owner_setup_calls]), the ONE funding ([one_split],
    [one_reserve_call]) and the batches of releases ([plan]'s grouping by owner).

    The Safe is a contract outside this code: the interface [SafeOwners] says what
    [addOwnerWithThreshold] is documented to do.  Shown: after the owner setup the same
    checks find the Safe ready, and where the setup leaves the list in another order than
    the roster; the two ONE transfers never exceed the funded amount; every escrow is
    released in exactly one batch, of its owner, within the size bound. *)

From S2P Require Import Prelude PyStr PyDict Csv Keccak Abi BatchTree Bech32 Address Json SafeTx BridgeLib ReleasePlan.
Local Open Scope Z_scope.

(** * The code *)

(** ** The owner setup *)

(** [ordered[i]] with its threshold. *)
Definition owner_call (safe : str) (target_threshold count : Z) (io : Z * str) : result planned_call :=
  let th := if io.1 =? count - 1 then target_threshold else 1 in
  data ← call_data SEL_addOwnerWithThreshold [VAddress io.2; VUint th];
  _ ← to_checksum io.2;
  Ok (MkCall safe 0 data [("owner"%string : str, io.2); ("_threshold"%string : str, str_of_Z th)]).

Definition owner_setup_calls (safe : str) (current_owners target_owners : list str) (target_threshold : Z) : result (list planned_call) :=
  let to_add := filter (λ o, o ∉ current_owners) target_owners in
  let ordered := reverse to_add in
  mapM (owner_call safe target_threshold (zlen ordered)) (enumerate ordered).

Definition one_reserve_call (token to_ : str) (amount : Z) : result planned_call :=
  data ← call_data SEL_transfer [VAddress to_; VUint amount];
  t ← address token; r ← address to_; _ ← to_checksum to_;
  Ok (MkCall t 0 data [("to"%string : str, r); ("value"%string : str, str_of_Z amount)]).

(** ** The ONE funding *)

Record one_parts := MkOneParts { op_collateral : Z; op_claimable : Z; op_held : Z; op_below_minimum : Z; op_retained : Z }.

(** [int(row[k] or 0)]. *)
Definition int_or_0 (r : row) (k : str) : result Z := v ← cell r k; if bool_decide (v = []) then Ok 0 else py_int v.

Definition pool_split (rows : dict str row) (split : dict str one_parts) (pa : str * Z) : result (dict str one_parts) :=
  let '(pool, amount) := pa in
  r ← of_option (dget rows pool) (SystemExit "in the ONE funding but not in pools.csv");
  c ← int_or_0 r "claimable_raw"%string; h ← int_or_0 r "held_raw"%string; b ← int_or_0 r "below_minimum_raw"%string; t ← int_or_0 r "retained_raw"%string;
  coll ← int_cell r "collateral_raw"%string;
  _ ← raise_if (negb (coll =? amount) || negb (c + h + b + t =? amount)) (SystemExit "do not add up to the funded collateral");
  Ok (dset split pool (MkOneParts amount c h b t)).

Definition one_split (pools_csv : str) (pools : dict str Z) : result (dict str one_parts) :=
  let records := (dict_read pools_csv).2 in
  keyed ← mapM (λ r, k ← cell r "pool_id"%string; Ok (k, r)) records;
  foldM (pool_split (dict_of keyed)) [] pools.

Record one_funding := MkOneFunding {
  of_claimable : Z; of_rest : Z; of_stage2 : Z; of_sufficient : bool; of_calls : list planned_call; of_stage2_calls : list planned_call }.

(** [--one-rest]: nothing, [all], or an amount. *)
Inductive one_rest := RestNone | RestAll | RestRaw (n : Z).

(** The middle part of [plan]: the transfers from the Reserve Safe, whose balance is [bal]. *)
Definition fund_one (pools_csv : str) (pools : dict str Z) (amount_raw : Z) (token safe : str) (bal : Z) (rest_arg : one_rest) : result one_funding :=
  split ← one_split pools_csv pools;
  let claimable := zsum_with op_claimable (dvalues split) in
  let rest := amount_raw - claimable in
  let stage2 := match rest_arg with RestAll => rest | RestRaw n => n | RestNone => 0 end in
  _ ← raise_if (negb ((0 <=? stage2) && (stage2 <=? rest))) (SystemExit "--one-rest is not between 0 and the held and retained rest");
  c1 ← one_reserve_call token safe claimable;
  c2 ← (if stage2 =? 0 then Ok [] else c ← one_reserve_call token safe stage2; Ok [c]);
  Ok (MkOneFunding claimable rest stage2 (claimable + stage2 <=? bal) [c1] c2).

(** ** The batches of releases *)

Record release := MkRelease {
  rl_chain : str; rl_owner : str; rl_owner_is_safe : bool; rl_part : option (Z * Z); rl_escrows : list escrow_entry; rl_calls : list planned_call }.

Definition owner_key (e : escrow_entry) : str * str := (e_chain e, e_owner e).
Definition owner_key_leb (a b : str * str) : bool := str_ltb a.1 b.1 || (bool_decide (a.1 = b.1) && str_leb a.2 b.2).

Definition owner_group (g : dict (str * str) (list escrow_entry)) (e : escrow_entry) : dict (str * str) (list escrow_entry) :=
  dset g (owner_key e) (default [] (dget g (owner_key e)) ++ [e]).
Definition by_owner (es : list escrow_entry) : dict (str * str) (list escrow_entry) := foldl owner_group [] es.

(** [-(-a // b)]. *)
Definition ceil_div (a b : Z) : result Z := if b =? 0 then Raise ZeroDivisionError else Ok (- (- a / b)).

(** [[group[i:i + step] for i in range(0, len(group), step)]]. *)
Definition parts_of (max_escrows_per_batch : Z) (group : list escrow_entry) : result (list (list escrow_entry)) :=
  first ← of_option (head group) IndexError;
  count ← (if e_owner_is_safe first then ceil_div (zlen group) max_escrows_per_batch else Ok 1);
  step ← ceil_div (zlen group) count;
  if step =? 0 then Raise (ValueError "range() arg 3 must not be zero")
  else if step <? 0 then Ok [] else Ok (chunks (Z.to_nat step) group).

Definition release_part (safe : str) (key : str * str) (count : Z) (ip : Z * list escrow_entry) : result release :=
  first ← of_option (head ip.2) IndexError;
  calls ← mapM (λ e, release_calls e safe) ip.2;
  Ok (MkRelease key.1 key.2 (e_owner_is_safe first) (if 1 <? count then Some (ip.1 + 1, count) else None) ip.2 (concat calls)).

Definition plan_releases (safe : str) (max_escrows_per_batch : Z) (es : list escrow_entry) : result (list release) :=
  rs ← mapM (λ kg : str * str * list escrow_entry,
      parts ← parts_of max_escrows_per_batch kg.2;
      mapM (release_part safe kg.1 (zlen parts)) (enumerate parts))
    (sort_by (λ a b : str * str * list escrow_entry, owner_key_leb a.1 b.1) (by_owner es));
  Ok (concat rs).

(** ** The custody Safe *)

(** What [read_safe] found at the custody multisig (approve_claims.py). *)
Record safe_identity := MkSafeIdentity {
  si_code_hash : str; si_singleton : str; si_singleton_code_hash : str; si_version : str; si_modules : list str; si_guard : str; si_fallback_handler : str }.

Definition SAFE_VERSION : str := "1.3.0"%string.
Definition SAFE_PROXY_CODEHASH : str := "0xb89c1b3bdf2cf8827818646bce9a8f6e372885f8c55e5c07acbd307cb133b000"%string.
Definition SAFE_SINGLETONS : dict str str := [
  ("0xd9db270c1b5e3bd161e8c8503c55ceabee709552"%string : str, "0xbba688fbdb21ad2bb58bc320638b43d94e7d100f6f3ebaab0a4e4de6304b1c2e"%string : str)].
Definition SAFE_FALLBACK_HANDLERS : list str := [ZERO_ADDRESS; "0xf48f2b2d2a534e402487b3ee7c18c33aec0fe5e4"%string : str].

Inductive safe_check := SafeProxy | SafeSingleton | SafeVersion | SafeNoModule | SafeNoGuard | SafeFallbackHandler.

Definition safe_identity_checks (i : safe_identity) : list (safe_check * bool) := [
  (SafeProxy, bool_decide (si_code_hash i = SAFE_PROXY_CODEHASH));
  (SafeSingleton, bool_decide (dget SAFE_SINGLETONS (si_singleton i) = Some (si_singleton_code_hash i)));
  (SafeVersion, bool_decide (si_version i = SAFE_VERSION));
  (SafeNoModule, bool_decide (si_modules i = []));
  (SafeNoGuard, bool_decide (si_guard i = ZERO_ADDRESS));
  (SafeFallbackHandler, bool_decide (si_fallback_handler i ∈ SAFE_FALLBACK_HANDLERS))].

(** The owners and the threshold; [None] for an address that is no Safe. *)
Definition safe_info : Type := option (list str * Z).

Inductive custody_status := NotASafe | Ready | NeedsOwnerSetup | UnexpectedOwners.
Inductive custody_problem := PNotASafe | PCheck (c : safe_check) | POwners.

#[export] Instance safe_check_eq_dec : EqDecision safe_check.
Proof. solve_decision. Defined.
#[export] Instance custody_problem_eq_dec : EqDecision custody_problem.
Proof. solve_decision. Defined.

Definition custody_problems (info : safe_info) (identity : safe_identity) (roster : list str) (threshold : Z) : result (custody_status * list custody_problem) :=
  match info with
  | None => Ok (NotASafe, [PNotASafe])
  | Some (owners, t) =>
      let problems := (λ c : safe_check * bool, PCheck c.1) <$> filter (λ c : safe_check * bool, c.2 = false) (safe_identity_checks identity) in
      owners ← mapM address owners;
      Ok (if bool_decide (sort_str id owners = sort_str id roster) && (t =? threshold) then (Ready, problems)
          else if (length owners =? 1)%nat && bool_decide (Forall (λ o, o ∈ roster) (take 1 owners)) && (t =? 1) then (NeedsOwnerSetup, problems)
          else (UnexpectedOwners, problems ++ [POwners]))
  end.

(** A chain's custody multisig as it was read. *)
Record custody_chain := MkCustodyChain { cc_chain : str; cc_info : safe_info; cc_identity : safe_identity }.

Definition setup_of (safe : str) (roster : list str) (threshold : Z) (c : custody_chain * (custody_status * list custody_problem)) : option (result (str * list planned_call)) :=
  match c.2.1, cc_info c.1 with
  | NeedsOwnerSetup, Some (owners, _) =>
      Some (owners ← mapM address owners; calls ← owner_setup_calls safe owners roster threshold; Ok (cc_chain c.1, calls))
  | _, _ => None
  end.

(** The custody part of [plan]: all chains are checked before any owner setup is made. *)
Definition plan_custody (safe : str) (owner_count threshold : Z) (owners : list str) (roster_safe : str) (chains : list custody_chain) : result (dict str (list planned_call)) :=
  roster ← mapM address owners;
  _ ← raise_if (negb (zlen roster =? owner_count)) (SystemExit "the custody roster must list the custody Safe owners");
  _ ← raise_if (negb (bool_decide (roster_safe = safe))) (SystemExit "the custody roster's Safe is not the custody multisig");
  found ← mapM (λ c, custody_problems (cc_info c) (cc_identity c) roster threshold) chains;
  _ ← raise_if (negb (bool_decide (concat (snd <$> found) = []))) (SystemExit "custody Safe checks failed; nothing written");
  setups ← mapM id (omap (setup_of safe roster threshold) (zip chains found));
  Ok (dict_of setups).

(** * The owner setup *)

(** A Safe's owners, in the order [getOwners] lists them, and its threshold. *)
Class SafeOwners (S : Type) := {
  so_owners : S → list str;
  so_threshold : S → Z;
  so_send : S → bytes → option S;
  (** addresses that can own the Safe: not zero, the list's sentinel or the Safe itself *)
  so_valid : str → Prop;
}.

(** [addOwnerWithThreshold] puts the owner at the head of the list. *)
Class OwnersDocumented S `{SafeOwners S} : Prop := {
  doc_add_owner s o th data :
    so_valid o → o ∉ so_owners s → 1 ≤ th ≤ zlen (so_owners s) + 1 →
    call_data SEL_addOwnerWithThreshold [VAddress o; VUint th] = Ok data →
    ∃ s', so_send s data = Some s' ∧ so_owners s' = o :: so_owners s ∧ so_threshold s' = th;
}.

Fixpoint so_sends {S} `{SafeOwners S} (s : S) (calls : list planned_call) : option S :=
  match calls with [] => Some s | c :: calls => s' ← so_send s (c_data c); so_sends s' calls end.

Lemma zlen_cons {A} (a : A) l : zlen (a :: l) = 1 + zlen l.
Proof. unfold zlen. cbn [length]. lia. Qed.

Lemma owner_call_Ok safe th n i o c :
  owner_call safe th n (i, o) = Ok c → call_data SEL_addOwnerWithThreshold [VAddress o; VUint (if i =? n - 1 then th else 1)] = Ok (c_data c).
Proof. unfold owner_call. cbn [fst snd]. intros H. inv_ok. by subst c. Qed.

(** The calls from the [i]th on. *)
Lemma owner_calls_run {S} `{OwnersDocumented S} safe th n l i s calls :
  Forall so_valid l → NoDup l → Forall (λ o, o ∉ so_owners s) l → l ≠ [] → i + zlen l = n → 0 ≤ i → so_owners s ≠ [] →
  1 ≤ th ≤ zlen (so_owners s) + zlen l →
  mapM (owner_call safe th n) (imap (λ k o, (i + Z.of_nat k, o)) l) = Ok calls →
  ∃ s', so_sends s calls = Some s' ∧ so_owners s' = reverse l ++ so_owners s ∧ so_threshold s' = th.
Proof.
  revert i s calls. induction l as [|o l IH]; intros i s calls Hv Hnd Hni Hne Hn Hi Hso Hth Hc; [done|].
  apply NoDup_cons in Hnd as [Hol Hnd]. apply Forall_cons in Hv as [Hvo Hv]. apply Forall_cons in Hni as [Hno Hni].
  cbn [imap mapM] in Hc. inv_ok. subst calls. match goal with E : owner_call _ _ _ _ = Ok ?c |- _ => apply owner_call_Ok in E as Hcall; rename c into c0 end.
  rewrite Z.add_0_r in Hcall. rewrite zlen_cons in *. pose proof (zlen_nonneg l). pose proof (zlen_nonneg (so_owners s)).
  set (th1 := if i =? n - 1 then th else 1) in *. assert (1 ≤ th1 ≤ zlen (so_owners s) + 1) as Hth1.
  { unfold th1. destruct (Z.eqb_spec i (n - 1)); lia. }
  destruct (doc_add_owner s o th1 _ Hvo Hno Hth1 Hcall) as (s1 & Hs1 & Ho1 & Ht1).
  cbn [so_sends]. rewrite Hs1. cbn [mbind option_bind]. rewrite reverse_cons, <- app_assoc. cbn [app]. rewrite <- Ho1.
  destruct l as [|o2 l].
  - cbn [imap mapM] in *. inv_ok. subst. cbn [so_sends]. exists s1. rewrite Ht1. split_and!; try done. change (zlen []) with 0 in *. unfold th1. by rewrite (proj2 (Z.eqb_eq _ _)) by lia.
  - apply (IH (i + 1)); try done; try lia.
    + rewrite Ho1. rewrite Forall_forall in Hni |- *. intros z Hz. apply not_elem_of_cons. split; [intros ->; done|by apply Hni].
    + by rewrite Ho1.
    + rewrite Ho1, zlen_cons. lia.
    + match goal with E : mapM _ _ = Ok ?l |- mapM _ _ = Ok _ => rewrite <- E end. f_equal. apply imap_ext. intros k y _. cbn. f_equal. lia.
Qed.

Lemma str_leb_antisym x y : str_leb x y = true → str_leb y x = true → x = y.
Proof. rewrite !str_ltb_leb. intros H1 H2. apply str_eq_of_ltb; [by destruct (str_ltb x y)|by destruct (str_ltb y x)]. Qed.

(** Permutations sort to the same list. *)
Lemma sort_str_unique l1 l2 : l1 ≡ₚ l2 → sort_str id l1 = sort_str id l2.
Proof.
  intros Hp. apply (StronglySorted_unique_strong (λ a b, str_leb a b = true)).
  - intros x1 x2 _ _. apply str_leb_antisym.
  - apply sort_by_sorted; [intros x y E%str_leb_false; by apply str_ltb_le|intros x y z; apply str_leb_trans].
  - apply sort_by_sorted; [intros x y E%str_leb_false; by apply str_ltb_le|intros x y z; apply str_leb_trans].
  - by rewrite !sort_str_perm.
Qed.

Lemma filter_singleton_perm (o : str) roster : NoDup roster → o ∈ roster → filter (λ a, a ∉ [o]) roster ++ [o] ≡ₚ roster.
Proof.
  intros Hnd Ho. apply NoDup_Permutation; [|done|].
  - apply NoDup_app. split; [by apply NoDup_filter|]. split; [|apply NoDup_singleton]. intros a [Ha _]%list_elem_of_filter. done.
  - intros a. rewrite elem_of_app, list_elem_of_filter, list_elem_of_singleton. destruct (decide (a = o)) as [->|]; tauto.
Qed.

(** What the owner setup of a Safe with one owner leaves. *)
Lemma owner_setup_runs {S} `{OwnersDocumented S} safe o roster th s calls :
  so_owners s = [o] → NoDup roster → Forall so_valid roster → o ∈ roster → (2 ≤ length roster)%nat → 1 ≤ th ≤ zlen roster →
  owner_setup_calls safe [o] roster th = Ok calls →
  ∃ s', so_sends s calls = Some s' ∧ so_owners s' = filter (λ a, a ∉ [o]) roster ++ [o] ∧ so_threshold s' = th.
Proof.
  intros Hso Hnd Hv Ho Hlen Hth Hc. unfold owner_setup_calls in Hc. set (l := filter _ roster) in *.
  assert (l ++ [o] ≡ₚ roster) as Hperm by by apply filter_singleton_perm.
  assert (length l = (length roster - 1)%nat) as Hl by (rewrite <- Hperm, length_app; cbn [length]; lia).
  rewrite <- Hso, <- (reverse_involutive l). apply (owner_calls_run safe th (zlen (reverse l)) (reverse l) 0).
  - apply Forall_reverse. apply Forall_forall. intros a [_ Ha]%list_elem_of_filter. rewrite Forall_forall in Hv. by apply Hv.
  - rewrite reverse_Permutation. by apply NoDup_filter.
  - apply Forall_reverse, Forall_forall. intros a [Ha _]%list_elem_of_filter. by rewrite Hso.
  - intros E%(f_equal length). rewrite length_reverse in E. cbn [length] in E. lia.
  - lia.
  - lia.
  - by rewrite Hso.
  - rewrite Hso. unfold zlen in *. rewrite length_reverse. cbn [length]. lia.
  - unfold enumerate in Hc. by rewrite <- Hc.
Qed.

Lemma mapM_address_id l : Forall (λ o, address o = Ok o) l → mapM address l = Ok l.
Proof. induction 1 as [|o l Ho _ IH]; [done|]. cbn [mapM]. rewrite Ho. cbn [mbind result_bind]. by rewrite IH. Qed.

(** The Safe with the roster's owners is ready, whatever their order. *)
Lemma custody_ready owners identity roster th :
  owners ≡ₚ roster → Forall (λ o, address o = Ok o) roster → Forall (λ c, c.2 = true) (safe_identity_checks identity) →
  custody_problems (Some (owners, th)) identity roster th = Ok (Ready, []).
Proof.
  intros Hp Ha Hid. unfold custody_problems. rewrite mapM_address_id by by rewrite Hp. cbn [mbind result_bind].
  rewrite bool_decide_eq_true_2 by by apply sort_str_unique. rewrite Z.eqb_refl. cbn [andb]. do 2 f_equal.
  rewrite filter_none; [done|]. intros c Hc Hf. rewrite Forall_forall in Hid. by rewrite (Hid c Hc) in Hf.
Qed.

Lemma no_problems identity :
  (λ c : safe_check * bool, PCheck c.1) <$> filter (λ c : safe_check * bool, c.2 = false) (safe_identity_checks identity) = [] →
  Forall (λ c, c.2 = true) (safe_identity_checks identity).
Proof.
  intros E%fmap_nil_inv. apply Forall_forall. intros c Hc. destruct (c.2) eqn:Ec; [done|].
  assert (c ∈ filter (λ c : safe_check * bool, c.2 = false) (safe_identity_checks identity)) as Hin by by apply list_elem_of_filter.
  rewrite E in Hin. by apply not_elem_of_nil in Hin.
Qed.

(** One chain: checked without problems, and set up when it needs it. *)
Lemma chain_setup_ready {S} `{OwnersDocumented S} safe s identity roster threshold status calls :
  NoDup roster → Forall so_valid roster → Forall (λ o, address o = Ok o) roster → 1 ≤ threshold ≤ zlen roster →
  Forall (λ o, address o = Ok o) (so_owners s) →
  custody_problems (Some (so_owners s, so_threshold s)) identity roster threshold = Ok (status, []) →
  match status with NeedsOwnerSetup => owner_setup_calls safe (so_owners s) roster threshold = Ok calls | _ => calls = [] end →
  ∃ s', so_sends s calls = Some s' ∧ so_owners s' ≡ₚ roster ∧ so_threshold s' = threshold ∧
    custody_problems (Some (so_owners s', so_threshold s')) identity roster threshold = Ok (Ready, []).
Proof.
  intros Hnd Hv Ha Hth Hown Hp Hc. unfold custody_problems in Hp. rewrite mapM_address_id in Hp by done. cbn [mbind result_bind] in Hp.
  set (problems := _ <$> _) in Hp. apply Ok_inj in Hp.
  destruct (bool_decide (sort_str id _ = _) && _) eqn:Es; [|destruct (_ && _ && _) eqn:Eo]; injection Hp as <- Ep.
  - subst calls. apply andb_true_iff in Es as [Es%bool_decide_eq_true Et%Z.eqb_eq]. exists s.
    assert (so_owners s ≡ₚ roster) as Hp by (by rewrite <- (sort_str_perm id), Es, sort_str_perm).
    split; [done|]. split; [done|]. split; [done|]. rewrite Et. apply custody_ready; [done..|by apply no_problems].
  - apply andb_true_iff in Eo as [[El%Nat.eqb_eq Ein%bool_decide_eq_true]%andb_true_iff Et%Z.eqb_eq].
    destruct (so_owners s) as [|o [|? ?]] eqn:Eso; [done| |done]. cbn [take] in Ein. apply Forall_cons in Ein as [Ein _].
    destruct (owner_setup_runs safe o roster threshold s calls) as (s' & Hs & Ho & Ht); try done.
    { destruct roster as [|o' [|? ?]]; [by apply not_elem_of_nil in Ein| |cbn [length]; lia]. apply list_elem_of_singleton in Ein as ->.
      rewrite bool_decide_eq_true_2 in Es by done. cbn [andb] in Es. apply Z.eqb_neq in Es. unfold zlen in Hth. cbn [length] in Hth. lia. }
    exists s'. rewrite Ho, Ht. pose proof (filter_singleton_perm o roster Hnd Ein) as Hp. split; [done|]. split; [done|]. split; [done|].
    apply custody_ready; [done..|by apply no_problems].
  - by destruct problems.
Qed.

(** The setups, chain by chain. *)
Definition setup_matches (safe : str) (roster : list str) (th : Z) (setups : dict str (list planned_call)) (c : custody_chain) (p : custody_status * list custody_problem) : Prop :=
  match setup_of safe roster th (c, p) with
  | Some r => ∃ calls, r = Ok (cc_chain c, calls) ∧ dget setups (cc_chain c) = Some calls
  | None => dget setups (cc_chain c) = None
  end.

Lemma setups_of_chains safe roster th chains found setups :
  length chains = length found → NoDup (cc_chain <$> chains) → mapM id (omap (setup_of safe roster th) (zip chains found)) = Ok setups →
  (∀ k, k ∈ dkeys setups → k ∈ cc_chain <$> chains) ∧ NoDup (dkeys setups) ∧ Forall2 (setup_matches safe roster th setups) chains found.
Proof.
  revert found setups. induction chains as [|c chains IH]; intros [|p found] setups Hl Hnd Hs; try done.
  { apply Ok_inj in Hs as <-. split; [by intros k Hk|]. split; [constructor|constructor]. }
  rewrite fmap_cons in Hnd. apply NoDup_cons in Hnd as [Hc Hnd]. cbn [zip zip_with omap list_omap] in Hs. injection Hl as Hl.
  destruct (setup_of safe roster th (c, p)) as [r|] eqn:Er.
  - cbn [mapM] in Hs. destruct r as [a|]; [|done]. cbn [id mbind result_bind] in Hs. inv_ok. subst setups. match goal with E : mapM id _ = Ok ?l |- _ => rename l into rest; destruct (IH _ _ Hl Hnd E) as (Hk & Hn & Hm) end.
    assert (∃ calls, a = (cc_chain c, calls)) as [calls ->].
    { unfold setup_of in Er. cbn [fst snd] in Er. destruct (p.1), (cc_info c) as [[? ?]|]; try done. injection Er as Er. inv_ok. subst. by eexists. }
    assert (cc_chain c ∉ dkeys rest) as Hnc by (intros Hx; by apply Hc, Hk).
    split; [|split].
    + intros k [->|Hx]%elem_of_cons; [left|right; by apply Hk].
    + by constructor.
    + constructor.
      * unfold setup_matches. rewrite Er. exists calls. split; [done|]. cbn [dget]. by rewrite decide_True.
      * clear -Hm Hc. revert Hc. induction Hm as [|c1 p1 cs ps H1 _ IH]; intros Hc; constructor; [|apply IH; intros Hx; apply Hc; by right].
        unfold setup_matches in *. cbn [dget]. rewrite decide_False; [done|]. intros E. apply Hc. rewrite fmap_cons, <- E. left.
  - destruct (IH _ _ Hl Hnd Hs) as (Hk & Hn & Hm). split; [intros k Hx; right; by apply Hk|]. split; [done|]. constructor; [|done].
    unfold setup_matches. rewrite Er. apply dget_None. intros Hx. by apply Hc, Hk.
Qed.

(** C28: Once the owner setups the planner wrote have been executed, the custody Safe of every
    chain has exactly the owners of the roster and the required threshold, and the same
    custody checks find it ready. *)
Theorem owner_setup_ready {S} `{OwnersDocumented S} safe count threshold roster chains setups chain s identity :
  NoDup roster → Forall so_valid roster → Forall (λ o, address o = Ok o) roster → 1 ≤ threshold ≤ zlen roster →
  NoDup (cc_chain <$> chains) → Forall (λ o, address o = Ok o) (so_owners s) →
  MkCustodyChain chain (Some (so_owners s, so_threshold s)) identity ∈ chains →
  plan_custody safe count threshold roster safe chains = Ok setups →
  ∃ s', so_sends s (default [] (dget setups chain)) = Some s' ∧ so_owners s' ≡ₚ roster ∧ so_threshold s' = threshold ∧
    custody_problems (Some (so_owners s', so_threshold s')) identity roster threshold = Ok (Ready, []).
Proof.
  intros Hnd Hv Ha Hth Hch Hown Hin Hp. unfold plan_custody in Hp. rewrite mapM_address_id in Hp by done. inv_ok. subst setups.
  match goal with E : roster = ?a |- _ => subst a end.
  match goal with E : mapM _ chains = Ok ?f, E2 : mapM id _ = Ok ?l, E3 : negb (bool_decide (concat _ = [])) = false |- _ =>
    rename f into found, l into setups; apply mapM_Ok_Forall2 in E as Hf; rename E2 into Hs; apply negb_false_iff, bool_decide_eq_true in E3 as Hnone end.
  destruct (setups_of_chains safe roster threshold chains found setups) as (_ & Hn & Hm); [by eapply Forall2_length|done..|].
  rewrite dict_of_nodup by done. apply list_elem_of_lookup in Hin as [i Hi].
  destruct (Forall2_lookup_l _ _ _ _ _ Hf Hi) as ([status problems] & Hj & Hcp). cbn [cc_info cc_identity] in Hcp.
  pose proof (Forall2_lookup_lr _ _ _ _ _ _ Hm Hi Hj) as Hset.
  assert (problems = []) as ->.
  { apply concat_nil_Forall in Hnone. rewrite Forall_fmap in Hnone. by apply (Forall_lookup_1 _ _ _ _ Hnone Hj). }
  apply (chain_setup_ready safe s identity roster threshold status); try done. revert Hset. unfold setup_matches, setup_of. cbn [fst snd cc_chain cc_info].
  destruct status; try (by intros ->). intros (calls & Hr & Hg). rewrite mapM_address_id in Hr by done. cbn [mbind result_bind] in Hr.
  destruct (owner_setup_calls _ _ _ _) as [l|] eqn:El; [|done]. cbn [mbind result_bind] in Hr. apply Ok_inj in Hr. injection Hr as ->. by rewrite Hg.
Qed.

(** The setup keeps the roster's order only when the present owner is the last of it. *)
Lemma owner_setup_order {S} `{OwnersDocumented S} safe r1 o r2 th s calls :
  so_owners s = [o] → NoDup (r1 ++ o :: r2) → Forall so_valid (r1 ++ o :: r2) → r1 ++ r2 ≠ [] → 1 ≤ th ≤ zlen (r1 ++ o :: r2) →
  owner_setup_calls safe [o] (r1 ++ o :: r2) th = Ok calls →
  ∃ s', so_sends s calls = Some s' ∧ so_owners s' = r1 ++ r2 ++ [o] ∧ (so_owners s' = r1 ++ o :: r2 ↔ r2 = []).
Proof.
  intros Hso Hnd Hv Hne Hth Hc. destruct (owner_setup_runs safe o (r1 ++ o :: r2) th s calls) as (s' & Hs & Ho & _); try done.
  { apply elem_of_app. right. by left. }
  { rewrite length_app. cbn [length]. destruct r1, r2; cbn [length]; [done|lia..]. }
  assert (so_owners s' = r1 ++ r2 ++ [o]) as Ho'.
  { rewrite Ho, filter_app, app_assoc. f_equal. apply NoDup_app in Hnd as (_ & Hd & [Hn _]%NoDup_cons).
    assert (∀ l : list str, (∀ a, a ∈ l → a ≠ o) → filter (λ a : str, a ∉ [o]) l = l) as Hall.
    { intros l Hl. induction l as [|a l IH]; [done|]. rewrite filter_cons_True, IH; [done|intros b Hb; apply Hl; by right|].
      apply not_elem_of_cons. split; [apply Hl; left|apply not_elem_of_nil]. }
    rewrite (Hall r1) by (intros a Ha ->; apply (Hd o Ha); left). f_equal. rewrite filter_cons_False by (intros Hx; apply Hx; left).
    apply Hall. by intros a Ha ->. }
  exists s'. split; [done|]. split; [done|]. rewrite Ho'. split.
  - intros E%(app_inv_head r1). destruct r2 as [|b r2]; [done|]. injection E as -> E. exfalso. apply NoDup_app in Hnd as (_ & _ & Hnd).
    apply NoDup_cons in Hnd as [Hn _]. apply Hn. left.
  - by intros ->.
Qed.

(** * Calls with an address *)

Lemma first_address_reads a b vs out :
  lz_address a b → Forall wide vs → abi_encode (VAddress a :: vs) = Ok out → zslice out 12 32 = b.
Proof.
  intros Ha Hw H. destruct (lz_address_forms _ _ Ha) as (_ & _ & Hi). destruct Ha as (_ & Hl & Hok).
  assert (Forall wide (VAddress a :: vs)) as Hw' by by constructor.
  destruct (abi_encode_layout _ _ Hw' H) as (heads & tail & -> & Hf). apply Forall2_cons_inv_l in Hf as (h & hs & Hh & _ & ->).
  destruct Hh as [_ (n & Hn & _ & ->)]. rewrite Hi in Hn. apply Ok_inj in Hn as <-.
  assert (to_be 32 (from_be b) = replicate 12 0 ++ b) as ->.
  { rewrite (to_be_zeros 12 20); [|pose proof (from_be_range b Hok) as Hr; unfold zlen in Hr; by rewrite Hl in Hr]. f_equal. rewrite <- Hl. by apply to_from_be. }
  apply (zslice_mid _ (replicate 12 0) b (concat hs ++ tail)); [cbn [concat]; by rewrite <- !app_assoc|done|unfold zlen; lia].
Qed.

(** A call with an address and an amount, read back. *)
Lemma address_call_reads sel a b z data :
  lz_address a b → zlen sel = 4 → call_data sel [VAddress a; VUint z] = Ok data →
  zslice data 0 4 = sel ∧ zslice (drop 4 data) 12 32 = b ∧ word_at (drop 4 data) 1 = z ∧ uint256 z.
Proof.
  intros Ha Hl (body & He & Hs & Hb)%call_parts; [|done]. rewrite Hb. split; [done|].
  assert (Forall wide [VAddress a; VUint z]) as Hw by repeat constructor. destruct (read_word _ _ 1 _ Hw He eq_refl) as [E1 Hu]. nat_index.
  split; [|done]. apply (first_address_reads a b [VUint z]); [done|by repeat constructor|done].
Qed.

Lemma decode_transfer a b z data : lz_address a b → call_data SEL_transfer [VAddress a; VUint z] = Ok data → decode_call data = Ok (DTransfer b z) ∧ uint256 z.
Proof.
  intros Ha H. destruct (address_call_reads SEL_transfer _ _ _ _ Ha eq_refl H) as (Hs & Hb & Hz & Hu). split; [|done].
  unfold decode_call. rewrite Hs. selector_branch. by rewrite Hb, Hz.
Qed.

(** ** An example Safe *)

Definition demo_safe : Type := list str * Z.

#[local] Instance demo_owners : SafeOwners demo_safe := {
  so_owners := fst; so_threshold := snd;
  so_send s data := if bool_decide (zslice data 0 4 = SEL_addOwnerWithThreshold) then
      Some (("0x"%string ++ hex (zslice (drop 4 data) 12 32)) :: s.1, word_at (drop 4 data) 1) else None;
  so_valid o := ∃ b, lz_address o b }.

#[local] Instance demo_owners_documented : OwnersDocumented demo_safe.
Proof.
  split. intros s o th data [b Hb] _ _ H. destruct (address_call_reads SEL_addOwnerWithThreshold _ _ _ _ Hb eq_refl H) as (Hs & Hz & Hw & _). cbn [so_send demo_owners].
  rewrite Hs, bool_decide_eq_true_2 by done. eexists. split; [done|]. rewrite Hz, Hw. destruct Hb as (-> & _). done.
Qed.

Definition demo_roster : list str := demo_text <$> [17; 34; 51; 68].
Definition demo_identity : safe_identity :=
  MkSafeIdentity SAFE_PROXY_CODEHASH "0xd9db270c1b5e3bd161e8c8503c55ceabee709552"%string
    "0xbba688fbdb21ad2bb58bc320638b43d94e7d100f6f3ebaab0a4e4de6304b1c2e"%string SAFE_VERSION [] ZERO_ADDRESS ZERO_ADDRESS.
Definition demo_chains : list custody_chain := [
  MkCustodyChain "ethereum"%string (Some (reverse demo_roster, 2)) demo_identity; MkCustodyChain "bsc"%string (Some ([demo_text 34], 1)) demo_identity].
Definition demo_setups : dict str (list planned_call) := Eval vm_compute in
  match plan_custody (demo_text 85) 4 2 demo_roster (demo_text 85) demo_chains with Ok l => l | Raise _ => [] end.

Lemma owner_setup_ready_witness :
  (λ kc, (kc.1, length kc.2)) <$> demo_setups = [("bsc"%string : str, 3%nat)] ∧
  ∃ s' : demo_safe, so_sends (([demo_text 34], 1) : demo_safe) (default [] (dget demo_setups "bsc"%string)) = Some s' ∧
    so_owners s' ≡ₚ demo_roster ∧ so_threshold s' = 2 ∧ custody_problems (Some (so_owners s', so_threshold s')) demo_identity demo_roster 2 = Ok (Ready, []).
Proof.
  split; [done|]. apply (owner_setup_ready (demo_text 85) 4 2 demo_roster demo_chains demo_setups).
  - by compute_decide.
  - apply Forall_fmap, Forall_forall. intros d Hd. exists (demo_address d). split; [done|]. split; [done|].
    unfold demo_address. apply Forall_replicate. assert (Forall (λ d, 0 ≤ d < 256) [17; 34; 51; 68]) as Hb by by compute_decide. rewrite Forall_forall in Hb. by apply Hb.
  - repeat (apply Forall_cons_2; [by vm_compute|]). apply Forall_nil_2.
  - by compute_decide.
  - by compute_decide.
  - repeat (apply Forall_cons_2; [by vm_compute|]). apply Forall_nil_2.
  - right. left.
  - by vm_compute.
Defined.

(** * The ONE funding *)

Lemma one_reserve_call_reads token to_ b amount c :
  lz_address to_ b → one_reserve_call token to_ amount = Ok c → decode_call (c_data c) = Ok (DTransfer b amount) ∧ uint256 amount.
Proof.
  intros Ha H. unfold one_reserve_call in H. inv_ok. subst c. cbn [c_data]. by apply (decode_transfer to_).
Qed.

(** The parts of a pool add up to its collateral. *)
Definition parts_add_up (p : one_parts) : Prop := op_claimable p + op_held p + op_below_minimum p + op_retained p = op_collateral p.

Lemma one_split_ok csv pools split :
  NoDup (dkeys pools) → one_split csv pools = Ok split →
  Forall parts_add_up (dvalues split) ∧ ((λ kp, (kp.1, op_collateral kp.2)) <$> split) = pools.
Proof.
  intros Hnd H. unfold one_split in H. inv_ok.
  match goal with E : foldM _ _ _ = Ok _ |- _ => rename E into Hf end.
  refine (foldM_inv (λ pre st, NoDup (dkeys pre) → Forall parts_add_up (dvalues st) ∧ ((λ kp, (kp.1, op_collateral kp.2)) <$> st) = pre) _ _ _ _ _ _ Hf Hnd).
  - intros _. split; constructor.
  - intros pre [pool amount] st st' IH Hs Hn. unfold dkeys in Hn. rewrite fmap_app in Hn. apply NoDup_app in Hn as (Hn & Hd & _).
    destruct (IH Hn) as [Hp He]. unfold pool_split in Hs. inv_ok. subst st'.
    match goal with E : _ || _ = false |- _ => apply orb_false_iff in E as [Q1%negb_false_iff Q2%negb_false_iff] end. apply Z.eqb_eq in Q1, Q2.
    assert (pool ∉ dkeys st) as Hni.
    { intros Hin. apply (Hd pool); [|left]. rewrite <- He, <- list_fmap_compose. exact Hin. }
    rewrite dset_absent by done. unfold dvalues. rewrite !fmap_app. split; [apply Forall_app; split; [done|]|by rewrite He].
    apply Forall_singleton. unfold parts_add_up. cbn [snd op_claimable op_held op_below_minimum op_retained op_collateral]. lia.
Qed.

(** The ONE funding moves the claimable total in its first transfer and, when asked, a part
    of the rest in its second: every pool's parts add up to its collateral, the two
    transfers go to the Safe, read back as those amounts, and together never exceed the
    funded amount; the Reserve Safe is reported sufficient exactly when it can pay both. *)
Theorem one_funding_bounded csv pools amount token safe sb bal rest f :
  lz_address safe sb → NoDup (dkeys pools) → fund_one csv pools amount token safe bal rest = Ok f →
  (∃ split, one_split csv pools = Ok split ∧ Forall parts_add_up (dvalues split) ∧
     ((λ kp, (kp.1, op_collateral kp.2)) <$> split) = pools ∧ of_claimable f = zsum_with op_claimable (dvalues split)) ∧
  of_claimable f + of_rest f = amount ∧ 0 ≤ of_claimable f ∧ 0 ≤ of_stage2 f ≤ of_rest f ∧ of_claimable f + of_stage2 f ≤ amount ∧
  (rest = RestAll → of_stage2 f = of_rest f) ∧ (rest = RestNone → of_stage2 f = 0) ∧
  (of_sufficient f = true ↔ of_claimable f + of_stage2 f ≤ bal) ∧
  decoded (of_calls f) = [Ok (DTransfer sb (of_claimable f))] ∧
  decoded (of_stage2_calls f) = (if of_stage2 f =? 0 then [] else [Ok (DTransfer sb (of_stage2 f))]).
Proof.
  intros Ha Hnd H. unfold fund_one in H.
  destruct (one_split csv pools) as [split|] eqn:Es; [|done]. cbn [mbind result_bind] in H. destruct (one_split_ok _ _ _ Hnd Es) as [Hp He].
  set (claimable := zsum_with _ _) in *. set (stage2 := match rest with RestNone => 0 | RestAll => _ | RestRaw n => n end) in *.
  destruct ((0 <=? stage2) && (stage2 <=? amount - claimable)) eqn:Eb; [|done]. cbn [negb raise_if mbind result_bind] in H. zbool.
  destruct (one_reserve_call token safe claimable) as [c1|] eqn:E1; [|done]. cbn [mbind result_bind] in H.
  destruct (one_reserve_call_reads _ _ _ _ _ Ha E1) as [D1 U1].
  destruct (if stage2 =? 0 then _ else _) as [c2|] eqn:E2; [|done]. cbn [mbind result_bind] in H. apply Ok_inj in H as <-.
  cbn [of_claimable of_rest of_stage2 of_sufficient of_calls of_stage2_calls]. unfold uint256 in U1.
  split; [by exists split|]. split_and!; try lia.
  - by intros ->.
  - by intros ->.
  - cbn [fmap list_fmap]. by rewrite D1.
  - destruct (stage2 =? 0); inv_ok; subst c2; [done|]. cbn [fmap list_fmap].
    match goal with E : one_reserve_call _ _ _ = Ok ?c |- context [c_data ?c] => by destruct (one_reserve_call_reads _ _ _ _ _ Ha E) as [-> _] end.
Qed.

Definition demo_pools_csv : str := csv_write [
  ["pool_id"%string : str; "collateral_raw"%string : str; "claimable_raw"%string : str; "held_raw"%string : str; "below_minimum_raw"%string : str; "retained_raw"%string : str];
  ["one-bsc"%string : str; "100"%string : str; "60"%string : str; "30"%string : str; "5"%string : str; "5"%string : str];
  ["one-eth"%string : str; "50"%string : str; "50"%string : str; ""%string : str; ""%string : str; ""%string : str]].
Definition demo_pools : dict str Z := [("one-bsc"%string : str, 100); ("one-eth"%string : str, 50)].
Definition demo_funding : one_funding := Eval vm_compute in
  match fund_one demo_pools_csv demo_pools 150 (demo_text 102) (demo_text 51) 149 RestAll with Ok f => f | Raise _ => MkOneFunding 0 0 0 false [] [] end.

Lemma one_funding_bounded_witness :
  of_claimable demo_funding = 110 ∧ of_stage2 demo_funding = 40 ∧ of_sufficient demo_funding = false ∧
  decoded (of_calls demo_funding) = [Ok (DTransfer (demo_address 51) 110)] ∧ of_claimable demo_funding + of_stage2 demo_funding ≤ 150.
Proof.
  destruct (one_funding_bounded demo_pools_csv demo_pools 150 (demo_text 102) (demo_text 51) (demo_address 51) 149 RestAll demo_funding)
    as (_ & _ & _ & _ & Hle & _ & _ & _ & Hd & _).
  - split; [done|]. split; [done|]. by compute_decide.
  - by compute_decide.
  - by vm_compute.
  - by split_and!.
Defined.

(** * The batches of releases *)

Section groups.
Context {K : Type} `{EqDecision K} {A : Type}.

Lemma concat_dset_snoc (d : dict K (list A)) k x :
  concat (dvalues (dset d k (default [] (dget d k) ++ [x]))) ≡ₚ x :: concat (dvalues d).
Proof.
  unfold dvalues. induction d as [|[k0 l0] d IH]; cbn [dset dget]; [done|]. destruct (decide (k = k0)); rewrite !fmap_cons; cbn [snd concat from_option id].
  - by rewrite <- app_assoc, Permutation_middle.
  - by rewrite IH, Permutation_middle.
Qed.

(** Every group is kept with its key. *)
Lemma groups_dset_snoc (key : A → K) (d : dict K (list A)) x :
  Forall (λ kg, kg.2 ≠ [] ∧ Forall (λ y, key y = kg.1) kg.2) d →
  Forall (λ kg, kg.2 ≠ [] ∧ Forall (λ y, key y = kg.1) kg.2) (dset d (key x) (default [] (dget d (key x)) ++ [x])).
Proof.
  induction 1 as [|[k0 l0] d [Hn Hk] Hd IH]; cbn [dset dget].
  - constructor; [|constructor]. split; [done|]. by constructor.
  - destruct (decide (key x = k0)) as [E|E]; constructor; cbn [fst snd from_option id] in *; try done.
    split; [by destruct l0|]. apply Forall_app. split; [done|]. by constructor.
Qed.
End groups.

Lemma by_owner_groups es :
  concat (dvalues (by_owner es)) ≡ₚ es ∧ Forall (λ kg, kg.2 ≠ [] ∧ Forall (λ e, owner_key e = kg.1) kg.2) (by_owner es).
Proof.
  unfold by_owner. induction es as [|e es IH] using rev_ind; [done|]. rewrite foldl_app. cbn [foldl]. destruct IH as [Hp Hg]. split.
  - unfold owner_group at 1. rewrite concat_dset_snoc, Hp. by rewrite Permutation_app_comm.
  - by apply groups_dset_snoc.
Qed.

Lemma ceil_div_bound n c q : 0 < n → 0 < c → ceil_div n c = Ok q → 0 < q ∧ n ≤ q * c ∧ ∀ m, n ≤ m * c → q ≤ m.
Proof.
  intros Hn Hc. unfold ceil_div. rewrite (proj2 (Z.eqb_neq c 0)) by lia. intros <-%Ok_inj.
  pose proof (Z.div_mod (- n) c ltac:(lia)) as Hdm. pose proof (Z.mod_pos_bound (- n) c Hc) as Hm.
  split; [|split]; [nia|nia|]. intros m Hle. assert (- m ≤ - n / c); [|lia]. apply Z.div_le_lower_bound; lia.
Qed.

Lemma parts_of_ok max first group parts :
  0 < max → parts_of max (first :: group) = Ok parts →
  concat parts = first :: group ∧ Forall (λ p, p ≠ []) parts ∧
  (e_owner_is_safe first = true → Forall (λ p, zlen p ≤ max) parts) ∧ (e_owner_is_safe first = false → parts = [first :: group]).
Proof.
  intros Hmax H. unfold parts_of in H. cbn [head of_option mbind result_bind] in H. set (l := first :: group) in *.
  assert (0 < zlen l) as Hl by (unfold zlen, l; cbn [length]; lia). assert (l ≠ []) as Hne by done.
  destruct (if e_owner_is_safe first then _ else _) as [count|] eqn:Ec; [|done]. cbn [mbind result_bind] in H.
  assert (0 < count ∧ (e_owner_is_safe first = true → zlen l ≤ max * count) ∧ (e_owner_is_safe first = false → count = 1)) as (Hc & Hcs & Hc1).
  { destruct (e_owner_is_safe first); [|apply Ok_inj in Ec as <-; by split_and!]. apply ceil_div_bound in Ec as (? & ? & _); [|done..]. split_and!; try done; lia. }
  destruct (ceil_div (zlen l) count) as [step|] eqn:Es; [|done]. cbn [mbind result_bind] in H. apply ceil_div_bound in Es as (Hs & Hle & Hmin); [|done..].
  rewrite (proj2 (Z.eqb_neq step 0)), (proj2 (Z.ltb_ge step 0)) in H by lia. apply Ok_inj in H as <-.
  assert (0 < Z.to_nat step)%nat as Hst by lia. pose proof (chunks_length_bound (Z.to_nat step) l Hst) as Hb.
  split; [by apply concat_chunks|]. split; [|split].
  - eapply Forall_impl; [exact Hb|]. intros p Hp ->. cbn [length] in Hp. lia.
  - intros Hsafe. specialize (Hmin max (Hcs Hsafe)). eapply Forall_impl; [exact Hb|]. intros p [_ Hp]. unfold zlen. lia.
  - intros Hsafe. specialize (Hc1 Hsafe) as ->. assert (zlen l ≤ step) by lia. unfold zlen in *. rewrite chunks_step by done.
    rewrite take_ge, drop_ge by (unfold l in *; lia). by rewrite chunks_nil.
Qed.

(** What one release holds. *)
Definition release_ok (safe : str) (max : Z) (r : release) : Prop :=
  rl_escrows r ≠ [] ∧ Forall (λ e, owner_key e = (rl_chain r, rl_owner r)) (rl_escrows r) ∧
  Forall (λ e, e_owner_is_safe e = rl_owner_is_safe r) (rl_escrows r) ∧
  (rl_owner_is_safe r = true → zlen (rl_escrows r) ≤ max) ∧ (rl_owner_is_safe r = false → rl_part r = None) ∧
  ∃ calls, mapM (λ e, release_calls e safe) (rl_escrows r) = Ok calls ∧ rl_calls r = concat calls.

Lemma elem_of_concat_intro {A} (x : A) l ls : x ∈ l → l ∈ ls → x ∈ concat ls.
Proof. intros Hx Hl. apply list_elem_of_In, in_concat. exists l. by rewrite <- !list_elem_of_In. Qed.

Lemma release_part_Ok safe key count i p r :
  release_part safe key count (i, p) = Ok r →
  rl_escrows r = p ∧ (rl_chain r, rl_owner r) = key ∧ (∃ first l, p = first :: l ∧ rl_owner_is_safe r = e_owner_is_safe first) ∧
  (count ≤ 1 → rl_part r = None) ∧ ∃ calls, mapM (λ e, release_calls e safe) p = Ok calls ∧ rl_calls r = concat calls.
Proof.
  unfold release_part. cbn [fst snd]. destruct p as [|first l]; [done|]. cbn [head of_option mbind result_bind]. intros H. inv_ok. subst r.
  cbn [rl_escrows rl_chain rl_owner rl_owner_is_safe rl_part rl_calls]. split_and!; [done|by destruct key|by exists first, l| |by eexists].
  intros Hc. by rewrite (proj2 (Z.ltb_ge 1 count)).
Qed.

Lemma group_releases safe max key group parts rs :
  0 < max → group ≠ [] → Forall (λ e, owner_key e = key) group →
  (∀ e e', e ∈ group → e' ∈ group → e_owner_is_safe e = e_owner_is_safe e') →
  parts_of max group = Ok parts → mapM (release_part safe key (zlen parts)) (enumerate parts) = Ok rs →
  concat (rl_escrows <$> rs) = group ∧ Forall (release_ok safe max) rs.
Proof.
  intros Hmax Hne Hk Hsafe Hp Hr. destruct group as [|first group]; [done|].
  destruct (parts_of_ok max first group parts Hmax Hp) as (Hcat & Hpn & Hps & Hp1). set (l := first :: group) in *.
  apply mapM_Ok_Forall2 in Hr.
  assert (rl_escrows <$> rs = parts) as Hesc.
  { assert (snd <$> enumerate parts = parts) as <-.
    { apply list_eq. intros j. rewrite list_lookup_fmap, lookup_enumerate. by destruct (parts !! j). }
    clear -Hr. induction Hr as [|[i p] r ips rs Hx _ IH]; [done|]. cbn [fmap list_fmap]. rewrite IH. f_equal. by apply release_part_Ok in Hx as [-> _]. }
  rewrite Hesc. split; [done|]. apply Forall_forall. intros r Hin. apply list_elem_of_lookup in Hin as [j Hj].
  destruct (Forall2_lookup_r _ _ _ _ _ Hr Hj) as ([i p] & Hip & Hx).
  apply release_part_Ok in Hx as (Hre & Hrk & (f & l' & Ep & Hrs) & Hpart & Hcalls).
  assert (p ∈ parts) as Hpin.
  { rewrite <- Hesc. apply list_elem_of_fmap. exists r. split; [done|]. by eapply list_elem_of_lookup_2. }
  assert (∀ e, e ∈ p → e ∈ l) as Hsub by (intros e He; rewrite <- Hcat; by apply (elem_of_concat_intro e p)).
  assert (f ∈ p) as Hf by (rewrite Ep; left). assert (first ∈ l) as Hfirst by left.
  rewrite Forall_forall in Hk. unfold release_ok. rewrite Hre, Hrs. split_and!.
  - by rewrite Ep.
  - apply Forall_forall. intros e He. rewrite Hrk. by apply Hk, Hsub.
  - apply Forall_forall. intros e He. apply Hsafe; by apply Hsub.
  - rewrite (Hsafe f first) by auto. intros Hs. specialize (Hps Hs). rewrite Forall_forall in Hps. by apply Hps.
  - rewrite (Hsafe f first) by auto. intros Hs. apply Hpart. by rewrite (Hp1 Hs).
  - done.
Qed.

(** C27: The releases cover the escrows of the plan exactly: every escrow is in one release, every
    release has the escrows of one chain and owner and exactly their calls in order, a
    Safe's batches stay within the size bound, and a key's escrows are never split. *)
Theorem releases_cover safe max es rs :
  0 < max → (∀ e e', e ∈ es → e' ∈ es → owner_key e = owner_key e' → e_owner_is_safe e = e_owner_is_safe e') →
  plan_releases safe max es = Ok rs →
  concat (rl_escrows <$> rs) ≡ₚ es ∧ Forall (release_ok safe max) rs.
Proof.
  intros Hmax Hsafe H. unfold plan_releases in H. inv_ok. subst rs. destruct (by_owner_groups es) as [Hcat Hg].
  match goal with E : mapM _ _ = Ok ?l |- _ => rename l into rss; apply mapM_Ok_Forall2 in E as Hm end.
  set (groups := sort_by _ _) in *. assert (groups ≡ₚ by_owner es) as Hperm by apply sort_by_perm.
  assert (concat (dvalues groups) ≡ₚ es) as Hcat'.
  { rewrite <- Hcat. unfold dvalues. by rewrite Hperm. }
  rewrite <- Hperm in Hg.
  assert (Forall2 (λ kg rs, concat (rl_escrows <$> rs) = kg.2 ∧ Forall (release_ok safe max) rs) groups rss) as Hall.
  { apply Forall2_same_length_lookup. split; [by eapply Forall2_length|]. intros i kg rs Hi Hj.
    pose proof (Forall2_lookup_lr _ _ _ _ _ _ Hm Hi Hj) as Hx. cbn beta in Hx.
    destruct (parts_of max kg.2) as [parts|] eqn:Ep; [|done]. cbn [mbind result_bind] in Hx.
    destruct (Forall_lookup_1 _ _ _ _ Hg Hi) as [Hne Hk]. apply (group_releases safe max kg.1 kg.2 parts); try done.
    intros e e' He He'. rewrite Forall_forall in Hk. apply Hsafe; [| |by rewrite !Hk].
    all: rewrite <- Hcat'; apply (elem_of_concat_intro _ kg.2); [done|]; apply list_elem_of_fmap; exists kg; (split; [done|]); by eapply list_elem_of_lookup_2. }
  rewrite fmap_concat. clear -Hall Hcat'. rewrite <- Hcat'. clear Hcat'. unfold dvalues.
  induction Hall as [|kg rs gs rss [Hc Hok] _ [IH1 IH2]]; [done|]. cbn [fmap list_fmap concat]. rewrite concat_app, Hc. split.
  - by rewrite IH1.
  - by apply Forall_app.
Qed.

Definition demo_escrow (owner : Z) (owner_is_safe : bool) : escrow_entry :=
  MkEscrow (e_chain demo_entry) (e_pool_id demo_entry) (e_escrow demo_entry) (demo_text owner) (e_kind demo_entry) (e_token demo_entry) (e_decimals demo_entry)
    (e_locked demo_entry) (e_packet_type demo_entry) owner_is_safe (e_state demo_entry) (e_packet_header demo_entry) (e_payload_hash demo_entry).
Definition demo_escrows : list escrow_entry := [demo_escrow 34 true; demo_escrow 18 false; demo_escrow 34 true; demo_escrow 18 false; demo_escrow 34 true].
Definition demo_releases : list release := Eval vm_compute in match plan_releases (demo_text 51) 2 demo_escrows with Ok l => l | Raise _ => [] end.

Lemma releases_cover_witness :
  (length ∘ rl_escrows) <$> demo_releases = [2; 2; 1]%nat ∧ concat (rl_escrows <$> demo_releases) ≡ₚ demo_escrows ∧ Forall (release_ok (demo_text 51) 2) demo_releases.
Proof.
  split; [done|]. apply (releases_cover (demo_text 51) 2 demo_escrows demo_releases).
  - lia.
  - assert (Forall (λ e, Forall (λ e', owner_key e = owner_key e' → e_owner_is_safe e = e_owner_is_safe e') demo_escrows) demo_escrows) as Hall.
    { repeat (apply Forall_cons_2 || apply Forall_nil_2); done. }
    intros e e' He He'. rewrite Forall_forall in Hall. specialize (Hall e He). rewrite Forall_forall in Hall. by apply Hall.
  - by vm_compute.
Defined.
