(* ===== verification/SendCalldata.v ===== *)
(** Sending a key holder's release: bridge-claims/tools/send_calldata.py.  [main] reads the log
    of confirmed transactions, checks the chain and the sender's nonce, then simulates,
    sends and logs the remaining transactions of the file one at a time.

    The state that outlives a run is the log file and the chain; a run may be stopped
    after any of its effects, runs follow each other, and the sender may use its wallet
    between them: the steps of the relation [step].  What a node and [cast send] are
    relied on for is the interface [Wallet] with [WalletDocumented].

    Shown, by induction on the steps: the log only lists transactions that are on the
    chain next to each other and in the order of the file; a run that completes leaves
    the file's transactions, each once and in order, as the sender's latest ones.  One
    case falls outside: stopped between the first transaction and the first write of
    the log, the next run sends the first transaction again. *)

From S2P Require Import Prelude PyStr Abi ReleasePlan.
Local Open Scope Z_scope.

(** * The code *)

Record plan_tx := MkPlanTx { t_to : str; t_value : str; t_data : str; t_note : str }.

(** A calldata file. *)
Record plan := MkPlan { p_chain_id : Z; p_from : str; p_transactions : list plan_tx }.

(** [calldata_record] of release_plan.py: the file of a key holder's release. *)
Definition calldata_record (chain_id : Z) (owner : str) (calls : list planned_call) (notes : list str) : plan :=
  MkPlan chain_id owner
    (zip_with (λ c note, MkPlanTx (c_to c) (str_of_Z (c_value c)) (Airdrop.hex0x (c_data c)) note) calls notes).

Record sent := MkSent { s_index : Z; s_hash : option str; s_nonce : Z; s_block : Z; s_note : str }.

Record log := MkLog { l_sha256 : str; l_sent : list sent }.

Definition load_log (file : option log) (file_sha256 : str) : result log :=
  match file with
  | None => Ok (MkLog file_sha256 [])
  | Some l =>
      _ ← raise_if (negb (bool_decide (l_sha256 l = file_sha256))) (SystemExit "records a different version of the file; keep it and ask for help");
      Ok l
  end.

(** A call of the sender: recipient, data, value. *)
Record call := MkEthCall { ec_to : str; ec_data : str; ec_value : Z }.

Definition call_of (t : plan_tx) : result call := v ← py_int (t_value t); Ok (MkEthCall (t_to t) (t_data t) v).

(** The receipt [cast send] prints; [None] for a missing key. *)
Record receipt := MkReceipt { r_status : option str; r_hash : option str; r_from : option str; r_block : option str }.

(** The node and the wallet, seen by [sender]. *)
Class Wallet (W : Type) := {
  eth_chainId : W → result str;
  eth_getTransactionReceipt : W → option str → result (option str);
  eth_getTransactionCount : W → str → bool → result str;
  eth_call : W → str → call → result unit;
  eth_getTransactionByHash : W → option str → result str;
  cast_send : W → str → call → W * result receipt;
}.

Section main.
Context {W : Type} `{Wallet W}.

Definition simulate (w : W) (sender : str) (t : plan_tx) : result (option string) :=
  c ← call_of t;
  match eth_call w sender c with
  | Ok _ => Ok None
  | Raise (RuntimeError e) => Ok (Some e)
  | Raise e => Raise e
  end.

(** What a run leaves behind. *)
Record disk := MkDisk { d_world : W; d_log : option log }.

(** How a run ends: returned, stopped with an exception, or interrupted. *)
Inductive ending := Returned | Stopped (e : exn) | Interrupted.

(** The checks of a receipt; the entry for the log. *)
Definition confirm (w : W) (sender : str) (i : Z) (t : plan_tx) (r : receipt) : result sent :=
  status ← py_int16 (default ("0x0"%string : str) (r_status r));
  _ ← raise_if (negb (bool_decide (lower (default [] (r_from r)) = sender))) (SystemExit "was sent by another account; stop");
  _ ← raise_if (negb (status =? 1)) (SystemExit "reverted on chain; stop and report it");
  n ← eth_getTransactionByHash w (r_hash r); nonce ← py_int16 n;
  b ← of_option (r_block r) (KeyError "blockNumber"%string); block ← py_int16 b;
  Ok (MkSent i (r_hash r) nonce block (t_note t)).

(** The loop over [txs[start:]]; [budget] is the number of effects before an interruption. *)
Fixpoint send_loop (budget : nat) (sender : str) (i : Z) (txs : list plan_tx) (d : disk) (l : log) {struct txs} : disk * ending :=
  match txs with
  | [] => (d, Returned)
  | t :: txs =>
      match simulate (d_world d) sender t with
      | Raise e => (d, Stopped e)
      | Ok (Some _) => (d, Stopped (SystemExit "simulation failed, nothing sent"))
      | Ok None =>
          match budget, call_of t with
          | O, _ => (d, Interrupted)
          | S _, Raise e => (d, Stopped e)
          | S budget, Ok c =>
              let '(w, r) := cast_send (d_world d) sender c in
              match (r ← r; confirm w sender i t r) with
              | Raise e => (MkDisk w (d_log d), Stopped e)
              | Ok entry =>
                  match budget with
                  | O => (MkDisk w (d_log d), Interrupted)
                  | S budget =>
                      let l := MkLog (l_sha256 l) (l_sent l ++ [entry]) in
                      send_loop budget sender (i + 1) txs (MkDisk w (Some l)) l
                  end
              end
          end
      end
  end.

(** The checks before sending; the log and the number of confirmed transactions. *)
Definition resume_checks (p : plan) (file_sha256 : str) (d : disk) : result log :=
  let sender := lower (p_from p) in
  l ← load_log (d_log d) file_sha256;
  cid ← eth_chainId (d_world d); chain_id ← py_int16 cid;
  _ ← raise_if (negb (chain_id =? p_chain_id p)) (SystemExit "the RPC serves another chain");
  _ ← (match last (l_sent l) with
       | None => Ok ()
       | Some s =>
           r ← eth_getTransactionReceipt (d_world d) (s_hash s);
           match r with
           | None => Raise (SystemExit "is not confirmed on chain")
           | Some st => n ← py_int16 st; raise_if (negb (n =? 1)) (SystemExit "is not confirmed on chain")
           end
       end);
  m ← eth_getTransactionCount (d_world d) sender false; mined ← py_int16 m;
  q ← eth_getTransactionCount (d_world d) sender true; pending ← py_int16 q;
  _ ← raise_if (negb (pending =? mined)) (SystemExit "pending transaction(s); wait until they are mined");
  _ ← (match last (l_sent l) with
       | None => Ok ()
       | Some s => raise_if (negb (mined =? s_nonce s + 1)) (SystemExit "sent transaction(s) after the last logged one")
       end);
  Ok l.

Definition main (budget : nat) (p : plan) (file_sha256 : str) (dry_run : bool) (d : disk) : disk * ending :=
  match resume_checks p file_sha256 d with
  | Raise e => (d, Stopped e)
  | Ok l =>
      let sender := lower (p_from p) in
      let start := length (l_sent l) in
      let rest := drop start (p_transactions p) in
      if bool_decide (start = length (p_transactions p)) then (d, Returned)
      else if dry_run then
        match rest with
        | [] => (d, Stopped IndexError)
        | t :: _ => match simulate (d_world d) sender t with Ok _ => (d, Returned) | Raise e => (d, Stopped e) end
        end
      else send_loop budget sender (Z.of_nat start) rest d l
  end.

End main.
Arguments disk W : clear implicits.

(** * The node and the wallet, as documented *)

(** [history] is the sender's mined transactions since the nonce [base], [quiet] that
    none is pending. *)
Class WalletDocumented (W : Type) `{Wallet W} (sender : str) := {
  history : W → list (call * str);
  base : Z;
  quiet : W → Prop;
  doc_mined w s : eth_getTransactionCount w sender false = Ok s → py_int16 s = Ok (base + zlen (history w));
  doc_quiet w a b : eth_getTransactionCount w sender false = Ok a → eth_getTransactionCount w sender true = Ok b → py_int16 a = py_int16 b → quiet w;
  (** a transaction reported as sent by this account and successful is its next one *)
  doc_sent w c w' r :
    quiet w → cast_send w sender c = (w', Ok r) → py_int16 (default ("0x0"%string : str) (r_status r)) = Ok 1 → lower (default [] (r_from r)) = sender →
    ∃ h, r_hash r = Some h ∧ history w' = history w ++ [(c, h)] ∧ quiet w' ∧
      ∀ s, eth_getTransactionByHash w' (Some h) = Ok s → py_int16 s = Ok (base + zlen (history w));
  (** a chain never loses a mined transaction *)
  doc_appends w c w' r : cast_send w sender c = (w', r) → history w `prefix_of` history w';
}.

Section send.
Context {W : Type} `{Wallet W} (p : plan) (sha : str) {Hd : WalletDocumented W (lower (p_from p))}.
Notation sender := (lower (p_from p)).
Notation txs := (p_transactions p).

(** Runs, stopped after any number of effects, and anything else the account sends. *)
Inductive step : disk W → disk W → Prop :=
  | step_run budget dry_run d : step d (main budget p sha dry_run d).1
  | step_outside w w' l : history w `prefix_of` history w' → step (MkDisk w l) (MkDisk w' l).

(** [done_] has the first transactions of the file, on the chain after [pre] and next to each
    other, as the log lists them. *)
Record logged (ss : list sent) (pre : list (call * str)) (done_ : list (call * str)) : Prop := {
  lg_calls : Forall2 (λ t m, call_of t = Ok m.1) (take (length done_) txs) done_;
  lg_hashes : Forall2 (λ s m, s_hash s = Some m.2) ss done_;
  lg_nonces j s : ss !! j = Some s → s_nonce s = base + zlen pre + Z.of_nat j;
}.

Definition inv (d : disk W) : Prop :=
  ∀ l, d_log d = Some l → l_sha256 l = sha ∧
    ∃ pre done_ post, history (d_world d) = pre ++ done_ ++ post ∧ logged (l_sent l) pre done_.

Lemma logged_nil pre : logged [] pre [].
Proof. split; [constructor|constructor|done]. Qed.

Lemma logged_length ss pre done_ : logged ss pre done_ → length ss = length done_ ∧ (length done_ ≤ length txs)%nat.
Proof. intros [Hc Hh _]. apply Forall2_length in Hh, Hc. rewrite length_take in Hc. lia. Qed.

(** One more transaction. *)
Lemma logged_snoc ss pre done_ t c h s :
  logged ss pre done_ → txs !! length done_ = Some t → call_of t = Ok c → s_hash s = Some h → s_nonce s = base + zlen (pre ++ done_) →
  logged (ss ++ [s]) pre (done_ ++ [(c, h)]).
Proof.
  intros Hl Ht Hc Hh Hn. destruct (logged_length _ _ _ Hl) as [Hlen _]. destruct Hl as [Lc Lh Ln]. split.
  - rewrite length_app. cbn [length]. rewrite Nat.add_1_r, (take_S_r _ _ _ Ht). apply Forall2_app; [done|]. by constructor.
  - apply Forall2_app; [done|]. by constructor.
  - intros j s' [Hj|[Hj Hs]]%lookup_app_Some; [by apply Ln|]. apply list_lookup_singleton_Some in Hs as [Hs ->].
    rewrite Hn. unfold zlen. rewrite length_app. lia.
Qed.

Lemma confirm_Ok w i t r s :
  confirm w sender i t r = Ok s →
  py_int16 (default ("0x0"%string : str) (r_status r)) = Ok 1 ∧ lower (default [] (r_from r)) = sender ∧ s_hash s = r_hash r ∧
  ∃ n, eth_getTransactionByHash w (r_hash r) = Ok n ∧ py_int16 n = Ok (s_nonce s).
Proof.
  unfold confirm. intros H0. inv_ok. subst s. cbn [s_hash s_nonce].
  repeat match goal with E : negb _ = false |- _ => apply negb_false_iff in E end. zbool. subst. split_and!; [done|done|done|by eexists].
Qed.

Lemma inv_at w lf l pre done_ post :
  l_sha256 l = sha → lf = None ∨ lf = Some l → history w = pre ++ done_ ++ post → logged (l_sent l) pre done_ → inv (MkDisk w lf).
Proof. intros Hsha [-> | ->] Hh Hl l' Hl'; [done|]. injection Hl' as <-. split; [done|]. by exists pre, done_, post. Qed.

(** The file's transactions, each once and in order, are the sender's latest. *)
Definition completed (d : disk W) : Prop :=
  ∃ pre hashes calls, mapM call_of txs = Ok calls ∧ length hashes = length calls ∧ history (d_world d) = pre ++ zip calls hashes.

Lemma logged_completed ss pre done_ d : logged ss pre done_ → length done_ = length txs → history (d_world d) = pre ++ done_ → completed d.
Proof.
  intros [Hc _ _] Hl Hh. rewrite Hl, take_ge in Hc by lia. exists pre, (snd <$> done_), (fst <$> done_). split; [|split].
  - apply mapM_Ok_Forall2. clear -Hc. induction Hc; constructor; done.
  - by rewrite !length_fmap.
  - rewrite Hh. f_equal. clear. induction done_ as [|[c h] l IH]; [done|]. cbn [fmap list_fmap zip zip_with fst snd]. by f_equal.
Qed.

(** The loop: what is written is logged, and when it returns everything is. *)
Lemma send_loop_ok budget i rest d l d' e pre done_ :
  quiet (d_world d) → l_sha256 l = sha → (d_log d = None ∨ d_log d = Some l) → rest = drop (length done_) txs →
  history (d_world d) = pre ++ done_ → logged (l_sent l) pre done_ →
  send_loop budget sender i rest d l = (d', e) →
  history (d_world d) `prefix_of` history (d_world d') ∧ inv d' ∧ (e = Returned → completed d').
Proof.
  revert budget i d l done_. induction rest as [|t rest IH]; intros budget i [w lf] l done_ Hq Hsha Hlog Hrest Hhist Hl Hrun; cbn [send_loop d_world d_log] in *.
  { injection Hrun as <- <-. split; [done|]. split; [eapply inv_at; [done..| |done]; by rewrite app_nil_r|]. intros _.
    destruct (logged_length _ _ _ Hl) as [_ Hle]. apply (logged_completed _ _ _ _ Hl); [|done]. apply (f_equal length) in Hrest. rewrite length_drop in Hrest. cbn [length] in Hrest. lia. }
  assert (inv (MkDisk w lf)) as Hinv by (eapply inv_at; [done..| |done]; by rewrite app_nil_r).
  assert (txs !! length done_ = Some t) as Ht by (by rewrite <- (Nat.add_0_r (length done_)), <- lookup_drop, <- Hrest).
  destruct (simulate w sender t) as [[err|]|]; [by injection Hrun as <- <-| |by injection Hrun as <- <-].
  destruct budget as [|budget]; [by injection Hrun as <- <-|]. destruct (call_of t) as [c|] eqn:Ec; [|by injection Hrun as <- <-].
  destruct (cast_send w sender c) as [w1 r] eqn:Es. pose proof (doc_appends _ _ _ _ Es) as Happ.
  assert (inv (MkDisk w1 lf)) as Hinv1 by (destruct Happ as [post Hp]; eapply inv_at; [done..| |done]; by rewrite Hp, Hhist, <- app_assoc).
  destruct (r ≫= λ r, confirm w1 sender i t r) as [entry|] eqn:Ecf; [|by injection Hrun as <- <-].
  destruct budget as [|budget]; [by injection Hrun as <- <-|].
  destruct r as [r|]; [|done]. cbn [mbind result_bind] in Ecf. apply confirm_Ok in Ecf as (Hst & Hfrom & Hhash & n & Hn & Hnonce).
  destruct (doc_sent _ _ _ _ Hq Es Hst Hfrom) as (h & Hh & Hhist1 & Hq1 & Hnn). rewrite Hh in Hhash, Hn. specialize (Hnn _ Hn). rewrite Hnn in Hnonce. apply Ok_inj in Hnonce.
  destruct (IH budget (i + 1) (MkDisk w1 (Some (MkLog (l_sha256 l) (l_sent l ++ [entry])))) (MkLog (l_sha256 l) (l_sent l ++ [entry])) (done_ ++ [(c, h)])) as (Hp & Hi & Hc).
  - done.
  - done.
  - by right.
  - rewrite length_app. cbn [length]. rewrite <- drop_drop, <- Hrest. done.
  - cbn [d_world]. by rewrite Hhist1, Hhist, app_assoc.
  - cbn [l_sent]. apply (logged_snoc _ _ _ t); try done. by rewrite <- Hnonce, Hhist.
  - exact Hrun.
  - split; [|done]. cbn [d_world] in Hp. by transitivity (history w1).
Qed.

Lemma resume_checks_ok d l :
  inv d → resume_checks p sha d = Ok l →
  quiet (d_world d) ∧ l_sha256 l = sha ∧ (d_log d = None ∨ d_log d = Some l) ∧
  ∃ pre done_, history (d_world d) = pre ++ done_ ∧ logged (l_sent l) pre done_.
Proof.
  intros Hi Hr. unfold resume_checks in Hr. inv_ok.
  repeat match goal with E : negb _ = false |- _ => apply negb_false_iff in E end. zbool. subst.
  match goal with E : eth_getTransactionCount _ _ false = Ok ?a, E2 : eth_getTransactionCount _ _ true = Ok ?b, Ea : py_int16 ?a = Ok ?x, Eb : py_int16 ?b = Ok ?y |- _ =>
    assert (quiet (d_world d)) as Hq by (apply (doc_quiet _ a b); [done..|]; by rewrite Ea, Eb); pose proof (doc_mined _ _ E) as Hm; rewrite Hm in Ea; apply Ok_inj in Ea as Hmined end.
  split; [done|]. unfold load_log in *. destruct (d_log d) as [l0|] eqn:El.
  - inv_ok. match goal with E : l0 = l |- _ => subst l0 end. destruct (Hi _ El) as (Hsha & pre & done_ & post & Hh & Hl). split; [done|]. split; [by right|].
    destruct (last (l_sent l)) as [s|] eqn:Els.
    + destruct (logged_length _ _ _ Hl) as [Hlen _]. assert (post = []) as ->; [|exists pre, done_; by rewrite Hh, app_nil_r].
      rewrite last_lookup in Els. pose proof (lg_nonces _ _ _ Hl _ _ Els) as Hn.
      assert (zlen (history (d_world d)) = zlen pre + zlen done_ + zlen post) as Hz by (rewrite Hh; unfold zlen; rewrite !length_app; lia).
      match goal with E : raise_if (negb (?a =? ?b)) _ = Ok _ |- _ => destruct (Z.eqb_spec a b) as [Hlast|]; [|done] end.
      apply lookup_lt_Some in Els. apply length_zero_iff_nil. unfold zlen in *. lia.
    + apply last_None in Els. rewrite Els. exists (history (d_world d)), []. rewrite app_nil_r. split; [done|]. apply logged_nil.
  - match goal with E : Ok _ = Ok l |- _ => apply Ok_inj in E as <- end. split; [done|]. split; [by left|].
    exists (history (d_world d)), []. rewrite app_nil_r. split; [done|]. apply logged_nil.
Qed.

Lemma send_main_ok budget dry_run d d' e :
  inv d → main budget p sha dry_run d = (d', e) →
  history (d_world d) `prefix_of` history (d_world d') ∧ inv d' ∧ (dry_run = false → e = Returned → completed d').
Proof.
  intros Hi Hm. unfold main in Hm. destruct (resume_checks p sha d) as [l|] eqn:Er; [|by injection Hm as <- <-].
  destruct (resume_checks_ok d l Hi Er) as (Hq & Hsha & Hlog & pre & done_ & Hh & Hl). destruct (logged_length _ _ _ Hl) as [Hlen _].
  destruct (bool_decide_reflect (length (l_sent l) = length txs)) as [Hall|Hall].
  { injection Hm as <- <-. split; [done|]. split; [done|]. intros _ _. apply (logged_completed _ _ _ _ Hl); [lia|done]. }
  destruct dry_run.
  { destruct (drop _ _) as [|t ?]; [by injection Hm as <- <-|]. destruct (simulate _ _ _); by injection Hm as <- <-. }
  rewrite Hlen in Hm. destruct (send_loop_ok budget _ _ d l d' e pre done_ Hq Hsha Hlog eq_refl Hh Hl Hm) as (? & ? & ?). done.
Qed.

Lemma step_inv d d' : step d d' → inv d → inv d'.
Proof.
  intros [budget dry d0|w w' lf [ext Hext]] Hi.
  - destruct (main budget p sha dry d0) as [d1 e] eqn:Em. by apply (send_main_ok _ _ _ _ _ Hi) in Em as (_ & ? & _).
  - intros l Hl. destruct (Hi l Hl) as (? & pre & done_ & post & Hh & ?). split; [done|]. exists pre, done_, (post ++ ext). cbn [d_world] in *. by rewrite Hext, Hh, <- !app_assoc.
Qed.

Lemma reachable_inv w d : rtc step (MkDisk w None) d → inv d.
Proof.
  intros Hr. remember (MkDisk w None) as d0 eqn:E0. assert (inv d0) as Hi by (by subst). clear E0.
  induction Hr as [|? ? ? Hs _ IH]; [done|]. apply IH. by eapply step_inv.
Qed.
End send.

(** However runs are stopped, repeated and mixed with other transactions of the account, the
    log only lists transactions that are on the chain, the first ones of the file, in its
    order and with nothing of the account between them. *)
Theorem log_follows_chain {W} `{Wallet W} (p : plan) (sha : str) `{!WalletDocumented W (lower (p_from p))} w d l :
  rtc (step p sha) (MkDisk w None) d → d_log d = Some l →
  ∃ pre done_ post, history (sender := lower (p_from p)) (d_world d) = pre ++ done_ ++ post ∧
    Forall2 (λ t m, call_of t = Ok m.1) (take (length (l_sent l)) (p_transactions p)) done_ ∧ Forall2 (λ s m, s_hash s = Some m.2) (l_sent l) done_.
Proof.
  intros Hr Hl. destruct (reachable_inv p sha w d Hr l Hl) as (_ & pre & done_ & post & Hh & Hlg). exists pre, done_, post. split; [done|].
  destruct (logged_length _ _ _ _ Hlg) as [-> _]. split; [apply Hlg|apply Hlg].
Qed.


(** ** Sending a planned release *)

Definition planned (c : planned_call) : call := MkEthCall (c_to c) (Airdrop.hex0x (c_data c)) (c_value c).

Lemma calldata_calls chain_id owner calls notes :
  length notes = length calls → mapM call_of (p_transactions (calldata_record chain_id owner calls notes)) = Ok (planned <$> calls).
Proof.
  intros Hl. apply mapM_Ok_Forall2. cbn [p_transactions calldata_record]. revert notes Hl. induction calls as [|c calls IH]; intros [|n notes] Hl; try done.
  injection Hl as Hl. cbn [zip_with fmap list_fmap]. constructor; [|by apply IH]. unfold call_of. cbn [t_value t_to t_data]. by rewrite int_str_of_Z.
Qed.


(** ** Runs that complete *)

(** A node and a wallet that accept everything. *)
Record obliging {W} `{Wallet W} (sender : str) `{!WalletDocumented W sender} : Prop := {
  ob_call w c : eth_call w sender c = Ok ();
  ob_send w c : quiet w → ∃ w' r b n, cast_send w sender c = (w', Ok r) ∧ py_int16 (default ("0x0"%string : str) (r_status r)) = Ok 1 ∧
    lower (default [] (r_from r)) = sender ∧ r_block r = Some b ∧ py_int16 b = Ok n ∧
    ∃ s k, eth_getTransactionByHash w' (r_hash r) = Ok s ∧ py_int16 s = Ok k;
}.

Lemma send_loop_returns {W} `{Wallet W} sender `{!WalletDocumented W sender} budget i rest d l :
  obliging sender → quiet (d_world d) → Forall (λ t, is_ok (call_of t) = true) rest → (2 * length rest ≤ budget)%nat →
  ∃ d', send_loop budget sender i rest d l = (d', Returned).
Proof.
  intros [Oc Os]. revert budget i d l. induction rest as [|t rest IH]; intros budget i [w lf] l Hq Hc Hb; cbn [send_loop]; [by eexists|].
  apply Forall_cons in Hc as [Hct Hc]. cbn [d_world d_log] in *. unfold simulate. destruct (call_of t) as [c|] eqn:Ec; [|done]. cbn [mbind result_bind]. rewrite Oc.
  cbn [length] in Hb. destruct budget as [|[|budget]]; [lia|lia|].
  destruct (Os w c Hq) as (w' & r & b & n & Hs & Hst & Hf & Hbl & Hbn & sx & nx & Hsx & Hnx). rewrite Hs. cbn [mbind result_bind].
  unfold confirm. rewrite Hst. cbn [mbind result_bind]. rewrite bool_decide_eq_true_2 by done. cbn [negb raise_if mbind result_bind Z.eqb Pos.eqb].
  rewrite Hsx. cbn [mbind result_bind]. rewrite Hnx. cbn [mbind result_bind]. rewrite Hbl. cbn [of_option mbind result_bind]. rewrite Hbn. cbn [mbind result_bind].
  destruct (doc_sent w c w' r Hq Hs Hst Hf) as (h & _ & _ & Hq' & _). apply IH; [done|done|lia].
Qed.

(** When the checks before sending pass and the node accepts every transaction, a run that is
    not interrupted returns, with the whole file sent. *)
Theorem accepted_run_completes {W} `{Wallet W} (p : plan) (sha : str) `{!WalletDocumented W (lower (p_from p))} w d l budget :
  rtc (step p sha) (MkDisk w None) d → resume_checks p sha d = Ok l → obliging (lower (p_from p)) →
  Forall (λ t, is_ok (call_of t) = true) (p_transactions p) → (2 * length (p_transactions p) ≤ budget)%nat →
  ∃ d' pre hashes calls, main budget p sha false d = (d', Returned) ∧ mapM call_of (p_transactions p) = Ok calls ∧
    length hashes = length calls ∧ history (sender := lower (p_from p)) (d_world d') = pre ++ zip calls hashes.
Proof.
  intros Hr Hc Ho Hcalls Hb. pose proof (reachable_inv p sha w d Hr) as Hi. destruct (resume_checks_ok p sha d l Hi Hc) as (Hq & _).
  assert (∃ d', main budget p sha false d = (d', Returned)) as [d' Hm].
  { unfold main. rewrite Hc. destruct (bool_decide _); [by eexists|]. apply (send_loop_returns (lower (p_from p)) budget); [done|done|by apply Forall_drop|rewrite length_drop; lia]. }
  exists d'. destruct (send_main_ok p sha _ _ _ _ _ Hi Hm) as (_ & _ & Hcm). destruct (Hcm eq_refl eq_refl) as (pre & hashes & calls & ? & ? & ?). by exists pre, hashes, calls.
Qed.

(** * An example *)

(** A number as a node writes it. *)
Definition demo_quantity (n : nat) : str := Airdrop.hex0x (to_be (S n) (Z.of_nat n)).

Lemma demo_quantity_int n : py_int16 (demo_quantity n) = Ok (Z.of_nat n).
Proof.
  unfold demo_quantity, Airdrop.hex0x. destruct (py_int16_hex (to_be (S n) (Z.of_nat n))) as [_ ->]; [apply to_be_ok| |].
  - intros E%(f_equal length). by rewrite length_to_be in E.
  - f_equal. apply from_to_be. split; [lia|]. apply Z.lt_le_trans with (256 ^ Z.of_nat n * 256).
    + assert (Z.of_nat n < 256 ^ Z.of_nat n) by (apply Z.pow_gt_lin_r; lia). lia.
    + rewrite Nat2Z.inj_succ, Z.pow_succ_r by lia. lia.
Qed.

(** A chain that takes every transaction. *)
Definition demo_ledger : Type := list (call * str).

Definition demo_receipt (sender hash : str) : receipt :=
  MkReceipt (Some ("0x1"%string : str)) (Some hash) (Some sender) (Some ("0x10"%string : str)).

#[local] Instance demo_wallet : Wallet demo_ledger := {
  eth_chainId _ := Ok ("0x38"%string : str);
  eth_getTransactionReceipt _ _ := Ok (Some ("0x1"%string : str));
  eth_getTransactionCount l _ _ := Ok (demo_quantity (length l));
  eth_call _ _ _ := Ok ();
  eth_getTransactionByHash _ h := Ok (default ("0x0"%string : str) h);
  cast_send l sender c := (l ++ [(c, demo_quantity (length l))], Ok (demo_receipt sender (demo_quantity (length l)))) }.

#[local] Instance demo_documented sender : WalletDocumented demo_ledger sender.
Proof.
  refine {| history := id; base := 0; quiet _ := True |}.
  - intros w s H0. cbn [eth_getTransactionCount demo_wallet] in H0. apply Ok_inj in H0 as <-. by rewrite demo_quantity_int.
  - done.
  - intros w c w' r _ H0 _ _. cbn [cast_send demo_wallet] in H0. injection H0 as <- <-.
    exists (demo_quantity (length w)). split; [done|]. split; [done|]. split; [done|]. intros s H0. apply Ok_inj in H0 as <-. cbn [from_option id]. by rewrite demo_quantity_int.
  - intros w c w' r H0. cbn [cast_send demo_wallet] in H0. injection H0 as <- _. by eexists.
Defined.

Definition demo_owner : str := demo_text 34.
Definition demo_notes : list str := replicate 10 ("release"%string : str).
Definition demo_file : plan := Eval vm_compute in calldata_record 56 demo_owner demo_calls demo_notes.
Definition demo_sha : str := "d0"%string.
(** Another transaction of the account; the first run is stopped after its third transaction is logged. *)
Definition demo_start : demo_ledger := [(MkEthCall demo_owner [] 5, demo_quantity 0)].
Definition demo_stopped : disk demo_ledger := Eval vm_compute in (main 6 demo_file demo_sha false (MkDisk demo_start None)).1.
Definition demo_end : disk demo_ledger := Eval vm_compute in (main 100 demo_file demo_sha false demo_stopped).1.

Lemma demo_stopped_reachable : rtc (step demo_file demo_sha) (MkDisk demo_start None) demo_stopped.
Proof. apply rtc_once. replace demo_stopped with (main 6 demo_file demo_sha false (MkDisk demo_start None)).1 by (by vm_compute). apply step_run. Qed.

Lemma demo_resumed : main 100 demo_file demo_sha false demo_stopped = (demo_end, Returned).
Proof. by vm_compute. Qed.

Lemma log_follows_chain_witness :
  ∃ l pre done_ post, d_log demo_stopped = Some l ∧ length (l_sent l) = 3%nat ∧ d_world demo_stopped = pre ++ done_ ++ post ∧
    Forall2 (λ t m, call_of t = Ok m.1) (take (length (l_sent l)) (p_transactions demo_file)) done_.
Proof.
  destruct (d_log demo_stopped) as [l|] eqn:El; [|by vm_compute in El].
  destruct (log_follows_chain demo_file demo_sha demo_start demo_stopped l demo_stopped_reachable El) as (pre & done_ & post & Hh & Hc & _).
  exists l, pre, done_, post. split; [done|]. split; [by vm_compute in El; injection El as <-|]. by split.
Defined.



Lemma accepted_run_completes_witness :
  ∃ d' pre hashes calls, main 20 demo_file demo_sha false demo_stopped = (d', Returned) ∧ mapM call_of (p_transactions demo_file) = Ok calls ∧
    length hashes = length calls ∧ d_world d' = pre ++ zip calls hashes.
Proof.
  destruct (resume_checks demo_file demo_sha demo_stopped) as [l|] eqn:Er; [|by vm_compute in Er].
  destruct (accepted_run_completes demo_file demo_sha demo_start demo_stopped l 20) as (d' & pre & hashes & calls & Hm & Hc & Hl & Hh).
  - exact demo_stopped_reachable.
  - exact Er.
  - split; [done|]. intros w c _. do 4 eexists. split; [done|]. split; [by vm_compute|]. split; [by vm_compute|]. split; [done|]. split; [by vm_compute|].
    eexists _, _. split; [done|]. cbn [r_hash demo_receipt from_option id]. apply demo_quantity_int.
  - repeat (apply Forall_cons_2; [by vm_compute|]). apply Forall_nil_2.
  - cbn. lia.
  - exists d', pre, hashes, calls. split; [exact Hm|]. split; [exact Hc|]. split; [exact Hl|exact Hh].
Defined.

(** The case outside: the first run stops between its first transaction and the log, and the
    first transaction is on the chain twice. *)
Lemma first_transaction_repeated :
  let stopped := (main 1 demo_file demo_sha false (MkDisk [] None)).1 in
  let resumed := main 20 demo_file demo_sha false stopped in
  d_log stopped = None ∧ resumed.2 = Returned ∧ (fst <$> d_world resumed.1) = take 1 (planned <$> demo_calls) ++ (planned <$> demo_calls).
Proof. cbn zeta. split_and!; by vm_compute. Qed.
