(* ===== verification/Package.v ===== *)
(** Signable packages: bridge-claims/tools/package.py.  A run directory holds packages, and its
    record PACKAGES.json says which of them are current.  [staged] refreshes packages:
    it takes its targets out of the record, builds and seals them in staging
    directories, moves the earlier ones aside, renames the new ones into place and lists
    them.  [verify] says which packages may be signed.

    The run directory is its plain files by path; a directory is the files below it.
    Every change of a file or of the record is an effect, and each effect may succeed,
    fail before or after it took place, or be the last thing that happens: the faults
    of [world].  Symbolic links, the lock and file modes are outside the model.

    Shown: a refresh that is not disturbed lists its targets and [verify] finds them
    current; stopped or failing anywhere, as long as no write of the record fails, none
    of its targets is current, and after a crash nothing in the run is; a package that
    [verify] calls current has exactly the files that were sealed, or SHA-256 collides.
    A failing last write of the record is the case outside: the clean-up then writes a
    record that lists the targets. *)

From S2P Require Import Prelude PyStr PyDict Csv Sha256.
Local Open Scope Z_scope.

(** * The code *)

Definition MANIFEST : str := "PACKAGE.sha256"%string.
Definition GENERATION : str := "GENERATION"%string.
Definition SUPERSEDED : str := "superseded"%string.
Definition QUARANTINE : str := "quarantine"%string.
Definition INVALIDATED : str := "INVALIDATED.md"%string.

(** ** Paths and files *)

Definition SEP : ascii := "/"%char.
(** [os.path.join], [os.path.dirname] and [os.path.basename] of relative paths. *)
Definition path_join (d p : str) : str := if bool_decide (d = []) then p else d ++ [SEP] ++ p.
Definition dirname (p : str) : str := let '(_, found, d) := partition SEP (reverse p) in if found then reverse d else [].
Definition basename (p : str) : str := reverse (partition SEP (reverse p)).1.1.

(** [p.split(os.sep)]; [part] is what has been read of the current part. *)
Fixpoint components (part p : str) : list str :=
  match p with
  | [] => [part]
  | c :: p => if bool_decide (c = SEP) then part :: components [] p else components (part ++ [c]) p
  end.

Definition files : Type := dict str str.

(** [p] lies below the directory [d]. *)
Definition below (d p : str) : bool := startswith p (d ++ [SEP]).
Definition at_or_below (d p : str) : bool := bool_decide (p = d) || below d p.
Definition lexists (fs : files) (p : str) : bool := existsb (λ kv, at_or_below p kv.1) fs.
Definition isdir (fs : files) (p : str) : bool := existsb (λ kv, below p kv.1) fs.

(** [os.replace(src, dst)] of a file or directory. *)
Definition moved (src dst p : str) : str := if at_or_below src p then dst ++ drop (length src) p else p.
Definition replace (src dst : str) (fs : files) : files := (λ kv, (moved src dst kv.1, kv.2)) <$> fs.

Definition write (p text : str) (fs : files) : files := dset fs p text.
Definition remove (p : str) (fs : files) : files := filter (λ kv, at_or_below p kv.1 = false) fs.

Definition file_sha256 (text : str) : str := hex (sha256 (ords text)).

(** The files of a package with their names in it. *)
Definition tree (fs : files) (d : str) : list (str * str) :=
  (λ kv, (drop (length d + 1) kv.1, kv.2)) <$> filter (λ kv, below d kv.1 = true) fs.
Definition regular_tree (fs : files) (d : str) : list str := sort_str id (fst <$> tree fs d).

(** ** Sealing *)

Definition seal_line (nc : str * str) : str := file_sha256 nc.2 ++ "  "%string ++ nc.1.
Definition seal_text (fs : files) (d : str) : str :=
  let named := filter (λ nc, nc.1 ≠ MANIFEST) (sort_str fst (tree fs d)) in
  concat ((λ line, line ++ [LF]) <$> sort_str (drop 66) (seal_line <$> named)).

(** ** The record *)

Record entry := MkEntry { en_generation : str; en_package_sha256 : str; en_published_at : str }.
Inductive operation := Refresh (targets : list str) | Quarantine (journal : str).
Record pending := MkPending { pe_operation : operation; pe_started_at : str }.
Record run_record := MkRecord { rr_revision : Z; rr_pending : option pending; rr_packages : dict str entry }.

Definition empty_record : run_record := MkRecord 0 None [].
Definition unlist (r : run_record) (paths : list str) : run_record :=
  MkRecord (rr_revision r) (rr_pending r) (filter (λ pe, existsb (λ q, at_or_below q pe.1) paths = false) (rr_packages r)).
Definition set_pending (p : option pending) (r : run_record) : run_record := MkRecord (rr_revision r) p (rr_packages r).

(** ** Effects *)

(** What becomes of an effect. *)
Inductive fault := Fine | Fails | FailsLate | Crashes.

(** The run directory: its files, its record, and the faults still to come of each kind. *)
Record world := MkWorld { w_files : files; w_record : option run_record; w_faults : list fault; w_record_faults : list fault }.

Inductive outcome (W A : Type) := Done (a : A) (w : W) | Raised (e : exn) (w : W) | Crashed (w : W).
Arguments Done {W A} a w.
Arguments Raised {W A} e w.
Arguments Crashed {W A} w.

Definition M (A : Type) : Type := world → outcome world A.
#[export] Instance M_ret : MRet M := λ A a w, Done a w.
#[export] Instance M_bind : MBind M := λ A B f m w,
  match m w with Done a w => f a w | Raised e w => Raised e w | Crashed w => Crashed w end.
Definition raise {A} (e : exn) : M A := λ w, Raised e w.
Definition get : M world := λ w, Done w w.
(** [try: m except e: h(e)]. *)
Definition catch {A} (m : M A) (h : exn → M A) : M A := λ w,
  match m w with Raised e w => h e w | o => o end.

Definition os_error : exn := RuntimeError "OSError".

Definition effect (f : files → files) : M unit := λ w,
  let after := MkWorld (f (w_files w)) (w_record w) (tail (w_faults w)) (w_record_faults w) in
  match head (w_faults w) with
  | None | Some Fine => Done () after
  | Some Fails => Raised os_error (MkWorld (w_files w) (w_record w) (tail (w_faults w)) (w_record_faults w))
  | Some FailsLate => Raised os_error after
  | Some Crashes => Crashed w
  end.

(** [write_record] changes the record it is given before it writes it. *)
Definition next_revision (r : run_record) : run_record := MkRecord (rr_revision r + 1) (rr_pending r) (rr_packages r).
Definition write_record (r : run_record) : M unit := λ w,
  let after := MkWorld (w_files w) (Some r) (w_faults w) (tail (w_record_faults w)) in
  match head (w_record_faults w) with
  | None | Some Fine => Done () after
  | Some Fails => Raised os_error (MkWorld (w_files w) (w_record w) (w_faults w) (tail (w_record_faults w)))
  | Some FailsLate => Raised os_error after
  | Some Crashes => Crashed w
  end.

Fixpoint each {A} (f : A → M unit) (l : list A) : M unit :=
  match l with [] => mret () | x :: l => _ ← f x; each f l end.

(** ** Setting aside *)

(** The first free name; the numbers tried are bounded by the number of files. *)
Fixpoint free_name (fuel : nat) (fs : files) (base : str) (n : Z) : option str :=
  let dest := if n =? 1 then base else base ++ "-"%string ++ str_of_Z n in
  match fuel with
  | O => None
  | S fuel => if lexists fs dest then free_name fuel fs base (n + 1) else Some dest
  end.

Definition set_aside (stamp : str) (target : str) (note : option str) : M (option str) :=
  w ← get;
  if lexists (w_files w) target then
    if isdir (w_files w) target then
      let root := path_join (dirname target) SUPERSEDED in
      let base := root ++ [SEP] ++ basename target ++ "-"%string ++ stamp in
      match free_name (length (w_files w) + 1) (w_files w) base 1 with
      | None => raise (RuntimeError "no free name")
      | Some dest =>
          _ ← effect (replace target dest);
          _ ← (match note with None => mret () | Some text => effect (write (dest ++ [SEP] ++ INVALIDATED) text) end);
          mret (Some dest)
      end
    else raise (ValueError "a package must be a directory, not a link or file")
  else mret None.

(** ** Refreshing *)

Fixpoint each_result {A B} (f : A → M B) (l : list A) : M (list B) :=
  match l with [] => mret [] | x :: l => y ← f x; ys ← each_result f l; mret (y :: ys) end.

Definition ignore (m : M unit) : M unit := catch m (λ _, mret ()).

Definition staging_prefix (rel : str) : str := "."%string ++ basename rel ++ "-staging-"%string.

(** [shutil.rmtree] of the staging directories an interrupted refresh left. *)
Definition leftover (rel p : str) : bool :=
  let pre := path_join (dirname rel) (staging_prefix rel) in startswith p pre && bool_decide (SEP ∈ drop (length pre) p).
Definition remove_leftovers (rel : str) (fs : files) : files := filter (λ kv, leftover rel kv.1 = false) fs.

Definition invalidation_note (rel stamp reason : str) : str :=
  "# Invalidated, do not sign"%string ++ [LF; LF] ++ "This package was moved out of `"%string ++ basename rel ++ "/` "%string ++
  "at "%string ++ stamp ++ " because a rebuild of it failed:"%string ++ [LF; LF] ++ "```text"%string ++ [LF] ++ reason ++ [LF] ++ "```"%string ++ [LF; LF] ++
  "Nothing in this directory may be signed or sent. Fix the cause and rebuild."%string ++ [LF].

(** [fail_closed]; [record] is the record as the refresh left it in memory. *)
Definition fail_closed (stamp : str) (rels dirs : list str) (record : run_record) (reason : str) : M unit :=
  _ ← each (λ d, ignore (effect (remove d))) dirs;
  _ ← each (λ rel, ignore (_ ← set_aside stamp rel (Some (invalidation_note rel stamp reason)); mret ())) rels;
  ignore (write_record (next_revision (set_pending None record))).

(** What the block of a refresh writes into its staging directories, and how it ends. *)
Record build := MkBuild { b_writes : list (str * str * str); b_error : option exn }.

Section refresh.
(** The time, the generation of the refresh, the random parts of the staging directories' names and
    the text of an exception. *)
Context (stamp generation : str) (random : str → str) (text_of : exn → str).

Definition staging_dir (rel : str) : str := path_join (dirname rel) (staging_prefix rel ++ random rel).

Definition run_block (b : build) : M unit :=
  _ ← each (λ wr : str * str * str, effect (write (staging_dir wr.1.1 ++ [SEP] ++ wr.1.2) wr.2)) (b_writes b);
  match b_error b with None => mret () | Some e => raise e end.

(** [seal]: the list of files is written and its SHA-256 returned. *)
Definition seal (d : str) : M str :=
  w ← get;
  let text := seal_text (w_files w) d in
  _ ← effect (write (d ++ [SEP] ++ MANIFEST) text);
  mret (file_sha256 text).

Definition seal_target (rel : str) : M str :=
  _ ← effect (write (staging_dir rel ++ [SEP] ++ GENERATION) (generation ++ [LF]));
  seal (staging_dir rel).

Definition set_aside_target (rel : str) : M unit := _ ← set_aside stamp rel None; mret ().
Definition place_target (rel : str) : M unit := effect (replace (staging_dir rel) rel).

Definition build_and_place (rels : list str) (b : build) : M (list str) :=
  _ ← each (λ _, effect id) rels;
  _ ← run_block b;
  published ← each_result seal_target rels;
  _ ← each set_aside_target rels;
  _ ← each place_target rels;
  mret published.

Definition list_package (r : run_record) (rp : str * str) : run_record :=
  MkRecord (rr_revision r) (rr_pending r) (dset (rr_packages r) rp.1 (MkEntry generation rp.2 stamp)).

(** A failure of the refresh: [fail_closed], then the exception goes on. *)
Definition closing {A} (rels : list str) (record : run_record) (m : M A) : M A :=
  catch m (λ e, _ ← fail_closed stamp rels (staging_dir <$> rels) record (text_of e); raise e).

Definition staged (rels : list str) (replace_ : bool) (b : build) : M unit :=
  if bool_decide (NoDup rels) then
    w ← get;
    let record := default empty_record (w_record w) in
    _ ← (match rr_pending record with
         | Some (MkPending (Quarantine _) _) => raise (SystemExit "a quarantine was interrupted; finish it first")
         | Some (MkPending (Refresh targets) _) => each (λ rel, ignore (effect (remove_leftovers rel))) targets
         | None => mret ()
         end);
    w ← get;
    if existsb (lexists (w_files w)) rels && negb replace_ then raise (SystemExit "exists; pass --replace") else
    let record := next_revision (set_pending (Some (MkPending (Refresh (sort_str id rels)) stamp)) (unlist record rels)) in
    _ ← write_record record;
    published ← closing rels record (build_and_place rels b);
    let record := next_revision (set_pending None (foldl list_package record (zip rels published))) in
    closing rels record (write_record record)
  else raise (SystemExit "the same package path is named twice").

End refresh.

(** ** Verifying *)

(** The lines of a text file without their ends. *)
Fixpoint text_lines (line s : str) : list str :=
  match s with
  | [] => if bool_decide (line = []) then [] else [line]
  | c :: s =>
      if bool_decide (c = LF) then line :: text_lines [] s
      else if bool_decide (c = CR) then line :: text_lines [] (match s with d :: s' => if bool_decide (d = LF) then s' else s | [] => s end)
      else text_lines (line ++ [c]) s
  end.

(** [s.partition("  ")] without the separator. *)
Fixpoint partition_spaces (s : str) : str * str :=
  match s with
  | c :: ((d :: s') as t) =>
      if bool_decide (c = " "%char) && bool_decide (d = " "%char) then ([], s') else let '(a, b) := partition_spaces t in (c :: a, b)
  | _ => (s, [])
  end.

(** The names a manifest lists with their digests. *)
Definition listed (text : str) : dict str str :=
  foldl (λ d line, let '(digest, name) := partition_spaces line in dset d name digest) [] (text_lines [] text).

Inductive problem := Missing | NoManifest | OtherManifest | NotListed (name : str) | FileMissing (name : str) | Differs (name : str) | OtherGeneration | NoGeneration.

Definition check_name (fs : list (str * str)) (l : dict str str) (name : str) : list problem :=
  match dget l name, dget fs name with
  | None, _ => [NotListed name]
  | Some _, None => [FileMissing name]
  | Some digest, Some text => if bool_decide (file_sha256 text = digest) then [] else [Differs name]
  end.

Definition check_package (fs : files) (rel : str) (e : entry) : list problem :=
  if negb (isdir fs rel) then [Missing] else
  let t := tree fs rel in
  match dget t MANIFEST with
  | None => [NoManifest]
  | Some text =>
      let l := listed text in
      let names := sort_str id (remove_dups (filter (λ n, n ≠ MANIFEST) (regular_tree fs rel) ++ dkeys l)) in
      (if bool_decide (file_sha256 text = en_package_sha256 e) then [] else [OtherManifest]) ++
      concat (check_name t l <$> names) ++
      match dget t GENERATION with
      | Some g => if bool_decide (strip g = en_generation e) then [] else [OtherGeneration]
      | None => [NoGeneration]
      end
  end.

(** [verify]: a package is current when the record lists it, nothing is pending and the check finds nothing. *)
Definition current (w : world) (rel : str) : bool :=
  let r := default empty_record (w_record w) in
  match dget (rr_packages r) rel with
  | None => false
  | Some e => bool_decide (check_package (w_files w) rel e = []) && bool_decide (rr_pending r = None)
  end.

(** Directories with a manifest that the record does not list, in the order of [os.walk] over sorted names:
    a path comes before the paths below it and these before its later siblings, as when the
    separator were the least character. *)
Definition walked (d : str) : bool :=
  forallb (λ name, negb (bool_decide (name = SUPERSEDED) || bool_decide (name = QUARANTINE) || startswith name "."%string)) (components [] d).
Definition walk_key (d : str) : str := (λ c, if bool_decide (c = SEP) then "000"%char else c) <$> d.
Definition unlisted_packages (fs : files) (r : run_record) : list str :=
  let manifests := filter (λ p, basename p = MANIFEST) (dkeys fs) in
  sort_str walk_key (filter (λ d, walked d = true ∧ d ≠ [] ∧ d ∉ dkeys (rr_packages r)) (dirname <$> manifests)).

Definition verify (w : world) (only : list str) : list (str * bool) :=
  let r := default empty_record (w_record w) in
  let wanted := if bool_decide (only = []) then sort_str id (dkeys (rr_packages r)) else only in
  ((λ rel, (rel, current w rel)) <$> wanted) ++
  (if bool_decide (only = []) then (λ rel, (rel, false)) <$> unlisted_packages (w_files w) r else []).

(** The exit status of the command: at least one result, and all of them current. *)
Definition verify_passes (w : world) (only : list str) : bool :=
  let results := verify w only in negb (bool_decide (results = [])) && forallb snd results.

(** * A disturbed refresh *)

#[export] Instance operation_eq_dec : EqDecision operation.
Proof. solve_decision. Defined.

(** No write of the record fails; the process may still stop there. *)
Definition record_safe (w : world) : Prop := Forall (λ f, f = Fine ∨ f = Crashes) (w_record_faults w).

(** The world an outcome leaves. *)
Definition left_by {A} (o : outcome world A) : world := match o with Done _ w => w | Raised _ w => w | Crashed w => w end.

Definition packages_of (w : world) : dict str entry := rr_packages (default empty_record (w_record w)).

(** A computation that leaves the record alone. *)
Definition keeps_record {A} (m : M A) : Prop := ∀ w, w_record (left_by (m w)) = w_record w ∧ w_record_faults (left_by (m w)) = w_record_faults w.

Lemma keeps_ret {A} (a : A) : keeps_record (mret a).
Proof. done. Qed.
Lemma keeps_raise {A} e : keeps_record (raise (A := A) e).
Proof. done. Qed.
Lemma keeps_get : keeps_record get.
Proof. done. Qed.
Lemma keeps_effect f : keeps_record (effect f).
Proof. intros w. unfold effect. by destruct (head (w_faults w)) as [[]|]. Qed.
Lemma keeps_bind {A B} (m : M A) (f : A → M B) : keeps_record m → (∀ a, keeps_record (f a)) → keeps_record (m ≫= f).
Proof.
  intros Hm Hf w. specialize (Hm w). unfold mbind, M_bind. destruct (m w) as [a w1|e w1|w1]; cbn [left_by] in *; [|done..].
  destruct (Hf a w1) as [-> ->]. done.
Qed.
Lemma keeps_catch {A} (m : M A) h : keeps_record m → (∀ e, keeps_record (h e)) → keeps_record (catch m h).
Proof.
  intros Hm Hh w. specialize (Hm w). unfold catch. destruct (m w) as [a w1|e w1|w1]; cbn [left_by] in *; [done| |done]. destruct (Hh e w1) as [-> ->]. done.
Qed.
Lemma keeps_each {A} (f : A → M unit) l : (∀ a, keeps_record (f a)) → keeps_record (each f l).
Proof. intros Hf. induction l as [|x l IH]; cbn [each]; [apply keeps_ret|]. apply keeps_bind; [done|]. by intros _. Qed.
Lemma keeps_each_result {A B} (f : A → M B) l : (∀ a, keeps_record (f a)) → keeps_record (each_result f l).
Proof.
  intros Hf. induction l as [|x l IH]; cbn [each_result]; [apply keeps_ret|]. apply keeps_bind; [done|]. intros y. apply keeps_bind; [done|]. intros ys. apply keeps_ret.
Qed.

Create HintDb keeps.
#[local] Hint Resolve keeps_ret keeps_raise keeps_get keeps_effect keeps_bind keeps_catch keeps_each keeps_each_result : keeps.

Lemma keeps_set_aside stamp target note : keeps_record (set_aside stamp target note).
Proof.
  unfold set_aside. apply keeps_bind; [auto with keeps|]. intros w. destruct (lexists _ _); [|auto with keeps]. destruct (isdir _ _); [|auto with keeps].
  destruct (free_name _ _ _ _); [|auto with keeps]. apply keeps_bind; [auto with keeps|]. intros _. apply keeps_bind; [|auto with keeps]. destruct note; auto with keeps.
Qed.
#[local] Hint Resolve keeps_set_aside : keeps.

Lemma keeps_build stamp generation random rels b : keeps_record (build_and_place stamp generation random rels b).
Proof.
  unfold build_and_place, run_block. apply keeps_bind; [auto with keeps|]. intros _. apply keeps_bind; [apply keeps_bind; [auto with keeps|]; intros _; destruct (b_error b); auto with keeps|].
  intros _. apply keeps_bind.
  { apply keeps_each_result. intros rel. unfold seal_target, seal. apply keeps_bind; [auto with keeps|]. intros _. apply keeps_bind; [auto with keeps|]. intros w. apply keeps_bind; auto with keeps. }
  intros published. apply keeps_bind; [apply keeps_each; intros rel; unfold set_aside_target; apply keeps_bind; auto with keeps|].
  intros _. apply keeps_bind; [|auto with keeps]. apply keeps_each. intros rel. unfold place_target. auto with keeps.
Qed.

Lemma filter_dget_none {A} (P : str * A → Prop) `{!∀ x, Decision (P x)} (d : dict str A) k : (∀ v, ¬ P (k, v)) → dget (filter P d) k = None.
Proof.
  intros Hp. apply dget_None. intros Hk. unfold dkeys in Hk. apply list_elem_of_fmap in Hk as ([k' v] & -> & [Hx _]%list_elem_of_filter). by apply (Hp v).
Qed.

Lemma unlist_none r paths p : p ∈ paths → dget (rr_packages (unlist r paths)) p = None.
Proof.
  intros Hp. cbn [unlist rr_packages]. apply filter_dget_none. intros v. cbn [fst]. rewrite not_false_iff_true. apply existsb_exists. exists p.
  split; [by apply list_elem_of_In|]. unfold at_or_below. by rewrite bool_decide_eq_true_2.
Qed.

(** The record has the targets out. *)
Definition targets_out (rels : list str) (w : world) : Prop := ∃ r, w_record w = Some r ∧ ∀ rel, rel ∈ rels → dget (rr_packages r) rel = None.
(** And marks an operation pending. *)
Definition targets_pending (rels : list str) (w : world) : Prop := targets_out rels w ∧ ∃ r, w_record w = Some r ∧ rr_pending r ≠ None.

Lemma out_not_current rels w rel : targets_out rels w → rel ∈ rels → current w rel = false.
Proof. intros (r & Hr & Hn) Hin. unfold current. rewrite Hr. cbn [from_option id]. by rewrite (Hn _ Hin). Qed.

Lemma pending_not_current rels w p : targets_pending rels w → current w p = false.
Proof.
  intros (_ & r & Hr & Hp). unfold current. rewrite Hr. cbn [from_option id]. destruct (dget _ _); [|done]. by rewrite (bool_decide_eq_false_2 (rr_pending r = None)), andb_false_r.
Qed.

Lemma write_record_cases r w :
  record_safe w → (∃ w', write_record r w = Done () w' ∧ w_record w' = Some r ∧ record_safe w' ∧ w_files w' = w_files w ∧ w_faults w' = w_faults w) ∨ write_record r w = Crashed w.
Proof.
  unfold record_safe, write_record. intros Hs. destruct (w_record_faults w) as [|f fs]; cbn [head tail].
  - left. eexists. split; [done|]. by split_and!.
  - apply Forall_cons in Hs as [[-> | ->] Hs]; [left|by right]. eexists. split; [done|]. by split_and!.
Qed.

(** Computations that leave the record alone keep the targets out, pending and the record safe. *)
Lemma keeps_world {A} (m : M A) w : keeps_record m → w_record (left_by (m w)) = w_record w ∧ (record_safe w → record_safe (left_by (m w))).
Proof. intros Hm. destruct (Hm w) as [Hr Hf]. split; [done|]. unfold record_safe. by rewrite Hf. Qed.

(** A disturbed refresh after its first write: every outcome but success has the targets out,
    and a crash leaves the operation pending. *)
Definition closed {A} (rels : list str) (o : outcome world A) : Prop :=
  match o with
  | Done _ w => True
  | Raised _ w => targets_out rels w
  | Crashed w => targets_pending rels w
  end.

Lemma pending_kept rels w w' : targets_pending rels w → w_record w' = w_record w → targets_pending rels w'.
Proof. unfold targets_pending, targets_out. intros Hp ->. exact Hp. Qed.

Lemma fail_closed_out stamp rels dirs r reason w :
  record_safe w → targets_pending rels w → (∀ rel, rel ∈ rels → dget (rr_packages r) rel = None) →
  match fail_closed stamp rels dirs r reason w with Crashed w' => targets_pending rels w' | o => targets_out rels (left_by o) end.
Proof.
  intros Hs Hp Hr. unfold fail_closed. set (m := each _ dirs). set (m2 := each _ rels).
  assert (keeps_record m) as Km by (apply keeps_each; intros d; unfold ignore; apply keeps_catch; auto with keeps).
  assert (keeps_record m2) as Km2 by (apply keeps_each; intros rel; unfold ignore; apply keeps_catch; [apply keeps_bind; auto with keeps|auto with keeps]).
  unfold mbind, M_bind. destruct (keeps_world m w Km) as [R1 S1]. destruct (m w) as [[] w1|e w1|w1]; cbn [left_by] in *; try (by apply (pending_kept rels w)).
  destruct (keeps_world m2 w1 Km2) as [R2 S2]. destruct (m2 w1) as [[] w2|e w2|w2]; cbn [left_by] in *; try (apply (pending_kept rels w); [done|congruence]).
  unfold ignore, catch. destruct (write_record_cases (next_revision (set_pending None r)) w2) as [(w3 & -> & Hw3 & _) | ->]; [auto| |apply (pending_kept rels w); [done|congruence]].
  cbn [left_by]. by exists (next_revision (set_pending None r)).
Qed.

Lemma closing_closed {A} stamp random text_of rels r (m : M A) w :
  record_safe w → targets_pending rels w → (∀ rel, rel ∈ rels → dget (rr_packages r) rel = None) → keeps_record m →
  closed rels (closing stamp random text_of rels r m w).
Proof.
  intros Hs Hp Hr Km. unfold closing, catch. destruct (keeps_world m w Km) as [R1 S1]. destruct (m w) as [a w1|e w1|w1]; cbn [left_by closed] in *; [done| |by apply (pending_kept rels w)].
  pose proof (fail_closed_out stamp rels (staging_dir random <$> rels) r (text_of e) w1 (S1 Hs) (pending_kept _ _ _ Hp R1) Hr) as Hf.
  unfold mbind, M_bind. destruct (fail_closed _ _ _ _ _ w1); cbn [left_by closed raise] in *; done.
Qed.

Lemma closing_Done {A} stamp random text_of rels r (m : M A) w a w' : closing stamp random text_of rels r m w = Done a w' → m w = Done a w'.
Proof. unfold closing, catch. destruct (m w) as [? ?|e w1|?]; [done| |done]. unfold mbind, M_bind. by destruct (fail_closed _ _ _ _ _ w1). Qed.

(** C14: A refresh that fails or is stopped at any point, as long as no write of the record fails,
    leaves the record as it was or none of its targets current; stopped without clean-up,
    it leaves nothing in the run current. *)
Theorem refresh_fails_closed stamp generation random text_of rels replace_ b w :
  record_safe w →
  match staged stamp generation random text_of rels replace_ b w with
  | Done _ _ => True
  | Raised _ w' => w_record w' = w_record w ∨ ∀ rel, rel ∈ rels → current w' rel = false
  | Crashed w' => w_record w' = w_record w ∨ ∀ p, current w' p = false
  end.
Proof.
  intros Hs. unfold staged. destruct (bool_decide (NoDup rels)); [|by left]. unfold mbind at 1, M_bind at 1. cbn [get].
  set (record := default empty_record (w_record w)). set (m := match rr_pending record with None => _ | Some _ => _ end).
  assert (keeps_record m) as Km.
  { unfold m. destruct (rr_pending record) as [[[] ?]|]; auto with keeps. apply keeps_each. intros rel. unfold ignore. apply keeps_catch; auto with keeps. }
  unfold mbind at 1, M_bind at 1. destruct (keeps_world m w Km) as [R1 S1]. destruct (m w) as [[] w1|e w1|w1]; cbn [left_by] in *; [|by left..].
  unfold mbind at 1, M_bind at 1. cbn [get]. destruct (_ && _); [by left|]. set (r1 := next_revision _).
  assert (∀ rel, rel ∈ rels → dget (rr_packages r1) rel = None) as Hr1 by (intros; by apply (unlist_none record rels)).
  unfold mbind at 1, M_bind at 1. destruct (write_record_cases r1 w1) as [(w2 & -> & Hw2 & Hs2 & _) | ->]; [auto| |by left].
  assert (targets_pending rels w2) as Hp2 by (split; [by exists r1|by exists r1]).
  unfold mbind at 1, M_bind at 1. pose proof (closing_closed stamp random text_of rels r1 (build_and_place stamp generation random rels b) w2 Hs2 Hp2 Hr1 (keeps_build _ _ _ _ _)) as Hc.
  destruct (keeps_world (build_and_place stamp generation random rels b) w2 (keeps_build _ _ _ _ _)) as [R3 S3].
  destruct (closing stamp random text_of rels r1 (build_and_place stamp generation random rels b) w2) as [published w3|e w3|w3] eqn:Ec; cbn [closed] in Hc.
  - apply closing_Done in Ec. rewrite Ec in R3, S3. cbn [left_by] in R3, S3. unfold closing, catch. set (r2 := next_revision _).
    destruct (write_record_cases r2 w3) as [(w4 & -> & _) | ->]; [auto|done|]. right. intros p. apply (pending_not_current rels). by apply (pending_kept rels w2).
  - right. intros rel Hrel. by apply (out_not_current rels).
  - right. intros p. by apply (pending_not_current rels).
Qed.

(** * What a current package holds *)

Lemma length_sha_block st block : length st = 8%nat → length (sha_block st block) = 8%nat.
Proof.
  intros Hst. unfold sha_block. rewrite length_zip_with, Hst.
  assert (∀ kws s, length s = 8%nat → length (foldl sha_round s kws) = 8%nat) as ->; [|done|done].
  intros kws. induction kws as [|kw kws IH]; intros s Hs; [done|]. cbn [foldl]. apply IH. unfold sha_round.
  do 8 (destruct s as [|? s]; [done|]). by destruct s.
Qed.

Lemma sha256_bytes m : length (sha256 m) = 32%nat ∧ bytes_ok (sha256 m).
Proof.
  unfold sha256. assert (∀ bs s, length s = 8%nat → length (foldl sha_block s bs) = 8%nat) as Hl.
  { intros bs. induction bs as [|b bs IH]; intros s Hs; [done|]. cbn [foldl]. by apply IH, length_sha_block. }
  specialize (Hl (chunks 64 (sha_pad m)) H256 eq_refl). remember (foldl _ _ _) as st eqn:Est. clear Est. split.
  - do 8 (destruct st as [|? st]; [done|]). destruct st; [|done]. cbn [fmap list_fmap concat]. rewrite !length_app, !length_to_be. done.
  - apply Forall_concat, Forall_fmap, Forall_true. intros z. apply to_be_ok.
Qed.

Lemma file_sha256_text t : length (file_sha256 t) = 64%nat ∧ Forall (λ c, is_space c = false) (file_sha256 t).
Proof. unfold file_sha256. destruct (sha256_bytes (ords t)) as [Hl Hok]. split; [by rewrite length_hex, Hl|by apply hex_not_space]. Qed.

Lemma file_sha256_not c t : is_space c = true → c ∉ file_sha256 t.
Proof. intros Hc Hin. destruct (file_sha256_text t) as [_ Hf]. rewrite Forall_forall in Hf. rewrite (Hf c Hin) in Hc. done. Qed.

(** A name a line of a text file can hold. *)
Definition line_name (n : str) : Prop := LF ∉ n ∧ CR ∉ n.

Lemma text_lines_line acc l rest : LF ∉ l → CR ∉ l → text_lines acc (l ++ LF :: rest) = (acc ++ l) :: text_lines [] rest.
Proof.
  revert acc. induction l as [|c l IH]; intros acc Hlf Hcr; cbn [app text_lines]; [by rewrite app_nil_r|].
  apply not_elem_of_cons in Hlf as [H1 Hlf], Hcr as [H2 Hcr]. rewrite !bool_decide_eq_false_2 by done. by rewrite IH, <- app_assoc.
Qed.

Lemma text_lines_lines ls : Forall line_name ls → text_lines [] (concat ((λ l, l ++ [LF]) <$> ls)) = ls.
Proof.
  induction 1 as [|l ls [Hlf Hcr] _ IH]; [done|]. cbn [fmap list_fmap concat]. rewrite <- app_assoc. cbn [app]. by rewrite text_lines_line, IH.
Qed.

Lemma partition_spaces_app a n : " "%char ∉ a → partition_spaces (a ++ " "%char :: " "%char :: n) = (a, n).
Proof.
  induction a as [|c a IH]; intros Ha; [done|]. apply not_elem_of_cons in Ha as [Hc Ha]. specialize (IH Ha).
  destruct a as [|d a]; cbn [app partition_spaces] in *.
  - rewrite (bool_decide_eq_false_2 (c = _)) by done. done.
  - rewrite (bool_decide_eq_false_2 (c = _)) by done. cbn [andb]. cbn [app partition_spaces] in IH. by rewrite IH.
Qed.

Lemma seal_line_name nc : line_name nc.1 → line_name (seal_line nc).
Proof.
  intros [Hl Hc]. unfold seal_line, line_name. rewrite !not_elem_of_app. split_and!; try done; try (by apply file_sha256_not); by compute_decide.
Qed.

Lemma seal_line_parts nc : partition_spaces (seal_line nc) = (file_sha256 nc.2, nc.1).
Proof. unfold seal_line. apply (partition_spaces_app (file_sha256 nc.2) nc.1). by apply file_sha256_not. Qed.

(** What a manifest lists: the files of the directory but itself. *)
Definition sealed_files (fs : files) (d : str) : list (str * str) := filter (λ nc, nc.1 ≠ MANIFEST) (tree fs d).

Lemma listed_lines named :
  Forall (λ nc, line_name nc.1) named → NoDup (fst <$> named) →
  listed (concat ((λ l, l ++ [LF]) <$> (seal_line <$> named))) = (λ nc, (nc.1, file_sha256 nc.2)) <$> named.
Proof.
  intros Hn Hnd. unfold listed. rewrite text_lines_lines by (apply Forall_fmap; eapply Forall_impl; [exact Hn|]; apply seal_line_name).
  assert (∀ d : dict str str, NoDup (dkeys d ++ (fst <$> named)) →
    foldl (λ (d : dict str str) line, let '(digest, name) := partition_spaces line in dset d name digest) d (seal_line <$> named)
    = d ++ ((λ nc, (nc.1, file_sha256 nc.2)) <$> named)) as Hgen; [|by apply (Hgen [])].
  clear. induction named as [|nc named IH]; intros d Hd; [by rewrite app_nil_r|]. rewrite fmap_cons in Hd. cbn [fmap list_fmap foldl].
  rewrite seal_line_parts. rewrite dset_absent.
  - rewrite IH; [by rewrite <- app_assoc|]. unfold dkeys in *. rewrite fmap_app, <- app_assoc. done.
  - apply NoDup_app in Hd as (_ & Hd & _). intros Hk. apply (Hd _ Hk). left.
Qed.

Lemma listed_seal fs d :
  Forall (λ nc, line_name nc.1) (sealed_files fs d) → NoDup (fst <$> sealed_files fs d) →
  ∃ named, named ≡ₚ sealed_files fs d ∧ listed (seal_text fs d) = (λ nc, (nc.1, file_sha256 nc.2)) <$> named.
Proof.
  intros Hn Hnd. unfold seal_text. set (lines := sort_str _ _).
  assert (lines ≡ₚ seal_line <$> sealed_files fs d) as Hp by (unfold lines, sealed_files; rewrite sort_str_perm; by rewrite sort_str_perm).
  apply Permutation_map_inv in Hp as (named & Hl & Hp). symmetry in Hp. exists named. split; [done|]. change (map seal_line named) with (seal_line <$> named) in Hl. rewrite Hl.
  apply listed_lines; by rewrite Hp.
Qed.

Lemma app_nil_both {A} (a b : list A) : a ++ b = [] → a = [] ∧ b = [].
Proof. by destruct a, b. Qed.

Lemma below_inj d p q : below d p = true → below d q = true → drop (length d + 1) p = drop (length d + 1) q → p = q.
Proof.
  unfold below, startswith. intros Hp%bool_decide_eq_true Hq%bool_decide_eq_true E. rewrite length_app in *. cbn [length] in *.
  rewrite <- (take_drop (length d + 1) p), <- (take_drop (length d + 1) q). congruence.
Qed.

Lemma tree_NoDup fs d : NoDup (dkeys fs) → NoDup (fst <$> tree fs d).
Proof.
  unfold tree, dkeys. intros Hnd. rewrite <- list_fmap_compose. apply NoDup_fmap_2_strong.
  - intros [p c] [q c'] [Hp Hpin]%list_elem_of_filter [Hq Hqin]%list_elem_of_filter E. cbn in E, Hp, Hq. apply (below_inj d) in E; [|done..]. subst q. f_equal.
    by apply (dget_elem _ _ _ Hnd) in Hpin, Hqin; simplify_eq.
  - apply NoDup_filter. by apply NoDup_fmap_1 in Hnd.
Qed.

Lemma NoDup_keys_filter {A} (P : str * A → Prop) `{!∀ x, Decision (P x)} (l : list (str * A)) : NoDup (fst <$> l) → NoDup (fst <$> filter P l).
Proof.
  induction l as [|[k v] l IH]; [done|]. rewrite fmap_cons. intros [Hk Hl]%NoDup_cons. rewrite filter_cons. destruct (decide _); [|by apply IH].
  rewrite fmap_cons. apply NoDup_cons. split; [|by apply IH]. intros ([k' v'] & E & [_ Hin]%list_elem_of_filter)%list_elem_of_fmap. apply Hk, list_elem_of_fmap. by exists (k', v').
Qed.

Lemma sealed_NoDup fs d : NoDup (dkeys fs) → NoDup (fst <$> sealed_files fs d).
Proof. intros Hnd. apply NoDup_keys_filter. by apply tree_NoDup. Qed.

(** What a check that finds nothing says. *)
Lemma check_package_nil fs rel e :
  NoDup (dkeys fs) → check_package fs rel e = [] →
  ∃ text g, dget (tree fs rel) MANIFEST = Some text ∧ file_sha256 text = en_package_sha256 e ∧
    dget (tree fs rel) GENERATION = Some g ∧ strip g = en_generation e ∧
    (∀ n c, (n, c) ∈ sealed_files fs rel → dget (listed text) n = Some (file_sha256 c)) ∧
    (∀ n digest, dget (listed text) n = Some digest → ∃ c, dget (tree fs rel) n = Some c ∧ file_sha256 c = digest).
Proof.
  intros Hnd H. unfold check_package in H. destruct (isdir fs rel); [|done]. cbn [negb] in H.
  destruct (dget (tree fs rel) MANIFEST) as [text|] eqn:Em; [|done]. cbn zeta in H.
  apply app_nil_both in H as [Hs H]. apply app_nil_both in H as [Hn Hg]. destruct (bool_decide_reflect (file_sha256 text = en_package_sha256 e)) as [Es|]; [|done].
  destruct (dget (tree fs rel) GENERATION) as [g|] eqn:Eg; [|done]. destruct (bool_decide_reflect (strip g = en_generation e)) as [Eg'|]; [|done].
  exists text, g. split_and!; try done.
  - intros n c [Hne Hin]%list_elem_of_filter. cbn [fst] in Hne. apply concat_nil_Forall in Hn. rewrite Forall_fmap, Forall_forall in Hn.
    assert (dget (tree fs rel) n = Some c) as Hc by (apply dget_elem; [by apply tree_NoDup|done]).
    assert (n ∈ sort_str id (remove_dups (filter (λ n, n ≠ MANIFEST) (regular_tree fs rel) ++ dkeys (listed text)))) as Hin'.
    { unfold regular_tree. rewrite sort_str_perm, elem_of_remove_dups, elem_of_app, list_elem_of_filter, sort_str_perm. left. split; [done|]. apply list_elem_of_fmap. by exists (n, c). }
    specialize (Hn n Hin'). unfold compose, check_name in Hn. cbn beta in Hn. rewrite Hc in Hn. destruct (dget (listed text) n) as [digest|]; [|done].
    by destruct (bool_decide_reflect (file_sha256 c = digest)) as [->|].
  - intros n digest Hd. apply concat_nil_Forall in Hn. rewrite Forall_fmap, Forall_forall in Hn.     assert (n ∈ sort_str id (remove_dups (filter (λ n, n ≠ MANIFEST) (regular_tree fs rel) ++ dkeys (listed text)))) as Hin.
    { rewrite sort_str_perm, elem_of_remove_dups, elem_of_app. right. by apply dget_Some_key in Hd. }
    specialize (Hn n Hin). unfold compose, check_name in Hn. cbn beta in Hn. rewrite Hd in Hn. destruct (dget (tree fs rel) n) as [c|]; [|done]. destruct (bool_decide_reflect (file_sha256 c = digest)); [|done]. by exists c.
Qed.


(** * An undisturbed refresh *)

(** ** Paths *)

Definition inside (d n : str) : str := d ++ [SEP] ++ n.

Lemma below_inside d p : below d p = true ↔ ∃ n, p = inside d n.
Proof.
  unfold below, startswith, inside. rewrite bool_decide_eq_true. split.
  - intros E. exists (drop (length (d ++ [SEP])) p). rewrite app_assoc, <- E at 1. by rewrite take_drop.
  - intros [n ->]. rewrite app_assoc. apply take_app_length.
Qed.

Lemma at_or_below_iff d p : at_or_below d p = true ↔ p = d ∨ ∃ n, p = inside d n.
Proof. unfold at_or_below. by rewrite orb_true_iff, bool_decide_eq_true, below_inside. Qed.

(** Two directories over the same path lie in each other. *)
Lemma at_or_below_chain a b p : at_or_below a p = true → at_or_below b p = true → at_or_below a b = true ∨ at_or_below b a = true.
Proof.
  rewrite !at_or_below_iff. unfold inside. intros Ha Hb.
  assert (∃ x, p = a ++ x ∧ (x = [] ∨ head x = Some SEP)) as (x & Hx & Hx0) by (destruct Ha as [->|[n ->]]; [exists []; rewrite app_nil_r; auto|eexists; split; [done|by right]]).
  assert (∃ y, p = b ++ y ∧ (y = [] ∨ head y = Some SEP)) as (y & Hy & Hy0) by (destruct Hb as [->|[n ->]]; [exists []; rewrite app_nil_r; auto|eexists; split; [done|by right]]).
  rewrite Hx in Hy. clear Ha Hb Hx. apply app_eq_inv in Hy as [(k & -> & ->)|(k & -> & ->)].
  - right. destruct k as [|c k]; [left; by rewrite app_nil_r|]. right. exists k. destruct Hy0 as [|Hh]; [done|]. cbn in Hh. injection Hh as ->. done.
  - left. destruct k as [|c k]; [left; by rewrite app_nil_r|]. right. exists k. destruct Hx0 as [|Hh]; [done|]. cbn in Hh. injection Hh as ->. done.
Qed.

Definition apart (a b : str) : Prop := at_or_below a b = false ∧ at_or_below b a = false.

Lemma at_or_below_trans a b p : at_or_below a b = true → at_or_below b p = true → at_or_below a p = true.
Proof.
  rewrite !at_or_below_iff. unfold inside. intros [->|[n ->]] [->|[m ->]]; [by left|right; by exists m|right; by exists n|].
  right. exists (n ++ [SEP] ++ m). by rewrite <- !app_assoc.
Qed.

(** Nothing lies in both of two directories that are apart. *)
Lemma apart_disjoint a b p : apart a b → at_or_below a p = true → at_or_below b p = false.
Proof. intros [H1 H2] Ha. destruct (at_or_below b p) eqn:Hb; [|done]. destruct (at_or_below_chain a b p Ha Hb); congruence. Qed.

Lemma inside_below d n : at_or_below d (inside d n) = true.
Proof. apply at_or_below_iff. right. by exists n. Qed.

Lemma inside_inj d n m : inside d n = inside d m → n = m.
Proof. unfold inside. intros E. apply app_inv_head in E. injection E as ->. done. Qed.

Lemma apart_sym a b : apart a b → apart b a.
Proof. by intros [? ?]. Qed.

Lemma apart_below a b c : apart a b → at_or_below a c = true → apart c b.
Proof.
  intros Hab Hc. split.
  - destruct (at_or_below c b) eqn:E; [|done]. destruct Hab as [H1 _]. rewrite (at_or_below_trans a c b) in H1; done.
  - destruct (at_or_below b c) eqn:E; [|done]. apply apart_sym in Hab. rewrite (apart_disjoint b a c Hab E) in Hc. done.
Qed.

(** ** Files *)

Lemma dget_write p c fs q : dget (write p c fs) q = if decide (q = p) then Some c else dget fs q.
Proof. unfold write. apply dget_dset. Qed.

Lemma dget_rekey (f : str → str) (fs : files) q q0 : (∀ k, k ∈ dkeys fs → f k = q ↔ k = q0) → dget ((λ kv, (f kv.1, kv.2)) <$> fs) q = dget fs q0.
Proof.
  intros Hf. induction fs as [|[k v] fs IH]; [done|]. cbn [fmap list_fmap dget fst snd].
  assert (f k = q ↔ k = q0) as Hk by (apply Hf; left). rewrite IH by (intros k' Hk'; apply Hf; by right).
  destruct (decide (q = f k)) as [->|Hn], (decide (q0 = k)) as [->|Hn0]; [done| | |done].
  - exfalso. apply Hn0. symmetry. by apply Hk.
  - exfalso. apply Hn. symmetry. by apply Hk.
Qed.

Definition empty_at (fs : files) (d : str) : Prop := ∀ k, k ∈ dkeys fs → at_or_below d k = false.

Lemma lexists_false fs d : lexists fs d = false ↔ empty_at fs d.
Proof.
  unfold lexists, empty_at, dkeys. rewrite <- not_true_iff_false, existsb_exists. split.
  - intros Hn k ([k' v] & -> & Hin)%list_elem_of_fmap. apply not_true_iff_false. intros Hb. apply Hn. exists (k', v). split; [by apply list_elem_of_In|done].
  - intros He ([k v] & Hin%list_elem_of_In & Hb). cbn [fst] in Hb. rewrite He in Hb; [done|]. apply list_elem_of_fmap. by exists (k, v).
Qed.

Lemma empty_dget fs d p : empty_at fs d → at_or_below d p = true → dget fs p = None.
Proof. intros He Hp. apply dget_None. intros Hin. by rewrite (He p Hin) in Hp. Qed.

Lemma moved_cases s t k : moved s t k = k ∧ at_or_below s k = false ∨ ∃ x, k = s ++ x ∧ moved s t k = t ++ x ∧ at_or_below s k = true ∧ (x = [] ∨ ∃ n, x = [SEP] ++ n).
Proof.
  unfold moved. destruct (at_or_below s k) eqn:E; [right|by left]. apply at_or_below_iff in E as Hc. destruct Hc as [->|[n ->]].
  - exists []. rewrite app_nil_r, drop_all, app_nil_r. split_and!; try done. by left.
  - exists ([SEP] ++ n). unfold inside. rewrite drop_app_length. split_and!; try done. right. by exists n.
Qed.

Lemma at_or_below_app t x : (x = [] ∨ ∃ n, x = [SEP] ++ n) → at_or_below t (t ++ x) = true.
Proof. intros [->|[n ->]]; [rewrite app_nil_r; apply at_or_below_iff; by left|apply inside_below]. Qed.

Section replace.
Context (s t : str) (fs : files) (Hst : apart s t) (Ht : empty_at fs t).

Lemma replace_elsewhere q : at_or_below s q = false → at_or_below t q = false → dget (replace s t fs) q = dget fs q.
Proof.
  intros Hs Hq. apply dget_rekey. intros k Hk. destruct (moved_cases s t k) as [[-> Hb]|(x & -> & -> & Hb & Hx)]; [done|]. split.
  - intros <-. by rewrite at_or_below_app in Hq.
  - intros <-. congruence.
Qed.

Lemma replace_moved n : dget (replace s t fs) (inside t n) = dget fs (inside s n).
Proof.
  apply dget_rekey. intros k Hk. destruct (moved_cases s t k) as [[-> Hb]|(x & -> & -> & Hb & Hx)].
  - split; intros ->; [|by rewrite inside_below in Hb]. pose proof (Ht _ Hk) as He. by rewrite inside_below in He.
  - unfold inside. split; intros E; apply app_inv_head in E as ->; done.
Qed.

Lemma replace_source : empty_at (replace s t fs) s.
Proof.
  intros k Hk. unfold replace, dkeys in Hk. rewrite <- list_fmap_compose in Hk. apply list_elem_of_fmap in Hk as ([k0 v] & -> & Hin). cbn [compose fst].
  destruct (moved_cases s t k0) as [[-> Hb]|(x & -> & -> & Hb & Hx)]; [done|]. apply (apart_disjoint t s); [by apply apart_sym|]. by apply at_or_below_app.
Qed.

Lemma replace_empty d : apart t d → empty_at fs d → empty_at (replace s t fs) d.
Proof.
  intros Htd Hd k Hk. unfold replace, dkeys in Hk. rewrite <- list_fmap_compose in Hk. apply list_elem_of_fmap in Hk as ([k0 v] & -> & Hin). cbn [compose fst].
  destruct (moved_cases s t k0) as [[-> Hb]|(x & -> & -> & Hb & Hx)].
  - apply Hd. apply list_elem_of_fmap. by exists (k0, v).
  - apply (apart_disjoint t d); [done|]. by apply at_or_below_app.
Qed.

Lemma replace_NoDup : NoDup (dkeys fs) → NoDup (dkeys (replace s t fs)).
Proof.
  intros Hnd. unfold replace, dkeys in *. rewrite <- list_fmap_compose. change (NoDup (moved s t ∘ fst <$> fs)).
  rewrite (list_fmap_compose fst (moved s t)). apply NoDup_fmap_2_strong; [|done]. intros a b Ha Hb E.
  assert (∀ k, k ∈ fst <$> fs → at_or_below t k = false) as Ht' by exact Ht.
  destruct (moved_cases s t a) as [[Ea Ba]|(x & -> & Ea & Ba & Hx)], (moved_cases s t b) as [[Eb Bb]|(y & -> & Eb & Bb & Hy)]; rewrite Ea, Eb in E.
  - done.
  - subst a. pose proof (Ht' _ Ha) as Hq. by rewrite at_or_below_app in Hq.
  - subst b. pose proof (Ht' _ Hb) as Hq. by rewrite at_or_below_app in Hq.
  - by apply app_inv_head in E as ->.
Qed.
End replace.

(** ** Free names *)

Definition aside_name (base : str) (n : Z) : str := if n =? 1 then base else base ++ "-"%string ++ str_of_Z n.

Lemma str_of_Z_no_SEP n : 0 ≤ n → SEP ∉ str_of_Z n.
Proof.
  intros Hn. unfold str_of_Z, str_of_nonneg. destruct (Z.ltb_spec n 0); [lia|]. intros (d & E & Hd)%list_elem_of_fmap.
  pose proof (digits_range 10 n ltac:(lia) ltac:(lia)) as Hr. rewrite Forall_forall in Hr. specialize (Hr d Hd). cbn beta in Hr.
  assert (hexdigit d ≠ SEP) as Hne by (by apply (hexdigit_cases (λ d, hexdigit d ≠ SEP) d ltac:(lia))). by apply Hne.
Qed.

Lemma aside_names_apart base i j : 1 ≤ i → 1 ≤ j → i ≠ j → at_or_below (aside_name base i) (aside_name base j) = false.
Proof.
  intros Hi Hj Hij. apply not_true_iff_false. rewrite at_or_below_iff. unfold inside, aside_name. intros H.
  pose proof (str_of_Z_no_SEP j ltac:(lia)) as Hsep. destruct (Z.eqb_spec i 1), (Z.eqb_spec j 1); try lia; subst.
  - destruct H as [E|[x E]]; [apply (f_equal length) in E; rewrite !length_app in E; cbn in E; lia|]. by apply app_inv_head in E.
  - destruct H as [E|[x E]]; apply (f_equal length) in E; rewrite !length_app in E; cbn in E; lia.
  - destruct H as [E|[x E]].
    + apply app_inv_head in E. injection E as E. apply (f_equal py_int) in E. rewrite !int_str_of_Z in E. congruence.
    + rewrite <- app_assoc in E. apply app_inv_head in E. rewrite <- app_assoc in E. injection E as E. apply Hsep. rewrite E. apply elem_of_app. right. left.
Qed.

(** Directories that are apart and exist need as many files. *)
Lemma names_bound (fs : files) ds : (∀ i j a b, ds !! i = Some a → ds !! j = Some b → i ≠ j → at_or_below a b = false) →
  Forall (λ d, lexists fs d = true) ds → (length ds ≤ length fs)%nat.
Proof.
  intros Hap Hex. assert (∃ ks, Forall2 (λ d k, at_or_below d k = true ∧ k ∈ dkeys fs) ds ks) as [ks Hks].
  { clear Hap. induction Hex as [|d ds Hd _ [ks IH]]; [by exists []|]. unfold lexists in Hd. apply existsb_exists in Hd as ([k v] & Hin%list_elem_of_In & Hb).
    exists (k :: ks). constructor; [|done]. split; [done|]. apply list_elem_of_fmap. by exists (k, v). }
  assert (NoDup ks) as Hnd.
  { apply NoDup_alt. intros i j k Hi Hj. destruct (decide (i = j)) as [|Hne]; [done|]. exfalso.
    destruct (Forall2_lookup_r _ _ _ _ _ Hks Hi) as (a & Ha & Hak & _). destruct (Forall2_lookup_r _ _ _ _ _ Hks Hj) as (b & Hb & Hbk & _).
    destruct (at_or_below_chain a b k Hak Hbk) as [E|E]; [rewrite (Hap i j a b) in E; done|rewrite (Hap j i b a) in E; done]. }
  rewrite (Forall2_length _ _ _ Hks). rewrite <- (length_fmap fst fs). apply submseteq_length, NoDup_submseteq; [done|]. intros k Hk.
  apply list_elem_of_lookup in Hk as [i Hi]. by destruct (Forall2_lookup_r _ _ _ _ _ Hks Hi) as (a & _ & _ & Hin).
Qed.

Lemma free_name_None fs base fuel n : free_name fuel fs base n = None → Forall (λ d, lexists fs d = true) ((λ i, aside_name base (n + Z.of_nat i)) <$> seq 0 fuel).
Proof.
  revert n. induction fuel as [|fuel IH]; intros n H; [constructor|]. cbn [free_name] in H. fold (aside_name base n) in H.
  destruct (lexists fs (aside_name base n)) eqn:E; [|done]. apply IH in H. cbn [seq fmap list_fmap]. constructor; [by rewrite Z.add_0_r|].
  rewrite <- fmap_S_seq, <- list_fmap_compose. rewrite Forall_fmap in H |- *. eapply Forall_impl; [exact H|]. intros i Hi. unfold compose in *.
  replace (n + Z.of_nat (S i)) with (n + 1 + Z.of_nat i) by lia. done.
Qed.

Lemma free_name_Some fs base : ∃ dest, free_name (length fs + 1) fs base 1 = Some dest ∧ lexists fs dest = false ∧ ∃ n, dest = aside_name base n.
Proof.
  destruct (free_name (length fs + 1) fs base 1) as [dest|] eqn:E.
  - exists dest. split; [done|]. revert E. generalize (length fs + 1)%nat as fuel. generalize 1 as n. intros n fuel. revert n.
    induction fuel as [|fuel IH]; intros n E; [done|]. cbn [free_name] in E. fold (aside_name base n) in E. destruct (lexists fs (aside_name base n)) eqn:El; [by eapply IH|].
    injection E as <-. split; [done|]. by exists n.
  - exfalso. apply free_name_None in E. apply names_bound in E; [rewrite length_fmap, length_seq in E; lia|]. intros i j a b Hi Hj Hij.
    rewrite list_lookup_fmap in Hi, Hj. apply fmap_Some in Hi as (i0 & Hi & ->), Hj as (j0 & Hj & ->). apply lookup_seq in Hi as [-> _], Hj as [-> _].
    apply aside_names_apart; lia.
Qed.

(** ** Sealed directories *)

Lemma concat_all_nil {A} (ls : list (list A)) : Forall (λ l, l = []) ls → concat ls = [].
Proof. by induction 1 as [|l ls -> _ IH]. Qed.

Lemma tree_cons k v fs d : tree ((k, v) :: fs) d = if below d k then (drop (length d + 1) k, v) :: tree fs d else tree fs d.
Proof. unfold tree, filter. cbn [list_filter fst]. by destruct (below d k). Qed.

Lemma dget_tree fs d n : dget (tree fs d) n = dget fs (inside d n).
Proof.
  induction fs as [|[k v] fs IH]; [done|]. rewrite tree_cons. cbn [dget]. destruct (below d k) eqn:Hb.
  - cbn [dget]. rewrite IH. apply below_inside in Hb as [m ->].
    assert (drop (length d + 1) (inside d m) = m) as ->.
    { unfold inside. rewrite app_assoc. replace (length d + 1)%nat with (length (d ++ [SEP])) by (rewrite length_app; done). apply drop_app_length. }
    destruct (decide (n = m)) as [->|Hn]; [by rewrite decide_True|]. rewrite decide_False; [done|]. by intros E%inside_inj.
  - rewrite IH, decide_False; [done|]. intros <-. apply not_true_iff_false in Hb. apply Hb, below_inside. by exists n.
Qed.

Lemma sealed_elem fs d n c : NoDup (dkeys fs) → (n, c) ∈ sealed_files fs d ↔ n ≠ MANIFEST ∧ dget fs (inside d n) = Some c.
Proof. intros Hnd. unfold sealed_files. rewrite list_elem_of_filter, <- dget_tree. cbn [fst]. rewrite dget_elem by by apply tree_NoDup. done. Qed.

Lemma listed_get fs d n :
  NoDup (dkeys fs) → Forall (λ nc, line_name nc.1) (sealed_files fs d) → n ≠ MANIFEST →
  dget (listed (seal_text fs d)) n = file_sha256 <$> dget fs (inside d n).
Proof.
  intros Hnd Hln Hn. destruct (listed_seal fs d Hln (sealed_NoDup _ _ Hnd)) as (named & Hp & ->).
  assert (NoDup (dkeys ((λ nc : str * str, (nc.1, file_sha256 nc.2)) <$> named))) as Hndl.
  { unfold dkeys. rewrite <- list_fmap_compose. change (NoDup (fst <$> named)). rewrite Hp. by apply sealed_NoDup. }
  destruct (dget fs (inside d n)) as [c|] eqn:E; cbn [fmap option_fmap option_map].
  - apply dget_elem; [done|]. apply list_elem_of_fmap. exists (n, c). split; [done|]. rewrite Hp. by apply sealed_elem.
  - apply dget_None. unfold dkeys. rewrite <- list_fmap_compose. intros ([n' c] & -> & Hin)%list_elem_of_fmap. cbn [compose fst] in *.
    rewrite Hp in Hin. apply sealed_elem in Hin as [_ Hin]; [|done]. congruence.
Qed.

Lemma listed_not_manifest fs d : NoDup (dkeys fs) → Forall (λ nc, line_name nc.1) (sealed_files fs d) → dget (listed (seal_text fs d)) MANIFEST = None.
Proof.
  intros Hnd Hln. destruct (listed_seal fs d Hln (sealed_NoDup _ _ Hnd)) as (named & Hp & ->).
  apply dget_None. unfold dkeys. rewrite <- list_fmap_compose. intros ([n' c] & E & Hin)%list_elem_of_fmap. cbn [compose fst] in *.
  rewrite Hp in Hin. apply sealed_elem in Hin as [Hne _]; done.
Qed.

Section publish.
Context (stamp generation : str) (random : str → str) (Hgen : strip (generation ++ [LF]) = generation).
Notation S_ rel := (staging_dir random rel).

(** The directory holds a sealed package of this generation. *)
Definition sealed (fs : files) (d sha : str) : Prop :=
  ∃ fs1 d1, NoDup (dkeys fs1) ∧ Forall (λ nc, line_name nc.1) (sealed_files fs1 d1) ∧ sha = file_sha256 (seal_text fs1 d1) ∧
    dget fs (inside d MANIFEST) = Some (seal_text fs1 d1) ∧ dget fs (inside d GENERATION) = Some (generation ++ [LF]) ∧
    ∀ n, n ≠ MANIFEST → dget fs (inside d n) = dget fs1 (inside d1 n).

Lemma sealed_moved fs d fs' d' sha : (∀ n, dget fs' (inside d' n) = dget fs (inside d n)) → sealed fs d sha → sealed fs' d' sha.
Proof.
  intros Hn (fs1 & d1 & H1 & H2 & H3 & H4 & H5 & H6). exists fs1, d1. rewrite !Hn. split_and!; try done. intros n Hne. rewrite Hn. by apply H6.
Qed.

Lemma sealed_checks fs d sha : sealed fs d sha → check_package fs d (MkEntry generation sha stamp) = [].
Proof.
  intros (fs1 & d1 & Hnd & Hln & -> & Hm & Hg & Hf). unfold check_package.
  assert (isdir fs d = true) as ->.
  { apply existsb_exists. exists (inside d MANIFEST, seal_text fs1 d1). split; [by apply list_elem_of_In, dget_Some_elem|]. apply below_inside. by eexists. }
  cbn [negb]. rewrite dget_tree, Hm. cbn [en_package_sha256 en_generation]. rewrite dget_tree, Hg. rewrite !bool_decide_eq_true_2 by done. rewrite app_nil_r. cbn [app].
  apply concat_all_nil, Forall_fmap, Forall_forall. intros n Hn. unfold compose, check_name.
  rewrite sort_str_perm, elem_of_remove_dups, elem_of_app, list_elem_of_filter in Hn.
  assert (n ≠ MANIFEST ∧ ∃ c, dget fs (inside d n) = Some c) as (Hne & c & Hc).
  { destruct Hn as [[Hne Hn]|Hn].
    - split; [done|]. unfold regular_tree in Hn. rewrite sort_str_perm in Hn. apply (dget_key (tree fs d)) in Hn as [c Hc]. exists c. by rewrite <- dget_tree.
    - apply dget_key in Hn as [digest Hd]. destruct (decide (n = MANIFEST)) as [->|Hne]; [by rewrite listed_not_manifest in Hd|]. split; [done|].
      rewrite listed_get in Hd by done. rewrite Hf by done. destruct (dget fs1 (inside d1 n)) as [c|]; [by exists c|done]. }
  rewrite listed_get by done. rewrite dget_tree, <- Hf, Hc by done. cbn [fmap option_fmap option_map]. by rewrite bool_decide_eq_true_2.
Qed.

(** ** The steps of a refresh *)

(** Without faults, [m] goes from one state of the files to another and returns [a]. *)
Definition runs {A} (m : M A) (fs : files) (a : A) (fs' : files) : Prop := ∀ r, m (MkWorld fs r [] []) = Done a (MkWorld fs' r [] []).

Lemma runs_ret {A} (a : A) fs : runs (mret a) fs a fs.
Proof. done. Qed.
Lemma runs_effect f fs : runs (effect f) fs () (f fs).
Proof. done. Qed.
Lemma runs_bind {A B} (m : M A) (f : A → M B) fs a fs1 b fs2 : runs m fs a fs1 → runs (f a) fs1 b fs2 → runs (m ≫= f) fs b fs2.
Proof. intros H1 H2 r. unfold mbind, M_bind. by rewrite H1. Qed.
Lemma runs_get {B} (f : world → M B) fs b fs' : (∀ r, runs (f (MkWorld fs r [] [])) fs b fs') → runs (get ≫= f) fs b fs'.
Proof. intros H r. unfold mbind, M_bind. cbn [get]. apply H. Qed.

Lemma inside_outside d n q : at_or_below d q = false → q ≠ inside d n.
Proof. intros Hq ->. by rewrite inside_below in Hq. Qed.

Lemma NoDup_write p c fs : NoDup (dkeys fs) → NoDup (dkeys (write p c fs)).
Proof. apply NoDup_dset. Qed.

(** One target is sealed in its staging directory. *)
Lemma seal_target_runs rel fs :
  NoDup (dkeys fs) → (∀ n, dget fs (inside (S_ rel) n) ≠ None → line_name n) →
  ∃ sha fs', runs (seal_target generation random rel) fs sha fs' ∧ sealed fs' (S_ rel) sha ∧ NoDup (dkeys fs') ∧
    (∀ n, n ≠ MANIFEST → n ≠ GENERATION → dget fs' (inside (S_ rel) n) = dget fs (inside (S_ rel) n)) ∧
    ∀ q, at_or_below (S_ rel) q = false → dget fs' q = dget fs q.
Proof.
  intros Hnd Hln. set (d := S_ rel) in *. set (fs1 := write (inside d GENERATION) (generation ++ [LF]) fs). set (text := seal_text fs1 d).
  assert (NoDup (dkeys fs1)) as Hnd1 by by apply NoDup_write. exists (file_sha256 text), (write (inside d MANIFEST) text fs1). split_and!.
  - apply (runs_bind _ _ _ () fs1); [apply runs_effect|]. unfold seal. apply runs_get. intros r. cbn [w_files]. apply (runs_bind _ _ _ () (write (inside d MANIFEST) text fs1)); [apply runs_effect|apply runs_ret].
  - exists fs1, d. split; [done|]. split; [|split; [done|]].
    + apply Forall_forall. intros [n c] [_ Hn]%sealed_elem; [|done]. cbn [fst]. unfold fs1 in Hn. rewrite dget_write in Hn. destruct (decide _) as [E|_]; [apply inside_inj in E as ->; by compute_decide|].
      apply Hln. by rewrite Hn.
    + rewrite !dget_write, decide_True by done. split; [done|]. rewrite decide_False by by intros E%inside_inj. split; [unfold fs1; by rewrite dget_write, decide_True|].
      intros n Hn. rewrite dget_write, decide_False; [done|]. by intros E%inside_inj.
  - by apply NoDup_write.
  - intros n Hm Hg. unfold fs1. rewrite !dget_write, !decide_False by by intros E%inside_inj. done.
  - intros q Hq. unfold fs1. rewrite !dget_write, !decide_False by by apply inside_outside. done.
Qed.

Lemma seal_loop l fs :
  (∀ i j a b, l !! i = Some a → l !! j = Some b → i ≠ j → apart (S_ a) (S_ b)) → NoDup (dkeys fs) →
  (∀ rel n, rel ∈ l → dget fs (inside (S_ rel) n) ≠ None → line_name n) →
  ∃ published fs', runs (each_result (seal_target generation random) l) fs published fs' ∧ Forall2 (λ rel sha, sealed fs' (S_ rel) sha) l published ∧ NoDup (dkeys fs') ∧
    (∀ rel n, rel ∈ l → n ≠ MANIFEST → n ≠ GENERATION → dget fs' (inside (S_ rel) n) = dget fs (inside (S_ rel) n)) ∧
    ∀ q, (∀ rel, rel ∈ l → at_or_below (S_ rel) q = false) → dget fs' q = dget fs q.
Proof.
  revert fs. induction l as [|rel l IH]; intros fs Hap Hnd Hln; cbn [each_result]; [exists [], fs; split_and!; [apply runs_ret|constructor|done|by intros ? ? ?%not_elem_of_nil|done]|].
  destruct (seal_target_runs rel fs Hnd) as (sha & fs1 & Hr1 & Hs1 & Hnd1 & Hc1 & Hf1); [intros n; apply Hln; left|].
  assert (∀ a, a ∈ l → apart (S_ rel) (S_ a)) as Hrel by (intros a [i Hi]%list_elem_of_lookup; apply (Hap 0%nat (S i)); done).
  destruct (IH fs1) as (published & fs2 & Hr2 & Hs2 & Hnd2 & Hc2 & Hf2); [intros i j a b Hi Hj Hij; apply (Hap (S i) (S j)); [done..|lia]|done| |].
  { intros a n Ha Hn. apply (Hln a n); [by right|]. rewrite <- Hf1; [done|]. apply (apart_disjoint (S_ a)); [by apply apart_sym, Hrel|apply inside_below]. }
  exists (sha :: published), fs2. split_and!.
  - apply (runs_bind _ _ _ sha fs1); [done|]. apply (runs_bind _ _ _ published fs2); [done|apply runs_ret].
  - constructor; [|done]. apply (sealed_moved fs1 (S_ rel)); [|done]. intros n. apply Hf2. intros a Ha. apply (apart_disjoint (S_ rel)); [by apply Hrel|apply inside_below].
  - done.
  - intros a n [->|Ha]%elem_of_cons Hm Hg.
    + rewrite Hf2; [by apply Hc1|]. intros b Hb. apply (apart_disjoint (S_ rel)); [by apply Hrel|apply inside_below].
    + rewrite Hc2 by done. apply Hf1. apply (apart_disjoint (S_ a)); [by apply apart_sym, Hrel|apply inside_below].
  - intros q Hq. rewrite Hf2, Hf1; [done|apply Hq; left|intros a Ha; apply Hq; by right].
Qed.

(** Where an earlier package goes. *)
Definition aside_root (rel : str) : str := path_join (dirname rel) SUPERSEDED.

(** Setting a target aside empties it and touches nothing but it and the directory for earlier packages. *)
Lemma set_aside_runs rel fs :
  NoDup (dkeys fs) → dget fs rel = None → apart (aside_root rel) rel →
  ∃ fs', runs (set_aside_target stamp rel) fs () fs' ∧ NoDup (dkeys fs') ∧ empty_at fs' rel ∧
    ∀ d, apart rel d → apart (aside_root rel) d → (∀ q, at_or_below d q = true → dget fs' q = dget fs q) ∧ (empty_at fs d → empty_at fs' d).
Proof.
  intros Hnd Hp Hap. unfold set_aside_target, set_aside.
  destruct (lexists fs rel) eqn:El.
  - assert (isdir fs rel = true) as Hdir.
    { unfold lexists in El. apply existsb_exists in El as ([k v] & Hin & Hb). cbn [fst] in Hb. apply existsb_exists. exists (k, v). split; [done|]. cbn [fst].
      unfold at_or_below in Hb. apply orb_true_iff in Hb as [->%bool_decide_eq_true|Hb]; [|done]. apply dget_None in Hp. exfalso. apply Hp, list_elem_of_fmap. exists (rel, v). split; [done|by apply list_elem_of_In]. }
    set (base := aside_root rel ++ [SEP] ++ basename rel ++ "-"%string ++ stamp).
    destruct (free_name_Some fs base) as (dest & Hdest & Hfree%lexists_false & n & Hn).
    assert (at_or_below (aside_root rel) dest = true) as Hroot.
    { rewrite Hn. unfold aside_name. destruct (n =? 1); apply at_or_below_iff; right; unfold base, inside; [by eexists|]. eexists. by rewrite <- !app_assoc. }
    assert (apart rel dest) as Had by (apply apart_sym; by apply (apart_below (aside_root rel))).
    exists (replace rel dest fs). split_and!.
    + apply (runs_bind _ _ _ (Some dest) (replace rel dest fs)); [|apply runs_ret]. apply runs_get. intros r. cbn [w_files]. rewrite El, Hdir.
      fold (aside_root rel). fold base. rewrite Hdest. apply (runs_bind _ _ _ () (replace rel dest fs)); [apply runs_effect|]. apply (runs_bind _ _ _ () (replace rel dest fs)); apply runs_ret.
    + by apply replace_NoDup.
    + by apply replace_source.
    + intros d Hd1 Hd2. assert (apart dest d) as Hdd by by apply (apart_below (aside_root rel)). split; [|by apply replace_empty].
      intros q Hq. apply replace_elsewhere; (eapply apart_disjoint; [apply apart_sym; done|done]).
  - exists fs. split_and!; [|done|by apply lexists_false|done]. apply (runs_bind _ _ _ None fs); [|apply runs_ret]. apply runs_get. intros r. cbn [w_files]. rewrite El. apply runs_ret.
Qed.

Lemma set_aside_loop l fs :
  (∀ i j a b, l !! i = Some a → l !! j = Some b → i ≠ j → apart a b) → NoDup (dkeys fs) →
  (∀ rel, rel ∈ l → dget fs rel = None) → (∀ a b, a ∈ l → b ∈ l → apart (aside_root a) b) →
  ∃ fs', runs (each (set_aside_target stamp) l) fs () fs' ∧ NoDup (dkeys fs') ∧ (∀ rel, rel ∈ l → empty_at fs' rel) ∧
    ∀ d, (∀ rel, rel ∈ l → apart rel d ∧ apart (aside_root rel) d) → (∀ q, at_or_below d q = true → dget fs' q = dget fs q) ∧ (empty_at fs d → empty_at fs' d).
Proof.
  revert fs. induction l as [|rel l IH]; intros fs Hap Hnd Hp Hroot; cbn [each]; [exists fs; split_and!; [apply runs_ret|done|by intros ? ?%not_elem_of_nil|done]|].
  destruct (set_aside_runs rel fs Hnd) as (fs1 & Hr1 & Hnd1 & He1 & Hf1); [apply Hp; left|apply Hroot; left|].
  assert (∀ a, a ∈ l → apart rel a) as Hrel by (intros a [i Hi]%list_elem_of_lookup; apply (Hap 0%nat (S i)); done).
  destruct (IH fs1) as (fs2 & Hr2 & Hnd2 & He2 & Hf2).
  { intros i j a b Hi Hj Hij. apply (Hap (S i) (S j)); [done..|lia]. }
  { done. }
  { intros a Ha. destruct (Hf1 a) as [Hq _]; [by apply Hrel|apply Hroot; [left|by right]|]. rewrite Hq; [apply Hp; by right|]. apply at_or_below_iff. by left. }
  { intros a b Ha Hb. apply Hroot; by right. }
  exists fs2. split_and!.
  - by apply (runs_bind _ _ _ () fs1).
  - done.
  - intros a [->|Ha]%elem_of_cons; [|by apply He2]. destruct (Hf2 rel) as [_ Hq]; [|by apply Hq]. intros b Hb. split; [by apply apart_sym, Hrel|]. apply Hroot; [by right|left].
  - intros d Hd. destruct (Hf1 d) as [Q1 E1]; [by apply Hd; left..|]. destruct (Hf2 d) as [Q2 E2]; [intros a Ha; apply Hd; by right|].
    split; [intros q Hq; by rewrite Q2, Q1|auto].
Qed.

Lemma place_loop l fs :
  (∀ i j a b, l !! i = Some a → l !! j = Some b → i ≠ j → apart a b ∧ apart (S_ a) (S_ b)) → (∀ a b, a ∈ l → b ∈ l → apart (S_ a) b) → NoDup (dkeys fs) →
  (∀ rel, rel ∈ l → empty_at fs rel) →
  ∃ fs', runs (each (place_target random) l) fs () fs' ∧ NoDup (dkeys fs') ∧ (∀ rel n, rel ∈ l → dget fs' (inside rel n) = dget fs (inside (S_ rel) n)) ∧
    ∀ d q, (∀ rel, rel ∈ l → apart rel d ∧ apart (S_ rel) d) → at_or_below d q = true → dget fs' q = dget fs q.
Proof.
  revert fs. induction l as [|rel l IH]; intros fs Hap Hst Hnd He; cbn [each]; [exists fs; split_and!; [apply runs_ret|done|by intros ? ? ?%not_elem_of_nil|done]|].
  assert (apart (S_ rel) rel) as Hsr by (apply Hst; left). assert (empty_at fs rel) as Her by (apply He; left).
  assert (∀ a, a ∈ l → apart rel a ∧ apart (S_ rel) (S_ a)) as Hrel by (intros a [i Hi]%list_elem_of_lookup; apply (Hap 0%nat (S i)); done).
  set (fs1 := replace (S_ rel) rel fs).
  assert (∀ d, apart rel d → apart (S_ rel) d → ∀ q, at_or_below d q = true → dget fs1 q = dget fs q) as Hf1.
  { intros d Hd1 Hd2 q Hq. apply replace_elsewhere; (eapply apart_disjoint; [apply apart_sym; done|done]). }
  destruct (IH fs1) as (fs2 & Hr2 & Hnd2 & Hm2 & Hf2).
  { intros i j a b Hi Hj Hij. apply (Hap (S i) (S j)); [done..|lia]. }
  { intros a b Ha Hb. apply Hst; by right. }
  { by apply replace_NoDup. }
  { intros a Ha. apply replace_empty; [by apply Hrel|apply He; by right]. }
  exists fs2. split_and!.
  - apply (runs_bind _ _ _ () fs1); [apply runs_effect|done].
  - done.
  - intros a n [->|Ha]%elem_of_cons.
    + rewrite (Hf2 rel); [by apply replace_moved| |apply inside_below]. intros b Hb. split; [by apply apart_sym, Hrel|]. apply Hst; [by right|left].
    + rewrite Hm2 by done. apply (Hf1 (S_ a)); [|by apply Hrel|apply inside_below]. apply apart_sym, Hst; [by right|left].
  - intros d q Hd Hq. rewrite (Hf2 d q); [|intros a Ha; apply Hd; by right|done]. by apply (Hf1 d); [apply Hd; left..|].
Qed.

(** ** The block *)

(** What the block wrote for a target. *)
Definition built (writes : list (str * str * str)) (rel : str) : dict str str :=
  foldl (λ d wr, if bool_decide (wr.1.1 = rel) then dset d wr.1.2 wr.2 else d) [] writes.

Lemma block_runs (rels : list str) (writes : list (str * str * str)) (fs : files) :
  (∀ a b, a ∈ rels → b ∈ rels → a ≠ b → apart (S_ a) (S_ b)) → NoDup (dkeys fs) → (∀ rel, rel ∈ rels → empty_at fs (S_ rel)) →
  Forall (λ wr, wr.1.1 ∈ rels) writes →
  ∃ fs', runs (each (λ wr : str * str * str, effect (write (staging_dir random wr.1.1 ++ [SEP] ++ wr.1.2) wr.2)) writes) fs () fs' ∧ NoDup (dkeys fs') ∧
    (∀ rel n, rel ∈ rels → dget fs' (inside (S_ rel) n) = dget (built writes rel) n) ∧
    ∀ q, (∀ rel, rel ∈ rels → at_or_below (S_ rel) q = false) → dget fs' q = dget fs q.
Proof.
  intros Hap Hnd He Hw.
  assert (∀ fs1 (d1 : str → dict str str), NoDup (dkeys fs1) → (∀ rel n, rel ∈ rels → dget fs1 (inside (S_ rel) n) = dget (d1 rel) n) →
    ∃ fs', runs (each (λ wr : str * str * str, effect (write (staging_dir random wr.1.1 ++ [SEP] ++ wr.1.2) wr.2)) writes) fs1 () fs' ∧ NoDup (dkeys fs') ∧
      (∀ rel n, rel ∈ rels → dget fs' (inside (S_ rel) n) = dget (foldl (λ d wr, if bool_decide (wr.1.1 = rel) then dset d wr.1.2 wr.2 else d) (d1 rel) writes) n) ∧
      ∀ q, (∀ rel, rel ∈ rels → at_or_below (S_ rel) q = false) → dget fs' q = dget fs1 q) as Hind.
  { clear Hnd He. induction Hw as [|[[r0 n0] c0] writes Hr0 _ IH]; intros fs1 d1 Hnd1 Hd1; cbn [each foldl]; [exists fs1; by split_and!|]. cbn [fst] in Hr0.
    set (fs2 := write (inside (S_ r0) n0) c0 fs1).
    destruct (IH fs2 (λ rel, if bool_decide (r0 = rel) then dset (d1 rel) n0 c0 else d1 rel)) as (fs' & Hr & Hnd' & Hb & Hf).
    - by apply NoDup_write.
    - intros rel n Hrel. unfold fs2. rewrite dget_write. destruct (bool_decide_reflect (r0 = rel)) as [->|Hne].
      + rewrite dget_dset. destruct (decide (n = n0)) as [->|Hn]; [by rewrite decide_True|]. rewrite decide_False; [by apply Hd1|]. by intros E%inside_inj.
      + rewrite decide_False; [by apply Hd1|]. apply inside_outside. apply (apart_disjoint (S_ rel)); [by apply Hap|apply inside_below].
    - exists fs'. split_and!; [|done|done|].
      + by apply (runs_bind _ _ _ () fs2).
      + intros q Hq. rewrite Hf by done. unfold fs2. rewrite dget_write, decide_False; [done|]. apply inside_outside. by apply Hq. }
  apply (Hind fs (λ _, [])); [done|]. intros rel n Hrel. apply (empty_dget _ (S_ rel)); [by apply He|apply inside_below].
Qed.

(** ** The record *)

Lemma list_package_get (l : list (str * str)) r rel sha :
  NoDup (fst <$> l) → (rel, sha) ∈ l → dget (rr_packages (foldl (list_package stamp generation) r l)) rel = Some (MkEntry generation sha stamp).
Proof.
  intros Hnd Hin.
  assert (∀ l r, rel ∉ fst <$> l → dget (rr_packages (foldl (list_package stamp generation) r l)) rel = dget (rr_packages r) rel) as Hfar.
  { clear. intros l. induction l as [|[a s] l IH]; intros r Hn; [done|]. rewrite fmap_cons in Hn. apply not_elem_of_cons in Hn as [Hne Hn]. cbn [foldl]. rewrite IH by done.
    cbn [list_package rr_packages fst snd]. by rewrite dget_dset, decide_False. }
  revert r. induction l as [|[a s] l IH]; intros r; [by apply not_elem_of_nil in Hin|]. rewrite fmap_cons in Hnd. apply NoDup_cons in Hnd as [Ha Hnd]. cbn [foldl].
  apply elem_of_cons in Hin as [E|Hin]; [|by apply IH]. injection E as <- <-. rewrite Hfar by done. cbn [list_package rr_packages fst snd]. by rewrite dget_dset, decide_True.
Qed.

Lemma filter_files P `{!∀ x : str * str, Decision (P x)} (fs : files) :
  (NoDup (dkeys fs) → NoDup (dkeys (filter P fs))) ∧ (∀ d, empty_at fs d → empty_at (filter P fs) d) ∧ (∀ p, dget fs p = None → dget (filter P fs) p = None).
Proof.
  assert (∀ k, k ∈ dkeys (filter P fs) → k ∈ dkeys fs) as Hsub.
  { intros k ([k' v] & -> & [_ Hin]%list_elem_of_filter)%list_elem_of_fmap. apply list_elem_of_fmap. by exists (k', v). }
  split_and!; [by apply NoDup_keys_filter|intros d He k Hk; by apply He, Hsub|]. intros p Hp. apply dget_None. apply dget_None in Hp. auto.
Qed.

(** Where a refresh takes place: its directories lie apart, the staging directories are new,
    and no plain file is at a target. *)
Record layout (rels : list str) (fs : files) : Prop := {
  ly_targets a b : a ∈ rels → b ∈ rels → a ≠ b → apart a b ∧ apart (S_ a) (S_ b);
  ly_staging a b : a ∈ rels → b ∈ rels → apart (S_ a) b;
  ly_aside a b : a ∈ rels → b ∈ rels → apart (aside_root a) b ∧ apart (aside_root a) (S_ b);
  ly_new a : a ∈ rels → empty_at fs (S_ a);
  ly_plain a : a ∈ rels → dget fs a = None;
  ly_files : NoDup (dkeys fs);
}.

Lemma layout_filter rels P `{!∀ x : str * str, Decision (P x)} fs : layout rels fs → layout rels (filter P fs).
Proof. intros [H1 H2 H3 H4 H5 H6]. destruct (filter_files P fs) as (F1 & F2 & F3). split; auto. Qed.

Lemma leftovers_run (rels targets : list str) fs : layout rels fs → ∃ fs', runs (each (λ rel, ignore (effect (remove_leftovers rel))) targets) fs () fs' ∧ layout rels fs' ∧ ∀ d, empty_at fs d → empty_at fs' d.
Proof.
  revert fs. induction targets as [|t targets IH]; intros fs Hl; cbn [each]; [by exists fs|].
  destruct (IH (remove_leftovers t fs)) as (fs' & Hr & Hl' & He); [by apply layout_filter|]. exists fs'. split_and!; [|done|].
  - by apply (runs_bind _ _ _ () (remove_leftovers t fs)).
  - intros d Hd. apply He. by apply filter_files.
Qed.

Lemma build_runs (rels : list str) b fs :
  layout rels fs → NoDup rels → b_error b = None → Forall (λ wr, wr.1.1 ∈ rels ∧ line_name wr.1.2) (b_writes b) →
  ∃ published fs', runs (build_and_place stamp generation random rels b) fs published fs' ∧ Forall2 (λ rel sha, sealed fs' rel sha) rels published ∧
    ∀ rel n, rel ∈ rels → n ≠ MANIFEST → n ≠ GENERATION → dget fs' (inside rel n) = dget (built (b_writes b) rel) n.
Proof.
  intros [Ht Hs Ha Hnew Hplain Hnd] Hrels Herr Hw.
  destruct (block_runs rels (b_writes b) fs) as (fs1 & R1 & N1 & B1 & F1); [intros; by apply Ht|done|done|eapply Forall_impl; [exact Hw|]; by intros wr []|].
  assert (∀ i j a b0, rels !! i = Some a → rels !! j = Some b0 → i ≠ j → apart a b0 ∧ apart (S_ a) (S_ b0)) as Hidx.
  { intros i j a b0 Hi Hj Hij. apply Ht; [by eapply list_elem_of_lookup_2..|]. intros ->. apply Hij. by eapply (NoDup_lookup rels). }
  destruct (seal_loop rels fs1) as (published & fs2 & R2 & S2 & N2 & C2 & F2); [intros; by eapply Hidx|done| |].
  { intros rel n Hrel Hn. rewrite B1 in Hn by done. destruct (dget (built (b_writes b) rel) n) as [c|] eqn:E; [|done]. clear -E Hw. apply dget_Some_key in E.
    unfold built in E. assert (∀ d : dict str str, (∀ k, k ∈ dkeys d → line_name k) → n ∈ dkeys (foldl (λ d wr, if bool_decide (wr.1.1 = rel) then dset d wr.1.2 wr.2 else d) d (b_writes b)) → line_name n) as Hind; [|by apply (Hind []); [intros ? ?%not_elem_of_nil|]].
    clear E. induction Hw as [|wr writes [_ Hl] _ IH]; intros d Hd; cbn [foldl]; [apply Hd|]. apply IH. destruct (bool_decide _); [|done]. intros k [->|Hk]%elem_of_dkeys_dset; [done|by apply Hd]. }
  destruct (set_aside_loop rels fs2) as (fs3 & R3 & N3 & E3 & F3); [intros; by eapply Hidx|done| |intros; by apply Ha|].
  { intros rel Hrel. rewrite F2, F1; [by apply Hplain|intros a Hin|intros a Hin]; apply (Hs a rel); done. }
  destruct (place_loop rels fs3) as (fs4 & R4 & N4 & M4 & _); [done|intros; by apply Hs|done|done|].
  assert (∀ rel n, rel ∈ rels → dget fs4 (inside rel n) = dget fs2 (inside (S_ rel) n)) as Hfinal.
  { intros rel n Hrel. rewrite M4 by done. destruct (F3 (S_ rel)) as [Hq _]; [intros a Hin; split; [apply apart_sym, Hs; done|by apply Ha]|]. apply Hq, inside_below. }
  exists published, fs4. split_and!.
  - apply (runs_bind _ _ _ () fs); [clear; induction rels as [|rel rels IH]; [apply runs_ret|by apply (runs_bind _ _ _ () fs)]|].
    apply (runs_bind _ _ _ () fs1); [apply (runs_bind _ _ _ () fs1); [done|rewrite Herr; apply runs_ret]|].
    apply (runs_bind _ _ _ published fs2); [done|]. apply (runs_bind _ _ _ () fs3); [done|]. apply (runs_bind _ _ _ () fs4); [done|apply runs_ret].
  - apply Forall2_same_length_lookup. split; [by eapply Forall2_length|]. intros i rel sha Hi Hj. apply (sealed_moved fs2 (S_ rel)).
    + intros n. apply Hfinal. by eapply list_elem_of_lookup_2.
    + by apply (Forall2_lookup_lr _ _ _ _ _ _ S2 Hi Hj).
  - intros rel n Hrel Hm Hg. rewrite Hfinal, C2 by done. by apply B1.
Qed.
End publish.

(** C30: A refresh that nothing disturbs returns; every target is then current, and its directory
    holds what the block wrote for it. *)
Theorem refresh_publishes stamp generation random text_of rels replace_ b fs record :
  strip (generation ++ [LF]) = generation → layout random rels fs → NoDup rels → b_error b = None →
  Forall (λ wr, wr.1.1 ∈ rels ∧ line_name wr.1.2) (b_writes b) →
  (∀ journal t, rr_pending (default empty_record record) ≠ Some (MkPending (Quarantine journal) t)) →
  replace_ = true ∨ Forall (λ rel, lexists fs rel = false) rels →
  ∃ w', staged stamp generation random text_of rels replace_ b (MkWorld fs record [] []) = Done () w' ∧
    ∀ rel, rel ∈ rels → current w' rel = true ∧ ∀ n, n ≠ MANIFEST → n ≠ GENERATION → dget (w_files w') (inside rel n) = dget (built (b_writes b) rel) n.
Proof.
  intros Hgen Hl Hnd Herr Hw Hpend Hrep. unfold staged. rewrite bool_decide_eq_true_2 by done. unfold mbind at 1, M_bind at 1. cbn [get w_record].
  set (r0 := default empty_record record) in *. set (m := match rr_pending r0 with None => _ | Some _ => _ end).
  assert (∃ fs1, runs m fs () fs1 ∧ layout random rels fs1 ∧ ∀ d, empty_at fs d → empty_at fs1 d) as (fs1 & R1 & L1 & E1).
  { unfold m. destruct (rr_pending r0) as [[[ts|j] t]|]; [by apply leftovers_run|by destruct (Hpend j t)|by exists fs]. }
  unfold mbind at 1, M_bind at 1. rewrite R1. unfold mbind at 1, M_bind at 1. cbn [get w_files].
  assert (existsb (lexists fs1) rels && negb replace_ = false) as ->.
  { destruct Hrep as [-> |Hno]; [by rewrite andb_false_r|]. apply andb_false_iff. left. apply not_true_iff_false. intros (rel & Hin%list_elem_of_In & Hx)%existsb_exists.
    rewrite Forall_forall in Hno. specialize (Hno rel Hin). apply lexists_false, E1, lexists_false in Hno. congruence. }
  set (r1 := next_revision _). destruct (build_runs stamp generation random rels b fs1 L1 Hnd Herr Hw) as (published & fs2 & R2 & S2 & C2).
  unfold mbind at 1, M_bind at 1. cbn [write_record head tail w_files w_faults w_record_faults].
  unfold mbind at 1, M_bind at 1. unfold closing at 1, catch at 1. rewrite R2. unfold closing, catch. cbn [write_record head tail w_files w_faults w_record_faults].
  eexists. split; [done|]. intros rel Hrel. cbn [w_files]. split; [|intros n; by apply C2]. unfold current. cbn [w_record from_option id w_files].
  apply list_elem_of_lookup in Hrel as [i Hi]. destruct (Forall2_lookup_l _ _ _ _ _ S2 Hi) as (sha & Hj & Hsh).
  cbn [next_revision set_pending rr_packages rr_pending]. rewrite (list_package_get stamp generation _ _ rel sha).
  - rewrite (sealed_checks stamp generation Hgen _ _ _ Hsh). by rewrite !bool_decide_eq_true_2.
  - by rewrite fst_zip by (apply Forall2_length in S2; lia).
  - apply list_elem_of_lookup. exists i. by rewrite lookup_zip_with, Hi, Hj.
Qed.

(** ** What [verify] covers *)

Lemma partition_no_sep (c : ascii) (a b : str) : c ∉ a → partition c (a ++ c :: b) = (a, true, b).
Proof.
  induction a as [|x a IH]; intros Hn; cbn [app partition]; [by rewrite bool_decide_eq_true_2|]. apply not_elem_of_cons in Hn as [Hx Hn].
  rewrite bool_decide_eq_false_2 by congruence. by rewrite IH.
Qed.

Lemma inside_parts d n : SEP ∉ n → dirname (inside d n) = d ∧ basename (inside d n) = n.
Proof.
  intros Hn. unfold dirname, basename, inside. assert (reverse (d ++ [SEP] ++ n) = reverse n ++ SEP :: reverse d) as ->.
  { rewrite !reverse_app, <- app_assoc. done. }
  rewrite partition_no_sep; [|rewrite elem_of_reverse; exact Hn]. split; apply reverse_involutive.
Qed.

(** When the command passes on a whole run, every directory it walks that has a manifest is
    listed and current. *)
Lemma verify_passes_all w d :
  verify_passes w [] = true → walked d = true → d ≠ [] → dget (w_files w) (inside d MANIFEST) ≠ None → current w d = true.
Proof.
  intros Hv Hd Hne Hm. unfold verify_passes in Hv. apply andb_true_iff in Hv as [_ Hv]. rewrite forallb_forall in Hv. unfold verify in Hv.
  rewrite !(bool_decide_eq_true_2 ([] = [])) in Hv by done. set (r := default empty_record (w_record w)) in *.
  destruct (decide (d ∈ dkeys (rr_packages r))) as [Hl|Hl].
  - apply (Hv (d, current w d)), list_elem_of_In, elem_of_app. left. apply list_elem_of_fmap. exists d. by rewrite sort_str_perm.
  - exfalso. enough (false = true) by done. apply (Hv (d, false)), list_elem_of_In, elem_of_app. right. apply list_elem_of_fmap. exists d. split; [done|].
    unfold unlisted_packages. rewrite sort_str_perm, list_elem_of_filter. split; [done|]. destruct (inside_parts d MANIFEST) as [E1 E2]; [by compute_decide|].
    apply list_elem_of_fmap. exists (inside d MANIFEST). rewrite E1, list_elem_of_filter, E2. split_and!; [done..|]. destruct (dget (w_files w) (inside d MANIFEST)) as [c|] eqn:E; [|done].
    by eapply dget_Some_key.
Qed.

(** ** An example *)

Definition demo_rels : list str := [("release"%string : str)].
Definition demo_files : files := [(("release/old.txt"%string : str), ("old"%string : str)); (("notes.md"%string : str), ("n"%string : str))].
Definition demo_build : build := MkBuild [(("release"%string : str), ("plan.json"%string : str), ("{}"%string : str))] None.
Definition demo_stamp : str := "20260101T000000Z"%string.
Definition demo_generation : str := "20260101T000000Z-0a0b0c0d"%string.
Definition demo_random (rel : str) : str := "k2"%string.
Definition demo_text (e : exn) : str := "failed"%string.
Definition demo_staged (w : world) : outcome world unit := staged demo_stamp demo_generation demo_random demo_text demo_rels true demo_build w.

(** The second write of the record takes place and fails, and the clean-up cannot move the new package. *)
Definition demo_commit_fails : world := MkWorld demo_files None (repeat Fine 7 ++ [Fails]) [Fine; FailsLate].

Definition raised_world {A} (o : outcome world A) (d : world) : world := match o with Raised _ w => w | _ => d end.

(** A failing last write of the record: the clean-up writes the record that lists the targets, and a
    refresh that raised leaves a target that [verify] calls current. *)
Lemma failed_commit_lists :
  (∃ e w', demo_staged demo_commit_fails = Raised e w') ∧ current (raised_world (demo_staged demo_commit_fails) demo_commit_fails) "release"%string = true.
Proof. split; [eexists _, _; by vm_compute|by vm_compute]. Qed.

(** The block fails; and the machine stops while the new package is moved into place. *)
Lemma refresh_fails_closed_witness :
  (match demo_staged (MkWorld demo_files None [Fine; Fails] []) with Raised _ w' => current w' "release"%string = false | _ => False end) ∧
  match demo_staged (MkWorld demo_files None (repeat Fine 5 ++ [Crashes]) []) with Crashed w' => rr_pending (default empty_record (w_record w')) ≠ None ∧ current w' "release"%string = false | _ => False end.
Proof.
  split.
  - pose proof (refresh_fails_closed demo_stamp demo_generation demo_random demo_text demo_rels true demo_build (MkWorld demo_files None [Fine; Fails] [])) as H.
    vm_compute in H. vm_compute. specialize (H (Forall_nil_2 _)). destruct H as [H|H]; [discriminate H|exact eq_refl].
  - pose proof (refresh_fails_closed demo_stamp demo_generation demo_random demo_text demo_rels true demo_build (MkWorld demo_files None (repeat Fine 5 ++ [Crashes]) [])) as H.
    vm_compute in H. vm_compute. specialize (H (Forall_nil_2 _)). destruct H as [H|H]; [discriminate H|split; [discriminate|exact eq_refl]].
Defined.

Lemma demo_layout : layout demo_random demo_rels demo_files.
Proof.
  assert (∀ a : str, a ∈ demo_rels → a = ("release"%string : str)) as Hone by (intros a Ha; by apply list_elem_of_singleton in Ha).
  split.
  - intros a b ->%Hone ->%Hone. done.
  - intros a b ->%Hone ->%Hone. split; by vm_compute.
  - intros a b ->%Hone ->%Hone. split; split; by vm_compute.
  - intros a ->%Hone. apply lexists_false. by vm_compute.
  - intros a ->%Hone. by vm_compute.
  - by compute_decide.
Qed.

(** The example, undisturbed. *)
Lemma refresh_publishes_witness :
  layout demo_random demo_rels demo_files ∧
  ∃ w', demo_staged (MkWorld demo_files None [] []) = Done () w' ∧ current w' "release"%string = true ∧
    dget (w_files w') (inside "release"%string "plan.json"%string) = Some ("{}"%string : str).
Proof.
  split; [exact demo_layout|].
  destruct (refresh_publishes demo_stamp demo_generation demo_random demo_text demo_rels true demo_build demo_files None) as (w' & E & H).
  - by vm_compute.
  - exact demo_layout.
  - by compute_decide.
  - done.
  - apply Forall_singleton. split; [by left|]. split; by compute_decide.
  - done.
  - by left.
  - exists w'. split; [exact E|]. destruct (H ("release"%string : str)) as [H1 H2]; [by left|]. split; [exact H1|]. by rewrite H2.
Defined.

Definition done_world {A} (o : outcome world A) (d : world) : world := match o with Done _ w => w | _ => d end.
Definition demo_published : world := done_world (demo_staged (MkWorld demo_files None [] [])) (MkWorld demo_files None [] []).
Definition demo_entry : entry := default (MkEntry [] [] []) (dget (packages_of demo_published) ("release"%string : str)).

(** The files that the example's package was sealed from, elsewhere. *)
Definition demo_sealed : files := [(("a/plan.json"%string : str), ("{}"%string : str)); (("a/GENERATION"%string : str), demo_generation ++ [LF])].

