(* ===== verification/Quarantine.v ===== *)
(** Quarantine of rejected packages: bridge-claims/tools/quarantine.py.  [quarantine] moves the
    signable paths of a run below quarantine/<time>/ under a journal; when a move fails it
    puts back what it moved, and when it is interrupted [recover] completes the moves the
    journal lists.

    The state is that of [Package] with the journals by path, as values; the text of a
    journal is outside the model.  A failing rename has not taken place, and a write of the
    record that does not crash succeeds: the two assumptions of the theorems on faults,
    which are otherwise arbitrary.

    Shown, in a logic of assertions with a crash condition: after [quarantine] every path
    has moved, or none has, or the run is interrupted: then nothing in it is current, each
    path is whole on one side, and after any number of further interruptions an undisturbed
    [recover] moves every path.  Two cases fall outside: a write of the record that fails
    late, and a path that has the name of the quarantine's own note. *)

From S2P Require Import Prelude PyStr PyDict Csv Json Sha256 Package.
Local Open Scope Z_scope.

(** * The code *)

Definition JOURNAL : str := "QUARANTINE.json"%string.
Definition NOTE : str := "QUARANTINE.md"%string.
Definition RESERVED : list str := [QUARANTINE; SUPERSEDED; ("PACKAGES.json"%string : str); (".packages.lock"%string : str); ("."%string : str)].

Definition OUTPUTS : list str :=
  [("safe-approve.json"%string : str); ("safe-revoke.json"%string : str); ("approvals.json"%string : str); ("APPROVALS.md"%string : str)].
Definition APPROVAL_DIR : str := "approval"%string.
Definition DRAFT_DIR : str := "approval-draft"%string.

(** [draft_name] of approve_claims.py, for names that do not begin with a dot. *)
Definition draft_name (name : str) : str :=
  let '(ext, found, base) := partition "."%char (reverse name) in
  if found then reverse base ++ ".draft."%string ++ reverse ext else name ++ ".draft"%string.

(** ** What to move *)

(** [p.split(os.sep)[0]]. *)
Definition first_part (p : str) : str := (partition SEP p).1.1.
Definition listdir (fs : files) : list str := sort_str id (remove_dups (first_part <$> dkeys fs)).

Definition signable_in (fs : files) (name : str) : list str :=
  if negb (isdir fs name) || bool_decide (name ∈ [QUARANTINE; SUPERSEDED]) then []
  else if bool_decide (name = "release"%string) || startswith name "release-"%string then [name]
  else if lexists fs (path_join name "manifest.json"%string) then
    filter (λ p, lexists fs p = true) (output ← OUTPUTS; candidate ← [output; draft_name output]; [path_join name candidate]) ++
    filter (λ p, isdir fs p = true) (path_join name <$> [APPROVAL_DIR; DRAFT_DIR])
  else [].
Definition signable_paths (fs : files) : list str := concat (signable_in fs <$> listdir fs).

Definition files_under (fs : files) (rel : str) : list str :=
  if bool_decide (rel ∈ dkeys fs) then [rel] else sort_str id (filter (λ p, below rel p = true) (dkeys fs)).

(** [os.path.abspath(os.path.join(root, rel))] and [os.path.relpath(full, root)] on the parts of the
    paths; [stack] is the parts so far, the last one first. *)
Fixpoint normalize (stack parts : list str) : list str :=
  match parts with
  | [] => reverse stack
  | p :: parts =>
      if bool_decide (p = []) || bool_decide (p = "."%string) then normalize stack parts
      else if bool_decide (p = ".."%string) then normalize (tail stack) parts
      else normalize (p :: stack) parts
  end.
Definition abspath (root : list str) (rel : str) : list str :=
  if startswith rel [SEP] then normalize [] (components [] rel) else normalize (reverse root) (components [] rel).
Fixpoint join_parts (parts : list str) : str :=
  match parts with [] => [] | [p] => p | p :: parts => p ++ [SEP] ++ join_parts parts end.
Definition relpath (root full : list str) : str :=
  if bool_decide (take (length root) full = root) then
    if bool_decide (full = root) then "."%string else join_parts (drop (length root) full)
  else ".."%string.

Definition include_path (root : list str) (fs : files) (rel : str) : result str :=
  let rel := relpath root (abspath root rel) in
  _ ← raise_if (startswith rel ".."%string || bool_decide (first_part rel ∈ RESERVED) || negb (lexists fs rel)) (SystemExit "--include: not a path inside the run");
  Ok rel.

(** The paths that do not lie below an earlier one. *)
Definition keep_path (unique : list str) (rel : str) : list str :=
  if existsb (λ kept, below kept rel) unique then unique else unique ++ [rel].

Definition planned_paths (root : list str) (fs : files) (include : list str) : result (list str) :=
  included ← mapM (include_path root fs) include;
  Ok (foldl keep_path [] (sort_str id (remove_dups (signable_paths fs ++ included)))).

(** ** State and effects *)

Record journal := MkJournal { j_status : str; j_reason : str; j_moves : list str; j_files : list (str * str); j_error : option str }.
Definition journals : Type := dict str journal.
Definition with_status (status : str) (error : option str) (j : journal) : journal :=
  MkJournal status (j_reason j) (j_moves j) (j_files j) (match error with None => j_error j | e => e end).

Record qworld := MkQ { q_world : world; q_journals : journals }.

Definition Q (A : Type) : Type := qworld → outcome qworld A.
#[export] Instance Q_ret : MRet Q := λ A a q, Done a q.
#[export] Instance Q_bind : MBind Q := λ A B f m q,
  match m q with Done a q => f a q | Raised e q => Raised e q | Crashed q => Crashed q end.
Definition qraise {A} (e : exn) : Q A := λ q, Raised e q.
Definition qget : Q qworld := λ q, Done q q.
Definition of_result {A} (r : result A) : Q A := match r with Ok a => mret a | Raise e => qraise e end.
(** [try: m except Exception as e: ...], the exception as a value. *)
Definition attempt {A} (m : Q A) : Q (A + exn) := λ q,
  match m q with Done a q => Done (inl a) q | Raised e q => Done (inr e) q | Crashed q => Crashed q end.

(** An operation of [Package]. *)
Definition lift {A} (m : M A) : Q A := λ q,
  match m (q_world q) with
  | Done a w => Done a (MkQ w (q_journals q))
  | Raised e w => Raised e (MkQ w (q_journals q))
  | Crashed w => Crashed (MkQ w (q_journals q))
  end.
Definition act (f : files → files) : Q unit := lift (effect f).

(** An effect on the journals. *)
Definition jact (f : journals → journals) : Q unit := λ q,
  let w := q_world q in
  let w' := MkWorld (w_files w) (w_record w) (tail (w_faults w)) (w_record_faults w) in
  match head (w_faults w) with
  | None | Some Fine => Done () (MkQ w' (f (q_journals q)))
  | Some Fails => Raised os_error (MkQ w' (q_journals q))
  | Some FailsLate => Raised os_error (MkQ w' (f (q_journals q)))
  | Some Crashes => Crashed q
  end.

Fixpoint qeach {A} (f : A → Q unit) (l : list A) : Q unit :=
  match l with [] => mret () | x :: l => _ ← f x; qeach f l end.

Definition write_journal (path : str) (j : journal) : Q unit :=
  let partial := path ++ ".partial"%string in
  _ ← jact (λ js, dset js partial j);
  jact (λ js, dset (dpop js partial) path j).

(** ** Moving *)

(** The loop over the paths, with what it moved and the exception that stopped it. *)
Fixpoint move_all (dest : str) (paths moved : list str) : Q (list str * option exn) :=
  match paths with
  | [] => mret (moved, None)
  | rel :: paths =>
      r ← attempt (_ ← act id; act (replace rel (dest ++ [SEP] ++ rel)));
      match r with
      | inl _ => move_all dest paths (moved ++ [rel])
      | inr e => mret (moved, Some e)
      end
  end.

Definition move_back (dest rel : str) : Q unit := act (replace (dest ++ [SEP] ++ rel) rel).

Definition note_text (dest run_name : str) (j : journal) : str :=
  let row fh := "| `"%string ++ fh.1 ++ "` | `"%string ++ fh.2 ++ "` |"%string in
  let lines : list str :=
    [("# Quarantined, do not sign or send"%string : str); [];
     "Moved out of `"%string ++ run_name ++ "/` at "%string ++ basename dest ++ ". Reason: "%string ++ j_reason j; [];
     ("Each path below kept its place relative to the run. Nothing here may be signed or sent."%string : str); [];
     ("| File | SHA-256 |"%string : str); ("|---|---|"%string : str)] ++ (row <$> j_files j) in
  concat ((λ line, line ++ [LF]) <$> lines).

Definition finish (dest run_name jp : str) (j : journal) (record : run_record) : Q unit :=
  _ ← act (write (dest ++ [SEP] ++ NOTE) (note_text dest run_name j));
  _ ← write_journal jp (with_status "done"%string None j);
  lift (write_record (next_revision (set_pending None record))).

(** What [os.path.lexists] sees below quarantine/. *)
Definition seen (q : qworld) : files := w_files (q_world q) ++ ((λ kv : str * journal, (kv.1, [])) <$> q_journals q).

Section quarantine.
(** The run directory's parts and name, the time and the text of an exception. *)
Context (root : list str) (run_name stamp : str) (text_of : exn → str).

Definition quarantine_base : str := QUARANTINE ++ [SEP] ++ stamp.

(** [shutil.rmtree(dest, ignore_errors=True)], then the exception goes on. *)
Definition undo_start (dest : str) (e : exn) : Q unit :=
  _ ← attempt (act (remove dest));
  _ ← attempt (jact (filter (λ kv, below dest kv.1 = false)));
  qraise e.

Definition put_back (dest jp : str) (j : journal) (record : run_record) (moved : list str) (e : exn) : Q unit :=
  _ ← qeach (move_back dest) (reverse moved);
  _ ← write_journal jp (with_status "rolled_back"%string (Some (text_of e)) j);
  lift (write_record (next_revision (set_pending None record))).

Definition quarantine (reason : str) (include : list str) (dry_run : bool) : Q (option str * list str) :=
  q ← qget;
  let fs := w_files (q_world q) in
  let record := default empty_record (w_record (q_world q)) in
  match rr_pending record with
  | Some (MkPending (Quarantine _) _) => qraise (SystemExit "a quarantine was interrupted; run with --recover first")
  | _ =>
      paths ← of_result (planned_paths root fs include);
      if bool_decide (paths = []) || dry_run then mret (None, paths) else
      match free_name (length (seen q) + 1) (seen q) quarantine_base 1 with
      | None => qraise (RuntimeError "no free name")
      | Some dest =>
          let j := MkJournal "moving"%string reason paths
            (rel ← paths; (λ f, (f, file_sha256 (default [] (dget fs f)))) <$> files_under fs rel) None in
          let jp := dest ++ [SEP] ++ JOURNAL in
          _ ← act id;
          let record := next_revision (set_pending (Some (MkPending (Quarantine jp) stamp)) (unlist record paths)) in
          started ← attempt (_ ← write_journal jp j; lift (write_record record));
          _ ← (match started with inl _ => mret () | inr e => undo_start dest e end);
          r ← move_all dest paths [];
          match r with
          | (_, None) => _ ← finish dest run_name jp j record; mret (Some dest, paths)
          | (moved, Some e) =>
              back ← attempt (put_back dest jp j record moved e);
              match back with
              | inl _ => qraise (SystemExit "quarantine failed; everything was put back and nothing moved")
              | inr _ => qraise (SystemExit "quarantine stopped part-way and could not put back what it moved")
              end
          end
      end
  end.

(** One path of an interrupted quarantine; true when it is on both sides or on none. *)
Definition recover_one (dest rel : str) : Q bool :=
  q ← qget;
  let fs := w_files (q_world q) in
  let dst := dest ++ [SEP] ++ rel in
  if lexists fs dst && negb (lexists fs rel) then mret false
  else if lexists fs rel && negb (lexists fs dst) then
    _ ← act id; _ ← act (replace rel dst); mret false
  else mret true.

Fixpoint recover_moves (dest : str) (moves missing : list str) : Q (list str) :=
  match moves with
  | [] => mret missing
  | rel :: moves =>
      amiss ← recover_one dest rel;
      recover_moves dest moves (if (amiss : bool) then missing ++ [rel] else missing)
  end.

Definition recover : Q (str * list str) :=
  q ← qget;
  let record := default empty_record (w_record (q_world q)) in
  match rr_pending record with
  | Some (MkPending (Quarantine jp) _) =>
      match dget (q_journals q) jp with
      | None => qraise FileNotFoundError
      | Some j =>
          let dest := dirname jp in
          missing ← recover_moves dest (j_moves j) [];
          if bool_decide (missing = []) then
            _ ← finish dest run_name jp j (unlist record (j_moves j));
            mret (dest, j_moves j)
          else qraise (SystemExit "neither in the run alone nor in quarantine alone; sort it out by hand")
      end
  | _ => qraise (SystemExit "no interrupted quarantine")
  end.

End quarantine.

(** * A logic of assertions *)

(** What a caller may rely on: a rename that fails has not taken place, and the writes of the record that
    do not crash succeed. *)
Definition atomic (w : world) : Prop := record_safe w ∧ Forall (λ f, f ≠ FailsLate) (w_faults w).

(** Without [disturbed] there are no faults at all. *)
Definition quiet (w : world) : Prop := w_faults w = [] ∧ w_record_faults w = [].
Definition allowed (disturbed : Prop) (w : world) : Prop := atomic w ∧ (disturbed ∨ quiet w).

Definition assertion : Type := files → option run_record → journals → Prop.
Definition holds (P : assertion) (q : qworld) : Prop := P (w_files (q_world q)) (w_record (q_world q)) (q_journals q).

(** From states in [P], [m] returns in a state of [Post], raises in one of [Err] or stops in one of
    [Crash]. *)
Definition triple (disturbed : Prop) {A} (P : assertion) (m : Q A) (Post : A → assertion) (Err : exn → assertion) (Crash : assertion) : Prop :=
  ∀ q, allowed disturbed (q_world q) → holds P q →
  match m q with
  | Done a q' => allowed disturbed (q_world q') ∧ holds (Post a) q'
  | Raised e q' => allowed disturbed (q_world q') ∧ holds (Err e) q'
  | Crashed q' => holds Crash q'
  end.

Section rules.
Context (disturbed : Prop).

Section control.
Context {A : Type}.
Implicit Types (P : assertion) (Err : exn → assertion) (Crash : assertion) (Post : A → assertion).

Lemma t_ret P (a : A) Post Err Crash : (∀ fs r js, P fs r js → Post a fs r js) → triple disturbed P (mret a) Post Err Crash.
Proof. intros H q Ha Hp. split; [done|by apply H]. Qed.

Lemma t_raise P e Post Err Crash : (∀ fs r js, P fs r js → Err e fs r js) → triple disturbed P (qraise e) Post Err Crash.
Proof. intros H q Ha Hp. split; [done|by apply H]. Qed.

Lemma t_bind {B} P (m : Q B) (Mid : B → assertion) (f : B → Q A) Post Err Crash :
  triple disturbed P m Mid Err Crash → (∀ b, triple disturbed (Mid b) (f b) Post Err Crash) → triple disturbed P (m ≫= f) Post Err Crash.
Proof. intros Hm Hf q Ha Hp. specialize (Hm q Ha Hp). unfold mbind, Q_bind. destruct (m q) as [b q1|e q1|q1]; [|done..]. destruct Hm as [Ha1 Hb]. by apply (Hf b). Qed.

Lemma t_attempt P (m : Q A) (Post : A + exn → assertion) Err Crash :
  triple disturbed P m (λ a, Post (inl a)) (λ e, Post (inr e)) Crash → triple disturbed P (attempt m) Post Err Crash.
Proof. intros Hm q Ha Hp. specialize (Hm q Ha Hp). unfold attempt. by destruct (m q) as [b q1|e q1|q1]. Qed.

Lemma t_conseq P P' (m : Q A) Post Post' Err Err' Crash Crash' :
  triple disturbed P' m Post' Err' Crash' → (∀ fs r js, P fs r js → P' fs r js) → (∀ a fs r js, Post' a fs r js → Post a fs r js) →
  (∀ e fs r js, Err' e fs r js → Err e fs r js) → (∀ fs r js, Crash' fs r js → Crash fs r js) → triple disturbed P m Post Err Crash.
Proof.
  intros Hm H1 H2 H3 H4 q Ha Hp. specialize (Hm q Ha (H1 _ _ _ Hp)). unfold holds in *.
  destruct (m q) as [b q1|e q1|q1]; [destruct Hm; split; auto|destruct Hm; split; auto|auto].
Qed.

(** A pure fact of the precondition. *)
Lemma t_pure (F : Prop) P (m : Q A) Post Err Crash : (F → triple disturbed P m Post Err Crash) → triple disturbed (λ fs r js, F ∧ P fs r js) m Post Err Crash.
Proof. intros H q Ha [Hf Hp]. by apply H. Qed.
Lemma t_exists {X} (P : X → assertion) (m : Q A) Post Err Crash : (∀ x, triple disturbed (P x) m Post Err Crash) → triple disturbed (λ fs r js, ∃ x, P x fs r js) m Post Err Crash.
Proof. intros H q Ha [x Hp]. by apply (H x). Qed.

Lemma t_get P (f : qworld → Q A) Post Err Crash :
  (∀ q, holds P q → triple disturbed (λ fs r js, fs = w_files (q_world q) ∧ r = w_record (q_world q) ∧ js = q_journals q) (f q) Post Err Crash) → triple disturbed P (qget ≫= f) Post Err Crash.
Proof. intros H q Ha Hp. unfold mbind, Q_bind. cbn [qget]. by apply (H q). Qed.
End control.

Lemma allowed_tail w fs r : allowed disturbed w → allowed disturbed (MkWorld fs r (tail (w_faults w)) (w_record_faults w)).
Proof. intros [[H1 H2] H3]. split; [split; [exact H1|]; cbn [w_faults]; by apply Forall_tail|]. destruct H3 as [H3|[H3 H4]]; [by left|right]. split; cbn; [by rewrite H3|done]. Qed.

Lemma fault_cases w : allowed disturbed w → head (w_faults w) = None ∨ head (w_faults w) = Some Fine ∨ disturbed ∧ (head (w_faults w) = Some Fails ∨ head (w_faults w) = Some Crashes).
Proof.
  intros [[_ Hf] Hd]. destruct (w_faults w) as [|x l] eqn:E; [by left|]. cbn [head]. assert (disturbed) as D by (destruct Hd as [|[Hq _]]; [done|congruence]).
  apply Forall_cons in Hf as [Hx _]. destruct x; [auto 6|auto 6|done|auto 6].
Qed.

(** An effect: done, or nothing happened. *)
Lemma t_act P f Post Err Crash :
  (∀ fs r js, P fs r js → Post () (f fs) r js) → (disturbed → ∀ e fs r js, P fs r js → Err e fs r js) → (disturbed → ∀ fs r js, P fs r js → Crash fs r js) →
  triple disturbed P (act f) Post Err Crash.
Proof.
  intros H1 H2 H3 q Ha Hp. unfold act, lift, effect. pose proof (allowed_tail _ (f (w_files (q_world q))) (w_record (q_world q)) Ha) as T1.
  pose proof (allowed_tail _ (w_files (q_world q)) (w_record (q_world q)) Ha) as T2.
  destruct (fault_cases _ Ha) as [-> |[-> |(D & [-> | ->])]]; cbn [q_world]; [split; [done|by apply H1]..|split; [done|by apply H2]|by apply H3].
Qed.

Lemma t_jact P f Post Err Crash :
  (∀ fs r js, P fs r js → Post () fs r (f js)) → (disturbed → ∀ e fs r js, P fs r js → Err e fs r js) → (disturbed → ∀ fs r js, P fs r js → Crash fs r js) →
  triple disturbed P (jact f) Post Err Crash.
Proof.
  intros H1 H2 H3 q Ha Hp. unfold jact. pose proof (allowed_tail _ (w_files (q_world q)) (w_record (q_world q)) Ha) as T2.
  destruct (fault_cases _ Ha) as [-> |[-> |(D & [-> | ->])]]; cbn [q_world]; [split; [done|by apply H1]..|split; [done|by apply H2]|by apply H3].
Qed.

Lemma t_write_record P r' Post Err Crash :
  (∀ fs r js, P fs r js → Post () fs (Some r') js) → (disturbed → ∀ fs r js, P fs r js → Crash fs r js) → triple disturbed P (lift (write_record r')) Post Err Crash.
Proof.
  intros H1 H2 q [[Hr Hf] Hd] Hp. unfold lift, write_record. destruct (w_record_faults (q_world q)) as [|x l] eqn:E; cbn [head tail].
  - split; [|by eapply H1]. split; [split; [by constructor|done]|]. destruct Hd as [Hd|[Hd _]]; [by left|right; by split].
  - assert disturbed as D by (destruct Hd as [|[_ Hq]]; [done|congruence]). unfold record_safe in Hr. rewrite E in Hr. apply Forall_cons in Hr as [[-> | ->] Hr].
    + split; [|by eapply H1]. split; [split; [exact Hr|done]|by left].
    + by apply H2.
Qed.

Lemma t_each {B} (I : list B → assertion) (f : B → Q unit) l Err Crash :
  (∀ x l, triple disturbed (I (x :: l)) (f x) (λ _, I l) Err Crash) → triple disturbed (I l) (qeach f l) (λ _, I []) Err Crash.
Proof.
  intros H. induction l as [|x l IH]; cbn [qeach]; [by apply t_ret|]. apply (t_bind _ _ (λ _, I l)); [apply H|]. by intros [].
Qed.

(** The journal is replaced; until then the old one is there. *)
Lemma t_write_journal P jp j Post Err Crash :
  (∀ fs r js js', P fs r js → (∀ k, k ≠ jp → k ≠ jp ++ ".partial"%string → dget js' k = dget js k) → dget js' jp = Some j → Post () fs r js') →
  (disturbed → ∀ e fs r js js', P fs r js → dget js' jp = dget js jp → Err e fs r js') → (disturbed → ∀ fs r js js', P fs r js → dget js' jp = dget js jp → Crash fs r js') →
  triple disturbed P (write_journal jp j) Post Err Crash.
Proof.
  intros H1 H2 H3. set (partial := jp ++ ".partial"%string). assert (jp ≠ partial) as Hne.
  { intros E. apply (f_equal length) in E. unfold partial in E. rewrite length_app in E. cbn in E. lia. }
  assert (∀ (js : journals), dget (dset js partial j) jp = dget js jp) as Hset by (intros js; by rewrite dget_dset, decide_False).
  apply (t_bind _ _ (λ _ fs r js, ∃ js0, P fs r js0 ∧ js = dset js0 partial j)).
  - apply t_jact; [intros fs r js Hp; by exists js|intros D e fs r js Hp; by apply (H2 D e fs r js)|intros D fs r js Hp; by apply (H3 D fs r js)].
  - intros _. apply t_jact.
    + intros fs r js (js0 & Hp & ->). apply (H1 fs r js0); [done| |by rewrite dget_dset, decide_True].
      intros k Hk Hkp. rewrite dget_dset, decide_False by done. rewrite dget_dpop by done. by rewrite dget_dset, decide_False.
    + intros D e fs r js (js0 & Hp & ->). by apply (H2 D e fs r js0).
    + intros D fs r js (js0 & Hp & ->). by apply (H3 D fs r js0).
Qed.
End rules.

(** * Moving paths *)

Definition suffix (x : str) : Prop := x = [] ∨ ∃ n, x = [SEP] ++ n.

(** [p] in [fs] has what [p0] has in [fs0], itself and below. *)
Definition same_at (fs0 : files) (p0 : str) (fs : files) (p : str) : Prop := ∀ x, suffix x → dget fs (p ++ x) = dget fs0 (p0 ++ x).

Lemma below_suffix d q : at_or_below d q = true ↔ ∃ x, q = d ++ x ∧ suffix x.
Proof.
  rewrite at_or_below_iff. split.
  - intros [->|[n ->]]; [exists []; rewrite app_nil_r; split; [done|by left]|exists ([SEP] ++ n); split; [done|right; by exists n]].
  - intros (x & -> & [->|[n ->]]); [left; by rewrite app_nil_r|right; by exists n].
Qed.

Lemma inside_apart d a b : apart a b → apart (inside d a) (inside d b).
Proof.
  intros [H1 H2]. split; apply not_true_iff_false; intros (x & E & Hx)%below_suffix.
  - apply not_true_iff_false in H1. apply H1, below_suffix. exists x. split; [|done]. apply (inside_inj d). rewrite E. unfold inside. by rewrite <- !app_assoc.
  - apply not_true_iff_false in H2. apply H2, below_suffix. exists x. split; [|done]. apply (inside_inj d). rewrite E. unfold inside. by rewrite <- !app_assoc.
Qed.

Lemma same_exists fs0 p0 fs p : same_at fs0 p0 fs p → lexists fs0 p0 = true → lexists fs p = true.
Proof.
  intros Hs Hl. unfold lexists in *. apply existsb_exists in Hl as ([k v] & Hin & Hb). cbn [fst] in Hb. apply below_suffix in Hb as (x & -> & Hx).
  destruct (dget fs (p ++ x)) as [c|] eqn:E.
  - apply existsb_exists. exists (p ++ x, c). split; [by apply list_elem_of_In, dget_Some_elem|]. apply below_suffix. by exists x.
  - rewrite Hs in E by done. apply dget_None in E. exfalso. apply E, list_elem_of_fmap. exists (p0 ++ x, v). split; [done|by apply list_elem_of_In].
Qed.

Section replace_at.
Context (s t : str) (fs : files) (Hst : apart s t) (Ht : empty_at fs t).

Lemma replace_same : same_at fs s (replace s t fs) t.
Proof.
  intros x Hx. apply dget_rekey. intros k Hk. destruct (moved_cases s t k) as [[-> Hb]|(y & -> & -> & Hb & Hy)].
  - split; intros ->.
    + pose proof (Ht _ Hk) as He. assert (at_or_below t (t ++ x) = true) by (apply below_suffix; by exists x). congruence.
    + assert (at_or_below s (s ++ x) = true) by (apply below_suffix; by exists x). congruence.
  - split; intros E; apply app_inv_head in E as ->; done.
Qed.

Lemma replace_keeps fs0 p0 p : apart p s → apart p t → same_at fs0 p0 fs p → same_at fs0 p0 (replace s t fs) p.
Proof.
  intros Hs Hpt Hp x Hx. assert (at_or_below p (p ++ x) = true) as Hb by (apply below_suffix; by exists x).
  rewrite replace_elsewhere; [by apply Hp|by apply (apart_disjoint p)..].
Qed.
End replace_at.

Section moves.
Context (fs0 : files) (paths : list str) (dest : str).

(** The paths of [S] have moved and the others have not; everything else is as it was. *)
Record sides (S : list str) (fs : files) : Prop := {
  sd_path rel : rel ∈ paths →
    if decide (rel ∈ S) then empty_at fs rel ∧ same_at fs0 rel fs (inside dest rel) else same_at fs0 rel fs rel ∧ empty_at fs (inside dest rel);
  sd_rest p : (∀ rel, rel ∈ paths → at_or_below rel p = false) → at_or_below dest p = false → dget fs p = dget fs0 p;
  sd_keys : NoDup (dkeys fs);
}.

Lemma sides_ext S S' fs : (∀ x, x ∈ paths → x ∈ S ↔ x ∈ S') → sides S fs → sides S' fs.
Proof.
  intros E [H1 H2 H3]. split; [|done..]. intros rel Hrel. specialize (H1 rel Hrel). specialize (E rel Hrel).
  destruct (decide (rel ∈ S)), (decide (rel ∈ S')); tauto.
Qed.

(** Two sides of every path, each apart from the others and from the rest of the run. *)
Hypothesis paths_apart : ∀ a b, a ∈ paths → b ∈ paths → a ≠ b → apart a b.
Hypothesis dest_apart : ∀ a, a ∈ paths → apart a dest.

Lemma side_apart a b : a ∈ paths → apart a (inside dest b).
Proof. intros Ha. apply apart_sym, (apart_below dest); [by apply apart_sym, dest_apart|apply inside_below]. Qed.
#[local] Hint Resolve side_apart apart_sym inside_apart paths_apart : core.

(** A path changes sides. *)
Lemma sides_move S S' rel s t fs :
  rel ∈ paths → (s = rel ∧ t = inside dest rel ∧ rel ∉ S ∧ rel ∈ S' ∨ s = inside dest rel ∧ t = rel ∧ rel ∈ S ∧ rel ∉ S') →
  (∀ x, x ≠ rel → x ∈ S ↔ x ∈ S') → sides S fs → sides S' (replace s t fs).
Proof.
  intros Hrel Hst Hother [H1 H2 H3].
  assert (apart s t ∧ empty_at fs t ∧ same_at fs0 rel fs s) as (Hap & Ht & Hs).
  { pose proof (H1 rel Hrel) as Hr. destruct Hst as [(-> & -> & Hn & _)|(-> & -> & Hn & _)]; destruct (decide (rel ∈ S)); try done; destruct Hr; auto. }
  assert (∀ a, a ∈ paths → a ≠ rel → apart a s ∧ apart a t ∧ apart (inside dest a) s ∧ apart (inside dest a) t) as Hoth.
  { intros a Ha Hne. destruct Hst as [(-> & -> & _)|(-> & -> & _)]; auto 6. }
  split.
  - intros a Ha. destruct (decide (a = rel)) as [->|Hne].
    + assert (same_at fs0 rel (replace s t fs) t) as Hnew by (intros x Hx; rewrite (replace_same s t fs Ht x Hx); by apply Hs).
      pose proof (replace_source s t fs Hap) as Hold. destruct Hst as [(-> & -> & _ & Hin)|(-> & -> & _ & Hin)]; by destruct (decide (rel ∈ S')).
    + destruct (Hoth a Ha Hne) as (A1 & A2 & A3 & A4). specialize (H1 a Ha). specialize (Hother a Hne).
      destruct (decide (a ∈ S)), (decide (a ∈ S')); try tauto; destruct H1; (split; [by apply replace_keeps || by apply replace_empty; auto|by apply replace_keeps || by apply replace_empty; auto]).
  - intros p Hp Hd. rewrite replace_elsewhere; [by apply H2|..].
    + destruct Hst as [(-> & -> & _)|(-> & -> & _)]; [by apply Hp|]. apply not_true_iff_false. intros E. rewrite (at_or_below_trans dest (inside dest rel) p) in Hd; [done|apply inside_below|done].
    + destruct Hst as [(-> & -> & _)|(-> & -> & _)]; [|by apply Hp]. apply not_true_iff_false. intros E. rewrite (at_or_below_trans dest (inside dest rel) p) in Hd; [done|apply inside_below|done].
  - by apply replace_NoDup.
Qed.

(** Nothing has moved: the run is as it was but for the quarantine's own directory. *)
Lemma sides_none fs p : sides [] fs → at_or_below dest p = false → dget fs p = dget fs0 p.
Proof.
  intros [H1 H2 _] Hd. destruct (existsb (λ rel, at_or_below rel p) paths) eqn:E.
  - apply existsb_exists in E as (rel & Hrel%list_elem_of_In & (x & -> & Hx)%below_suffix). specialize (H1 rel Hrel). rewrite decide_False in H1 by apply not_elem_of_nil. by apply H1.
  - apply H2; [|done]. intros rel Hrel. destruct (at_or_below rel p) eqn:Eb; [|done]. apply not_true_iff_false in E. exfalso. apply E, existsb_exists. exists rel. split; [by apply list_elem_of_In|done].
Qed.

(** A file of the quarantine's own does not touch the sides. *)
Lemma sides_note S fs name c : (∀ rel, rel ∈ paths → apart rel name) → sides S fs → sides S (write (inside dest name) c fs).
Proof.
  intros Hname [H1 H2 H3].
  assert (∀ p, (∀ x, suffix x → p ++ x ≠ inside dest name) → (∀ p0, same_at fs0 p0 fs p → same_at fs0 p0 (write (inside dest name) c fs) p) ∧ (empty_at fs p → empty_at (write (inside dest name) c fs) p)) as Hw.
  { intros p Hp. split.
    - intros p0 Hs x Hx. rewrite dget_write, decide_False by by apply Hp. by apply Hs.
    - intros He k Hk. unfold write in Hk. apply elem_of_dkeys_dset in Hk as [->|Hk]; [|by apply He]. apply not_true_iff_false. intros (x & E & Hx)%below_suffix. by apply (Hp x). }
  assert (∀ p, apart p (inside dest name) → ∀ x, suffix x → p ++ x ≠ inside dest name) as Hne.
  { intros p Hp x Hx E. destruct Hp as [Hp _]. apply not_true_iff_false in Hp. apply Hp, below_suffix. by exists x. }
  split; [|..|by apply NoDup_write].
  - intros rel Hrel. specialize (H1 rel Hrel). pose proof (Hw rel (Hne _ (side_apart rel name Hrel))) as [K1 K2]. pose proof (Hw (inside dest rel) (Hne _ (inside_apart dest _ _ (Hname rel Hrel)))) as [K3 K4].
    destruct (decide _); destruct H1; auto.
  - intros p Hp Hd. rewrite dget_write, decide_False; [by apply H2|]. by apply inside_outside.
Qed.
End moves.

(** * An interrupted quarantine *)

(** The record lists nothing at or below the paths. *)
Definition unlisted (paths : list str) (r : run_record) : Prop := ∀ p, existsb (λ q, at_or_below q p) paths = true → dget (rr_packages r) p = None.

Lemma unlist_unlisted r paths : unlisted paths (unlist r paths).
Proof. intros p Hp. cbn [unlist rr_packages]. apply filter_dget_none. intros v. cbn [fst]. by rewrite Hp. Qed.

Section interrupted.
Context (disturbed : Prop) (fs0 : files) (paths : list str) (dest : str).
Notation jp := (inside dest JOURNAL).

(** The paths of [S] have moved, the record marks the quarantine pending and its journal is there. *)
Definition interrupted (S : list str) : assertion := λ fs r js,
  sides fs0 paths dest S fs ∧ (∃ rr t, r = Some rr ∧ rr_pending rr = Some (MkPending (Quarantine jp) t) ∧ unlisted paths rr) ∧ ∃ j, dget js jp = Some j ∧ j_moves j = paths.
Definition interrupted_any : assertion := λ fs r js, ∃ S, interrupted S fs r js.

(** The quarantine is over and the paths of [S] have moved. *)
Definition settled (S : list str) : assertion := λ fs r js,
  sides fs0 paths dest S fs ∧ ∃ rr, r = Some rr ∧ rr_pending rr = None ∧ unlisted paths rr.

Hypothesis paths_apart : ∀ a b, a ∈ paths → b ∈ paths → a ≠ b → apart a b.
Hypothesis dest_apart : ∀ a, a ∈ paths → apart a dest.
Hypothesis paths_exist : ∀ a, a ∈ paths → lexists fs0 a = true.
Hypothesis own_names : ∀ a, a ∈ paths → apart a NOTE.

Abbreviation stopped := (λ fs r js, disturbed ∧ interrupted_any fs r js).

Lemma interrupted_move S S' rel s t fs r js :
  rel ∈ paths → (s = rel ∧ t = inside dest rel ∧ rel ∉ S ∧ rel ∈ S' ∨ s = inside dest rel ∧ t = rel ∧ rel ∈ S ∧ rel ∉ S') →
  (∀ x, x ≠ rel → x ∈ S ↔ x ∈ S') → interrupted S fs r js → interrupted S' (replace s t fs) r js.
Proof. intros Hrel Hst Hx (Hs & Hr & Hj). split_and!; [by eapply sides_move|done|done]. Qed.

Lemma interrupted_journal S fs r js js' : interrupted S fs r js → dget js' jp = dget js jp → interrupted S fs r js'.
Proof. intros (Hs & Hr & Hj) E. split_and!; [done..|]. by rewrite E. Qed.

Lemma interrupted_stopped S fs r js : disturbed → interrupted S fs r js → stopped fs r js.
Proof. intros D H. split; [done|]. by exists S. Qed.

(** ** The moves *)

Lemma move_one_t S rel :
  rel ∈ paths → rel ∉ S →
  triple disturbed (interrupted S) (attempt (_ ← act id; act (replace rel (dest ++ [SEP] ++ rel))))
    (λ r, match r with inl _ => interrupted (S ++ [rel]) | inr _ => λ fs r js, disturbed ∧ interrupted S fs r js end) (λ _, stopped) stopped.
Proof.
  intros Hrel Hn. apply t_attempt. apply (t_bind _ _ _ (λ _, interrupted S)).
  - apply t_act; [done|done|]. intros D fs r js. by apply interrupted_stopped.
  - intros []. apply t_act; [|done|intros D fs r js; by apply interrupted_stopped]. intros fs r js. apply (interrupted_move S _ rel).
    + done.
    + left. split_and!; [done..|]. apply elem_of_app. right. by left.
    + intros x Hx. rewrite elem_of_app, list_elem_of_singleton. tauto.
Qed.

Lemma move_all_t rest moved :
  NoDup (moved ++ rest) → (∀ x, x ∈ rest → x ∈ paths) →
  triple disturbed (interrupted moved) (move_all dest rest moved)
    (λ r fs rr js, match r.2 with None => r.1 = moved ++ rest | Some _ => disturbed ∧ ∃ tl, moved ++ rest = r.1 ++ tl end ∧ interrupted r.1 fs rr js) (λ _, stopped) stopped.
Proof.
  revert moved. induction rest as [|rel rest IH]; intros moved Hnd Hin; cbn [move_all].
  - apply t_ret. intros fs r js H. split; [|done]. cbn [snd fst]. by rewrite app_nil_r.
  - eapply t_bind; [apply move_one_t; [apply Hin; left|]|].
    + apply NoDup_app in Hnd as (_ & Hnd & _). intros Hm. apply (Hnd rel Hm). left.
    + intros [[]|e].
      * replace (moved ++ rel :: rest) with ((moved ++ [rel]) ++ rest) by (by rewrite <- app_assoc). apply IH; [by rewrite <- app_assoc|]. intros x Hx. apply Hin. by right.
      * apply t_ret. intros fs r js [D H]. cbn [fst snd]. split_and!; [done|by exists (rel :: rest)|done].
Qed.

(** ** Putting back *)

Lemma put_back_t text_of j rr moved e :
  NoDup moved → (∀ x, x ∈ moved → x ∈ paths) → j_moves j = paths → unlisted paths rr →
  triple disturbed (interrupted moved) (put_back text_of dest jp j rr moved e) (λ _, settled []) (λ _, stopped) stopped.
Proof.
  intros Hnd Hin Hj Hrr. set (I := λ (l : list str) fs r js, (NoDup l ∧ ∀ x, x ∈ l → x ∈ paths) ∧ interrupted l fs r js).
  apply (t_bind _ _ _ (λ _, I [])).
  { apply (t_conseq _ _ (I (reverse moved)) _ _ (λ _, I []) _ (λ _, stopped) _ stopped); [|..|done|done|done].
    - apply t_each. intros x l. apply t_pure. intros [Hnd' Hin']. apply NoDup_cons in Hnd' as [Hx Hnd']. apply t_act.
      + intros fs r js H. split; [split; [done|intros y Hy; apply Hin'; by right]|]. apply (interrupted_move (x :: l) l x); [apply Hin'; left| |..|done].
        * right. split_and!; [done..|left|done].
        * intros y Hy. rewrite elem_of_cons. tauto.
      + intros D _ fs r js. by apply interrupted_stopped.
      + intros D fs r js. by apply interrupted_stopped.
    - intros fs r js (Hs & H). split; [split; [by rewrite reverse_Permutation|intros x Hx; apply Hin; by rewrite elem_of_reverse in Hx]|]. split; [|done].
      eapply sides_ext; [|exact Hs]. intros x _. by rewrite elem_of_reverse. }
  intros _. apply (t_bind _ _ _ (λ _, interrupted [])).
  - apply t_write_journal.
    + intros fs r js js' (_ & Hs & Hr & _) _ E. split_and!; [done..|]. eexists. split; [exact E|]. done.
    + intros D _ fs r js js' (_ & H) E. apply (interrupted_stopped []); [done|]. by eapply interrupted_journal.
    + intros D fs r js js' (_ & H) E. apply (interrupted_stopped []); [done|]. by eapply interrupted_journal.
  - intros _. apply t_write_record; [|intros D fs r js; by apply interrupted_stopped]. intros fs r js (Hs & _). split; [done|]. by eexists.
Qed.

(** ** Finishing *)

Lemma finish_t run_name j rr :
  j_moves j = paths → unlisted paths rr → triple disturbed (interrupted paths) (finish dest run_name jp j rr) (λ _, settled paths) (λ _, stopped) stopped.
Proof.
  intros Hj Hrr. apply (t_bind _ _ _ (λ _, interrupted paths)).
  - apply t_act; [|intros D _ fs r js; by apply interrupted_stopped|intros D fs r js; by apply interrupted_stopped].
    intros fs r js (Hs & H). split; [|done]. by apply sides_note.
  - intros _. apply (t_bind _ _ _ (λ _, interrupted paths)).
    + apply t_write_journal.
      * intros fs r js js' (Hs & Hr & _) _ E. split_and!; [done..|]. eexists. split; [exact E|]. done.
      * intros D _ fs r js js' H E. apply (interrupted_stopped paths); [done|]. by eapply interrupted_journal.
      * intros D fs r js js' H E. apply (interrupted_stopped paths); [done|]. by eapply interrupted_journal.
    + intros _. apply t_write_record; [|intros D fs r js; by apply interrupted_stopped]. intros fs r js (Hs & _). split; [done|]. by eexists.
Qed.

(** ** Recovering *)

Lemma recover_one_t S rel :
  rel ∈ paths → triple disturbed (interrupted S) (recover_one dest rel) (λ b fs r js, b = false ∧ interrupted (rel :: S) fs r js) (λ _, stopped) stopped.
Proof.
  intros Hrel. unfold recover_one. apply t_get. intros q Hq. pose proof Hq as (Hs & _). pose proof (sd_path _ _ _ _ _ Hs rel Hrel) as Hp. fold (inside dest rel).
  destruct (decide (rel ∈ S)) as [Hin|Hn]; destruct Hp as [H1 H2].
  - apply lexists_false in H1. apply same_exists in H2; [|by apply paths_exist]. rewrite H1, H2. cbn [negb andb]. apply t_ret. intros fs r js (-> & -> & ->). split; [done|].
    destruct Hq as (_ & Hr & Hj). split_and!; [|done..]. eapply sides_ext; [|exact Hs]. intros x _. rewrite elem_of_cons. split; [tauto|]. by intros [->|].
  - apply lexists_false in H2. apply same_exists in H1; [|by apply paths_exist]. rewrite H1, H2. cbn [negb andb].
    assert (∀ fs r js, fs = w_files (q_world q) ∧ r = w_record (q_world q) ∧ js = q_journals q → interrupted S fs r js) as HI by (by intros fs r js (-> & -> & ->)).
    apply (t_conseq _ _ (interrupted S) _ _ (λ b fs r js, b = false ∧ interrupted (rel :: S) fs r js) _ (λ _, stopped) _ stopped); [|done..].
    apply (t_bind _ _ _ (λ _, interrupted S)); [apply t_act; [done|intros D _ fs r js; by apply interrupted_stopped|intros D fs r js; by apply interrupted_stopped]|]. intros [].
    apply (t_bind _ _ _ (λ _, interrupted (rel :: S))); [apply t_act|].
    + intros fs r js. apply (interrupted_move S _ rel); [done| |].
      * left. split_and!; [done..|left].
      * intros x Hx. rewrite elem_of_cons. tauto.
    + intros D _ fs r js. by apply interrupted_stopped.
    + intros D fs r js. by apply interrupted_stopped.
    + intros []. by apply t_ret.
Qed.

Lemma recover_moves_t S moves :
  (∀ x, x ∈ moves → x ∈ paths) →
  triple disturbed (interrupted S) (recover_moves dest moves []) (λ missing fs r js, missing = [] ∧ ∃ S', (∀ x, x ∈ moves ∨ x ∈ S → x ∈ S') ∧ interrupted S' fs r js) (λ _, stopped) stopped.
Proof.
  revert S. induction moves as [|rel moves IH]; intros S Hin; cbn [recover_moves].
  - apply t_ret. intros fs r js H. split; [done|]. exists S. split; [|done]. intros x [Hx|Hx]; [by apply not_elem_of_nil in Hx|done].
  - eapply t_bind; [apply recover_one_t, Hin; left|]. intros b. apply t_pure. intros ->.
    eapply t_conseq; [apply (IH (rel :: S)); intros x Hx; apply Hin; by right|done| |done|done].
    intros missing fs r js (-> & S' & HS & H). split; [done|]. exists S'. split; [|done]. intros x Hx. apply HS. rewrite !elem_of_cons in *. tauto.
Qed.

(** From any interruption, [recover] settles the quarantine or leaves it interrupted. *)
Lemma recover_t run_name : triple disturbed interrupted_any (recover run_name) (λ r fs rr js, r = (dest, paths) ∧ settled paths fs rr js) (λ _, stopped) stopped.
Proof.
  apply t_exists. intros S. unfold recover. apply t_get. intros q Hq. pose proof Hq as (Hs & (rr & t & Hr & Hp & Hu) & j & Hj & Hm). rewrite Hr. cbn [from_option id]. rewrite Hp, Hj, Hm.
  destruct (inside_parts dest JOURNAL) as [-> _]; [by compute_decide|].
  apply (t_conseq _ _ (interrupted S) _ _ (λ r fs rr js, r = (dest, paths) ∧ settled paths fs rr js) _ (λ _, stopped) _ stopped); [|intros fs r js (-> & -> & ->); rewrite <- Hr; exact Hq|done..].
  eapply t_bind; [by apply recover_moves_t|]. intros missing. apply t_pure. intros ->. rewrite bool_decide_eq_true_2 by done. apply t_exists. intros S'. apply t_pure. intros HS.
  apply (t_bind _ _ _ (λ _, settled paths)); [|intros []; by apply t_ret].
  eapply t_conseq; [apply (finish_t run_name j (unlist rr paths)); [done|apply unlist_unlisted]| |done..].
  intros fs r js (Hs' & H). split; [|done]. eapply sides_ext; [|exact Hs']. intros x Hx. split; [done|]. intros _. apply HS. by left.
Qed.
End interrupted.

(** * The plan *)

Lemma str_le_app (a b : str) : str_le a (a ++ b).
Proof.
  unfold str_le, bytes_le, ords. rewrite fmap_app. generalize (ord <$> a) as l. intros l. unfold bytes_leb. induction l as [|x l IH]; [by destruct (ord <$> b)|]. cbn [app bytes_compare]. rewrite Z.compare_refl. exact IH.
Qed.

(** Sorted paths: what is kept lies in nothing else that is kept. *)
Lemma keep_path_apart l unique :
  (∀ a b, a ∈ unique → b ∈ unique → a ≠ b → apart a b) → NoDup unique → StronglySorted str_le l → NoDup l → (∀ a b, a ∈ unique → b ∈ l → str_le a b ∧ a ≠ b) →
  (∀ a b, a ∈ foldl keep_path unique l → b ∈ foldl keep_path unique l → a ≠ b → apart a b) ∧ NoDup (foldl keep_path unique l) ∧ (∀ x, x ∈ foldl keep_path unique l → x ∈ unique ∨ x ∈ l).
Proof.
  revert unique. induction l as [|rel l IH]; intros unique Hap Hnu Hs Hnd Hle; cbn [foldl]; [by auto|].
  apply StronglySorted_inv in Hs as [Hs Hall]. rewrite Forall_forall in Hall. apply NoDup_cons in Hnd as [Hrel Hnd].
  assert (keep_path unique rel = if existsb (λ kept, below kept rel) unique then unique else unique ++ [rel]) as -> by done.
  destruct (existsb (λ kept, below kept rel) unique) eqn:E.
  - destruct (IH unique) as (H1 & H2 & H3); [done..|intros a b Ha Hb; apply Hle; [done|by right]|]. split_and!; [done..|]. intros x [Hx|Hx]%H3; [by left|right; by right].
  - assert (∀ a, a ∈ unique → apart a rel) as Hnew.
    { intros a Ha. destruct (Hle a rel Ha ltac:(left)) as [Hl Hne]. split; apply not_true_iff_false; rewrite at_or_below_iff; intros [->|[n ->]]; try done.
      - apply not_true_iff_false in E. apply E, existsb_exists. exists a. split; [by apply list_elem_of_In|]. apply below_inside. by exists n.
      - apply Hne. apply (anti_symm str_le); [done|]. apply str_le_app. }
    destruct (IH (unique ++ [rel])) as (H1 & H2 & H3).
    + intros a b [Ha|Ha%list_elem_of_singleton]%elem_of_app [Hb|Hb%list_elem_of_singleton]%elem_of_app Hab; subst; [by apply Hap|by apply Hnew|by apply apart_sym, Hnew|done].
    + apply NoDup_app. split_and!; [done| |apply NoDup_singleton]. intros x Hx ->%list_elem_of_singleton. by destruct (Hle rel rel Hx ltac:(left)).
    + done.
    + done.
    + intros a b [Ha|Ha%list_elem_of_singleton]%elem_of_app Hb; [apply Hle; [done|by right]|subst a]. split; [by apply Hall|]. by intros ->.
    + split_and!; [done..|]. intros x [[Hx|Hx%list_elem_of_singleton]%elem_of_app|Hx]%H3; [by left|subst; right; left|right; by right].
Qed.

Lemma first_part_inside a b : first_part (a ++ [SEP] ++ b) = first_part a.
Proof.
  unfold first_part. induction a as [|c a IH]; cbn [app partition]; [by rewrite bool_decide_eq_true_2|].
  destruct (bool_decide (c = SEP)); [done|]. cbn [app] in IH. destruct (partition SEP (a ++ SEP :: b)) as [[x f] y], (partition SEP a) as [[x' f'] y']. cbn in *. by rewrite IH.
Qed.

Lemma first_part_apart a b : first_part a ≠ first_part b → apart a b.
Proof.
  intros H. split; apply not_true_iff_false; rewrite at_or_below_iff; intros [->|[n ->]]; apply H; try done; unfold inside; by rewrite first_part_inside.
Qed.

Lemma isdir_lexists fs p : isdir fs p = true → lexists fs p = true.
Proof.
  unfold isdir, lexists. rewrite !existsb_exists. intros (kv & Hin & Hb). exists kv. split; [done|]. unfold at_or_below. by rewrite Hb, orb_true_r.
Qed.

Lemma first_part_idem p : first_part (first_part p) = first_part p.
Proof.
  unfold first_part. induction p as [|c p IH]; [done|]. cbn [partition]. destruct (bool_decide (c = SEP)) eqn:E; [done|]. destruct (partition SEP p) as [[x f] y]. cbn [fst partition] in *. rewrite E.
  destruct (partition SEP x) as [[x' f'] y']. cbn in *. by rewrite IH.
Qed.

Lemma signable_ok fs p : p ∈ signable_paths fs → lexists fs p = true ∧ first_part p ≠ QUARANTINE.
Proof.
  unfold signable_paths. intros (l & Hl & Hp)%list_elem_of_In%in_concat. apply list_elem_of_In in Hl. apply list_elem_of_In in Hp.
  apply list_elem_of_fmap in Hl as (name & -> & Hname). unfold listdir in Hname. rewrite sort_str_perm, elem_of_remove_dups in Hname. apply list_elem_of_fmap in Hname as (key & -> & _).
  set (name := first_part key) in *. assert (first_part name = name) as Hfirst by apply first_part_idem.
  unfold signable_in in Hp. destruct (negb (isdir fs name) || bool_decide (name ∈ [QUARANTINE; SUPERSEDED])) eqn:E; [by apply not_elem_of_nil in Hp|].
  apply orb_false_iff in E as [Hdir%negb_false_iff Hres%bool_decide_eq_false].
  assert (name ≠ QUARANTINE) as Hq by (intros E; apply Hres; rewrite E; left).
  assert (∀ x, first_part x ≠ QUARANTINE → first_part (path_join name x) ≠ QUARANTINE) as Hjoin.
  { intros x Hx. unfold path_join. destruct (bool_decide (name = [])); [done|]. by rewrite first_part_inside, Hfirst. }
  destruct (bool_decide _ || _); [apply list_elem_of_singleton in Hp as ->; split; [by apply isdir_lexists|by rewrite Hfirst]|].
  destruct (lexists fs (path_join name _)); [|by apply not_elem_of_nil in Hp].
  apply elem_of_app in Hp as [[Hl Hp]%list_elem_of_filter|[Hl Hp]%list_elem_of_filter]; (split; [first [exact Hl|apply isdir_lexists; exact Hl]|]).
  - apply list_elem_of_bind in Hp as (output & (candidate & ->%list_elem_of_singleton & Hc)%list_elem_of_bind & Ho). apply Hjoin.
    assert (Forall (λ x, first_part x ≠ QUARANTINE) (output ← OUTPUTS; [output; draft_name output])) as Hall by by compute_decide.
    rewrite Forall_forall in Hall. apply Hall, list_elem_of_bind. by exists output.
  - apply list_elem_of_fmap in Hp as (x & -> & Hx). apply Hjoin. assert (Forall (λ x, first_part x ≠ QUARANTINE) [APPROVAL_DIR; DRAFT_DIR]) as Hall by by compute_decide.
    rewrite Forall_forall in Hall. by apply Hall.
Qed.

(** What a quarantine takes: paths that exist, apart from each other and outside quarantine/. *)
Lemma planned_paths_ok root fs include paths :
  planned_paths root fs include = Ok paths →
  (∀ a b, a ∈ paths → b ∈ paths → a ≠ b → apart a b) ∧ NoDup paths ∧ (∀ a, a ∈ paths → lexists fs a = true ∧ first_part a ≠ QUARANTINE).
Proof.
  unfold planned_paths. intros H. inv_ok. subst. match goal with E : mapM _ _ = Ok ?l |- _ => rename l into included; apply mapM_Ok_Forall2 in E as Hinc end.
  set (all := sort_str id (remove_dups (signable_paths fs ++ included))).
  destruct (keep_path_apart all []) as (H1 & H2 & H3).
  - by intros ? ? ?%not_elem_of_nil.
  - constructor.
  - apply (sort_str_sorted id).
  - unfold all. rewrite sort_str_perm. apply NoDup_remove_dups.
  - by intros ? ? ?%not_elem_of_nil.
  - split_and!; [done..|]. intros a [Ha|Ha]%H3; [by apply not_elem_of_nil in Ha|]. unfold all in Ha. rewrite sort_str_perm, elem_of_remove_dups in Ha.
    apply elem_of_app in Ha as [Ha|Ha]; [by apply signable_ok|]. apply list_elem_of_lookup in Ha as [i Hi]. destruct (Forall2_lookup_r _ _ _ _ _ Hinc Hi) as (rel & _ & Er).
    unfold include_path in Er. inv_ok. subst. zbool. split; [done|]. intros Eq. match goal with Hr : _ ∉ RESERVED |- _ => apply Hr; rewrite Eq; left end.
Qed.

(** * The whole of it *)

(** The plan has room: its paths exist, lie apart and outside the new directory, and do not have the
    names of the quarantine's own files. *)
Definition own_files : list str := [NOTE; JOURNAL; JOURNAL ++ ".partial"%string].
Record plan_ok (fs0 : files) (paths : list str) (dest : str) : Prop := {
  po_apart a b : a ∈ paths → b ∈ paths → a ≠ b → apart a b;
  po_dest a : a ∈ paths → apart a dest;
  po_exist a : a ∈ paths → lexists fs0 a = true;
  po_own a : a ∈ paths → first_part a ∉ own_files;
  po_paths : NoDup paths;
  po_files : NoDup (dkeys fs0);
  po_new : empty_at fs0 dest;
}.

Lemma po_note fs0 paths dest a : plan_ok fs0 paths dest → a ∈ paths → apart a NOTE.
Proof. intros Hp Ha. apply first_part_apart. intros E. apply (po_own _ _ _ Hp a Ha). rewrite E. left. Qed.

Lemma sides_start fs0 paths dest : plan_ok fs0 paths dest → sides fs0 paths dest [] fs0.
Proof.
  intros Hp. split; [|done|by apply Hp]. intros rel Hrel. rewrite decide_False by apply not_elem_of_nil. split; [done|]. intros k Hk. pose proof (po_new _ _ _ Hp k Hk) as Hd.
  apply not_true_iff_false. intros E. rewrite (at_or_below_trans dest (inside dest rel) k) in Hd; [done|apply inside_below|done].
Qed.

(** Nothing has happened yet. *)
Definition untouched (fs0 : files) (r0 : option run_record) : assertion := λ fs r js, (∀ p, dget fs p = dget fs0 p) ∧ r = r0.

Lemma remove_untouched fs0 dest p : empty_at fs0 dest → dget (remove dest fs0) p = dget fs0 p.
Proof.
  intros He. assert (remove dest fs0 = fs0) as ->; [|done]. unfold remove, filter. induction fs0 as [|[k v] fs IH]; [done|].
  cbn [list_filter fst]. rewrite decide_True by (apply He; left). f_equal. apply IH. intros k' Hk'. apply He. by right.
Qed.

Section whole.
Context (disturbed : Prop) (root : list str) (run_name stamp : str) (text_of : exn → str).

(** The part of [quarantine] after the plan and the new directory. *)
Lemma quarantine_runs_t fs0 r0 record paths dest j :
  plan_ok fs0 paths dest → j_moves j = paths → unlisted paths record → (∃ t, rr_pending record = Some (MkPending (Quarantine (inside dest JOURNAL)) t)) →
  triple disturbed (λ fs r js, fs = fs0 ∧ r = r0)
    (_ ← act id;
     started ← attempt (_ ← write_journal (inside dest JOURNAL) j; lift (write_record record));
     _ ← (match started with inl _ => mret () | inr e => undo_start dest e end);
     r ← move_all dest paths [];
     match r with
     | (_, None) => _ ← finish dest run_name (inside dest JOURNAL) j record; mret (Some dest, paths)
     | (moved, Some e) =>
         back ← attempt (put_back text_of dest (inside dest JOURNAL) j record moved e);
         match back with
         | inl _ => qraise (SystemExit "quarantine failed; everything was put back and nothing moved")
         | inr _ => qraise (SystemExit "quarantine stopped part-way and could not put back what it moved")
         end
     end)
    (λ r fs rr js, r = (Some dest, paths) ∧ settled fs0 paths dest paths fs rr js)
    (λ _ fs r js, disturbed ∧ (untouched fs0 r0 fs r js ∨ settled fs0 paths dest [] fs r js ∨ interrupted_any fs0 paths dest fs r js))
    (λ fs r js, disturbed ∧ (untouched fs0 r0 fs r js ∨ interrupted_any fs0 paths dest fs r js)).
Proof.
  intros Hp Hj Hu [t Ht]. assert (∀ fs r js, fs = fs0 ∧ r = r0 → untouched fs0 r0 fs r js) as Hun by (by intros fs r js [-> ->]).
  apply (t_bind _ _ _ (λ _ fs r js, fs = fs0 ∧ r = r0)).
  { apply t_act; [by intros fs r js|intros D _ fs r js H; split; [done|left; by apply Hun]|intros D fs r js H; split; [done|left; by apply Hun]]. }
  intros _. apply (t_bind _ _ _ (λ s fs r js, match s with inl _ => interrupted fs0 paths dest [] fs r js | inr _ => disturbed ∧ fs = fs0 ∧ r = r0 end)).
  { apply t_attempt. apply (t_bind _ _ _ (λ _ fs r js, (fs = fs0 ∧ r = r0) ∧ dget js (inside dest JOURNAL) = Some j)).
    - apply t_write_journal; [done|by intros D e fs r js js' H _|intros D fs r js js' H _; split; [done|left; by apply Hun]].
    - intros _. apply t_write_record; [|intros D fs r js [H _]; split; [done|left; by apply Hun]].
      intros fs r js [[-> ->] Hd]. split; [by apply sides_start|]. split; [by exists record, t|by exists j]. }
  intros [[]|e].
  2: { apply (t_bind _ _ _ (λ _ _ _ _, False)); [|intros []; by intros q _ []]. unfold undo_start.
    apply (t_bind _ _ _ (λ _ fs r js, disturbed ∧ untouched fs0 r0 fs r js)).
    - apply t_attempt. apply t_act; [|intros D _ fs r js [_ H]; by auto|intros D fs r js [_ H]; split; [done|left; by apply Hun]].
      intros fs r js (D & -> & ->). split; [done|]. split; [|done]. intros p. by apply remove_untouched, Hp.
    - intros _. apply (t_bind _ _ _ (λ _ fs r js, disturbed ∧ untouched fs0 r0 fs r js)); [|intros _; apply t_raise; intros fs r js [D H]; by auto].
      apply t_attempt. apply t_jact; [done|done|intros _ fs r js [D H]; by auto]. }
  apply (t_bind _ _ _ (λ _, interrupted fs0 paths dest [])); [by apply t_ret|]. intros _.
  eapply t_bind; [eapply t_conseq; [apply (move_all_t disturbed fs0 paths dest (po_apart _ _ _ Hp) (po_dest _ _ _ Hp) paths []); [by apply Hp|done]|done|done|intros e fs r js [D H]; by auto|intros fs r js [D H]; by auto]|].
  intros [moved [e|]]; cbn [fst snd].
  - apply t_pure. intros (D & tl & Hpm). change ([] ++ paths) with paths in Hpm.
    assert (NoDup moved ∧ ∀ x, x ∈ moved → x ∈ paths) as [Hnd Hin].
    { pose proof (po_paths _ _ _ Hp) as Hn. rewrite Hpm in Hn. apply NoDup_app in Hn as [Hn _]. split; [done|]. intros x Hx. rewrite Hpm. apply elem_of_app. by left. }
    apply (t_bind _ _ _ (λ b fs r js, match b with inl _ => settled fs0 paths dest [] fs r js | inr _ => interrupted_any fs0 paths dest fs r js end)).
    + apply t_attempt. eapply t_conseq; [apply (put_back_t disturbed fs0 paths dest (po_apart _ _ _ Hp) (po_dest _ _ _ Hp) text_of j record moved e Hnd Hin Hj Hu)|done|done|by intros ? fs r js []|intros fs r js [_ H]; by auto].
    + intros [[]|e']; apply t_raise; auto.
  - apply t_pure. intros ->. apply (t_bind _ _ _ (λ _, settled fs0 paths dest paths)); [|intros []; by apply t_ret].
    eapply t_conseq; [apply (finish_t disturbed fs0 paths dest (po_dest _ _ _ Hp) (λ a, po_note fs0 paths dest a Hp) run_name j record Hj Hu)|done|done|intros e fs r js [D H]; by auto|intros fs r js [D H]; by auto].
Qed.
End whole.

Definition record_of (q : qworld) : run_record := default empty_record (w_record (q_world q)).
Definition quarantine_pending (q : qworld) : Prop := ∃ jp t, rr_pending (record_of q) = Some (MkPending (Quarantine jp) t).

(** The new directory: free, below quarantine/. *)
Lemma new_dest q stamp :
  ∃ dest, free_name (length (seen q) + 1) (seen q) (quarantine_base stamp) 1 = Some dest ∧ empty_at (w_files (q_world q)) dest ∧ first_part dest = QUARANTINE.
Proof.
  destruct (free_name_Some (seen q) (quarantine_base stamp)) as (dest & E & Hf%lexists_false & n & Hn). exists dest. split_and!; [done| |].
  - intros k Hk. apply Hf. unfold seen, dkeys in *. rewrite fmap_app. apply elem_of_app. by left.
  - rewrite Hn. unfold aside_name, quarantine_base. destruct (n =? 1); [by rewrite first_part_inside|]. rewrite <- !app_assoc. by rewrite first_part_inside.
Qed.

Lemma plan_room root q stamp include paths :
  NoDup (dkeys (w_files (q_world q))) → planned_paths root (w_files (q_world q)) include = Ok paths → Forall (λ p, first_part p ∉ own_files) paths →
  ∃ dest, free_name (length (seen q) + 1) (seen q) (quarantine_base stamp) 1 = Some dest ∧ plan_ok (w_files (q_world q)) paths dest.
Proof.
  intros Hnd Hp Hown. destruct (planned_paths_ok _ _ _ _ Hp) as (H1 & H2 & H3). destruct (new_dest q stamp) as (dest & E & He & Hf). rewrite Forall_forall in Hown.
  exists dest. split; [done|]. split; [done| | |done|done|done|done].
  - intros a Ha. apply first_part_apart. rewrite Hf. by apply H3.
  - intros a Ha. by apply H3.
Qed.

(** How a quarantine may end; [disturbed] may be false when there are no faults. *)
Definition outcome_ok (disturbed : Prop) (q : qworld) (paths : list str) (dest : str) (o : outcome qworld (option str * list str)) : Prop :=
  let fs0 := w_files (q_world q) in
  match o with
  | Done r q' => r = (Some dest, paths) ∧ holds (settled fs0 paths dest paths) q'
  | Raised _ q' => disturbed ∧ (holds (untouched fs0 (w_record (q_world q))) q' ∨ holds (settled fs0 paths dest []) q' ∨ holds (interrupted_any fs0 paths dest) q')
  | Crashed q' => disturbed ∧ (holds (untouched fs0 (w_record (q_world q))) q' ∨ holds (interrupted_any fs0 paths dest) q')
  end.

Lemma quarantine_ends disturbed root run_name stamp text_of reason include q paths dest :
  allowed disturbed (q_world q) → ¬ quarantine_pending q → planned_paths root (w_files (q_world q)) include = Ok paths → paths ≠ [] →
  free_name (length (seen q) + 1) (seen q) (quarantine_base stamp) 1 = Some dest → plan_ok (w_files (q_world q)) paths dest →
  outcome_ok disturbed q paths dest (quarantine root run_name stamp text_of reason include false q).
Proof.
  intros Ha Hnp Hplan Hne Hd Hok. unfold quarantine. unfold mbind at 1, Q_bind at 1. cbn [qget]. fold (record_of q).
  assert (∀ X (a b : X), match rr_pending (record_of q) with Some (MkPending (Quarantine _) _) => a | _ => b end = b) as Hpend.
  { intros X a b. destruct (rr_pending (record_of q)) as [[[ts|jp] t]|] eqn:E; [done| |done]. exfalso. apply Hnp. by exists jp, t. }
  rewrite Hpend, Hplan. unfold mbind at 1, Q_bind at 1. cbn [of_result mret Q_ret]. rewrite (bool_decide_eq_false_2 (paths = [])) by done. cbn [orb]. rewrite Hd. fold (inside dest JOURNAL).
  set (record := next_revision _). set (j := MkJournal _ _ _ _ _).
  assert (unlisted paths record) as Hu by exact (unlist_unlisted (record_of q) paths).
  pose proof (quarantine_runs_t disturbed run_name text_of (w_files (q_world q)) (w_record (q_world q)) record paths dest j Hok eq_refl Hu (ex_intro _ stamp eq_refl) q Ha (conj eq_refl eq_refl)) as H.
  unfold outcome_ok. match type of H with match ?m with _ => _ end => destruct m as [r q'|e q'|q'] end; [by destruct H|by destruct H|exact H].
Qed.

(** C15: A quarantine whose renames are atomic and whose record writes do not fail ends in one of four
    ways: every path has moved under quarantine/<time>/ with its contents, no path is left at its
    place and the rest of the run is as it was; or nothing was changed; or everything was put back; or
    it is interrupted, with each path whole on one side and the journal that lists them all.  Without
    faults it returns. *)
Theorem quarantine_all_or_none root run_name stamp text_of reason include q paths :
  NoDup (dkeys (w_files (q_world q))) → atomic (q_world q) → ¬ quarantine_pending q →
  planned_paths root (w_files (q_world q)) include = Ok paths → paths ≠ [] → Forall (λ p, first_part p ∉ own_files) paths →
  ∃ dest, plan_ok (w_files (q_world q)) paths dest ∧ outcome_ok (¬ quiet (q_world q)) q paths dest (quarantine root run_name stamp text_of reason include false q).
Proof.
  intros Hnd Ha Hnp Hplan Hne Hown. destruct (plan_room root q stamp include paths Hnd Hplan Hown) as (dest & Hd & Hok). exists dest. split; [done|].
  apply quarantine_ends; try done. split; [done|]. destruct (w_faults (q_world q)) eqn:E1; [|left; intros [? _]; congruence]. destruct (w_record_faults (q_world q)) eqn:E2; [by right|left; intros [_ ?]; congruence].
Qed.

(** ** Recovering *)

(** The next run meets faults of its own. *)
Definition with_faults (q : qworld) (faults record_faults : list fault) : qworld :=
  MkQ (MkWorld (w_files (q_world q)) (w_record (q_world q)) faults record_faults) (q_journals q).

(** A [recover] that fails or is stopped. *)
Inductive recover_fails (run_name : str) : qworld → qworld → Prop :=
  | recover_raises q faults record_faults e q' :
      atomic (q_world (with_faults q faults record_faults)) → recover run_name (with_faults q faults record_faults) = Raised e q' → recover_fails run_name q q'
  | recover_stops q faults record_faults q' :
      atomic (q_world (with_faults q faults record_faults)) → recover run_name (with_faults q faults record_faults) = Crashed q' → recover_fails run_name q q'.

Section recovering.
Context (fs0 : files) (paths : list str) (dest : str) (Hok : plan_ok fs0 paths dest).

Lemma recover_any disturbed run_name :
  triple disturbed (interrupted_any fs0 paths dest) (recover run_name) (λ r fs rr js, r = (dest, paths) ∧ settled fs0 paths dest paths fs rr js)
    (λ _ fs r js, disturbed ∧ interrupted_any fs0 paths dest fs r js) (λ fs r js, disturbed ∧ interrupted_any fs0 paths dest fs r js).
Proof. apply recover_t; [apply Hok|apply Hok|apply Hok|intros a; by apply (po_note fs0 paths dest)]. Qed.

Lemma recover_fails_interrupted run_name q q' : rtc (recover_fails run_name) q q' → holds (interrupted_any fs0 paths dest) q → holds (interrupted_any fs0 paths dest) q'.
Proof.
  induction 1 as [|q q1 q2 Hstep _ IH]; [done|]. intros Hq. apply IH. clear IH.
  destruct Hstep as [q faults rfaults e q' Ha E|q faults rfaults q' Ha E]; pose proof (recover_any True run_name (with_faults q faults rfaults) (conj Ha (or_introl I)) Hq) as H; rewrite E in H; apply H.
Qed.

Lemma interrupted_not_current q p : holds (interrupted_any fs0 paths dest) q → current (q_world q) p = false.
Proof.
  intros (S & _ & (rr & t & Hr & Hp & _) & _). unfold current. rewrite Hr. cbn [from_option id]. destruct (dget _ _); [|done]. rewrite Hp. by rewrite (bool_decide_eq_false_2 (Some _ = None)), andb_false_r.
Qed.
End recovering.

(** C16: When a quarantine fails or is stopped and leaves the run pending, then however often [recover]
    fails or is stopped after it, nothing in the run is current, and a [recover] that is not disturbed
    returns with every path of the quarantine moved, its contents whole, and none of the packages at or
    below them listed. *)
Theorem interrupted_quarantine_recovers root run_name stamp text_of reason include q paths q1 q2 :
  NoDup (dkeys (w_files (q_world q))) → atomic (q_world q) → ¬ quarantine_pending q →
  planned_paths root (w_files (q_world q)) include = Ok paths → paths ≠ [] → Forall (λ p, first_part p ∉ own_files) paths →
  (∃ e, quarantine root run_name stamp text_of reason include false q = Raised e q1) ∨ quarantine root run_name stamp text_of reason include false q = Crashed q1 →
  quarantine_pending q1 → rtc (recover_fails run_name) q1 q2 →
  (∀ p, current (q_world q2) p = false) ∧
  ∃ dest q3, recover run_name (with_faults q2 [] []) = Done (dest, paths) q3 ∧ holds (settled (w_files (q_world q)) paths dest paths) q3.
Proof.
  intros Hnd Ha Hnp Hplan Hne Hown Hend (jp & t & Hpend) Hsteps. destruct (plan_room root q stamp include paths Hnd Hplan Hown) as (dest & Hd & Hok).
  assert (holds (interrupted_any (w_files (q_world q)) paths dest) q1) as Hq1.
  { pose proof (quarantine_ends True root run_name stamp text_of reason include q paths dest (conj Ha (or_introl I)) Hnp Hplan Hne Hd Hok) as H.
    assert (¬ holds (untouched (w_files (q_world q)) (w_record (q_world q))) q1) as Hun.
    { intros [_ Er]. apply Hnp. exists jp, t. unfold record_of in *. by rewrite <- Er. }
    assert (∀ S, ¬ holds (settled (w_files (q_world q)) paths dest S) q1) as Hse.
    { intros S (_ & rr & Er & Ep & _). unfold record_of in Hpend. rewrite Er in Hpend. cbn [from_option id] in Hpend. congruence. }
    destruct Hend as [[e E]|E]; rewrite E in H; destruct H as [_ H]; [destruct H as [H|[H|H]]|destruct H as [H|H]]; try done; try (by destruct (Hse [])). }
  pose proof (recover_fails_interrupted _ _ _ Hok run_name q1 q2 Hsteps Hq1) as Hq2. split; [intros p; by eapply interrupted_not_current|].
  pose proof (recover_any _ _ _ Hok False run_name (with_faults q2 [] [])) as H. exists dest. destruct (recover run_name (with_faults q2 [] [])) as [r q3|e q3|q3].
  - exists q3. destruct H as (_ & -> & H); [split; [split; constructor|by right]|exact Hq2|]. done.
  - destruct H as (_ & [] & _); [split; [split; constructor|by right]|exact Hq2].
  - destruct H as ([] & _); [split; [split; constructor|by right]|exact Hq2].
Qed.

(** * An example *)

#[export] Instance fault_eq_dec : EqDecision fault.
Proof. solve_decision. Defined.

Definition demo_run_files : files :=
  [(("release/plan.json"%string : str), ("{}"%string : str)); (("eth/manifest.json"%string : str), ("m"%string : str)); (("eth/approval/a.json"%string : str), ("a"%string : str));
   (("eth/safe-approve.draft.json"%string : str), ("d"%string : str)); (("QUARANTINE.md"%string : str), ("of an earlier run"%string : str))].
Definition demo_record : run_record := MkRecord 4 None [(("release"%string : str), MkEntry "g"%string "s"%string "t"%string)].
Definition demo_run (faults record_faults : list fault) : qworld := MkQ (MkWorld demo_run_files (Some demo_record) faults record_faults) [].
Definition demo_root : list str := [("runs"%string : str); ("r1"%string : str)].
Definition demo_quarantine (include : list str) (q : qworld) : outcome qworld (option str * list str) :=
  quarantine demo_root "r1"%string demo_stamp demo_text "rejected"%string include false q.
Definition left_in {A} (o : outcome qworld A) : qworld := match o with Done _ q => q | Raised _ q => q | Crashed q => q end.
Definition demo_paths : list str := [("eth/approval"%string : str); ("eth/safe-approve.draft.json"%string : str); ("release"%string : str)].

Lemma demo_plan : planned_paths demo_root demo_run_files [] = Ok demo_paths.
Proof. by vm_compute. Qed.
Lemma demo_run_keys : NoDup (dkeys demo_run_files).
Proof. by compute_decide. Qed.
Lemma demo_names : Forall (λ p, first_part p ∉ own_files) demo_paths.
Proof. by compute_decide. Qed.
Lemma demo_not_pending faults record_faults : ¬ quarantine_pending (demo_run faults record_faults).
Proof. intros (jp & t & E). done. Qed.

(** Undisturbed, the example is moved. *)
Lemma quarantine_all_or_none_witness : ∃ dest q', demo_quarantine [] (demo_run [] []) = Done (Some dest, demo_paths) q'.
Proof.
  destruct (quarantine_all_or_none demo_root "r1"%string demo_stamp demo_text "rejected"%string [] (demo_run [] []) demo_paths) as (dest & _ & H).
  - exact demo_run_keys.
  - split; constructor.
  - apply demo_not_pending.
  - exact demo_plan.
  - done.
  - exact demo_names.
  - exists dest. unfold demo_quarantine. destruct (quarantine _ _ _ _ _ _ _ _) as [r q'|e q'|q'].
    + exists q'. destruct H as [-> _]. exact eq_refl.
    + destruct H as [H _]. exfalso. apply H. by split.
    + destruct H as [H _]. exfalso. apply H. by split.
Defined.

(** Stopped at the second move; a first [recover] is stopped at its first one, the second completes. *)
Definition demo_stopped : qworld := left_in (demo_quarantine [] (demo_run (repeat Fine 5 ++ [Crashes]) [])).
Definition demo_stopped_again : qworld := left_in (recover "r1"%string (with_faults demo_stopped [Fine; Crashes] [])).

Lemma interrupted_quarantine_recovers_witness :
  (∀ p, current (q_world demo_stopped_again) p = false) ∧ ∃ dest q3, recover "r1"%string (with_faults demo_stopped_again [] []) = Done (dest, demo_paths) q3.
Proof.
  destruct (interrupted_quarantine_recovers demo_root "r1"%string demo_stamp demo_text "rejected"%string [] (demo_run (repeat Fine 5 ++ [Crashes]) []) demo_paths demo_stopped demo_stopped_again) as (Hc & dest & q3 & E & _).
  - exact demo_run_keys.
  - split; [constructor|]. by compute_decide.
  - apply demo_not_pending.
  - exact demo_plan.
  - done.
  - exact demo_names.
  - right. vm_compute. exact eq_refl.
  - eexists _, _. vm_compute. exact eq_refl.
  - apply rtc_once. apply (recover_stops _ _ [Fine; Crashes] []); [split; [constructor|by compute_decide]|]. vm_compute. exact eq_refl.
  - split; [exact Hc|]. exists dest, q3. exact E.
Defined.

(** ** Outside the assumptions *)

(** The write of the record takes place and fails: the journal is removed, and the pending record that
    names it stops [recover], [quarantine] and a refresh alike. *)
Definition demo_late : qworld := left_in (demo_quarantine [] (demo_run [] [FailsLate])).

Lemma late_record_failure_strands :
  quarantine_pending demo_late ∧ (∃ q, recover "r1"%string demo_late = Raised FileNotFoundError q) ∧
  (∃ q, demo_quarantine [] demo_late = Raised (SystemExit "a quarantine was interrupted; run with --recover first") q) ∧
  ∃ w, demo_staged (q_world demo_late) = Raised (SystemExit "a quarantine was interrupted; finish it first") w.
Proof. split_and!; [eexists _, _; by vm_compute|eexists; by vm_compute|eexists; by vm_compute|eexists; by vm_compute]. Qed.

(** A file QUARANTINE.md of the run, included by name: the quarantine's own note takes its place. *)
Lemma included_note_lost :
  ∃ dest q, demo_quarantine [NOTE] (demo_run [] []) = Done (Some dest, NOTE :: demo_paths) q ∧
    Forall (λ kv, kv.2 ≠ ("of an earlier run"%string : str)) (w_files (q_world q)).
Proof.
  eexists _, _. split; [vm_compute; exact eq_refl|]. by compute_decide.
Qed.
