(* ===== verification/BuildClaims.v ===== *)
(** Claim contracts of the bridge: bridge-claims/tools/build_claims.py, which turns the verified claim
    lists into one published list, tree and deployment per contract, and
    bridge-claims/tools/proof.py, which looks a payee up in what it wrote.

    A contract's directory is the record [contract_dir]: the manifest, the text of the
    list, the lines of the tree file and the samples.  Reading the JSON inputs, printing,
    the report and the compiled artifact's metadata are outside the model.

    Shown: looking up any payee in a directory that was built returns exactly the rows
    of the payee, each with a proof that verifies against the contract's root; and the
    contracts of a chain pay each asset exactly what the pools have claimable, each
    contract's approvals being the totals of its rows. *)

From S2P Require Import Prelude PyStr PyDict Csv Keccak Sha256 Abi BatchTree ClaimTree Bech32 Address Recipients BridgeLib.
Local Open Scope Z_scope.

(** * The code *)

Definition LIST_FIELDS : list str :=
  [("index"%string : str); ("account"%string : str); ("token"%string : str); ("symbol"%string : str); ("amount_raw"%string : str); ("amount"%string : str); ("pools"%string : str)].
Definition SAMPLE_PROOFS : Z := 2000.
Definition file_sha256 (text : str) : str := hex (sha256 (ords text)).

(** ** Inputs *)

Definition override_step (out : dict str str) (value : str) : result (dict str str) :=
  let '(label, sep, a) := partition "="%char value in
  _ ← raise_if (negb sep) (SystemExit "--funder: expected LABEL=ADDRESS");
  a ← address a; Ok (dset out label a).
Definition funder_overrides (values : list str) : result (dict str str) := foldM override_step [] values.

Record asset := MkAsset { as_symbol : str; as_decimals : Z; as_pools : list str; as_claimable : Z }.

Definition token_of (text : str) : result str := if is_native text then Ok Claims.NATIVE_TOKEN else address text.

Definition asset_step (chain : str) (table : dict str asset) (pool : row) : result (dict str asset) :=
  c ← cell pool "claim_chain"%string;
  if negb (bool_decide (c = chain)) then Ok table else
  st ← cell pool "status"%string;
  if bool_decide (st = ("unsupported"%string : str)) then Ok table else
  t ← cell pool "claim_token"%string; token ← token_of t;
  symbol ← cell pool "symbol"%string; decimals ← int_cell pool "decimals"%string;
  let entry := default (MkAsset symbol decimals [] 0) (dget table token) in
  _ ← raise_if (negb (bool_decide (as_symbol entry = symbol)) || negb (as_decimals entry =? decimals)) (ValueError "pools disagree on symbol or decimals");
  pid ← cell pool "pool_id"%string;
  raw ← cell pool "claimable_raw"%string; n ← (match raw with [] => Ok 0 | _ => py_int raw end);
  Ok (dset table token (MkAsset (as_symbol entry) (as_decimals entry) (as_pools entry ++ [pid]) (as_claimable entry + n))).
Definition asset_table (pools : list row) (chain : str) : result (dict str asset) := foldM (asset_step chain) [] pools.

Record claim := MkClaim { c_account : str; c_token : str; c_amount : Z; c_pools : str }.

Definition read_claim (assets : dict str asset) (st : list claim * list (str * str)) (r : row) : result (list claim * list (str * str)) :=
  let '(rows, seen) := st in
  a ← cell r "account"%string; account ← address a;
  n ← py_int16 account; _ ← raise_if (n =? 0) (ValueError "zero account");
  t ← cell r "token"%string; token ← token_of t;
  _ ← raise_if (negb (dmem assets token)) (ValueError "no pool paying");
  amount ← int_cell r "amount_raw"%string;
  _ ← raise_if ((amount <=? 0) || (2 ^ 256 <=? amount)) (ValueError "amount out of range");
  _ ← raise_if (bool_decide ((account, token) ∈ seen)) (ValueError "second row");
  pools ← cell r "pools"%string;
  Ok (rows ++ [MkClaim account token amount pools], (account, token) :: seen).
Definition read_claims (text : str) (assets : dict str asset) : result (list claim) :=
  st ← foldM (read_claim assets) ([], []) (dict_read text).2; Ok st.1.

Definition format_amount (raw decimals : Z) : str :=
  let text := format_units raw decimals in
  if bool_decide ("."%char ∈ text) then rstrip_char "."%char (rstrip_char "0"%char text) else text.

(** ** Contracts *)

Record group := MkGroup { gr_label : str; gr_funder : option str; gr_source : str; gr_rows : list claim }.

(** [address(x) if x else None]. *)
Definition address_or_none (a : option str) : result (option str) := match truthy a with None => Ok None | Some v => Some <$> address v end.

Definition contract_groups (config : config) (chain : str) (rows : list claim) : result (list group) :=
  entry ← of_option (dget (chain_entries config) chain) (KeyError chain);
  custody ← address_or_none (custody_multisig entry);
  oc ← one_custody config; one_funder ← address_or_none oc;
  let one_ := one config in
  if bool_decide (chain = claim_chain one_) && negb (bool_decide (one_funder = custody)) then
    let one_rows := filter (λ r, c_token r = claim_token one_) rows in
    let rest := filter (λ r, c_token r ≠ claim_token one_) rows in
    let source : str := match truthy (one_multisig one_) with Some _ => "one_claims.custody_multisig"%string | None => "custody_multisig"%string end in
    let groups := [MkGroup (chain ++ "-one"%string) one_funder source one_rows] in
    let groups := if bool_decide (rest = []) then groups else MkGroup chain custody "custody_multisig"%string rest :: groups in
    Ok (filter (λ g, gr_rows g ≠ []) groups)
  else Ok [MkGroup chain custody "custody_multisig"%string rows].

(** ** Where the collateral comes from *)

Record source := MkSource { so_from : str; so_amount : str; so_kind : str }.
(** The custody plan: the transfers of each chain (pool, escrow, amount) and the ONE funding. *)
Record plan_funding := MkPlanFunding { pf_from : str; pf_pools : dict str str }.
Record custody_plan := MkCustodyPlan { cp_transfers : list (list (str * str * str)); cp_funding : option plan_funding }.

Definition add_source (sources : dict str (list source)) (pool : str) (s : source) : dict str (list source) :=
  dset sources pool (default [] (dget sources pool) ++ [s]).
Definition transfer_source (sources : dict str (list source)) (t : str * str * str) : result (dict str (list source)) :=
  a ← address t.1.2; Ok (add_source sources t.1.1 (MkSource a t.2 "escrow"%string)).
Definition funding_source (f : str) (sources : dict str (list source)) (pa : str * str) : result (dict str (list source)) :=
  a ← address f; Ok (add_source sources pa.1 (MkSource a pa.2 "reserve"%string)).
Definition funding_sources (p : custody_plan) : result (dict str (list source)) :=
  sources ← foldM transfer_source [] (concat (cp_transfers p));
  match cp_funding p with None => Ok sources | Some f => foldM (funding_source (pf_from f)) sources (pf_pools f) end.

(** ** One contract *)

Record constants := MkConstants { k_chain_id : Z; k_wrapped : option str }.
Record chains_file := MkChainsFile { ch_salt : str; ch_deployer : str; ch_chains : dict str constants }.

(** [load_chains] of claim_tree.py, after parsing. *)
Definition load_chains (ch : chains_file) : result chains_file :=
  s ← Claims.unhex (ch_salt ch); _ ← raise_if (negb (length s =? 32)%nat) (ValueError "salt must be 32 bytes");
  d ← Claims.unhex (ch_deployer ch); _ ← raise_if (negb (length d =? 20)%nat) (ValueError "create2_deployer must be an address");
  Ok ch.

Record list_row := MkListRow { lr_index : Z; lr_account : str; lr_token : str; lr_symbol : str; lr_amount_raw : Z; lr_amount : str; lr_pools : str }.
Definition list_cells (r : list_row) : list str :=
  [str_of_Z (lr_index r); lr_account r; lr_token r; lr_symbol r; str_of_Z (lr_amount_raw r); lr_amount r; lr_pools r].

Record sample_row := MkSample { sa_index : Z; sa_account : str; sa_token : str; sa_symbol : str; sa_amount_raw : str; sa_proof : list str }.
Record asset_entry := MkAssetEntry {
  ae_token : str; ae_symbol : str; ae_decimals : Z; ae_pools : list str; ae_rows : Z; ae_total : Z; ae_total_text : str; ae_approve : str }.
Record approval := MkApproval { ap_symbol : str; ap_decimals : Z; ap_amount : Z; ap_covers : list str; ap_sources : list source }.
Record constructor := MkConstructor { co_funder : str; co_wrapped : str; co_chain_id : Z; co_root : str; co_count : Z; co_list_hash : str }.
Record deployment := MkDeployment {
  de_status : str; de_deployer : str; de_salt : str; de_constructor : option constructor; de_args : option str;
  de_address : option str; de_bytecode_hash : option str; de_init_hash : option str }.
Record manifest := MkManifest {
  m_label : str; m_chain : str; m_chain_id : Z; m_funder : option str; m_funder_source : str; m_wrapped : option str; m_root : str; m_count : Z;
  m_payees : Z; m_level_sizes : list nat; m_list_file : str; m_list_sha256 : str; m_tree_file : str; m_tree_sha256 : str; m_proofs_checked : Z; m_assets : list asset_entry;
  m_approvals : list (str * approval); m_deployment : deployment }.
Record contract_dir := MkDir { d_manifest : manifest; d_list : str; d_tree : list str; d_samples : list sample_row }.

(** The order of the published list, and that of the manifest's assets. *)
Definition claim_leb (a b : claim) : bool := str_ltb (c_account a) (c_account b) || (bool_decide (c_account a = c_account b) && str_leb (c_token a) (c_token b)).
Definition asset_leb (symbol : str → str) (a b : str) : bool :=
  if bool_decide (a = Claims.NATIVE_TOKEN) then true
  else if bool_decide (b = Claims.NATIVE_TOKEN) then false
  else str_ltb (symbol a) (symbol b) || (bool_decide (symbol a = symbol b) && str_leb a b).

Definition asset_of (assets : dict str asset) (token : str) : result asset := of_option (dget assets token) (KeyError token).

Definition list_row_of (assets : dict str asset) (ir : Z * claim) : result list_row :=
  info ← asset_of assets (c_token ir.2);
  Ok (MkListRow ir.1 (c_account ir.2) (c_token ir.2) (as_symbol info) (c_amount ir.2) (format_amount (c_amount ir.2) (as_decimals info)) (c_pools ir.2)).

Definition leaf_row (ir : Z * claim) : claim_row := (ir.1, c_account ir.2, c_token ir.2, c_amount ir.2).

(** The rows whose proofs are checked: every [step]-th one and the last. *)
Definition sample_indexes (n : nat) : list nat :=
  let step := Nat.max 1 (n / Z.to_nat SAMPLE_PROOFS) in
  remove_dups (range_step n step ++ [n - 1]%nat).

Definition check_sample (tree : list (list bytes)) (r : bytes) (leaf_rows : list claim_row) (i : nat) : result unit :=
  leaf ← of_option (head tree ≫= λ l, l !! i) IndexError;
  _ ← raise_if (negb (verify (proof tree i) r leaf)) (RuntimeError "proof does not verify");
  row ← of_option (leaf_rows !! i) IndexError; again ← row_leaf row;
  raise_if (negb (bool_decide (leaf = again))) (RuntimeError "leaf differs on recomputation").

(** token -> first index, and token -> (rows, total), in the order of first occurrence. *)
Definition first_rows (rows : list claim) : dict str Z := foldl (λ d ir, if dmem d (c_token ir.2) then d else dset d (c_token ir.2) ir.1) [] (enumerate rows).
Definition count_asset (d : dict str (Z * Z)) (r : claim) : dict str (Z * Z) :=
  let e := default (0, 0) (dget d (c_token r)) in dset d (c_token r) (e.1 + 1, e.2 + c_amount r).

Definition sample_of (assets : dict str asset) (tree : list (list bytes)) (rows : list claim) (i : Z) : result sample_row :=
  r ← of_option (rows !! Z.to_nat i) IndexError; info ← asset_of assets (c_token r);
  Ok (MkSample i (c_account r) (c_token r) (as_symbol info) (str_of_Z (c_amount r)) (Claims.hex0x <$> proof tree (Z.to_nat i))).

Definition is_native_token (t : str) : bool := bool_decide (t = Claims.NATIVE_TOKEN).
Definition approve_token (wrapped : option str) (t : str) : str := if is_native_token t then default [] wrapped else t.

(** One asset of the contract: its entry, and its part of the approval. *)
Definition asset_entry_of (assets : dict str asset) (sources : dict str (list source)) (wrapped : option str) (per_asset : dict str (Z * Z))
    (st : list asset_entry * dict str approval) (t : str) : result (list asset_entry * dict str approval) :=
  info ← asset_of assets t;
  let e := default (0, 0) (dget per_asset t) in
  let native := is_native_token t in
  let at_ := approve_token wrapped t in
  let ae := MkAssetEntry t (as_symbol info) (as_decimals info) (sort_str id (as_pools info)) e.1 e.2 (format_amount e.2 (as_decimals info)) at_ in
  let a := default (MkApproval (if native then "W"%string ++ as_symbol info else as_symbol info) (as_decimals info) 0 [] []) (dget st.2 at_) in
  let a := MkApproval (ap_symbol a) (ap_decimals a) (ap_amount a + e.2)
    (ap_covers a ++ [if native then "native "%string ++ as_symbol info else as_symbol info])
    (ap_sources a ++ (p ← sort_str id (as_pools info); default [] (dget sources p))) in
  Ok (st.1 ++ [ae], dset st.2 at_ a).

Definition deploy (ch : chains_file) (deployer : str) (funder wrapped : option str) (chain_id : Z) (r : bytes) (count : Z) (list_sha : str) (bytecode : option bytes)
  : result deployment :=
  list_hash ← of_option (fromhex list_sha) (ValueError "non-hexadecimal number found in fromhex()");
  match funder with
  | None => Ok (MkDeployment "no_funder"%string deployer (ch_salt ch) None None None None None)
  | Some f =>
      blob ← Claims.constructor_args f wrapped chain_id r count list_hash;
      let co := MkConstructor f (default Claims.NATIVE_TOKEN wrapped) chain_id (Claims.hex0x r) count ("0x"%string ++ list_sha) in
      match bytecode with
      | None => Ok (MkDeployment "no_bytecode"%string deployer (ch_salt ch) (Some co) (Some (Claims.hex0x blob)) None None None)
      | Some code =>
          salt ← Claims.unhex (ch_salt ch); a ← Claims.create2_address deployer salt (code ++ blob);
          Ok (MkDeployment "ready"%string deployer (ch_salt ch) (Some co) (Some (Claims.hex0x blob)) (Some a)
                (Some (Claims.hex0x (keccak256 code))) (Some (Claims.hex0x (keccak256 (code ++ blob)))))
      end
  end.

Section build.
(** Whether a process pool may start and the number of workers; chains.json and the creation code. *)
Context (pool_starts : bool) (workers : Z) (ch : chains_file) (bytecode : option bytes).

Definition build_group (chain label : str) (funder : option str) (funder_source : str) (rows : list claim) (assets : dict str asset)
    (sources : dict str (list source)) : result contract_dir :=
  let rows := sort_by claim_leb rows in
  k ← of_option (dget (ch_chains ch) chain) (KeyError chain);
  wrapped ← address_or_none (k_wrapped k);
  deployer ← address (ch_deployer ch);
  _ ← raise_if (existsb (λ r, is_native_token (c_token r)) rows && bool_decide (wrapped = None)) (ValueError "native rows but no wrapped_native configured");
  list_rows ← mapM (list_row_of assets) (enumerate rows);
  let list_text := csv_write (LIST_FIELDS :: (list_cells <$> list_rows)) in
  let list_sha := file_sha256 list_text in
  let leaf_rows := leaf_row <$> enumerate rows in
  ls ← leaves pool_starts leaf_rows workers;
  tree ← levels pool_starts ls workers;
  r ← root tree;
  let sample := sample_indexes (length rows) in
  _ ← mapM (check_sample tree r leaf_rows) sample;
  let tree_lines := write_tree tree in
  samples ← mapM (sample_of assets tree rows) (sort_int id (dvalues (first_rows rows)));
  let per_asset := foldl count_asset [] rows in
  let symbol_of t := lower (match dget assets t with Some a => as_symbol a | None => [] end) in
  st ← foldM (asset_entry_of assets sources wrapped per_asset) ([], []) (sort_by (asset_leb symbol_of) (dkeys per_asset));
  de ← deploy ch deployer funder wrapped (k_chain_id k) r (zlen rows) list_sha bytecode;
  Ok (MkDir
    (MkManifest label chain (k_chain_id k) funder funder_source wrapped (Claims.hex0x r) (zlen rows) (zlen (remove_dups (c_account <$> rows)))
       (length <$> tree) "claims.csv"%string list_sha "tree.txt"%string (file_sha256 (concat tree_lines)) (zlen sample) st.1 st.2 de)
    list_text tree_lines samples).

(** ** The whole run *)

Record summary := MkSummary { su_status : option str; su_outputs : dict str str; su_claim_lists : list str }.
Record inputs := MkInputs {
  i_config : config; i_chain_ids : dict str Z; i_summary : summary; i_files : dict str str; i_plan : custody_plan; i_funder : list str; i_chains : list str }.

(** A file of the allocations directory that the summary lists with its digest. *)
Definition checked_file (i : inputs) (name : str) : result str :=
  text ← of_option (dget (i_files i) name) FileNotFoundError;
  _ ← raise_if (negb (bool_decide (dget (su_outputs (i_summary i)) name = Some (file_sha256 text)))) (SystemExit "does not match the allocation summary");
  Ok text.

Definition total_of (token : str) (rows : list claim) : Z := zsum_with c_amount (filter (λ r, c_token r = token) rows).

Definition group_dir (chain : str) (overrides : dict str str) (assets : dict str asset) (sources : dict str (list source)) (g : group) : result contract_dir :=
  let '(funder, source) := match dget overrides (gr_label g) with Some a => (Some a, "--funder"%string : str) | None => (gr_funder g, gr_source g) end in
  build_group chain (gr_label g) funder source (gr_rows g) assets sources.

Definition build_chain (i : inputs) (pools : list row) (overrides : dict str str) (sources : dict str (list source)) (chain : str) : result (list contract_dir) :=
  _ ← raise_if (bool_decide (chain ∉ su_claim_lists (i_summary i))) (SystemExit "has no claim list");
  k ← of_option (dget (ch_chains ch) chain) (SystemExit "has no entry for the chain");
  cid ← of_option (dget (i_chain_ids i) chain) (KeyError chain);
  _ ← raise_if (negb (k_chain_id k =? cid)) (SystemExit "chain id differs");
  text ← checked_file i ("claims/"%string ++ chain ++ ".csv"%string);
  assets ← asset_table pools chain;
  rows ← read_claims text assets;
  _ ← mapM (λ ta : str * asset, raise_if (negb (total_of ta.1 rows =? as_claimable ta.2)) (SystemExit "claim rows total, pools claimable")) assets;
  groups ← contract_groups (i_config i) chain rows;
  mapM (group_dir chain overrides assets sources) groups.

Definition main (i : inputs) : result (list contract_dir) :=
  _ ← raise_if (negb (bool_decide (su_status (i_summary i) = Some ("built"%string : str)))) (SystemExit "allocation summary is not built");
  _ ← load_chains ch;
  overrides ← funder_overrides (i_funder i);
  pools_text ← checked_file i "pools.csv"%string;
  _ ← checked_file i "custody-plan.json"%string;
  sources ← funding_sources (i_plan i);
  let chains := if bool_decide (i_chains i = []) then su_claim_lists (i_summary i) else i_chains i in
  dirs ← mapM (build_chain i (dict_read pools_text).2 overrides sources) chains;
  let labels := (λ d, m_label (d_manifest d)) <$> concat dirs in
  _ ← raise_if (existsb (λ label, bool_decide (label ∉ labels)) (dkeys overrides)) (SystemExit "--funder for unknown contracts");
  Ok (concat dirs).

End build.

(** ** Looking up a payee: proof.py *)

Definition payee_address (text : str) : result str :=
  let text := strip text in
  if startswith (lower text) "one1"%string then from_one1_lower text "one"%string
  else lower <$> normalize_address text.

Record proof_row := MkProofRow { pr_index : Z; pr_token : str; pr_symbol : str; pr_amount_raw : str; pr_amount : str; pr_proof : list str }.
Record lookup_result := MkLookup {
  lk_label : str; lk_chain : str; lk_chain_id : Z; lk_address : option str; lk_root : str; lk_account : str; lk_rows : list proof_row }.

Definition lookup_row (tree : list (list bytes)) (r : bytes) (row : row) : result proof_row :=
  index ← int_cell row "index"%string; amount ← int_cell row "amount_raw"%string;
  account ← cell row "account"%string; token ← cell row "token"%string;
  leaf ← Claims.leaf index account token amount;
  level ← of_option (head tree) IndexError;
  node ← of_option (py_index level index) IndexError;
  _ ← raise_if (negb (bool_decide (node = leaf))) (SystemExit "leaf in the tree differs from the list");
  let nodes := proof tree (Z.to_nat index) in
  _ ← raise_if (negb (verify nodes r leaf)) (SystemExit "proof does not verify");
  checked ← to_checksum token;
  symbol ← cell row "symbol"%string; text ← cell row "amount"%string;
  Ok (MkProofRow index checked symbol (str_of_Z amount) text (Claims.hex0x <$> nodes)).

Definition lookup (d : contract_dir) (payee : str) : result lookup_result :=
  let m := d_manifest d in
  let rows := filter (λ r : row, r !! ("account"%string : str) = Some payee) (dict_read (d_list d)).2 in
  account ← to_checksum payee;
  let out := MkLookup (m_label m) (m_chain m) (m_chain_id m) (de_address (m_deployment m)) (m_root m) account in
  if bool_decide (rows = []) then Ok (out []) else
  tree ← read_tree (d_tree d) (m_level_sizes m);
  r ← Claims.unhex (m_root m);
  top ← root tree;
  _ ← raise_if (negb (bool_decide (top = r))) (SystemExit "tree root differs from the manifest");
  found ← mapM (lookup_row tree r) rows;
  Ok (out found).

(** * The list and the tree of a contract *)

(** What [build_group] wrote. *)
Lemma build_group_Ok pool_starts workers ch bytecode chain label funder source rows assets sources d :
  build_group pool_starts workers ch bytecode chain label funder source rows assets sources = Ok d →
  ∃ wrapped list_rows ls tree r st, let rows := sort_by claim_leb rows in
    mapM (list_row_of assets) (enumerate rows) = Ok list_rows ∧ mapM row_leaf (leaf_row <$> enumerate rows) = Ok ls ∧ tree_levels ls = Ok tree ∧ tree_root tree = Ok r ∧
    foldM (asset_entry_of assets sources wrapped (foldl count_asset [] rows)) ([], [])
      (sort_by (asset_leb (λ t, lower (match dget assets t with Some a => as_symbol a | None => [] end))) (dkeys (foldl count_asset [] rows))) = Ok st ∧
    d_list d = csv_write (LIST_FIELDS :: (list_cells <$> list_rows)) ∧ d_tree d = write_tree tree ∧
    m_root (d_manifest d) = Claims.hex0x r ∧ m_level_sizes (d_manifest d) = length <$> tree ∧ m_assets (d_manifest d) = st.1 ∧ m_approvals (d_manifest d) = st.2 ∧
    m_wrapped (d_manifest d) = wrapped ∧ (existsb (λ r, is_native_token (c_token r)) rows = true → wrapped ≠ None) ∧ m_chain (d_manifest d) = chain ∧ m_label (d_manifest d) = label ∧
    m_list_file (d_manifest d) = "claims.csv"%string ∧ m_list_sha256 (d_manifest d) = file_sha256 (d_list d) ∧
    m_tree_file (d_manifest d) = "tree.txt"%string ∧ m_tree_sha256 (d_manifest d) = file_sha256 (concat (d_tree d)).
Proof.
  unfold build_group. intros H. inv_ok. subst. cbn [d_list d_tree d_manifest m_root m_level_sizes m_assets m_approvals m_wrapped m_chain m_label m_list_file m_list_sha256 m_tree_file m_tree_sha256].
  match goal with E : leaves _ _ _ = Ok ?ls |- _ => rewrite leaves_pool in E; rename E into Els end.
  match goal with E : levels _ _ _ = Ok ?t |- _ => rewrite levels_eq in E by (by eapply row_leaves_length); rename E into Et end.
  match goal with E : existsb _ _ && bool_decide (?w = None) = false |- _ => exists w; rename E into Ew end.
  repeat eexists; try eassumption.
  intros Hn Hw. by rewrite Hn, Hw in Ew.
Qed.

(** Text that survives the list: no carriage return. *)
Definition listable (r : claim) : Prop := CR ∉ c_account r ∧ CR ∉ c_token r ∧ CR ∉ c_pools r ∧ (length (c_token r) ≤ 64)%nat ∧ 0 ≤ c_amount r.

Lemma dict_read_write header records :
  clean_record header → Forall clean_record records → dict_read (csv_write (header :: records)) = (Some header, row_of header <$> records).
Proof.
  intros Hh Hr. unfold dict_read. rewrite csv_read_write by by constructor. f_equal. f_equal. clear Hh.
  induction Hr as [|r records [Hne _] _ IH]; [done|]. rewrite filter_cons_True by done. by rewrite IH.
Qed.


Lemma drop_while_elem {A} (p : A → bool) l x : x ∈ drop_while p l → x ∈ l.
Proof. induction l as [|y l IH]; cbn [drop_while]; [done|]. destruct (p y); [intros Hx; right; auto|done]. Qed.

Lemma rstrip_char_elem c s x : x ∈ rstrip_char c s → x ∈ s.
Proof. unfold rstrip_char, rstrip_with. rewrite elem_of_reverse. intros Hx%drop_while_elem. by rewrite elem_of_reverse in Hx. Qed.

Lemma dec_pad_no_CR w n : 0 ≤ n → CR ∉ dec_pad w n.
Proof.
  intros Hn. unfold dec_pad, rjust. rewrite elem_of_app. intros [Hx|Hx]; [by apply elem_of_replicate in Hx as [? _]|].
  apply (str_of_Z_no_CR n Hn). unfold str_of_Z. by destruct (Z.ltb_spec n 0); [lia|].
Qed.

Lemma format_amount_no_CR raw decimals : 0 ≤ raw → CR ∉ format_amount raw decimals.
Proof.
  intros Hr. assert (CR ∉ format_units raw decimals) as Hu.
  { assert (0 ≤ Z.abs raw / 10 ^ decimals ∧ 0 ≤ Z.abs raw mod 10 ^ decimals) as [H1 H2].
    { destruct (decide (decimals < 0)); [rewrite Z.pow_neg_r by done; rewrite Zdiv_0_r, Zmod_0_r; lia|].
      assert (0 < 10 ^ decimals) by (apply Z.pow_pos_nonneg; lia). split; [apply Z.div_pos; lia|apply Z.mod_pos_bound; lia]. }
    unfold format_units. destruct (Z.ltb_spec raw 0); [lia|]. rewrite !app_nil_l. destruct (decimals =? 0); [by apply str_of_Z_no_CR|].
    rewrite !not_elem_of_app. split_and!; [by apply str_of_Z_no_CR|by compute_decide|by apply dec_pad_no_CR]. }
  unfold format_amount. destruct (bool_decide _); [|done]. intros Hx. by apply Hu, (rstrip_char_elem "0"%char), (rstrip_char_elem "."%char).
Qed.

(** ** Reading a row back *)

Lemma list_row_cells (a b c d e f g : str) :
  let r := row_of LIST_FIELDS [a; b; c; d; e; f; g] in
  r !! ("index"%string : str) = Some a ∧ r !! ("account"%string : str) = Some b ∧ r !! ("token"%string : str) = Some c ∧ r !! ("symbol"%string : str) = Some d ∧
  r !! ("amount_raw"%string : str) = Some e ∧ r !! ("amount"%string : str) = Some f.
Proof. split_and!; reflexivity. Qed.

Section contract.
Context (assets : dict str asset) (rows : list claim) (list_rows : list list_row) (ls : list bytes) (tree : list (list bytes)) (r : bytes).
Hypothesis Hlist : mapM (list_row_of assets) (enumerate rows) = Ok list_rows.
Hypothesis Hls : mapM row_leaf (leaf_row <$> enumerate rows) = Ok ls.
Hypothesis Htree : tree_levels ls = Ok tree.
Hypothesis Hroot : tree_root tree = Ok r.

Lemma tree_facts : head tree = Some ls ∧ bytes_ok r ∧ read_tree (write_tree tree) (length <$> tree) = Ok tree.
Proof.
  apply tree_levels_Ok in Htree as Ht. destruct Ht as [Hne ->].
  assert (Forall bytes_ok ls) as Hok.
  { apply Forall_forall. intros l Hl. eapply leaves_elem in Hl as (row & _ & Hr); [|exact Hls]. by apply claim_leaf_is_leaf_hash, is_leaf_hash_bytes32 in Hr as [? _]. }
  pose proof (levels_loop_bytes (length ls) ls Hok) as Hall. split_and!; [apply levels_loop_head| |by apply read_write_tree].
  unfold tree_root in Hroot. inv_ok. rewrite Forall_forall in Hall. subst.
  match goal with E : last _ = Some ?top, E' : head ?top = Some _ |- _ => apply last_Some_elem_of in E; apply Hall in E; rewrite Forall_forall in E; apply E; by apply head_Some_elem_of end.
Qed.

(** Row [i] of the list, looked up. *)
Definition row_found (ir : Z * claim) (pr : proof_row) : Prop :=
  pr_index pr = ir.1 ∧ pr_amount_raw pr = str_of_Z (c_amount ir.2) ∧ to_checksum (c_token ir.2) = Ok (pr_token pr) ∧
  ∃ leaf nodes, Claims.leaf ir.1 (c_account ir.2) (c_token ir.2) (c_amount ir.2) = Ok leaf ∧ pr_proof pr = Claims.hex0x <$> nodes ∧ verify nodes r leaf = true.

Lemma lookup_row_ok i c lr :
  rows !! i = Some c → listable c → list_row_of assets (Z.of_nat i, c) = Ok lr →
  ∃ pr, lookup_row tree r (row_of LIST_FIELDS (list_cells lr)) = Ok pr ∧ row_found (Z.of_nat i, c) pr.
Proof.
  intros Hi (_ & _ & _ & Ht & _) Hlr. unfold list_row_of in Hlr. inv_ok. subst lr. unfold list_cells. cbn [lr_index lr_account lr_token lr_symbol lr_amount_raw lr_amount lr_pools fst snd].
  match goal with |- context [row_of LIST_FIELDS [?a; ?b; ?c0; ?d; ?e; ?f; ?g]] => destruct (list_row_cells a b c0 d e f g) as (C1 & C2 & C3 & C4 & C5 & C6); set (rw := row_of LIST_FIELDS _) in * end.
  destruct tree_facts as (Hhead & _ & _).
  assert (∃ leaf, ls !! i = Some leaf ∧ row_leaf (leaf_row (Z.of_nat i, c)) = Ok leaf) as (leaf & Hl & Hleaf).
  { apply mapM_Ok_Forall2 in Hls as H2. destruct (Forall2_lookup_l _ _ _ i (leaf_row (Z.of_nat i, c)) H2) as (leaf & H & H'); [|by exists leaf]. by rewrite list_lookup_fmap, lookup_enumerate, Hi. }
  destruct (tree_proof_ok ls tree i leaf Htree Hl) as (r' & Hr' & Hv). rewrite Hroot in Hr'. apply Ok_inj in Hr' as <-.
  assert (to_checksum (c_token c) = Ok ("0x"%string ++ checksum_body (removeprefix (lower (c_token c)) "0x"%string))) as Hck.
  { apply to_checksum_ok; [done|]. unfold removeprefix. destruct (startswith _ _); rewrite ?length_drop, length_lower; lia. }
  cbn [row_leaf leaf_row fst snd] in Hleaf.
  eexists. split.
  - unfold lookup_row, int_cell, cell. rewrite C1, C2, C3, C4, C5, C6. cbn [of_option mbind result_bind]. rewrite !int_str_of_Z. cbn [mbind result_bind]. rewrite Hleaf, Hhead. cbn [of_option mbind result_bind].
    unfold py_index. rewrite (proj2 (Z.ltb_ge (Z.of_nat i) 0)) by lia. cbv zeta. rewrite (proj2 (Z.ltb_ge (Z.of_nat i) 0)) by lia. rewrite Nat2Z.id, Hl. cbn [of_option mbind result_bind].
    rewrite bool_decide_eq_true_2 by done. cbn [negb raise_if mbind result_bind]. change (verify (proof tree i) r leaf) with (tree_verify (tree_proof tree i) r leaf). rewrite Hv. cbn [negb raise_if mbind result_bind].
    rewrite Hck. cbn [mbind result_bind]. reflexivity.
  - split_and!; [done|done|done|]. exists leaf, (proof tree i). split_and!; [exact Hleaf|done|exact Hv].
Qed.

Lemma list_row_clean i c lr : listable c → (∀ t a, dget assets t = Some a → CR ∉ as_symbol a) → list_row_of assets (Z.of_nat i, c) = Ok lr → clean_record (list_cells lr) ∧ lr_account lr = c_account c.
Proof.
  intros (H1 & H2 & H3 & _ & H4) Hs Hlr. unfold list_row_of, asset_of in Hlr. inv_ok. subst. split; [|done]. split; [done|].
  repeat constructor; cbn [lr_index lr_account lr_token lr_symbol lr_amount_raw lr_amount lr_pools fst snd]; try done; try (apply str_of_Z_no_CR; lia); [by eapply Hs|by apply format_amount_no_CR].
Qed.

Lemma lookup_rows_ok payee l lrs :
  Forall2 (λ ir lr, list_row_of assets ir = Ok lr) l lrs → Forall (λ ir, ∃ i, ir.1 = Z.of_nat i ∧ rows !! i = Some ir.2 ∧ listable ir.2) l →
  ∃ prs, mapM (lookup_row tree r) (filter (λ rw : row, rw !! ("account"%string : str) = Some payee) (row_of LIST_FIELDS <$> (list_cells <$> lrs))) = Ok prs ∧
    Forall2 row_found (filter (λ ir, c_account ir.2 = payee) l) prs.
Proof.
  induction 1 as [|[z c] lr l lrs Hlr _ IH]; intros Hall; [by exists []|]. apply Forall_cons in Hall as [(i & Ez & Hi & Hc) Hall]. cbn [fst snd] in *. subst z.
  destruct (IH Hall) as (prs & Hm & Hf). destruct (lookup_row_ok i c lr Hi Hc Hlr) as (pr & Hpr & Hfound).
  assert (row_of LIST_FIELDS (list_cells lr) !! ("account"%string : str) = Some (c_account c)) as Ha.
  { unfold list_row_of in Hlr. inv_ok. subst. by apply list_row_cells. }
  cbn [fmap list_fmap]. rewrite !filter_cons, Ha. cbn [snd]. destruct (decide (c_account c = payee)) as [->|Hne].
  - rewrite decide_True by done. exists (pr :: prs). cbn [mapM]. rewrite Hpr. cbn [mbind result_bind]. rewrite Hm. split; [done|by constructor].
  - rewrite decide_False by congruence. by exists prs.
Qed.
End contract.

(** C17: Looking up any payee in a contract's directory as it was built succeeds and returns exactly the
    rows of the payee in the published list, each with its index and amount and a proof that
    verifies against the root in the manifest. *)
Theorem every_row_provable pool_starts workers ch bytecode chain label funder source rows assets sources d payee :
  build_group pool_starts workers ch bytecode chain label funder source rows assets sources = Ok d →
  Forall listable rows → (∀ t a, dget assets t = Some a → CR ∉ as_symbol a) → (length payee ≤ 64)%nat →
  ∃ r out, m_root (d_manifest d) = Claims.hex0x r ∧ lookup d payee = Ok out ∧
    Forall2 (row_found r) (filter (λ ir, c_account ir.2 = payee) (enumerate (sort_by claim_leb rows))) (lk_rows out).
Proof.
  intros (wrapped & list_rows & ls & tree & r & st & Hlist & Hls & Htree & Hroot & _ & Ed & Et & Er & Esz & _)%build_group_Ok Hall Hsym Hp.
  cbv zeta in *. set (sorted := sort_by claim_leb rows) in *. assert (Forall listable sorted) as Hsorted by (unfold sorted; by rewrite sort_by_perm).
  assert (Forall (λ ir, ∃ i, ir.1 = Z.of_nat i ∧ sorted !! i = Some ir.2 ∧ listable ir.2) (enumerate sorted)) as Hen.
  { apply Forall_forall. intros [z c] (i & -> & Hi)%enumerate_elem_of. exists i. split_and!; [done..|]. rewrite Forall_forall in Hsorted. apply Hsorted. by eapply list_elem_of_lookup_2. }
  apply mapM_Ok_Forall2 in Hlist as H2. destruct (lookup_rows_ok assets sorted ls tree r Hls Htree Hroot payee _ _ H2 Hen) as (prs & Hm & Hf).
  destruct (tree_facts sorted ls tree r Hls Htree Hroot) as (_ & Hok & Hread).
  assert (∃ account, to_checksum payee = Ok account) as [account Hacc].
  { eexists. apply to_checksum_ok; [done|]. unfold removeprefix. destruct (startswith _ _); rewrite ?length_drop, length_lower; lia. }
  assert (Forall clean_record (list_cells <$> list_rows)) as Hclean.
  { apply Forall_fmap. clear -H2 Hen Hsym. induction H2 as [|[z c] lr l lrs Hlr _ IH]; [constructor|]. apply Forall_cons in Hen as [(i & Ez & _ & Hc) Hen]. cbn [fst snd] in *. subst z.
    constructor; [by eapply list_row_clean|by apply IH]. }
  exists r. unfold lookup. rewrite Ed, Et, Er, Esz, Hacc. rewrite dict_read_write by (try done; by compute_decide). cbn [snd mbind result_bind].
  set (found := filter _ _) in *. destruct (bool_decide_reflect (found = [])) as [E|_].
  - eexists. split_and!; [done..|]. cbn [lk_rows]. rewrite E in Hm. apply Ok_inj in Hm as <-. exact Hf.
  - rewrite Hread. cbn [mbind result_bind]. assert (Claims.unhex (Claims.hex0x r) = Ok r) as ->.
    { unfold Claims.unhex, Claims.hex0x. rewrite startswith_app. change (drop 2 ("0x"%string ++ hex r)) with (hex r). by rewrite fromhex_hex. }
    cbn [mbind result_bind]. unfold root. rewrite Hroot. cbn [mbind result_bind]. rewrite bool_decide_eq_true_2 by done. cbn [negb raise_if mbind result_bind]. rewrite Hm. cbn [mbind result_bind].
    eexists. split_and!; [done..|]. exact Hf.
Qed.

(** * The contracts of a chain *)

#[export] Instance total_of_perm t : Proper ((≡ₚ) ==> eq) (total_of t).
Proof. intros l l' Hp. unfold total_of. by rewrite Hp. Qed.

Lemma total_of_app t l l' : total_of t (l ++ l') = total_of t l + total_of t l'.
Proof. unfold total_of. by rewrite filter_app, zsum_with_app. Qed.

Lemma total_of_concat t ls : total_of t (concat ls) = zsum (total_of t <$> ls).
Proof. induction ls as [|l ls IH]; [done|]. cbn [concat fmap list_fmap]. rewrite total_of_app, IH. done. Qed.

(** Rows and totals per token. *)
Lemma count_asset_ok rows :
  NoDup (dkeys (foldl count_asset [] rows)) ∧ ∀ t, (default (0, 0) (dget (foldl count_asset [] rows) t)).2 = total_of t rows.
Proof.
  induction rows as [|r rows [IH1 IH2]] using rev_ind; [split; [constructor|done]|]. rewrite foldl_snoc. unfold count_asset at 1 3. split; [by apply NoDup_dset|].
  intros t. rewrite dget_dset, total_of_app. destruct (decide (t = c_token r)) as [->|Hne]; cbn [default from_option id snd].
  - unfold total_of at 2. rewrite filter_cons_True, filter_nil by done. rewrite IH2. unfold zsum_with. cbn. lia.
  - unfold total_of at 2. rewrite filter_cons_False, filter_nil by congruence. rewrite IH2. unfold zsum_with. cbn. lia.
Qed.

(** What a manifest says: the total of an asset, and the approval of a token. *)
Definition asset_total (m : manifest) (t : str) : Z := zsum_with ae_total (filter (λ e, ae_token e = t) (m_assets m)).
Definition amount_of (approvals : dict str approval) (t : str) : Z := match dget approvals t with Some a => ap_amount a | None => 0 end.

Section entries.
Context (assets : dict str asset) (sources : dict str (list source)) (wrapped : option str) (pa : dict str (Z * Z)).

Definition entry_ok (e : asset_entry) : Prop :=
  ae_total e = (default (0, 0) (dget pa (ae_token e))).2 ∧ ae_approve e = approve_token wrapped (ae_token e) ∧ dget assets (ae_token e) ≠ None.

Lemma entries_fold ts st0 st :
  foldM (asset_entry_of assets sources wrapped pa) st0 ts = Ok st →
  ∃ es, st.1 = st0.1 ++ es ∧ ae_token <$> es = ts ∧ Forall entry_ok es ∧
    ∀ a, amount_of st.2 a = amount_of st0.2 a + zsum_with ae_total (filter (λ e, ae_approve e = a) es).
Proof.
  revert st0. induction ts as [|t ts IH]; intros st0 H; cbn [foldM] in H.
  - inv_ok. subst. exists []. rewrite app_nil_r. split_and!; [done..|constructor|]. intros a. rewrite filter_nil. unfold zsum_with. cbn. lia.
  - apply bind_Ok_inv in H as (st1 & H1 & H). destruct (IH _ H) as (es & E1 & E2 & E3 & E4). clear IH H. unfold asset_entry_of, asset_of in H1. inv_ok. subst st1. cbn [fst snd] in *.
    eexists (_ :: es). split_and!.
    + rewrite E1, <- app_assoc. reflexivity.
    + cbn [fmap list_fmap ae_token]. by rewrite E2.
    + constructor; [|done]. split_and!; [done..|]. cbn [ae_token]. congruence.
    + intros tok. rewrite E4. unfold amount_of at 1. rewrite dget_dset. rewrite filter_cons. cbn [ae_approve].
      destruct (decide (tok = approve_token wrapped t)) as [->|Hne].
      * rewrite decide_True by done. rewrite zsum_with_cons. cbn [ap_amount ae_total]. unfold amount_of. destruct (dget st0.2 _); cbn [default from_option id ap_amount]; lia.
      * rewrite decide_False by congruence. done.
Qed.
End entries.

Lemma entries_total es t (f : str → Z) :
  NoDup (ae_token <$> es) → Forall (λ e, ae_total e = f (ae_token e)) es → (t ∉ ae_token <$> es → f t = 0) → zsum_with ae_total (filter (λ e, ae_token e = t) es) = f t.
Proof.
  induction es as [|e es IH]; intros Hnd Hall Hz; cbn [fmap list_fmap] in *; [rewrite filter_nil; symmetry; apply Hz, not_elem_of_nil|].
  apply NoDup_cons in Hnd as [Hn Hnd]. apply Forall_cons in Hall as [He Hall]. rewrite filter_cons. destruct (decide (ae_token e = t)) as [<-|Hne].
  - rewrite zsum_with_cons, He. assert (filter (λ e0, ae_token e0 = ae_token e) es = []) as ->; [|unfold zsum_with; cbn; lia].
    apply elem_of_nil_inv. intros x [Hx Hin]%list_elem_of_filter. apply Hn. rewrite <- Hx. apply list_elem_of_fmap. by exists x.
  - apply IH; [done..|]. intros Hn'. apply Hz. apply not_elem_of_cons. split; [congruence|done].
Qed.

(** A contract's manifest and its published list. *)
Definition covers (assets : dict str asset) (d : contract_dir) (rows : list claim) : Prop :=
  let m := d_manifest d in
  (∃ list_rows, mapM (list_row_of assets) (enumerate rows) = Ok list_rows ∧ d_list d = csv_write (LIST_FIELDS :: (list_cells <$> list_rows))) ∧
  (∀ t, asset_total m t = total_of t rows) ∧ Forall (λ e, ae_approve e = approve_token (m_wrapped m) (ae_token e) ∧ dget assets (ae_token e) ≠ None) (m_assets m) ∧
  ∀ t, amount_of (m_approvals m) t = zsum_with ae_total (filter (λ e, ae_approve e = t) (m_assets m)).

Lemma build_group_covers pool_starts workers ch bytecode chain label funder source rows assets sources d :
  build_group pool_starts workers ch bytecode chain label funder source rows assets sources = Ok d → covers assets d (sort_by claim_leb rows).
Proof.
  intros (wrapped & list_rows & ls & tree & r & st & Hlist & _ & _ & _ & Hst & Ed & _ & _ & _ & Ea & Eap & Ew & _)%build_group_Ok. cbv zeta in *.
  set (sorted := sort_by claim_leb rows) in *. destruct (count_asset_ok sorted) as [Hnd Htot]. set (pa := foldl count_asset [] sorted) in *.
  destruct (entries_fold _ _ _ _ _ _ _ Hst) as (es & E1 & E2 & E3 & E4). cbn [fst app] in E1. rewrite E1 in Ea. unfold covers. rewrite Ea, Eap, Ew. split_and!.
  - by exists list_rows.
  - intros t. unfold asset_total. rewrite Ea. apply (entries_total es t (λ t, total_of t sorted)).
    + rewrite E2, sort_by_perm. exact Hnd.
    + eapply Forall_impl; [exact E3|]. intros e (-> & _). apply Htot.
    + rewrite E2, sort_by_perm. intros Hn%dget_None. rewrite <- Htot, Hn. done.
  - eapply Forall_impl; [exact E3|]. by intros e (_ & ? & ?).
  - intros t. rewrite E4. done.
Qed.

(** The contracts of a chain share out its rows. *)
Lemma contract_groups_rows config chain rows groups : contract_groups config chain rows = Ok groups → concat (gr_rows <$> groups) ≡ₚ rows.
Proof.
  unfold contract_groups. intros H. inv_ok.
  assert (∀ gs, concat (gr_rows <$> filter (λ g, gr_rows g ≠ []) gs) = concat (gr_rows <$> gs)) as Hfilter.
  { intros gs. induction gs as [|g gs IH]; [done|]. rewrite filter_cons. destruct (decide (gr_rows g ≠ [])) as [|Eg%dec_stable]; cbn [fmap list_fmap concat]; rewrite IH; [done|by rewrite Eg]. }
  destruct (_ && _); inv_ok; subst; [|cbn [fmap list_fmap concat gr_rows]; by rewrite app_nil_r]. rewrite Hfilter.
  assert (filter (λ r, c_token r = claim_token (one config)) rows ++ filter (λ r, c_token r ≠ claim_token (one config)) rows ≡ₚ rows) as Hsplit by exact (filter_app_complement _ rows).
  destruct (bool_decide_reflect (filter (λ r, c_token r ≠ claim_token (one config)) rows = [])) as [Er|_]; cbn [fmap list_fmap concat gr_rows]; rewrite app_nil_r.
  - etransitivity; [|exact Hsplit]. by rewrite Er, app_nil_r.
  - etransitivity; [apply Permutation_app_comm|exact Hsplit].
Qed.

(** C18: The contracts built for a chain: their published lists are together the rows of the chain's claim
    list, for each asset their totals add up to what the pools have claimable, no other asset is
    paid, and the approvals of each contract are the totals of its assets, the native coin under its
    wrapped token. *)
Theorem contracts_pay_claimable pool_starts workers ch bytecode i pools overrides sources chain dirs assets :
  build_chain pool_starts workers ch bytecode i pools overrides sources chain = Ok dirs → asset_table pools chain = Ok assets →
  ∃ rows parts, concat parts ≡ₚ rows ∧ Forall2 (covers assets) dirs parts ∧
    (∃ text, dget (i_files i) ("claims/"%string ++ chain ++ ".csv"%string) = Some text ∧ read_claims text assets = Ok rows) ∧
    ∀ t a, dget assets t = Some a → zsum_with (λ d, asset_total (d_manifest d) t) dirs = as_claimable a.
Proof.
  unfold build_chain, checked_file. intros H Ha. rewrite Ha in H. inv_ok. subst.
  match goal with E : read_claims _ _ = Ok ?r |- _ => rename r into rows; rename E into Hrows end.
  match goal with E : contract_groups _ _ _ = Ok ?g |- _ => rename g into groups; apply contract_groups_rows in E; rename E into Hg end.
  match goal with E : mapM (group_dir _ _ _ _ _ _ _ _) _ = Ok _ |- _ => apply mapM_Ok_Forall2 in E; rename E into Hd end.
  assert (Forall2 (covers assets) dirs (sort_by claim_leb <$> (gr_rows <$> groups))) as Hcov.
  { clear -Hd. induction Hd as [|g d groups dirs Hgd _ IH]; [constructor|]. constructor; [|exact IH]. unfold group_dir in Hgd. destruct (dget overrides (gr_label g)); by eapply build_group_covers. }
  exists rows, (sort_by claim_leb <$> (gr_rows <$> groups)). split_and!; [|done|eexists; by split|].
  - rewrite <- Hg. clear. induction (gr_rows <$> groups) as [|l ls IH]; [done|]. cbn [fmap list_fmap concat]. by rewrite sort_by_perm, IH.
  - intros t info Hta. match goal with E : mapM _ assets = Ok _ |- _ => apply mapM_Ok_Forall2 in E; rename E into Hchk end.
    apply dget_Some_elem, list_elem_of_lookup in Hta as [k Hk]. destruct (Forall2_lookup_l _ _ _ _ _ Hchk Hk) as (u & _ & Hc). cbn [fst snd] in Hc. unfold raise_if in Hc.
    destruct (Z.eqb_spec (total_of t rows) (as_claimable info)) as [<-|]; [|done]. rewrite <- Hg, total_of_concat. clear -Hcov.
    revert Hcov. generalize (gr_rows <$> groups) as ls. intros ls. revert dirs. induction ls as [|l ls IH]; intros dirs Hcov; inversion Hcov as [|d l' dirs' ls' Hd Hds]; subst; [done|].
    cbn [fmap list_fmap]. rewrite zsum_with_cons, (IH _ Hds). destruct Hd as (_ & Ht & _). rewrite Ht, sort_by_perm. done.
Qed.

(** * An example *)

Definition demo_account (c : ascii) : str := "0x"%string ++ replicate 40 c.
Definition demo_usdt : str := demo_account "a"%char.
Definition demo_text (lines : list str) : str := concat ((λ l, l ++ [LF]) <$> lines).

Definition demo_pools : str := demo_text
  [("pool_id,claim_chain,status,claim_token,symbol,decimals,claimable_raw"%string : str);
   "usdt-1,bsc,supported,"%string ++ demo_usdt ++ ",USDT,6,500"%string;
   "usdt-2,bsc,supported,"%string ++ demo_usdt ++ ",USDT,6,250"%string;
   ("bnb,bsc,supported,native,BNB,18,7"%string : str);
   ("old,bsc,unsupported,,OLD,18,"%string : str)].
Definition demo_claims : str := demo_text
  [("account,token,amount_raw,pools"%string : str);
   demo_account "2"%char ++ ","%string ++ demo_usdt ++ ",600,usdt-1;usdt-2"%string;
   demo_account "1"%char ++ ",native,7,bnb"%string;
   demo_account "1"%char ++ ","%string ++ demo_usdt ++ ",150,usdt-1"%string].
Definition demo_chains : chains_file :=
  MkChainsFile ("0x"%string ++ replicate 64 "0"%char) (demo_account "4"%char) [(("bsc"%string : str), MkConstants 56 (Some (demo_account "b"%char)))].
Definition demo_config : config :=
  MkConfig (Some 1) [(("bsc"%string : str), MkChain (Some (demo_account "c"%char)) [])] (MkOne "bsc"%string (demo_account "d"%char) (demo_account "e"%char) None None) [] None [].
Definition demo_inputs : inputs :=
  MkInputs demo_config [(("bsc"%string : str), 56)]
    (MkSummary (Some ("built"%string : str)) [(("claims/bsc.csv"%string : str), file_sha256 demo_claims)] [("bsc"%string : str)])
    [(("claims/bsc.csv"%string : str), demo_claims)] (MkCustodyPlan [] None) [] [].

Definition demo_pool_rows : list row := (dict_read demo_pools).2.
Definition demo_assets : dict str asset := from_ok [] (asset_table demo_pool_rows "bsc"%string).
Definition demo_rows : list claim := Eval vm_compute in from_ok [] (read_claims demo_claims demo_assets).
Definition demo_empty : contract_dir := MkDir (MkManifest [] [] 0 None [] None [] 0 0 [] [] [] [] [] 0 [] [] (MkDeployment [] [] [] None None None None None)) [] [] [].
Definition demo_dirs : list contract_dir := Eval vm_compute in from_ok [] (build_chain false 1 demo_chains None demo_inputs demo_pool_rows [] [] "bsc"%string).
Definition demo_dir : contract_dir := Eval vm_compute in default demo_empty (head demo_dirs).

(** Both rows of the first account are found. *)
Lemma every_row_provable_witness : ∃ r out, lookup demo_dir (demo_account "1"%char) = Ok out ∧ length (lk_rows out) = 2%nat ∧ m_root (d_manifest demo_dir) = Claims.hex0x r.
Proof.
  destruct (every_row_provable false 1 demo_chains None "bsc"%string "bsc"%string (Some (demo_account "c"%char)) "custody_multisig"%string demo_rows demo_assets [] demo_dir (demo_account "1"%char)) as (r & out & Hr & Hl & Hf).
  - vm_compute. exact eq_refl.
  - repeat constructor; by compute_decide.
  - intros t a E%dget_Some_elem. assert (Forall (λ ta : str * asset, CR ∉ as_symbol ta.2) demo_assets) as H by (apply (bool_decide_eq_true_1 _); vm_compute; exact eq_refl).
    rewrite Forall_forall in H. by apply (H (t, a)).
  - vm_compute. lia.
  - exists r, out. split_and!; [exact Hl| |exact Hr]. apply Forall2_length in Hf. rewrite <- Hf. vm_compute. exact eq_refl.
Defined.

Lemma contracts_pay_claimable_witness :
  zsum_with (λ d, asset_total (d_manifest d) demo_usdt) demo_dirs = 750 ∧ zsum_with (λ d, asset_total (d_manifest d) Claims.NATIVE_TOKEN) demo_dirs = 7.
Proof.
  destruct (contracts_pay_claimable false 1 demo_chains None demo_inputs demo_pool_rows [] [] "bsc"%string demo_dirs demo_assets) as (rows & parts & _ & _ & _ & H).
  - vm_compute. exact eq_refl.
  - vm_compute. exact eq_refl.
  - split.
    + apply (H demo_usdt (MkAsset "USDT"%string 6 [("usdt-1"%string : str); ("usdt-2"%string : str)] 750)). vm_compute. exact eq_refl.
    + apply (H Claims.NATIVE_TOKEN (MkAsset "BNB"%string 18 [("bnb"%string : str)] 7)). vm_compute. exact eq_refl.
Defined.
