(* ===== verification/ClaimsRun.v ===== *)
(** The claim run a signable package is built from: bridge-claims/tools/claims_run.py.  [bind] checks that
    the run's summary, its manifests and the files they name belong together and, with
    the index of the published copy, that every file is the published one;
    [custody_requirements] takes the owners of the custody Safe from the committed roster.

    A run is its parsed summary and manifests and the text of every file by its path in
    the run; symbolic links and fetching the index are outside the model.

    Shown: a contract that [bind] returns is ready, agrees with its summary entry on every
    committed field, and has the list and the tree its manifest has the digests of, which
    with an index are the published ones or SHA-256 collides; and a run as
    build_claims.py writes it binds. *)

From S2P Require Import Prelude PyStr PyDict Csv Sha256 Abi BridgeLib BuildClaims.
Local Open Scope Z_scope.

(** * The code *)

Definition SKIP_DIRS : list str := [("quarantine"%string : str); ("superseded"%string : str); ("release"%string : str)].

Record entry := MkEntry {
  en_label : str; en_chain : str; en_chain_id : Z; en_funder : option str; en_root : str; en_claim_count : Z; en_list_sha256 : str; en_address : option str;
  en_status : str }.

(** [_same] of texts, and of values that may be missing. *)
Definition same (a b : str) : bool := bool_decide (lower a = lower b).
Definition same_option (a b : option str) : bool := match a, b with Some a, Some b => same a b | None, None => true | _, _ => false end.

Definition committed_fields (m : manifest) : entry :=
  MkEntry (m_label m) (m_chain m) (m_chain_id m) (m_funder m) (m_root m) (m_count m) (m_list_sha256 m) (de_address (m_deployment m)) (de_status (m_deployment m)).

(** The fields of an entry that are not the manifest's. *)
Definition field_problems (e v : entry) : list string :=
  let need (ok : bool) (field : string) := if ok then [] else [field] in
  need (same (en_label e) (en_label v)) "label"%string ++ need (same (en_chain e) (en_chain v)) "chain"%string ++ need (en_chain_id e =? en_chain_id v) "chain_id"%string ++
  need (same_option (en_funder e) (en_funder v)) "funder"%string ++ need (same (en_root e) (en_root v)) "root"%string ++ need (en_claim_count e =? en_claim_count v) "claim_count"%string ++
  need (same (en_list_sha256 e) (en_list_sha256 v)) "list_sha256"%string ++ need (same_option (en_address e) (en_address v)) "address"%string ++ need (same (en_status e) (en_status v)) "status"%string.

(** [LABEL]. *)
Definition label_char (c : ascii) : bool := bool_decide (c ∈ ("abcdefghijklmnopqrstuvwxyz0123456789"%string : str)).
Definition plain_label (s : str) : bool :=
  match s with [] => false | c :: s => label_char c && forallb (λ c, label_char c || bool_decide (c = "_"%char) || bool_decide (c = "-"%char)) s end.

(** [read_index]: the lines of SHA256SUMS. *)
Definition is_digest (s : str) : bool := (length s =? 64)%nat && forallb (λ c, bool_decide (c ∈ ("0123456789abcdef"%string : str))) s.
Fixpoint partition2 (s : str) : str * str :=
  match s with
  | c :: ((d :: s') as t) => if bool_decide (c = " "%char) && bool_decide (d = " "%char) then ([], s') else let '(a, b) := partition2 t in (c :: a, b)
  | _ => (s, [])
  end.
Definition index_step (index : dict str str) (line : str) : result (dict str str) :=
  if bool_decide (strip line = []) then Ok index else
  let '(digest, name) := partition2 line in
  _ ← raise_if (negb (is_digest digest) || bool_decide (name = []) || dmem index name) (SystemExit "not a SHA256SUMS index");
  Ok (dset index (strip name) digest).
Definition read_index (lines : list str) : result (dict str str) := foldM index_step [] lines.

Record run := MkRun { r_summary : list entry; r_manifests : dict str manifest; r_files : dict str str }.
Record contract := MkContract { ct_entry : entry; ct_manifest : manifest }.

Definition file_digest (r : run) (path : str) : option str := file_sha256 <$> dget (r_files r) path.
Definition in_dir (label name : str) : str := label ++ "/"%string ++ name.

Definition names_of (r : run) : list str := en_label <$> r_summary r.
Definition on_disk (r : run) : list str :=
  sort_str id (filter (λ d, d ∉ SKIP_DIRS ∧ startswith d "."%string = false ∧ startswith d "release-"%string = false) (dkeys (r_manifests r))).

(** A problem is its fixed part. *)
Definition need (ok : bool) (what : string) : list string := if ok then [] else [what].

Definition count_of (n : str) (l : list str) : nat := length (filter (λ x, x = n) l).
Definition label_problems (r : run) : list string :=
  let names := names_of r in
  concat ((λ n, need (negb (1 <? count_of n names)%nat) "two summary entries"%string) <$> sort_str id (remove_dups names)) ++
  concat ((λ n, need (plain_label n) "not a plain contract label"%string) <$> names) ++
  concat ((λ n, need (bool_decide (n ∈ names)) "is in the run but not in summary.json"%string) <$> on_disk r).

(** [os.path.basename(name) == name and name not in ("", ".", "..")]. *)
Definition beside (name : str) : bool := bool_decide ("/"%char ∉ name) && negb (bool_decide (name ∈ [([] : str); ("."%string : str); (".."%string : str)])).

Definition file_problems (r : run) (label name sha : str) : list string :=
  if negb (beside name) then ["is not a file beside the manifest"%string]
  else need (bool_decide (file_digest r (in_dir label name) = Some sha)) "is not the manifest's digest"%string.

Definition ready (e : entry) : bool := bool_decide (en_status e = ("ready"%string : str)).

Definition entry_problems (r : run) (e : entry) : list string :=
  match dget (r_manifests r) (en_label e) with
  | None => ["no manifest.json"%string]
  | Some m =>
      field_problems e (committed_fields m) ++
      (if ready e then file_problems r (en_label e) (m_list_file m) (m_list_sha256 m) ++ file_problems r (en_label e) (m_tree_file m) (m_tree_sha256 m) else [])
  end.

Definition by_label (r : run) : dict str contract :=
  foldl (λ d e, match dget (r_manifests r) (en_label e) with Some m => dset d (en_label e) (MkContract e m) | None => d end) [] (r_summary r).
Definition ready_labels (r : run) : list str := en_label <$> filter (λ e, ready e = true) (r_summary r).

Definition choice_problems (r : run) (labels : list str) : list string :=
  concat ((λ n, need (negb (1 <? count_of n labels)%nat) "named twice"%string) <$> sort_str id (remove_dups labels)) ++
  concat ((λ n, need (bool_decide (n ∈ names_of r)) "not a contract of summary.json"%string ++
                need (negb (bool_decide (n ∈ names_of r)) || bool_decide (n ∈ ready_labels r)) "not ready in summary.json"%string) <$> labels).

Definition SUMMARY : str := "summary.json"%string.
Definition MANIFEST_FILE : str := "manifest.json"%string.

Definition required (r : run) (chosen : list str) : list str :=
  SUMMARY :: (n ← chosen; match dget (by_label r) n with Some c => [in_dir n (m_list_file (ct_manifest c)); in_dir n (m_tree_file (ct_manifest c))] | None => [] end) ++
  ((λ n, in_dir n MANIFEST_FILE) <$> chosen).

(** Every file the index lists, in the order of the paths; [inside] says whether a path lies in the run. *)
Definition index_problems (r : run) (inside : str → bool) (listed : dict str str) (chosen : list str) : list string :=
  concat ((λ p, need (dmem listed p) "is not in the published index"%string) <$> required r chosen) ++
  concat ((λ pd : str * str, if negb (inside pd.1) then ["is outside the run"%string] else need (bool_decide (file_digest r pd.1 = Some pd.2)) "differs from the published index"%string)
          <$> sort_str fst listed).

Definition bind (r : run) (inside : str → bool) (labels : list str) (index : option (list str)) : result (list contract) :=
  _ ← raise_if (negb (bool_decide (label_problems r = []))) (SystemExit "the claim run is not bound to its summary");
  let problems := concat (entry_problems r <$> r_summary r) ++ (if bool_decide (labels = []) then [] else choice_problems r labels) in
  let chosen := if bool_decide (labels = []) then ready_labels r else labels in
  listed ← (match index with None => Ok None | Some lines => Some <$> read_index lines end);
  let problems := problems ++ (match listed with None => [] | Some l => index_problems r inside l chosen end) in
  _ ← raise_if (negb (bool_decide (problems = []))) (SystemExit "the claim run is not bound to its summary");
  mapM (λ n, of_option (dget (by_label r) n) (KeyError n)) chosen.

(** ** The custody roster *)

Record roster := MkRoster { ro_safe : str; ro_owners : list str; ro_owner_count : Z; ro_threshold : Z }.
Record configured := MkConfigured { cf_owners : list str; cf_owner_count : option Z; cf_threshold : option Z }.

Definition custody_requirements (ro : roster) (cf : configured) : result roster :=
  owners_ ← mapM address (ro_owners ro);
  let owners := sort_str id owners_ in
  _ ← raise_if (negb (bool_decide (NoDup owners)) || negb (zlen owners =? ro_owner_count ro) || negb ((0 <? ro_threshold ro) && (ro_threshold ro <=? zlen owners)))
        (SystemExit "owners, owner_count, and threshold do not agree");
  _ ← (if bool_decide (cf_owners cf = []) then Ok () else
       cs ← mapM address (cf_owners cf); raise_if (negb (bool_decide (sort_str id cs = owners))) (SystemExit "owners in the bridge config are not the owners in the roster"));
  _ ← (match cf_owner_count cf with None => Ok () | Some n => raise_if (negb (n =? ro_owner_count ro)) (SystemExit "owner_count in the bridge config") end);
  _ ← (match cf_threshold cf with None => Ok () | Some n => raise_if (negb (n =? ro_threshold ro)) (SystemExit "threshold in the bridge config") end);
  safe ← address (ro_safe ro);
  Ok (MkRoster safe owners (ro_owner_count ro) (ro_threshold ro)).

(** * What [bind] establishes *)

Lemma need_nil ok what : need ok what = [] → ok = true.
Proof. by destruct ok. Qed.

Lemma concat_nil_elem {A} (f : A → list string) l x : concat (f <$> l) = [] → x ∈ l → f x = [].
Proof.
  induction l as [|y l IH]; intros H Hx; [by apply not_elem_of_nil in Hx|]. cbn [fmap list_fmap concat] in H. apply app_nil in H as [H1 H2].
  apply elem_of_cons in Hx as [->|Hx]; [done|by apply IH].
Qed.

(** The fields that the summary commits are the manifest's, texts up to case. *)
Record agrees (e v : entry) : Prop := {
  ag_label : lower (en_label e) = lower (en_label v); ag_chain : lower (en_chain e) = lower (en_chain v); ag_chain_id : en_chain_id e = en_chain_id v;
  ag_funder : lower <$> en_funder e = lower <$> en_funder v; ag_root : lower (en_root e) = lower (en_root v); ag_count : en_claim_count e = en_claim_count v;
  ag_list : lower (en_list_sha256 e) = lower (en_list_sha256 v); ag_address : lower <$> en_address e = lower <$> en_address v; ag_status : lower (en_status e) = lower (en_status v);
}.

Lemma same_option_true a b : same_option a b = true → lower <$> a = lower <$> b.
Proof. destruct a as [a|], b as [b|]; cbn [same_option]; try done. intros H%bool_decide_eq_true. cbn. by rewrite H. Qed.

Lemma field_problems_nil e v : field_problems e v = [] → agrees e v.
Proof.
  unfold field_problems. intros H. repeat (apply app_nil in H as [? H]).
  repeat match goal with H0 : (if ?b then [] else [_]) = [] |- _ => destruct b eqn:?; [clear H0|done] end.
  unfold same in *. split; first [by apply Z.eqb_eq|by apply same_option_true|by eapply bool_decide_eq_true_1].
Qed.

Lemma field_problems_refl e : field_problems e e = [].
Proof.
  unfold field_problems, same. rewrite !bool_decide_eq_true_2 by done. rewrite !Z.eqb_refl.
  assert (∀ o, same_option o o = true) as Ho by (intros [a|]; [by apply bool_decide_eq_true|done]). by rewrite !Ho.
Qed.

Lemma count_NoDup l : (∀ n, n ∈ l → (count_of n l ≤ 1)%nat) → NoDup l.
Proof.
  induction l as [|x l IH]; intros H; [constructor|]. apply NoDup_cons. split.
  - intros Hx. specialize (H x ltac:(left)). unfold count_of in H. rewrite filter_cons_True in H by done. cbn [length] in H.
    assert (x ∈ filter (λ y, y = x) l) as Hf by by apply list_elem_of_filter. destruct (filter (λ y, y = x) l); [by apply not_elem_of_nil in Hf|]. cbn [length] in H. lia.
  - apply IH. intros n Hn. specialize (H n ltac:(by right)). unfold count_of in *. rewrite filter_cons in H. destruct (decide _); cbn [length] in H; lia.
Qed.

Lemma not_twice l : concat ((λ n, need (negb (1 <? count_of n l)%nat) "two summary entries"%string) <$> sort_str id (remove_dups l)) = [] → NoDup l.
Proof.
  intros H. apply count_NoDup. intros n Hn. apply (concat_nil_elem _ _ n) in H; [|by rewrite sort_str_perm, elem_of_remove_dups]. apply need_nil, negb_true_iff, Nat.ltb_ge in H. lia.
Qed.

Lemma by_label_Some r n c : dget (by_label r) n = Some c → ct_entry c ∈ r_summary r ∧ en_label (ct_entry c) = n ∧ dget (r_manifests r) n = Some (ct_manifest c).
Proof.
  unfold by_label. induction (r_summary r) as [|e l IH] using rev_ind; [done|]. rewrite foldl_snoc. destruct (dget (r_manifests r) (en_label e)) as [m|] eqn:E.
  - rewrite dget_dset. destruct (decide (n = en_label e)) as [->|Hne].
    + intros [= <-]. cbn [ct_entry ct_manifest]. split_and!; [apply elem_of_app; right; left|done..].
    + intros (H1 & H2 & H3)%IH. split_and!; [apply elem_of_app; by left|done..].
  - intros (H1 & H2 & H3)%IH. split_and!; [apply elem_of_app; by left|done..].
Qed.

(** A file of the run that the index has the digest of. *)
Definition published (r : run) (listed : dict str str) (path : str) : Prop := ∃ text, dget (r_files r) path = Some text ∧ dget listed path = Some (file_sha256 text).

Lemma file_problems_nil r label name sha : file_problems r label name sha = [] → file_digest r (in_dir label name) = Some sha.
Proof. unfold file_problems. destruct (negb (beside name)); [done|]. intros H%need_nil. by apply bool_decide_eq_true in H. Qed.

Lemma index_published r inside listed chosen path : index_problems r inside listed chosen = [] → path ∈ required r chosen → published r listed path.
Proof.
  intros [H1 H2]%app_nil Hp. apply (concat_nil_elem _ _ path) in H1; [|done]. apply need_nil, dmem_true, dget_key in H1 as [d Hd].
  apply (concat_nil_elem _ _ (path, d)) in H2; [|rewrite sort_str_perm; by apply dget_Some_elem]. cbn [fst snd] in H2. destruct (negb (inside path)); [done|].
  apply need_nil, bool_decide_eq_true in H2. unfold file_digest in H2. destruct (dget (r_files r) path) as [text|] eqn:E; [|done]. injection H2 as <-. by exists text.
Qed.

(** C19: A contract that [bind] returns is a ready entry of the summary under a plain label that names it
    alone; the entry agrees with its manifest on every committed field, the list and the tree of the
    contract have the digests its manifest records, and with a published index both files, the
    manifest and the summary are listed there with the digest they have here. *)
Theorem bind_sound r inside labels index cs c :
  bind r inside labels index = Ok cs → c ∈ cs →
  let e := ct_entry c in let m := ct_manifest c in let label := en_label e in
  e ∈ r_summary r ∧ NoDup (names_of r) ∧ plain_label label = true ∧ ready e = true ∧ dget (r_manifests r) label = Some m ∧ agrees e (committed_fields m) ∧
  file_digest r (in_dir label (m_list_file m)) = Some (m_list_sha256 m) ∧ file_digest r (in_dir label (m_tree_file m)) = Some (m_tree_sha256 m) ∧
  ∀ lines, index = Some lines → ∃ listed, read_index lines = Ok listed ∧
    Forall (published r listed) [in_dir label (m_list_file m); in_dir label (m_tree_file m); in_dir label MANIFEST_FILE; SUMMARY].
Proof.
  unfold bind. intros H Hc. apply bind_Ok_inv in H as ([] & Hl & H). apply bind_Ok_inv in H as (listed & Hx & H). apply bind_Ok_inv in H as ([] & Hp & H).
  unfold raise_if in Hl, Hp. destruct (bool_decide_reflect (label_problems r = [])) as [El|]; [|done]. match type of Hp with (if negb (bool_decide ?P) then _ else _) = _ => destruct (bool_decide_reflect P) as [Ep|]; [|done] end. clear Hl Hp.
  apply app_nil in El as [Htwice [Hplain _]%app_nil]. apply not_twice in Htwice. apply app_nil in Ep as [[Hent Hch]%app_nil Hidx].
  set (chosen := if bool_decide (labels = []) then ready_labels r else labels) in *.
  apply mapM_Ok_Forall2 in H. apply list_elem_of_lookup in Hc as [k Hk]. destruct (Forall2_lookup_r _ _ _ _ _ H Hk) as (n & Hn & Hcn).
  assert (dget (by_label r) n = Some c) as Hbl by (destruct (dget (by_label r) n); [by apply Ok_inj in Hcn as <-|done]).
  apply by_label_Some in Hbl as Hb. destruct Hb as (He & <- & Hm). assert (en_label (ct_entry c) ∈ chosen) as Hin by by eapply list_elem_of_lookup_2.
  assert (en_label (ct_entry c) ∈ ready_labels r) as Hready.
  { unfold chosen in Hin. destruct (bool_decide_reflect (labels = [])) as [|Hne]; [done|]. rewrite ?bool_decide_eq_false_2 in Hch by done. apply app_nil in Hch as [_ Hch].
    apply (concat_nil_elem _ _ (en_label (ct_entry c))) in Hch; [|done]. apply app_nil in Hch as [H1%need_nil H2%need_nil]. rewrite H1 in H2. cbn [negb orb] in H2. by apply bool_decide_eq_true in H2. }
  assert (ready (ct_entry c) = true) as Hr.
  { apply list_elem_of_fmap in Hready as (e' & E & [Hr He']%list_elem_of_filter). assert (e' = ct_entry c) as <-; [|done].
    apply list_elem_of_lookup in He' as [i Hi], He as [j Hj]. assert (i = j) as ->; [|congruence]. apply (NoDup_lookup (names_of r) i j (en_label e')); [done|unfold names_of; by rewrite list_lookup_fmap, Hi|].
    unfold names_of. rewrite list_lookup_fmap, Hj. cbn. by rewrite E. }
  apply (concat_nil_elem _ _ (ct_entry c)) in Hent; [|done]. unfold entry_problems in Hent. rewrite Hm, Hr in Hent. apply app_nil in Hent as [Hf [F1%file_problems_nil F2%file_problems_nil]%app_nil].
  cbv zeta. split_and!; [done..| |done|done|by apply field_problems_nil|done|done|].
  - apply (concat_nil_elem _ _ (en_label (ct_entry c))) in Hplain; [by apply need_nil in Hplain|]. apply list_elem_of_fmap. by exists (ct_entry c).
  - intros lines ->. destruct (read_index lines) as [l|] eqn:Ei; [|done]. injection Hx as <-. exists l. split; [done|].
    assert (∀ p, p ∈ required r chosen → published r l p) as Hpub by (intros p; by apply (index_published r inside l chosen)).
    assert (∀ p, p ∈ [in_dir (en_label (ct_entry c)) (m_list_file (ct_manifest c)); in_dir (en_label (ct_entry c)) (m_tree_file (ct_manifest c))] → published r l p) as Hfiles.
    { intros p Hpin. apply Hpub. unfold required. right. apply elem_of_app. left. apply list_elem_of_bind. exists (en_label (ct_entry c)). by rewrite Hbl. }
    repeat constructor; [apply Hfiles; left|apply Hfiles; right; left| |apply Hpub; left].
    apply Hpub. unfold required. right. apply elem_of_app. right. apply list_elem_of_fmap. by exists (en_label (ct_entry c)).
Qed.

(** * A run as it is built *)

Definition label_of (d : contract_dir) : str := m_label (d_manifest d).
Definition run_of (dirs : list contract_dir) : run :=
  MkRun ((λ d, committed_fields (d_manifest d)) <$> dirs) ((λ d, (label_of d, d_manifest d)) <$> dirs)
    (concat ((λ d, [(in_dir (label_of d) "claims.csv"%string, d_list d); (in_dir (label_of d) "tree.txt"%string, concat (d_tree d))]) <$> dirs)).

Definition written (d : contract_dir) : Prop :=
  m_list_file (d_manifest d) = "claims.csv"%string ∧ m_list_sha256 (d_manifest d) = file_sha256 (d_list d) ∧
  m_tree_file (d_manifest d) = "tree.txt"%string ∧ m_tree_sha256 (d_manifest d) = file_sha256 (concat (d_tree d)).

Lemma build_group_written pool_starts workers ch bytecode chain label funder source rows assets sources d :
  build_group pool_starts workers ch bytecode chain label funder source rows assets sources = Ok d → written d.
Proof. intros (wrapped & list_rows & ls & tree & r & st & H)%build_group_Ok. cbv zeta in H. destruct_and! H. by split_and!. Qed.

Lemma build_chain_written pool_starts workers ch bytecode i pools overrides sources chain dirs :
  build_chain pool_starts workers ch bytecode i pools overrides sources chain = Ok dirs → Forall written dirs.
Proof.
  unfold build_chain. intros H. inv_ok. match goal with E : mapM (group_dir _ _ _ _ _ _ _ _) _ = Ok _ |- _ => apply mapM_Ok_Forall2 in E; rename E into Hd end.
  clear -Hd. induction Hd as [|g d gs ds Hgd _ IH]; [constructor|]. constructor; [|exact IH]. unfold group_dir in Hgd. destruct (dget overrides (gr_label g)); by eapply build_group_written.
Qed.

Lemma main_written pool_starts workers ch bytecode i dirs : main pool_starts workers ch bytecode i = Ok dirs → Forall written dirs.
Proof.
  unfold main. intros H. inv_ok. subst. match goal with E : mapM (build_chain _ _ _ _ _ _ _ _) _ = Ok _ |- _ => apply mapM_Ok_Forall2 in E; rename E into Hd end.
  apply Forall_concat. clear -Hd. induction Hd as [|c ds cs dss Hc _ IH]; [constructor|]. constructor; [by eapply build_chain_written|exact IH].
Qed.

Lemma plain_no_slash l : plain_label l = true → "/"%char ∉ l.
Proof.
  destruct l as [|c l]; cbn [plain_label]; [done|]. intros [Hc Hl]%andb_true_iff. rewrite forallb_forall in Hl. apply not_elem_of_cons. split; [by intros <-|].
  intros Hin%list_elem_of_In%Hl. done.
Qed.

Lemma in_dir_inj l l' n n' : "/"%char ∉ l → "/"%char ∉ l' → in_dir l n = in_dir l' n' → l = l' ∧ n = n'.
Proof.
  unfold in_dir. revert l'. induction l as [|c l IH]; intros [|c' l'] Hl Hl' E; cbn in E.
  - by injection E as ->.
  - injection E as <- _. exfalso. apply Hl'. left.
  - injection E as -> _. exfalso. apply Hl. left.
  - injection E as -> E. apply not_elem_of_cons in Hl as [_ Hl], Hl' as [_ Hl']. by destruct (IH l' Hl Hl' E) as [-> ->].
Qed.

Section built.
Context (dirs : list contract_dir) (Hnd : NoDup (label_of <$> dirs)) (Hplain : Forall (λ d, plain_label (label_of d) = true) dirs).

Lemma built_manifest d : d ∈ dirs → dget (r_manifests (run_of dirs)) (label_of d) = Some (d_manifest d).
Proof.
  intros Hd. apply dget_elem; [|cbn [run_of r_manifests]; apply list_elem_of_fmap; by exists d]. cbn [run_of r_manifests]. unfold dkeys. by rewrite <- list_fmap_compose.
Qed.

Lemma built_files d : d ∈ dirs →
  dget (r_files (run_of dirs)) (in_dir (label_of d) "claims.csv"%string) = Some (d_list d) ∧ dget (r_files (run_of dirs)) (in_dir (label_of d) "tree.txt"%string) = Some (concat (d_tree d)).
Proof.
  cbn [run_of r_files]. induction dirs as [|d0 ds IH]; intros Hd; [by apply not_elem_of_nil in Hd|]. cbn [fmap list_fmap] in *. apply NoDup_cons in Hnd as [Hn Hnd'].
  apply Forall_cons in Hplain as [Hp0 Hp]. cbn [concat app dget]. apply elem_of_cons in Hd as [->|Hd].
  - rewrite decide_True by done. split; [done|]. rewrite decide_False, decide_True; [done|done|]. intros E. apply in_dir_inj in E as [_ E]; [done|by apply plain_no_slash..].
  - assert (label_of d ≠ label_of d0) as Hne by (intros E; apply Hn; rewrite <- E; apply list_elem_of_fmap; by exists d).
    assert (plain_label (label_of d) = true) as Hpd by (rewrite Forall_forall in Hp; by apply Hp).
    rewrite !decide_False by (intros E; apply in_dir_inj in E as [E _]; [done|by apply plain_no_slash..]). by apply IH.
Qed.

Lemma count_of_NoDup n l : NoDup l → (count_of n l ≤ 1)%nat.
Proof.
  intros H. unfold count_of. assert (NoDup (filter (λ x, x = n) l)) as Hf by by apply NoDup_filter. destruct (filter (λ x, x = n) l) as [|a [|b m]] eqn:E; cbn; [lia..|].
  assert (a = n ∧ b = n) as [-> ->] by (split; [assert (a ∈ filter (λ x, x = n) l) as [? _]%list_elem_of_filter by (rewrite E; left)|assert (b ∈ filter (λ x, x = n) l) as [? _]%list_elem_of_filter by (rewrite E; right; left)]; done).
  apply NoDup_cons in Hf as [Hf _]. exfalso. apply Hf. left.
Qed.

Lemma concat_all_nil_of {A} (f : A → list string) l : (∀ x, x ∈ l → f x = []) → concat (f <$> l) = [].
Proof. induction l as [|x l IH]; intros H; [done|]. cbn [fmap list_fmap concat]. rewrite (H x) by left. apply IH. intros y Hy. apply H. by right. Qed.

Lemma built_by_label d : d ∈ dirs → dget (by_label (run_of dirs)) (label_of d) = Some (MkContract (committed_fields (d_manifest d)) (d_manifest d)).
Proof.
  intros Hd. destruct (dget (by_label (run_of dirs)) (label_of d)) as [c|] eqn:E.
  - apply by_label_Some in E as (He & Hl & Hm). rewrite built_manifest in Hm by done. injection Hm as Hm. destruct c as [e m]. cbn [ct_entry ct_manifest] in *. subst m.
    cbn [run_of r_summary] in He. apply list_elem_of_fmap in He as (d' & -> & Hd'). change (label_of d' = label_of d) in Hl.
    apply list_elem_of_lookup in Hd as [i Hi], Hd' as [j Hj]. assert (i = j) as ->; [|congruence]. apply (NoDup_lookup (label_of <$> dirs) i j (label_of d)); [done|by rewrite list_lookup_fmap, Hi|].
    rewrite list_lookup_fmap, Hj. cbn. by rewrite Hl.
  - exfalso. unfold by_label in E. cbn [run_of r_summary] in E. revert E. assert (∀ l, (∀ x, x ∈ l → x ∈ dirs) → d ∈ l →
      dget (foldl (λ d e, match dget (r_manifests (run_of dirs)) (en_label e) with Some m => dset d (en_label e) (MkContract e m) | None => d end) [] ((λ d, committed_fields (d_manifest d)) <$> l)) (label_of d) ≠ None) as Hgen; [|by apply Hgen].
    induction l as [|x l IH] using rev_ind; intros Hsub Hin; [by apply not_elem_of_nil in Hin|]. rewrite fmap_app. cbn [fmap list_fmap]. rewrite foldl_snoc.
    change (en_label (committed_fields (d_manifest x))) with (label_of x). rewrite built_manifest by (apply Hsub, elem_of_app; right; left). rewrite dget_dset. destruct (decide (label_of d = label_of x)) as [_|Hne]; [done|].
    apply IH; [intros y Hy; apply Hsub, elem_of_app; by left|]. apply elem_of_app in Hin as [|Hx%list_elem_of_singleton]; [done|]. congruence.
Qed.

(** A run as it is written binds, and every ready contract is returned. *)
Lemma run_of_binds inside :
  Forall written dirs →
  bind (run_of dirs) inside [] None = Ok ((λ d, MkContract (committed_fields (d_manifest d)) (d_manifest d)) <$> filter (λ d, de_status (m_deployment (d_manifest d)) = "ready"%string) dirs).
Proof.
  intros Hw. unfold bind.
  assert (names_of (run_of dirs) = label_of <$> dirs) as En by (unfold names_of; cbn [run_of r_summary]; by rewrite <- list_fmap_compose).
  assert (label_problems (run_of dirs) = []) as ->.
  { unfold label_problems. rewrite En. rewrite !concat_all_nil_of; [done|..].
    - intros n Hn. unfold on_disk in Hn. rewrite sort_str_perm in Hn. apply list_elem_of_filter in Hn as [_ Hn]. cbn [run_of r_manifests] in Hn. unfold dkeys in Hn. rewrite <- list_fmap_compose in Hn.
      rewrite bool_decide_eq_true_2; [done|exact Hn].
    - intros n (d & -> & Hd)%list_elem_of_fmap. rewrite Forall_forall in Hplain. by rewrite (Hplain d Hd).
    - intros n _. pose proof (count_of_NoDup n _ Hnd) as Hc. rewrite (proj2 (Nat.ltb_ge _ _)) by lia. done. }
  rewrite bool_decide_eq_true_2 by done. cbn [negb raise_if mbind result_bind].
  assert (concat (entry_problems (run_of dirs) <$> r_summary (run_of dirs)) = []) as ->.
  { apply concat_all_nil_of. cbn [run_of r_summary]. intros e (d & -> & Hd)%list_elem_of_fmap. unfold entry_problems. change (en_label (committed_fields (d_manifest d))) with (label_of d).
    rewrite built_manifest by done. rewrite field_problems_refl. rewrite Forall_forall in Hw. destruct (Hw d Hd) as (F1 & F2 & F3 & F4). destruct (built_files d Hd) as [G1 G2].
    destruct (ready _); [|done]. unfold file_problems, file_digest. rewrite F1, F3, G1, G2, F2, F4. cbn [fmap option_fmap option_map]. by rewrite !bool_decide_eq_true_2. }
  rewrite !bool_decide_eq_true_2 by done. cbn [app negb raise_if mbind result_bind].
  unfold ready_labels. cbn [run_of r_summary]. clear En. assert (∀ l, (∀ x, x ∈ l → x ∈ dirs) →
    mapM (λ n, of_option (dget (by_label (run_of dirs)) n) (KeyError n)) (en_label <$> filter (λ e, ready e = true) ((λ d, committed_fields (d_manifest d)) <$> l)) =
    Ok ((λ d, MkContract (committed_fields (d_manifest d)) (d_manifest d)) <$> filter (λ d, de_status (m_deployment (d_manifest d)) = "ready"%string) l)) as Hgen; [|by apply Hgen].
  induction l as [|d l IH]; intros Hsub; [done|]. cbn [fmap list_fmap]. rewrite !filter_cons.
  assert (mapM (λ n, of_option (dget (by_label (run_of dirs)) n) (KeyError n)) (en_label <$> filter (λ e, ready e = true) ((λ d, committed_fields (d_manifest d)) <$> l)) =
    Ok ((λ d, MkContract (committed_fields (d_manifest d)) (d_manifest d)) <$> filter (λ d, de_status (m_deployment (d_manifest d)) = "ready"%string) l)) as Hl by (apply IH; intros y Hy; apply Hsub; by right).
  destruct (decide (de_status (m_deployment (d_manifest d)) = "ready"%string)) as [Er|Er].
  - rewrite decide_True by (by apply bool_decide_eq_true_2). cbn [fmap list_fmap mapM]. change (en_label (committed_fields (d_manifest d))) with (label_of d). rewrite built_by_label by (apply Hsub; left).
    cbn [of_option mbind result_bind]. rewrite Hl. done.
  - rewrite decide_False; [exact Hl|]. intros E%bool_decide_eq_true. done.
Qed.
End built.


(** * An example *)

Definition demo_plan_text : str := "{}"%string.
Definition demo_run_inputs : inputs :=
  MkInputs demo_config [(("bsc"%string : str), 56)]
    (MkSummary (Some ("built"%string : str))
       [(("claims/bsc.csv"%string : str), file_sha256 demo_claims); (("pools.csv"%string : str), file_sha256 demo_pools); (("custody-plan.json"%string : str), file_sha256 demo_plan_text)]
       [("bsc"%string : str)])
    [(("claims/bsc.csv"%string : str), demo_claims); (("pools.csv"%string : str), demo_pools); (("custody-plan.json"%string : str), demo_plan_text)]
    (MkCustodyPlan [] None) [] [].
Definition demo_code : option bytes := Some [0x60; 0x80].
Definition demo_built : list contract_dir := Eval vm_compute in from_ok [] (main false 1 demo_chains demo_code demo_run_inputs).


(** With the summary and the manifest as files, and the index of all of them. *)
Definition demo_run : run :=
  MkRun (r_summary (run_of demo_built)) (r_manifests (run_of demo_built))
    ([(SUMMARY, ("s"%string : str)); (("bsc/manifest.json"%string : str), ("m"%string : str))] ++ r_files (run_of demo_built)).
Definition demo_index : list str := Eval vm_compute in (λ kv : str * str, file_sha256 kv.2 ++ "  "%string ++ kv.1) <$> r_files demo_run.
Definition demo_bound : list contract := Eval vm_compute in from_ok [] (bind demo_run (λ _, true) [("bsc"%string : str)] (Some demo_index)).
Definition demo_contract : contract := Eval vm_compute in default (MkContract (MkEntry [] [] 0 None [] 0 [] None []) (d_manifest demo_empty)) (head demo_bound).

Lemma bind_sound_witness :
  ready (ct_entry demo_contract) = true ∧ file_digest demo_run "bsc/claims.csv"%string = Some (m_list_sha256 (ct_manifest demo_contract)).
Proof.
  destruct (bind_sound demo_run (λ _, true) [("bsc"%string : str)] (Some demo_index) demo_bound demo_contract) as (_ & _ & _ & Hr & _ & _ & Hf & _).
  - vm_compute. exact eq_refl.
  - vm_compute. left.
  - split; [exact Hr|exact Hf].
Defined.

(** The roster that is used: distinct owners, as many as it says, a threshold they can meet, and the ones
    the bridge config names when it names any. *)
Lemma custody_requirements_ok ro cf out :
  custody_requirements ro cf = Ok out →
  NoDup (ro_owners out) ∧ zlen (ro_owners out) = ro_owner_count out ∧ 0 < ro_threshold out ≤ zlen (ro_owners out) ∧
  (cf_owners cf ≠ [] → ∃ cs, mapM address (cf_owners cf) = Ok cs ∧ cs ≡ₚ ro_owners out).
Proof.
  unfold custody_requirements. intros H. inv_ok. subst. cbn [ro_owners ro_owner_count ro_threshold]. zbool.
  split_and!; try done; try lia. intros Hne. rewrite bool_decide_eq_false_2 in * by done. inv_ok. zbool. eexists. split; [done|].
  match goal with E : sort_str id ?x = sort_str id ?y |- ?x ≡ₚ _ => rewrite <- E; by rewrite sort_str_perm end.
Qed.
